(* ===== verification/_CoqProject ===== *)
-Q . S2P
Prelude.v
GoNet.v
KubeTypes.v
Api.v
GoStrings.v
Indexers.v
Status.v
Reference.v
Ipam.v
IpamSpec.v
Listeners.v
Selector.v
DeepCopy.v
Route.v
Gateway.v
RouteSpec.v
GatewayFacts.v
GatewayProps.v
GoHash.v
Slices.v
SliceSpec.v
Trackers.v
TrackerSpec.v
EndpointsSpec.v
Netlink.v
Proxier.v
SyncLoop.v
SyncLoopSpec.v
NetlinkSpec.v
ApplySpec.v
Packets.v
ProxierSpec.v
ReferenceNft.v
SystemSpec.v
EndToEnd.v
Workqueue.v
Handlers.v
Workers.v
HandlersSpec.v
Footprint.v
WakeupSpec.v
SelectorWakeup.v
RouteWakeup.v
Settle.v
WorkersSpec.v
Dns.v
DnsSpec.v
ReferenceDns.v
Options.v
Flags.v
FlagsSpec.v
App.v
Process.v
AppSpec.v
ProcessSpec.v
