(* ===== verification/Prelude.v ===== *)
(** * clusterip-gw: verification library (root file)

    clusterip-gw turns Gateway API objects into cluster-internal virtual IPs.
    A controller ([src/internal/controller]) watches GatewayClasses, Gateways,
    TCPRoutes, XEndpointSelectors, Pods, EndpointSlices, IPAddresses and
    ServiceCIDRs; it accepts or rejects Gateways and routes, reserves a VIP per
    accepted Gateway and writes EndpointSlices per Gateway listener.  An agent
    per node ([src/internal/agent]) watches Gateways and EndpointSlices, tracks
    frontends and backends and programs nftables.
    A CoreDNS plugin ([src/plugin]) answers names of Gateways with those VIPs.

    ** Files, in dependency order

    - [Prelude] (this file): errors and results, Go integers, strings and sorting.
    - [GoNet], [GoStrings], [GoHash]: what the source uses of Go's standard
      library - addresses and prefixes, splitting, quoting and number parsing,
      SHA-1 and SHA-256 - as executable definitions.
    - [KubeTypes]: the Kubernetes, Gateway API and XEndpointSelector objects
      (apis/v1alpha1) with the fields the source touches, and the constants of
      gatewaymeta.
    - [Api]: the outside world of the controller.  Vendored API machinery is
      the class [ApiMachinery] with its documented laws; informer caches are
      the record [Caches]; a reconcile is a [prog], a tree of API requests,
      that is run against a server ([exec], [trace]) or interleaved with other
      workers ([pool_step]).
    - [Indexers], [Status], [Ipam], [Listeners], [Selector], [Route], [Gateway],
      [Slices]: the reconcilers, function by function (indexers.go, status.go,
      ipam.go, gateway_reconcile.go, route_reconcile.go and
      endpointselector_reconcile.go of [src/internal/controller]).
    - [DeepCopy] (zz_generated.deepcopy.go): the deep copies of the repository's
      types over a memory of slices, with what a copy shares; its properties are
      in the same file.
    - [Reference]: concrete instances of the interfaces - an API machinery, a
      store with its caches, an API server - for the worked examples.
    - [IpamSpec], [RouteSpec], [GatewayFacts], [GatewayProps], [SliceSpec]:
      properties of the reconcilers.
    - [Trackers] ([src/internal/agent/state]): the agent's two trackers;
      [TrackerSpec] and [EndpointsSpec] their properties.
    - [Netlink] (nftables/netlink.go): the ruleset and its translation to a batch
      of nftables operations through the vendored connection, the class
      [nftConn].  [Proxier] and [SyncLoop] (nftables/proxier.go): the desired
      ruleset, the callbacks, and the sync loop as a step function on a [world]
      in which callbacks, timers and the loop interleave at their lock and
      channel operations.
    - [SyncLoopSpec]: invariants of that step function.  [NetlinkSpec],
      [ApplySpec]: the batch and what a kernel makes of it.  [Packets]: what the
      resulting table does to a packet.  [ProxierSpec]: from snapshots to
      packets.  [ReferenceNft]: a concrete connection and kernel.
    - [SystemSpec], [EndToEnd]: the controller and the agents together.
    - [Workqueue]: client-go's queues, an interface with laws and an instance.
      [Handlers] (handlers.go): events to keys.  [Workers] (controller.go,
      workers.go): construction, start and the workers' loops, a step function
      [controller_step] on a [world] with events, timers and other writers.
      [HandlersSpec], [WakeupSpec], [SelectorWakeup], [RouteWakeup],
      [WorkersSpec]: their properties.
      [Footprint]: the requests a worker may make.  [Settle]: a Gateway's
      reconciles against a server that nothing else disturbs.
    - [Dns] (plugin.go, store.go, setup.go), [DnsSpec], [ReferenceDns]: the
      CoreDNS plugin.
    - [Options] (apputil/network.go, clientconfig.go, both options.go): option
      values, their checks and the client configuration.  [Flags] (both
      options.go, both main.go): the flag tables, parsing and [main]; pflag is a
      class.  [FlagsSpec]: their properties.
    - [App] (both server_linux.go, apputil/httpserver.go): what is built before
      anything runs, the health endpoint, and an HTTP server's two goroutines.
      [Process]: [Run] of both programs as step functions on the state of the
      process.  [AppSpec], [ProcessSpec]: their properties.

    ** What the theorems show

    - VIPs ([IpamSpec], [GatewayProps]): allocated addresses are inside a usable
      range, first-fit, and never given to two Gateways however workers and other
      clients interleave and however stale their caches are, as long as nobody
      removes the Gateways' reservations; claimed only for valid Gateways that carry the
      finalizer; released before the finalizer goes; published only when
      reserved; exhaustion is an error without a request.  An address that is
      withdrawn can be shown by two Gateways for a while ([Settle]).
    - Verdicts ([RouteSpec], [GatewayProps]): when a route is accepted and its
      references resolve, when a Gateway is accepted, what the class
      reconciler writes; statuses converge (a second reconcile writes nothing);
      on a calm server, where requests succeed, nobody else writes and the caches
      catch up, a valid Gateway has its finalizer, its address and its status
      after two reconciles, and then nothing more is written ([Settle]).
    - Slices ([SliceSpec]): a reconcile refines the set of desired slices when the
      bindings are of one namespace and their slices have distinct names; two
      bindings can collide on a name.
    - What is touched ([Footprint], [DeepCopy]): every request of every worker,
      and that a deep copy and its original are unaffected by changes to each
      other, the status update's among them.
    - Events ([HandlersSpec], [WakeupSpec], [SelectorWakeup], [RouteWakeup],
      [WorkersSpec]): the keys each event wakes; a Gateway, a selector or a route
      that is not woken would be reconciled as before; a woken key is reconciled
      without an error or still owed; no two workers hold one key; and a route, a
      Gateway and a selector that are not woken although they should be.
    - Agent ([TrackerSpec] to [ProxierSpec]): snapshots are those of the last
      reported objects; a batch replaces exactly the agent's table, or nothing;
      packets reach exactly the backends of their frontend; the loop loses no
      update and spaces applications.
    - The whole ([SystemSpec], [EndToEnd], [DnsSpec]): the agent reads back what
      the controller writes; a packet to a published address and a listener's
      port reaches a ready pod that the listener's selector selects, and every
      such pod can be reached; a Gateway whose name is one label resolves to its
      address, one with dots in its name is unknown, and every address that is
      answered is one that the named Gateway shows.
    - Start and end ([AppSpec], [FlagsSpec], [ProcessSpec], [DnsSpec]): a command
      line decides every option; only validated options are run, and they start;
      [Run] ends on a signal
      or on an error that a server or the caches gave, and loses none; health
      follows the caches; the plugin's configuration parser ends.

    ** Bounds and fuel

    - [allocate_in] counts candidates; its fuel is the size of the prefix, which
      the walk from the first address cannot exceed, and [IpamSpec] proves the
      outcome at that fuel.  [parse] needs more fuel than tokens are left
      ([parse_terminates] gives a result).  [eval_chain] bounds the depth of
      jumps: the agent's chains are three deep, and the theorems hold for every
      fuel of at least three.  The block splitters of [GoHash] and the IPv6
      parser of [GoNet] take the length of their input.
    - Integers are [Z]; conversions to uint16, uint32 and int32 wrap or are
      guarded as in the source.  Times are nanoseconds.  Strings are bytes.

    ** Assumptions that are interfaces

    Everything vendored is a class or an argument: API machinery, the API
    server's effect on IPAddresses and EndpointSlices, informers ([Caches],
    [cache_step]), work queues, the nftables connection, byte-order helpers,
    domain names, the token dispenser, pflag, the client loaders, net/http's
    servers and apimachinery's deep copies.  Each class of laws has an executable
    instance, used by the worked examples.  The batch and packet semantics
    ([run_batch], [eval_chain]) are specifications that follow nftables'
    documentation.

    ** Not modelled

    Scheme registration, the serving of an HTTP request beyond its answer, and
    logging.  Outside [DeepCopy] values are immutable, so a copy is the value.
    In [Process] the workers, informers and the sync loop, which have step
    functions of their own, stand still: they change nothing that decides how
    [Run] ends.  Chain names are truncated hashes; that those of the frontends do
    not collide is assumed ([no_collision]).  A freed IPAddress wakes only the
    Gateway that owned it, and a Gateway whose allocation failed is retried only
    at the resync ([freed_address_missed]), which is why [gateway_wakeups] leaves
    IPAddress events out.  Likewise [selector_wakeups] leaves out updates that
    take a slice's labels from its selector ([slice_wakeup_missed]), and both it
    and [route_wakeups] leave out routes that come to share a Gateway
    ([route_wakeup_missed]).  Go's memory model is not modelled: each locked
    section and each channel operation is one step.
*)

From Stdlib Require Export ZArith Lia.
From stdpp Require Export sorting pretty.
From stdpp Require Export base tactics option list gmap strings numbers.

#[global] Open Scope Z_scope.

(** ** Notations of the development *)

Declare Scope cgw_scope.
Delimit Scope cgw_scope with cgw.
#[global] Open Scope cgw_scope.

(** ** Go errors

    [fmt.Errorf] and [errors.New] give [ErrorString]; [fmt.Errorf] with a
    trailing [: %w] gives [WrapError]; [Sentinel] is a package-level error
    variable, compared by identity; [Errno] is a [syscall.Errno];
    [StatusError] is what the Kubernetes API machinery returns. *)

Inductive StatusReason :=
| StatusReasonNotFound
| StatusReasonAlreadyExists
| StatusReasonOther (reason : string).

Inductive error :=
| ErrorString (msg : string)
| WrapError (prefix : string) (inner : error)
| Sentinel (msg : string)
| Errno (number : Z) (msg : string)
| StatusError (reason : StatusReason) (msg : string).

#[export] Instance StatusReason_eq_dec : EqDecision StatusReason.
Proof. solve_decision. Defined.

#[export] Instance error_eq_dec : EqDecision error.
Proof. solve_decision. Defined.

(** [err.Error()]. *)
Fixpoint Error (e : error) : string :=
  match e with
  | ErrorString m | Sentinel m | Errno _ m | StatusError _ m => m
  | WrapError p inner => p +:+ ": " +:+ Error inner
  end.

(** The status reason an error carries, wrapped errors included. *)
Fixpoint ReasonForError (e : error) : option StatusReason :=
  match e with
  | StatusError r _ => Some r
  | WrapError _ inner => ReasonForError inner
  | _ => None
  end.

Definition IsNotFound (e : error) : bool :=
  bool_decide (ReasonForError e = Some StatusReasonNotFound).

Definition IsAlreadyExists (e : error) : bool :=
  bool_decide (ReasonForError e = Some StatusReasonAlreadyExists).

(** A Go call that returns a value and an [error]. *)
Inductive result (A : Type) :=
| Ok (a : A)
| Err (e : error).
Arguments Ok {A} a.
Arguments Err {A} e.

#[export] Instance result_eq_dec {A} `{EqDecision A} : EqDecision (result A).
Proof. solve_decision. Defined.

Definition result_bind {A B} (r : result A) (f : A → result B) : result B :=
  match r with Ok a => f a | Err e => Err e end.

(** [x, err := r; if err != nil { return err }; k]. *)
Notation "'let!' x ':=' r 'in' k" := (result_bind r (λ x, k))
  (at level 10, x pattern, r at level 100, k at level 200) : cgw_scope.

Lemma result_bind_ok {A B} (r : result A) (f : A → result B) b :
  result_bind r f = Ok b ↔ ∃ a, r = Ok a ∧ f a = Ok b.
Proof.
  destruct r; simpl; split; [eauto|by intros (? & [= ->] & ?)|done|by intros (? & ? & ?)].
Qed.

Definition is_ok {A} (r : result A) : bool := match r with Ok _ => true | Err _ => false end.

(** ** Machine integers *)

(** Go's conversion to [int32]: the low 32 bits, sign extended. *)
Definition int32 (z : Z) : Z := (z + 2 ^ 31) mod 2 ^ 32 - 2 ^ 31.

Lemma int32_id z : - 2 ^ 31 ≤ z < 2 ^ 31 → int32 z = z.
Proof. intros. unfold int32. rewrite Z.mod_small by lia. lia. Qed.

(** ** Strings *)

(** Go's [a < b] on strings: bytewise, lexicographic. *)
Definition str_lt (a b : string) : bool := String.ltb a b.

(** [*p] of a pointer-typed string field, and [p != nil && *p != ...] with a default. *)
Definition deref_or (d : string) (p : option string) : string := from_option id d p.

(** [if p != nil && *p != EmptyString { d = string( *p) }]. *)
Definition non_empty_or (d : string) (p : option string) : string :=
  match p with
  | Some s => if decide (s = "") then d else s
  | None => d
  end.

Lemma str_lt_le a b : str_lt b a = false ↔ String.le a b.
Proof.
  unfold str_lt, String.le, String.ltb, String.leb.
  rewrite (String.compare_antisym b a). destruct (String.compare a b); simpl; split; done.
Qed.

Lemma str_lt_irrefl a : str_lt a a = false.
Proof. by apply str_lt_le. Qed.

Lemma str_lt_asym a b : str_lt a b = true → str_lt b a = false.
Proof.
  unfold str_lt, String.ltb. rewrite (String.compare_antisym a b).
  by destruct (String.compare _ _).
Qed.

Lemma str_lt_ntrans a b c :
  str_lt b a = false → str_lt c b = false → str_lt c a = false.
Proof. rewrite !str_lt_le. apply transitivity. Qed.

Lemma str_lt_antisym a b : str_lt a b = false → str_lt b a = false → a = b.
Proof. rewrite !str_lt_le. intros. by apply (anti_symm String.le). Qed.

(** ** Sorting

    [sort.Slice] takes a [less] closure and [slices.SortFunc] a [cmp] closure.
    Neither is documented to be stable; the merge sort below is one of the
    sorts that contract allows, and [less_sort_unique] shows when the choice
    does not matter. *)

Definition not_after {A} (less : A → A → bool) (x y : A) : Prop := less y x = false.

#[export] Instance not_after_dec {A} (less : A → A → bool) x y : Decision (not_after less x y).
Proof. unfold not_after. apply _. Defined.

Definition less_sort {A} (less : A → A → bool) (l : list A) : list A :=
  merge_sort (not_after less) l.

Definition sort_Slice {A} (less : A → A → bool) (l : list A) : list A := less_sort less l.

Definition slices_SortFunc {A} (cmp : A → A → Z) (l : list A) : list A :=
  less_sort (λ x y, cmp x y <? 0) l.

(** The three-way comparison of two string keys the source's closures spell out. *)
Definition cmp_on {A} (key : A → string) (a b : A) : Z :=
  if str_lt (key a) (key b) then -1 else if str_lt (key b) (key a) then 1 else 0.

(** What a [less] closure has to satisfy for sorting to make sense. *)
Class StrictWeak {A} (less : A → A → bool) : Prop := {
  sw_asym x y : less x y = true → less y x = false;
  sw_ntrans x y z : less y x = false → less z y = false → less z x = false;
}.

Definition sorted_by {A} (less : A → A → bool) (l : list A) : Prop :=
  StronglySorted (not_after less) l.

Section sorting.
Context {A : Type}.
Implicit Types (less : A → A → bool) (l : list A).

Lemma less_sort_perm less l : less_sort less l ≡ₚ l.
Proof. apply merge_sort_Permutation. Qed.

Lemma elem_of_less_sort less l x : x ∈ less_sort less l ↔ x ∈ l.
Proof. by rewrite less_sort_perm. Qed.

Lemma length_less_sort less l : length (less_sort less l) = length l.
Proof. by rewrite less_sort_perm. Qed.

Lemma less_sort_sorted less `{!StrictWeak less} l : sorted_by less (less_sort less l).
Proof.
  apply StronglySorted_merge_sort; [| intros x y].
  - intros x y z. apply sw_ntrans.
  - destruct (less x y) eqn:E; [left; by apply sw_asym | by right].
Qed.

Lemma sorted_by_unique less l1 l2 :
  (∀ x y, x ∈ l1 → y ∈ l1 → less x y = false → less y x = false → x = y) →
  sorted_by less l1 → sorted_by less l2 → l1 ≡ₚ l2 → l1 = l2.
Proof.
  intros Hties H1 H2 Hp. eapply StronglySorted_unique_strong; [|done..].
  intros x y Hx Hy Hxy Hyx. rewrite <-Hp in Hy. by apply Hties.
Qed.

(** The result of a sort does not depend on the order of the input, provided
    elements the closure cannot separate are equal. *)
Lemma less_sort_unique less `{!StrictWeak less} l1 l2 :
  (∀ x y, x ∈ l1 → y ∈ l1 → less x y = false → less y x = false → x = y) →
  l1 ≡ₚ l2 → less_sort less l1 = less_sort less l2.
Proof.
  intros Hties Hp. apply (sorted_by_unique less); [..|by rewrite !less_sort_perm].
  - intros x y. rewrite !elem_of_less_sort. apply Hties.
  - by apply less_sort_sorted.
  - by apply less_sort_sorted.
Qed.

Lemma less_sort_id less `{!StrictWeak less} l :
  (∀ x y, x ∈ l → y ∈ l → less x y = false → less y x = false → x = y) →
  sorted_by less l → less_sort less l = l.
Proof.
  intros Hties Hs. apply (sorted_by_unique less); [|by apply less_sort_sorted|done|apply less_sort_perm].
  intros x y. rewrite !elem_of_less_sort. apply Hties.
Qed.

#[export] Instance key_less_sw (key : A → string) : StrictWeak (λ x y, str_lt (key x) (key y)).
Proof. split; intros *; [apply str_lt_asym | apply str_lt_ntrans]. Qed.

#[export] Instance cmp_on_sw (key : A → string) : StrictWeak (λ x y, cmp_on key x y <? 0).
Proof.
  assert (H : ∀ x y, (cmp_on key x y <? 0) = str_lt (key x) (key y)).
  { intros x y. unfold cmp_on. by repeat case_match. }
  split; intros *; rewrite !H; [apply str_lt_asym | apply str_lt_ntrans].
Qed.

Lemma cmp_on_lt key (x y : A) : (cmp_on key x y <? 0) = str_lt (key x) (key y).
Proof. unfold cmp_on. by repeat case_match. Qed.

Lemma sorted_by_ext less less' l :
  (∀ x y, less x y = less' x y) → sorted_by less l → sorted_by less' l.
Proof.
  intros Heq. induction 1 as [|x l _ IH Hx]; constructor; [done|].
  eapply list.Forall_impl; [exact Hx|]. intros y. unfold not_after. by rewrite Heq.
Qed.

Lemma slices_SortFunc_sorted key l :
  sorted_by (λ x y, str_lt (key x) (key y)) (slices_SortFunc (cmp_on key) l).
Proof. eapply sorted_by_ext; [|apply less_sort_sorted; apply _]. intros x y. apply cmp_on_lt. Qed.

End sorting.

(** Two closures that agree on the elements sort alike. *)
Section merge_ext.
Context {A : Type} (R R' : relation A) `{∀ x y, Decision (R x y)} `{∀ x y, Decision (R' x y)}.
Context (P : A → Prop) (Hext : ∀ x y, P x → P y → R x y ↔ R' x y).

Lemma list_merge_ext l1 l2 : Forall P l1 → Forall P l2 → list_merge R l1 l2 = list_merge R' l1 l2.
Proof.
  intros H1. revert l2. induction H1 as [|x1 l1 Hx1 H1 IH1]; intros l2 H2; [by destruct H2|].
  induction H2 as [|x2 l2 Hx2 H2 IH2]; [done|]. simpl.
  destruct (decide (R x1 x2)) as [E|E], (decide (R' x1 x2)) as [E'|E'];
    rewrite (Hext x1 x2) in E by done; try done.
  - f_equal. apply IH1. by constructor.
  - f_equal. apply IH2.
Qed.

Lemma list_merge_Forall l1 l2 : Forall P l1 → Forall P l2 → Forall P (list_merge R l1 l2).
Proof. intros. rewrite merge_Permutation. by apply Forall_app_2. Qed.

Definition stack_ok (st : list (option (list A))) : Prop := Forall (λ o, Forall P (default [] o)) st.

Lemma merge_list_to_stack_ext st l :
  stack_ok st → Forall P l →
  merge_list_to_stack R st l = merge_list_to_stack R' st l ∧ stack_ok (merge_list_to_stack R st l).
Proof.
  intros Hst. revert l. induction Hst as [|[l'|] st Hl' Hst IH]; intros l Hl; simpl in *.
  - split; [done|]. by constructor.
  - rewrite (list_merge_ext l' l) by done.
    destruct (IH (list_merge R l' l)) as [E Hok]; [by apply list_merge_Forall|].
    rewrite (list_merge_ext l' l) in * by done. rewrite E. split; [done|].
    constructor; [constructor|]. by rewrite <-E.
  - split; [done|]. by constructor.
Qed.

Lemma merge_stack_ext st :
  stack_ok st → merge_stack R st = merge_stack R' st ∧ Forall P (merge_stack R st).
Proof.
  induction 1 as [|[l|] st Hl Hst [IH IHok]]; simpl in *; [done| |done].
  split; [|by apply list_merge_Forall]. rewrite IH. apply list_merge_ext; [done|]. by rewrite <-IH.
Qed.

Lemma merge_sort_ext l : Forall P l → merge_sort R l = merge_sort R' l.
Proof.
  unfold merge_sort. intros Hl. assert (Hst : stack_ok []) by constructor. revert Hst.
  generalize (@nil (option (list A))). induction Hl as [|x l Hx Hl IH]; intros st Hst; simpl.
  - by apply merge_stack_ext.
  - destruct (merge_list_to_stack_ext st [x]) as [E Hok]; [done|by constructor; [|constructor]|].
    rewrite IH by done. by rewrite E.
Qed.

End merge_ext.

Lemma less_sort_ext {A} (less less' : A → A → bool) l :
  (∀ x y, x ∈ l → y ∈ l → less x y = less' x y) → less_sort less l = less_sort less' l.
Proof.
  intros Hext. apply (merge_sort_ext _ _ (λ x, x ∈ l)); [|by apply list.Forall_forall].
  intros x y Hx Hy. unfold not_after. by rewrite Hext.
Qed.

(** ** Loops that collect *)

(** What a left fold accumulates, from what one round adds. *)
Lemma foldl_collect {C X} (step : C → X → C) (mem : C → Prop) (f : X → Prop) c xs :
  (∀ c x, mem (step c x) ↔ mem c ∨ f x) →
  mem (foldl step c xs) ↔ mem c ∨ ∃ x, x ∈ xs ∧ f x.
Proof.
  intros Hstep. revert c. induction xs as [|x xs IH]; intros c; simpl.
  - split; [by left|]. intros [?|(x & Hx & _)]; [done|]. by apply elem_of_nil in Hx.
  - rewrite IH, Hstep. setoid_rewrite elem_of_cons. naive_solver.
Qed.

Lemma filter_id {A} (P : A → Prop) `{∀ x, Decision (P x)} (l : list A) :
  (∀ x, x ∈ l → P x) → filter P l = l.
Proof.
  induction l as [|x l IH]; intros Hall; [done|]. rewrite filter_cons, decide_True.
  - rewrite IH; [done|]. intros y Hy. apply Hall. by right.
  - apply Hall. by left.
Qed.

(** Filtering commutes with a map the predicate does not see. *)
Lemma filter_fmap_invariant {A} (P : A → Prop) `{∀ x, Decision (P x)} (f : A → A) (l : list A) :
  (∀ x, P (f x) ↔ P x) → filter P (f <$> l) = f <$> filter P l.
Proof.
  intros Hf. induction l as [|x l IH]; [done|]. rewrite list.fmap_cons, !filter_cons, IH.
  destruct (decide (P (f x))) as [E|E], (decide (P x)) as [E'|E']; naive_solver.
Qed.

(** ** Maps built by insertion *)

Lemma foldl_insert_lookup {K V X} `{Countable K} (k : X → K) (v : X → V) (m : gmap K V) xs i y :
  NoDup (k <$> xs) →
  foldl (λ out x, <[k x := v x]> out) m xs !! i = Some y ↔
  (∃ x, x ∈ xs ∧ i = k x ∧ y = v x) ∨ (i ∉ (k <$> xs) ∧ m !! i = Some y).
Proof.
  revert m. induction xs as [|x xs IH]; intros m; simpl; [set_solver|].
  rewrite list.NoDup_cons. intros [Hx Hnd]. rewrite IH by done. rewrite lookup_insert.
  destruct (decide (k x = i)) as [<-|Hne].
  - split.
    + intros [(x' & ? & ? & ->)|[_ [= <-]]]; left; [exists x'|exists x]; set_solver.
    + intros [(x' & [->|Hin]%list.elem_of_cons & E & ->)|[Hn _]]; [by right| |set_solver].
      left. eauto.
  - set_solver.
Qed.

(** The same for two association lists that agree. *)
Lemma foldl_insert_pairs {K V} `{Countable K} (m : gmap K V) (kvs : list (K * V)) i :
  foldl (λ out kv, <[kv.1 := kv.2]> out) m kvs !! i
  = match (list_to_map (rev kvs) : gmap K V) !! i with Some v => Some v | None => m !! i end.
Proof.
  induction kvs as [|[k v] kvs IH] using rev_ind; [done|].
  rewrite foldl_app, rev_app_distr. simpl. rewrite !lookup_insert, IH. by case_decide.
Qed.

Lemma foldl_insert_functional {K V} `{Countable K} (kvs : list (K * V)) k v :
  (∀ k v v', (k, v) ∈ kvs → (k, v') ∈ kvs → v = v') →
  foldl (λ (out : gmap K V) kv, <[kv.1 := kv.2]> out) ∅ kvs !! k = Some v ↔ (k, v) ∈ kvs.
Proof.
  induction kvs as [|[k' v'] kvs IH] using rev_ind; intros Hfun.
  - simpl. rewrite lookup_empty, elem_of_nil. done.
  - rewrite foldl_app. simpl. rewrite lookup_insert, list.elem_of_app, list_elem_of_singleton.
    destruct (decide (k' = k)) as [->|Hne].
    + split; [intros [= ->]; by right|]. intros [Hin|[= ->]]; [|done]. f_equal.
      apply (Hfun k); apply list.elem_of_app; [right; by left|by left].
    + rewrite IH; [naive_solver|]. intros k0 v0 v1 H0 H1. apply (Hfun k0); apply list.elem_of_app; by left.
Qed.

Lemma NoDup_omap {A B} (f : A → option B) (l : list A) :
  (∀ x y b, f x = Some b → f y = Some b → x = y) → NoDup l → NoDup (omap f l).
Proof.
  intros Hf. induction 1 as [|x l Hx Hl IH]; simpl; [constructor|].
  destruct (f x) as [b|] eqn:Hb; [|done]. apply NoDup_cons_2; [|done].
  intros (y & Hy & Hyb)%list_elem_of_omap. by rewrite (Hf _ _ _ Hb Hyb) in Hx.
Qed.
