(* ===== verification/GoNet.v ===== *)
(** * The part of Go's [net] and [net/netip] the program uses

    Byte slices are lists of integers in [0, 256).  [ParseAddr], [ParseIP],
    [ParsePrefix], [To4] and the IPv4 printers follow the standard library;
    parse errors are [None], because every caller only tests for failure.
    The second half proves the IPv4 printer/parser round trip and relates the
    byte-level operations to arithmetic on the 32-bit address value. *)

From Stdlib Require Import Ascii.
From S2P Require Import Prelude.

(** ** Addresses and prefixes *)

(** [netip.Addr]: the zero value, a 4-byte or a 16-byte address with zone. *)
Inductive Addr :=
| AddrInvalid
| Addr4 (bytes : list Z)
| Addr6 (bytes : list Z) (zone : string).

#[export] Instance Addr_eq_dec : EqDecision Addr.
Proof. solve_decision. Defined.

Record Prefix := mkPrefix { pfx_addr : Addr; pfx_bits : nat }.

#[export] Instance Prefix_eq_dec : EqDecision Prefix.
Proof. solve_decision. Defined.

Definition IsValid (a : Addr) : bool := match a with AddrInvalid => false | _ => true end.
Definition Is4 (a : Addr) : bool := match a with Addr4 _ => true | _ => false end.
Definition Zone (a : Addr) : string := match a with Addr6 _ z => z | _ => "" end.

Definition v4in6_prefix : list Z := replicate 10 0 ++ [255; 255].

(** [Addr.As16]. *)
Definition As16 (a : Addr) : list Z :=
  match a with
  | AddrInvalid => replicate 16 0
  | Addr4 b => v4in6_prefix ++ b
  | Addr6 b _ => b
  end.

(** Bytes of an address. *)
Definition addr_bytes (a : Addr) : list Z :=
  match a with AddrInvalid => [] | Addr4 b | Addr6 b _ => b end.

(** Clearing all but the first [bits] bits of a big-endian byte list. *)
Definition mask_byte (bits i : nat) (b : Z) : Z :=
  let k := Z.of_nat (8 - Nat.min 8 (bits - 8 * i)) in
  Z.shiftl (Z.shiftr b k) k.

Definition mask_bytes (bits : nat) (bs : list Z) : list Z := imap (mask_byte bits) bs.

(** [Prefix.Masked] and [Prefix.Contains]. *)
Definition Masked (p : Prefix) : Prefix :=
  match pfx_addr p with
  | AddrInvalid => mkPrefix AddrInvalid 0
  | Addr4 b => mkPrefix (Addr4 (mask_bytes (pfx_bits p) b)) (pfx_bits p)
  | Addr6 b _ => mkPrefix (Addr6 (mask_bytes (pfx_bits p) b) "") (pfx_bits p)
  end.

Definition Contains (p : Prefix) (a : Addr) : bool :=
  match pfx_addr p, a with
  | Addr4 b, Addr4 c => bool_decide (mask_bytes (pfx_bits p) b = mask_bytes (pfx_bits p) c)
  | Addr6 b _, Addr6 c z =>
      bool_decide (z = "") && bool_decide (mask_bytes (pfx_bits p) b = mask_bytes (pfx_bits p) c)
  | _, _ => false
  end.

(** ** Printers *)

(** Dotted decimal: [netip.Addr.String] and [net.IP.String] on four bytes. *)
Definition dotted (b : list Z) : string :=
  match b with
  | [b0; b1; b2; b3] =>
      pretty b0 +:+ "." +:+ pretty b1 +:+ "." +:+ pretty b2 +:+ "." +:+ pretty b3
  | _ => ""
  end.

(** [netip.Prefix.String] on an IPv4 prefix. *)
Definition prefix4_string (p : Prefix) : string :=
  dotted (addr_bytes (pfx_addr p)) +:+ "/" +:+ pretty (pfx_bits p).

(** ** Character classes *)

Definition code (c : ascii) : Z := Z.of_N (Ascii.N_of_ascii c).
Definition is_char (n : Z) (c : ascii) : bool := code c =? n.

Definition dec_val (c : ascii) : option Z :=
  if (48 <=? code c) && (code c <=? 57) then Some (code c - 48) else None.

Definition hex_val (c : ascii) : option Z :=
  if (48 <=? code c) && (code c <=? 57) then Some (code c - 48)
  else if (97 <=? code c) && (code c <=? 102) then Some (code c - 97 + 10)
  else if (65 <=? code c) && (code c <=? 70) then Some (code c - 65 + 10)
  else None.

(** ** [netip.parseIPv4Fields]

    [prev] is the previous character, [None] at the start; [fields] are the
    octets completed so far. *)
Fixpoint parseIPv4Fields (s : string) (prev : option ascii) (val digLen : Z)
    (fields : list Z) : option (list Z) :=
  match s with
  | EmptyString => if (length fields <? 3)%nat then None else Some (fields ++ [val])
  | String c s' =>
      match dec_val c with
      | Some d =>
          if (digLen =? 1) && (val =? 0) then None
          else if 255 <? val * 10 + d then None
          else parseIPv4Fields s' (Some c) (val * 10 + d) (digLen + 1) fields
      | None =>
          if is_char 46 c then
            match prev, s' with
            | None, _ | _, EmptyString => None
            | Some p, _ =>
                if is_char 46 p then None
                else if (length fields =? 3)%nat then None
                else parseIPv4Fields s' (Some c) 0 0 (fields ++ [val])
            end
          else None
      end
  end.

Definition parseIPv4 (s : string) : option Addr :=
  Addr4 <$> parseIPv4Fields s None 0 0 [].

(** ** [netip.parseIPv6] *)

(** The inner loop: up to four hex digits. *)
Fixpoint scan_hex (s : string) (off : nat) (acc : Z) : option (nat * Z * string) :=
  match s with
  | EmptyString => Some (off, acc, s)
  | String c s' =>
      match hex_val c with
      | Some d =>
          if (3 <? off)%nat then None
          else if 65535 <? acc * 16 + d then None
          else scan_hex s' (S off) (acc * 16 + d)
      | None => Some (off, acc, s)
      end
  end.

(** One round per 16-bit group; [ip] holds the bytes parsed so far, [ellipsis]
    the position of a [::].  Eight rounds fill sixteen bytes, so fuel 8 is the
    loop's own bound [i < 16]. *)
Fixpoint parseIPv6_groups (fuel : nat) (s : string) (ip : list Z) (ellipsis : option nat)
    : option (string * list Z * option nat) :=
  match fuel with
  | O => Some (s, ip, ellipsis)
  | S fuel =>
      match scan_hex s 0 0 with
      | None => None
      | Some (O, _, _) => None
      | Some (_, acc, rest) =>
          match rest with
          | EmptyString => Some (rest, ip ++ [acc / 256; acc mod 256], ellipsis)
          | String c rest' =>
              if is_char 46 c then
                if bool_decide (ellipsis = None) && negb (length ip =? 12)%nat then None
                else if (16 <? length ip + 4)%nat then None
                else match parseIPv4Fields s None 0 0 [] with
                     | None => None
                     | Some v4 => Some (EmptyString, ip ++ v4, ellipsis)
                     end
              else if negb (is_char 58 c) then None
              else match rest' with
              | EmptyString => None
              | String c2 rest'' =>
                  let ip' := ip ++ [acc / 256; acc mod 256] in
                  if is_char 58 c2 then
                    match ellipsis with
                    | Some _ => None
                    | None =>
                        match rest'' with
                        | EmptyString => Some (EmptyString, ip', Some (length ip'))
                        | _ => parseIPv6_groups fuel rest'' ip' (Some (length ip'))
                        end
                    end
                  else parseIPv6_groups fuel rest' ip' ellipsis
              end
          end
      end
  end.

(** Expanding the ellipsis into zero bytes. *)
Definition expand_ellipsis (ip : list Z) (ellipsis : option nat) : option (list Z) :=
  if (length ip <? 16)%nat then
    match ellipsis with
    | None => None
    | Some e => Some (take e ip ++ replicate (16 - length ip) 0 ++ drop e ip)
    end
  else match ellipsis with Some _ => None | None => Some ip end.

(** [strings.Cut(s, sep)] on one character. *)
Fixpoint cut_char (n : Z) (s : string) : string * option string :=
  match s with
  | EmptyString => (EmptyString, None)
  | String c s' =>
      if is_char n c then (EmptyString, Some s')
      else let '(a, b) := cut_char n s' in (String c a, b)
  end.

(** The loop, the trailing-garbage test and the expansion. *)
Definition parseIPv6_from (zone s : string) (ellipsis : option nat) : option Addr :=
  '(rest, ip, e) ← parseIPv6_groups 8 s [] ellipsis;
  match rest with
  | EmptyString => ip16 ← expand_ellipsis ip e; Some (Addr6 ip16 zone)
  | _ => None
  end.

Definition parseIPv6 (input : string) : option Addr :=
  let '(s, zopt) := cut_char 37 input in
  match zopt with
  | Some EmptyString => None
  | _ =>
      let zone := default "" zopt in
      match s with
      | String c1 (String c2 s') =>
          if is_char 58 c1 && is_char 58 c2 then
            match s' with
            | EmptyString => Some (Addr6 (replicate 16 0) zone)
            | _ => parseIPv6_from zone s' (Some 0%nat)
            end
          else parseIPv6_from zone s None
      | _ => parseIPv6_from zone s None
      end
  end.

(** [netip.ParseAddr]: the first separator decides the family. *)
Fixpoint addr_kind (s : string) : option ascii :=
  match s with
  | EmptyString => None
  | String c s' => if is_char 46 c || is_char 58 c || is_char 37 c then Some c else addr_kind s'
  end.

Definition ParseAddr (s : string) : option Addr :=
  match addr_kind s with
  | Some c => if is_char 46 c then parseIPv4 s else if is_char 58 c then parseIPv6 s else None
  | None => None
  end.

(** [net.ParseIP] ([None] is the nil slice) and [net.IP.To4]. *)
Definition ParseIP (s : string) : option (list Z) :=
  match ParseAddr s with
  | Some a => if decide (Zone a = "") then Some (As16 a) else None
  | None => None
  end.

Definition To4 (ip : list Z) : option (list Z) :=
  if (length ip =? 4)%nat then Some ip
  else if (length ip =? 16)%nat && bool_decide (take 12 ip = v4in6_prefix)
  then Some (drop 12 ip) else None.

(** [net.ParseIP(s).To4()]. *)
Definition ParseIPv4 (s : string) : option (list Z) := ip ← ParseIP s; To4 ip.

(** ** [netip.ParsePrefix] *)

(** [strconv.Atoi] restricted to decimal digits, as [ParsePrefix] calls it. *)
Fixpoint digits_val (s : string) (acc : Z) : option Z :=
  match s with
  | EmptyString => Some acc
  | String c s' => d ← dec_val c; digits_val s' (acc * 10 + d)
  end.

(** The text after the last slash, and the text before it. *)
Fixpoint cut_last_slash (s : string) : option (string * string) :=
  match s with
  | EmptyString => None
  | String c s' =>
      match cut_last_slash s' with
      | Some (a, b) => Some (String c a, b)
      | None => if is_char 47 c then Some (EmptyString, s') else None
      end
  end.

Definition prefix_bits (s : string) : option Z :=
  match s with
  | EmptyString => None
  | String c EmptyString => dec_val c
  | String c _ => if is_char 48 c then None else digits_val s 0
  end.

Definition ParsePrefix (s : string) : option Prefix :=
  '(a, b) ← cut_last_slash s;
  ip ← ParseAddr a;
  if decide (Zone ip = "") then
    bits ← prefix_bits b;
    if bits <=? (if Is4 ip then 32 else 128) then Some (mkPrefix ip (Z.to_nat bits)) else None
  else None.

Example parse_a : ParseIPv4 "10.96.0.10" = Some [10; 96; 0; 10].
Proof. vm_compute. reflexivity. Qed.

Example parse_b : ParseIPv4 "::ffff:10.0.0.1" = Some [10; 0; 0; 1].
Proof. vm_compute. reflexivity. Qed.

Example parse_c : ParseIP "fd00::1:2" = Some [253; 0; 0; 0; 0; 0; 0; 0; 0; 0; 0; 0; 0; 1; 0; 2].
Proof. vm_compute. reflexivity. Qed.

Example parse_d : map ParseIP ["10.96.0.010"; "1.2.3"; "1.2.3.4.5"; "1..2.3"; "1:::2"; "fe80::1%eth0"; "256.1.1.1"; ""; "::ffff:1.2.3.4.5"] = replicate 9 None.
Proof. vm_compute. reflexivity. Qed.

Example parse_e : ParsePrefix "10.96.0.0/12" = Some (mkPrefix (Addr4 [10; 96; 0; 0]) 12).
Proof. vm_compute. reflexivity. Qed.

Example parse_f : Masked (mkPrefix (Addr4 [10; 111; 7; 9]) 12) = mkPrefix (Addr4 [10; 96; 0; 0]) 12.
Proof. vm_compute. reflexivity. Qed.

(** ** IPv4 addresses as 32-bit values *)

Definition byte_wf (b : Z) : Prop := 0 ≤ b < 256.
Definition wf4 (bs : list Z) : Prop := length bs = 4%nat ∧ Forall byte_wf bs.

Definition value4 (bs : list Z) : Z :=
  match bs with
  | [b0; b1; b2; b3] => b0 * 16777216 + b1 * 65536 + b2 * 256 + b3
  | _ => 0
  end.

Definition bytes4 (v : Z) : list Z :=
  [v / 16777216; v / 65536 mod 256; v / 256 mod 256; v mod 256].

Lemma wf4_inv bs : wf4 bs → ∃ b0 b1 b2 b3,
  bs = [b0; b1; b2; b3] ∧ byte_wf b0 ∧ byte_wf b1 ∧ byte_wf b2 ∧ byte_wf b3.
Proof.
  intros [Hlen Hwf]. destruct bs as [|b0 [|b1 [|b2 [|b3 [|]]]]]; try done.
  decompose_Forall_hyps. eauto 10.
Qed.

Ltac destruct_wf4 H :=
  let E := fresh "E" in
  apply wf4_inv in H as (?b0 & ?b1 & ?b2 & ?b3 & E & ? & ? & ? & ?); subst; unfold byte_wf in *.

Lemma wf4_intro b0 b1 b2 b3 :
  byte_wf b0 → byte_wf b1 → byte_wf b2 → byte_wf b3 → wf4 [b0; b1; b2; b3].
Proof. intros. split; [done|]. repeat (apply Forall_cons; [done|]). by apply Forall_nil. Qed.

Lemma value4_bound bs : wf4 bs → 0 ≤ value4 bs < 2 ^ 32.
Proof. intros H. destruct_wf4 H. simpl. lia. Qed.

Lemma value4_inj bs cs : wf4 bs → wf4 cs → value4 bs = value4 cs → bs = cs.
Proof.
  intros H1 H2. destruct_wf4 H1. destruct_wf4 H2. unfold value4. intros.
  repeat f_equal; lia.
Qed.

Lemma bytes4_wf v : 0 ≤ v < 2 ^ 32 → wf4 (bytes4 v).
Proof.
  change (2 ^ 32) with 4294967296. intros.
  apply wf4_intro; unfold byte_wf; Z.to_euclidean_division_equations; lia.
Qed.

Lemma value4_bytes4 v : 0 ≤ v < 2 ^ 32 → value4 (bytes4 v) = v.
Proof.
  change (2 ^ 32) with 4294967296. intros. unfold value4, bytes4.
  Z.to_euclidean_division_equations; lia.
Qed.

Lemma bytes4_value4 bs : wf4 bs → bytes4 (value4 bs) = bs.
Proof.
  intros H. apply value4_inj; [apply bytes4_wf|done|apply value4_bytes4]; by apply value4_bound.
Qed.

(** *** Masking clears the low [32 - bits] bits of the value *)

Lemma nat_le_32_cases (P : nat → Prop) :
  Forall P (seq 0 33) → ∀ n, (n ≤ 32)%nat → P n.
Proof. rewrite list.Forall_forall. intros H n Hn. apply H, elem_of_seq. lia. Qed.

Lemma mask_byte_shift bits i b :
  mask_byte bits i b =
  b / 2 ^ Z.of_nat (8 - Nat.min 8 (bits - 8 * i)) * 2 ^ Z.of_nat (8 - Nat.min 8 (bits - 8 * i)).
Proof. unfold mask_byte. rewrite Z.shiftl_mul_pow2, Z.shiftr_div_pow2; lia. Qed.

Lemma mask_byte_wf bits i b : byte_wf b → byte_wf (mask_byte bits i b).
Proof.
  unfold byte_wf. rewrite mask_byte_shift. set (m := 2 ^ _). intros.
  assert (0 < m) by (apply Z.pow_pos_nonneg; lia).
  pose proof (Z.mul_div_le b m). pose proof (Z.div_pos b m). nia.
Qed.

Lemma mask_bytes_wf bits bs : wf4 bs → wf4 (mask_bytes bits bs).
Proof. intros H. destruct_wf4 H. apply wf4_intro; by apply mask_byte_wf. Qed.

Lemma mask_bytes_value bits bs :
  (bits ≤ 32)%nat → wf4 bs →
  value4 (mask_bytes bits bs) = value4 bs / 2 ^ (32 - Z.of_nat bits) * 2 ^ (32 - Z.of_nat bits).
Proof.
  intros Hb H. destruct_wf4 H. unfold mask_bytes. cbn [imap compose].
  revert bits Hb. apply nat_le_32_cases. cbn [seq].
  repeat (apply Forall_cons; [|]); try apply Forall_nil; rewrite !mask_byte_shift; cbn -[Z.mul Z.add Z.div Z.pow];
  match goal with |- context [2 ^ (32 - ?z)] => let v := eval compute in (2 ^ (32 - z)) in
    change (2 ^ (32 - z)) with v end;
  repeat match goal with |- context [2 ^ ?z] => let v := eval compute in (2 ^ z) in
    change (2 ^ z) with v end; unfold value4;
  Z.to_euclidean_division_equations; lia.
Qed.

Definition net_size (bits : nat) : Z := 2 ^ (32 - Z.of_nat bits).

Lemma net_size_pos bits : (bits ≤ 32)%nat → 0 < net_size bits.
Proof. intros. apply Z.pow_pos_nonneg; lia. Qed.

Lemma mask_bytes_eq_iff bits bs cs :
  (bits ≤ 32)%nat → wf4 bs → wf4 cs →
  mask_bytes bits bs = mask_bytes bits cs ↔
  value4 bs / net_size bits = value4 cs / net_size bits.
Proof.
  intros Hb H1 H2. pose proof (net_size_pos _ Hb) as Hpos. unfold net_size in *. split; intros Heq.
  - apply (f_equal value4) in Heq. rewrite !mask_bytes_value in Heq by done.
    by apply Z.mul_cancel_r in Heq; [|lia].
  - apply value4_inj; [by apply mask_bytes_wf..|].
    by rewrite !mask_bytes_value, Heq by done.
Qed.

(** An IPv4 prefix contains exactly the addresses whose value lies in its block. *)
Definition base_value (p : Prefix) : Z := value4 (addr_bytes (pfx_addr (Masked p))).

Definition prefix4_wf (p : Prefix) : Prop :=
  ∃ bs, pfx_addr p = Addr4 bs ∧ wf4 bs ∧ (pfx_bits p ≤ 32)%nat.

Lemma base_value_eq bs n :
  (n ≤ 32)%nat → wf4 bs →
  base_value (mkPrefix (Addr4 bs) n) = value4 bs / net_size n * net_size n.
Proof. intros. by apply mask_bytes_value. Qed.

Lemma Contains_iff p bs :
  prefix4_wf p → wf4 bs →
  Contains p (Addr4 bs) = true ↔
  base_value p ≤ value4 bs < base_value p + net_size (pfx_bits p).
Proof.
  intros (cs & Hp & Hcs & Hb) Hbs. destruct p as [a n]. simpl in *. subst a.
  rewrite base_value_eq by done. unfold Contains. cbn [pfx_addr pfx_bits].
  rewrite bool_decide_eq_true, mask_bytes_eq_iff by done.
  pose proof (net_size_pos _ Hb). set (m := net_size n) in *.
  pose proof (Z.div_mod (value4 cs) m). pose proof (Z.mod_pos_bound (value4 cs) m).
  pose proof (Z.div_mod (value4 bs) m). pose proof (Z.mod_pos_bound (value4 bs) m).
  split; [intros E; rewrite E in *; lia|]. intros. apply Z.le_antisymm; nia.
Qed.

Lemma Masked_wf p : prefix4_wf p → prefix4_wf (Masked p).
Proof.
  intros (bs & Hp & Hbs & Hb). destruct p as [a n]. simpl in *. subst a.
  exists (mask_bytes n bs). auto using mask_bytes_wf.
Qed.

Lemma Masked_base p : prefix4_wf p → base_value (Masked p) = base_value p.
Proof.
  intros (bs & Hp & Hbs & Hb). destruct p as [a n]. simpl in *. subst a.
  change (Masked (mkPrefix (Addr4 bs) n)) with (mkPrefix (Addr4 (mask_bytes n bs)) n).
  rewrite !base_value_eq by auto using mask_bytes_wf.
  rewrite mask_bytes_value by done. fold (net_size n).
  pose proof (net_size_pos _ Hb). by rewrite Z.div_mul by lia.
Qed.

(** *** Printing and parsing dotted decimal *)

(** The decimal digits of a byte, most significant first. *)
Definition dec_char (d : Z) : ascii := Ascii.ascii_of_N (Z.to_N (48 + d)).

Definition octet_digits (b : Z) : list Z :=
  if b <? 10 then [b] else if b <? 100 then [b / 10; b mod 10]
  else [b / 100; b / 10 mod 10; b mod 10].

Definition string_of_digits (ds : list Z) : string := foldr (λ d, String (dec_char d)) "" ds.

Lemma byte_check (f : Z → bool) :
  forallb f (seqZ 0 256) = true → ∀ b, byte_wf b → f b = true.
Proof.
  unfold byte_wf. intros H b Hb. rewrite forallb_forall in H.
  apply H, list_elem_of_In, elem_of_seqZ. lia.
Qed.

Lemma pretty_byte b : byte_wf b → pretty b = string_of_digits (octet_digits b).
Proof.
  intros Hb. apply (bool_decide_eq_true_1 _).
  revert b Hb. apply (byte_check (λ b, bool_decide (pretty b = string_of_digits (octet_digits b)))).
  by vm_compute.
Qed.

Lemma dec_val_char d : 0 ≤ d < 10 → dec_val (dec_char d) = Some d.
Proof.
  intros. assert (d ∈ seqZ 0 10) as Hd by (apply elem_of_seqZ; lia). revert d Hd H.
  cut (Forall (λ d, dec_val (dec_char d) = Some d) (seqZ 0 10)).
  { rewrite list.Forall_forall. eauto. }
  vm_compute. repeat (apply Forall_cons; [done|]). apply Forall_nil.
Qed.

Lemma dec_val_dot c d : dec_val c = Some d → is_char 46 c = false.
Proof. unfold dec_val, is_char. case_match eqn:E; [lia|done]. Qed.

Lemma string_app_cons c s t : String c s +:+ t = String c (s +:+ t).
Proof. done. Qed.

Lemma string_app_nil t : "" +:+ t = t.
Proof. done. Qed.

Lemma string_app_nil_r s : s +:+ "" = s.
Proof. induction s as [|c s IH]; [done|]. by rewrite string_app_cons, IH. Qed.

(** One digit of an octet. *)
Lemma parse_digit d s prev val n fields :
  0 ≤ d < 10 → (n =? 1) && (val =? 0) = false → val * 10 + d ≤ 255 →
  parseIPv4Fields (String (dec_char d) s) prev val n fields
  = parseIPv4Fields s (Some (dec_char d)) (val * 10 + d) (n + 1) fields.
Proof.
  intros Hd Hlead Hmax. simpl. rewrite dec_val_char, Hlead by done.
  by replace (255 <? val * 10 + d) with false by lia.
Qed.

(** Parsing the digits of one octet, in front of any text. *)
Lemma parse_octet b :
  byte_wf b → ∃ c n, is_char 46 c = false ∧
    ∀ rest prev fields, parseIPv4Fields (pretty b +:+ rest) prev 0 0 fields
                        = parseIPv4Fields rest (Some c) b n fields.
Proof.
  intros Hb. rewrite pretty_byte by done. unfold byte_wf, octet_digits in *.
  set (last := if b <? 10 then b else b mod 10).
  assert (0 ≤ last < 10) by (subst last; case_match; Z.to_euclidean_division_equations; lia).
  exists (dec_char last), (if b <? 10 then 1 else if b <? 100 then 2 else 3).
  split; [by eapply dec_val_dot, dec_val_char|]. intros rest prev fields. subst last.
  repeat case_match; cbn [string_of_digits foldr]; rewrite ?string_app_cons, string_app_nil;
    repeat (rewrite parse_digit;
      [|Z.to_euclidean_division_equations; lia
       |apply andb_false_iff; rewrite !Z.eqb_neq; Z.to_euclidean_division_equations; lia
       |Z.to_euclidean_division_equations; lia]);
    f_equal; Z.to_euclidean_division_equations; lia.
Qed.

Lemma addr_kind_digit d s : 0 ≤ d < 10 → addr_kind (String (dec_char d) s) = addr_kind s.
Proof.
  intros Hd%dec_val_char. revert Hd. unfold dec_val. case_match eqn:E; [|done]. intros _.
  simpl. unfold is_char. by replace (_ || _ || _) with false by lia.
Qed.

Lemma addr_kind_octet b s : byte_wf b → addr_kind (pretty b +:+ s) = addr_kind s.
Proof.
  intros Hb. rewrite pretty_byte by done. unfold byte_wf, octet_digits in *.
  repeat case_match; cbn [string_of_digits foldr]; rewrite ?string_app_cons, string_app_nil;
    rewrite !addr_kind_digit by (Z.to_euclidean_division_equations; lia); done.
Qed.

Lemma parse_dot c s val n fields :
  is_char 46 c = false → s ≠ "" → (length fields <? 3)%nat = true →
  parseIPv4Fields (String "." s) (Some c) val n fields
  = parseIPv4Fields s (Some "."%char) 0 0 (fields ++ [val]).
Proof.
  intros Hc Hs Hlen. simpl. destruct s; [done|]. rewrite Hc.
  apply Nat.ltb_lt in Hlen. by replace (length fields =? 3)%nat with false by (symmetry; apply Nat.eqb_neq; lia).
Qed.

Lemma octet_nonempty b s : byte_wf b → pretty b +:+ s ≠ "".
Proof.
  intros Hb. rewrite pretty_byte by done. unfold octet_digits. by repeat case_match.
Qed.

Lemma ParseAddr_dotted bs : wf4 bs → ParseAddr (dotted bs) = Some (Addr4 bs).
Proof.
  intros H. destruct_wf4 H. unfold ParseAddr. cbn [dotted].
  rewrite addr_kind_octet by done.
  change (addr_kind ("." +:+ _)) with (Some "."%char). cbn [is_char]. cbv iota.
  change (is_char 46 "."%char) with true. cbv iota. unfold parseIPv4.
  destruct (parse_octet b0) as (c0 & n0 & Hc0 & E0); [done|].
  destruct (parse_octet b1) as (c1 & n1 & Hc1 & E1); [done|].
  destruct (parse_octet b2) as (c2 & n2 & Hc2 & E2); [done|].
  destruct (parse_octet b3) as (c3 & n3 & Hc3 & E3); [done|].
  rewrite E0, !string_app_cons, !string_app_nil, parse_dot by auto using octet_nonempty.
  rewrite E1, parse_dot by auto using octet_nonempty.
  rewrite E2, parse_dot.
  - rewrite <-(string_app_nil_r (pretty b3)), E3. done.
  - done.
  - rewrite <-(string_app_nil_r (pretty b3)). by apply octet_nonempty.
  - done.
Qed.

Lemma dotted_inj bs cs : wf4 bs → wf4 cs → dotted bs = dotted cs → bs = cs.
Proof.
  intros H1 H2 E. apply ParseAddr_dotted in H1, H2. rewrite E in H1. congruence.
Qed.

Lemma ParseIP_dotted bs : wf4 bs → ParseIP (dotted bs) = Some (v4in6_prefix ++ bs).
Proof. intros. unfold ParseIP. by rewrite ParseAddr_dotted. Qed.

Lemma dotted_nonempty bs : wf4 bs → dotted bs ≠ "".
Proof. intros Hv Hd. apply ParseIP_dotted in Hv. rewrite Hd in Hv. discriminate. Qed.

Lemma To4_v4in6 bs : wf4 bs → To4 (v4in6_prefix ++ bs) = Some bs.
Proof. intros H. destruct_wf4 H. done. Qed.

Lemma ParseIPv4_dotted bs : wf4 bs → ParseIPv4 (dotted bs) = Some bs.
Proof. intros. unfold ParseIPv4. rewrite ParseIP_dotted by done. simpl. by apply To4_v4in6. Qed.

(** *** Parsed IPv4 addresses and prefixes are well formed *)

Lemma dec_val_range c d : dec_val c = Some d → 0 ≤ d ≤ 9.
Proof. unfold dec_val. case_match eqn:E; [|done]. intros [= <-]. lia. Qed.

Lemma parseIPv4Fields_wf s prev val digLen fields bs :
  byte_wf val → Forall byte_wf fields → (length fields ≤ 3)%nat →
  parseIPv4Fields s prev val digLen fields = Some bs → wf4 bs.
Proof.
  revert prev val digLen fields. induction s as [|c s IH]; intros prev val digLen fields Hv Hf Hlen; simpl.
  - case_match eqn:E; [done|]. apply Nat.ltb_ge in E. intros [= <-]. split.
    + rewrite List.length_app. simpl. lia.
    + apply list.Forall_app. split; [done|]. by apply list.Forall_singleton.
  - destruct (dec_val c) as [d|] eqn:Ed.
    + apply dec_val_range in Ed. case_match; [done|]. case_match eqn:E; [done|].
      apply IH; [unfold byte_wf in *; lia|done..].
    + case_match; [|done]. destruct prev as [p|]; [|done]. destruct s as [|c' s']; [done|].
      case_match; [done|]. case_match eqn:E; [done|]. apply Nat.eqb_neq in E. apply IH.
      * unfold byte_wf. lia.
      * apply list.Forall_app. split; [done|]. by apply list.Forall_singleton.
      * rewrite List.length_app. simpl. lia.
Qed.

Lemma parseIPv6_from_not4 zone s e bs : parseIPv6_from zone s e ≠ Some (Addr4 bs).
Proof.
  unfold parseIPv6_from. destruct (parseIPv6_groups 8 s [] e) as [[[rest ip] e']|]; [|done]. simpl.
  destruct rest; [|done]. by destruct (expand_ellipsis ip e').
Qed.

Lemma parseIPv6_not4 s bs : parseIPv6 s ≠ Some (Addr4 bs).
Proof.
  unfold parseIPv6. destruct (cut_char 37 s) as [a z].
  assert (∀ zone, match a with
      | String c1 (String c2 s') =>
          if is_char 58 c1 && is_char 58 c2 then
            match s' with
            | EmptyString => Some (Addr6 (replicate 16 0) zone)
            | _ => parseIPv6_from zone s' (Some 0%nat)
            end
          else parseIPv6_from zone a None
      | _ => parseIPv6_from zone a None
      end ≠ Some (Addr4 bs)) as Hgo.
  { intros zone. repeat case_match; auto using parseIPv6_from_not4. }
  destruct z as [[|c z]|]; [done|apply Hgo..].
Qed.

Lemma ParseAddr_wf4 s bs : ParseAddr s = Some (Addr4 bs) → wf4 bs.
Proof.
  unfold ParseAddr. case_match; [|done]. case_match.
  - unfold parseIPv4. destruct (parseIPv4Fields s None 0 0 []) as [l|] eqn:E; [|done].
    simpl. intros [= ->]. eapply parseIPv4Fields_wf; [..|exact E]; [unfold byte_wf; lia|constructor|simpl; lia].
  - case_match; [|done]. intros E. by apply parseIPv6_not4 in E.
Qed.

(** The bytes of any parsed address are bytes. *)

Lemma hex_val_range c d : hex_val c = Some d → 0 ≤ d ≤ 15.
Proof. unfold hex_val. repeat case_match; intros [= <-] || done; lia. Qed.

Lemma scan_hex_range s off acc n v rest :
  0 ≤ acc ≤ 65535 → scan_hex s off acc = Some (n, v, rest) → 0 ≤ v ≤ 65535.
Proof.
  revert off acc. induction s as [|c s IH]; intros off acc Hacc; simpl; [by intros [= _ <- _]|].
  destruct (hex_val c) as [d|] eqn:Hd; [|by intros [= _ <- _]].
  destruct (3 <? off)%nat; [done|]. destruct (65535 <? acc * 16 + d) eqn:E; [done|].
  apply IH. apply hex_val_range in Hd. lia.
Qed.

Lemma group_bytes_wf ip v : Forall byte_wf ip → 0 ≤ v ≤ 65535 → Forall byte_wf (ip ++ [v / 256; v mod 256]).
Proof.
  intros Hip Hv. apply list.Forall_app. split; [done|]. unfold byte_wf.
  repeat constructor; Z.to_euclidean_division_equations; lia.
Qed.

Lemma parseIPv6_groups_wf fuel s ip e rest ip' e' :
  Forall byte_wf ip → parseIPv6_groups fuel s ip e = Some (rest, ip', e') → Forall byte_wf ip'.
Proof.
  revert s ip e. induction fuel as [|fuel IH]; intros s ip e Hip; cbn [parseIPv6_groups]; [by intros [= _ <- _]|].
  destruct (scan_hex s 0 0) as [[[off acc] r]|] eqn:Hscan; [|done]. destruct off as [|off]; [done|].
  apply scan_hex_range in Hscan; [|lia]. pose proof (group_bytes_wf ip acc Hip Hscan) as Hip'.
  destruct r as [|c r]; [by intros [= _ <- _]|]. destruct (is_char 46 c).
  - case_match; [done|]. case_match; [done|]. destruct (parseIPv4Fields s None 0 0 []) as [v4|] eqn:H4; [|done].
    intros [= _ <- _]. apply list.Forall_app. split; [done|].
    apply parseIPv4Fields_wf in H4 as [_ ?]; [done|unfold byte_wf; lia|constructor|simpl; lia].
  - case_match; [done|]. destruct r as [|c2 r]; [done|]. destruct (is_char 58 c2); [|by apply IH].
    destruct e; [done|]. destruct r; [by intros [= _ <- _]|by apply IH].
Qed.

Lemma zeros_wf n : Forall byte_wf (replicate n 0).
Proof. apply list.Forall_replicate. unfold byte_wf. lia. Qed.

Lemma expand_ellipsis_wf ip e ip' : Forall byte_wf ip → expand_ellipsis ip e = Some ip' → Forall byte_wf ip'.
Proof.
  intros Hip. unfold expand_ellipsis. case_match; destruct e; try done; [|by intros [= <-]].
  intros [= <-]. rewrite !list.Forall_app. split_and!; [by apply list.Forall_take|apply zeros_wf|by apply list.Forall_drop].
Qed.

Lemma parseIPv6_from_wf zone s e a : parseIPv6_from zone s e = Some a → Forall byte_wf (As16 a).
Proof.
  unfold parseIPv6_from. destruct (parseIPv6_groups 8 s [] e) as [[[rest ip] e']|] eqn:Hg; [|done]. simpl.
  destruct rest; [|done]. destruct (expand_ellipsis ip e') as [ip16|] eqn:He; [|done]. simpl. intros [= <-].
  eapply expand_ellipsis_wf; [|exact He]. by eapply parseIPv6_groups_wf.
Qed.

Lemma parseIPv6_wf s a : parseIPv6 s = Some a → Forall byte_wf (As16 a).
Proof.
  unfold parseIPv6. destruct (cut_char 37 s) as [h z].
  assert (∀ zone, match h with
      | String c1 (String c2 s') =>
          if is_char 58 c1 && is_char 58 c2 then
            match s' with
            | EmptyString => Some (Addr6 (replicate 16 0) zone)
            | _ => parseIPv6_from zone s' (Some 0%nat)
            end
          else parseIPv6_from zone h None
      | _ => parseIPv6_from zone h None
      end = Some a → Forall byte_wf (As16 a)) as Hgo.
  { intros zone. repeat case_match; eauto using parseIPv6_from_wf. intros [= <-]. exact (zeros_wf 16). }
  destruct z as [[|c z]|]; [done|apply Hgo..].
Qed.

Lemma To4_wf4 ip ip4 : Forall byte_wf ip → To4 ip = Some ip4 → wf4 ip4.
Proof.
  unfold To4, wf4. intros Hip. case_match eqn:E; [apply Nat.eqb_eq in E; by intros [= <-]|].
  case_match eqn:E'; [|done]. apply andb_true_iff in E' as [E'%Nat.eqb_eq _]. intros [= <-].
  rewrite length_drop, E'. split; [done|by apply list.Forall_drop].
Qed.

Lemma ParseIPv4_wf4 s ip : ParseIPv4 s = Some ip → wf4 ip.
Proof.
  unfold ParseIPv4, ParseIP. destruct (ParseAddr s) as [a|] eqn:Ha; [|done]. case_decide; [|done]. simpl.
  apply To4_wf4. destruct a as [|bs|bs z]; simpl.
  - unfold ParseAddr in Ha. repeat case_match; try done.
    + unfold parseIPv4 in Ha. by destruct (parseIPv4Fields s None 0 0 []).
    + by apply parseIPv6_wf in Ha.
  - apply ParseAddr_wf4 in Ha as [_ Ha]. apply (proj2 (list.Forall_app _ v4in6_prefix bs)). split; [|done].
    repeat constructor; unfold byte_wf; lia.
  - unfold ParseAddr in Ha. repeat case_match; try done.
    + unfold parseIPv4 in Ha. by destruct (parseIPv4Fields s None 0 0 []).
    + by apply parseIPv6_wf in Ha.
Qed.

Lemma ParsePrefix_wf s p : ParsePrefix s = Some p → Is4 (pfx_addr p) = true → prefix4_wf p.
Proof.
  unfold ParsePrefix. intros H H4. destruct (cut_last_slash s) as [[a b]|]; [|done]. simpl in H.
  destruct (ParseAddr a) as [ip|] eqn:Ea; [|done]. simpl in H.
  case_decide; [|done]. destruct (prefix_bits b) as [bits|]; [|done]. simpl in H.
  case_match eqn:E; [|done]. injection H as <-. simpl in *. destruct ip as [|bs|]; try done.
  exists bs. split; [done|]. split; [by eapply ParseAddr_wf4|]. simpl in *. lia.
Qed.
