(* ===== verification/KubeTypes.v ===== *)
(** * API objects

    The Kubernetes and Gateway API objects the program reads and writes, with
    the fields it uses, the repository's own API type ([XEndpointSelector],
    apis/v1alpha1) and shared metadata (internal/gatewaymeta), and the interface
    of the API machinery functions the controller calls ([ApiMachinery]), which
    are not part of the repository.  Pointer-typed fields are [option]; an
    enumerated string type keeps its string values. *)

From S2P Require Import Prelude.

(** ** Metadata *)

Record NamespacedName := mkNN { nn_Namespace : string; nn_Name : string }.

#[export] Instance NamespacedName_eq_dec : EqDecision NamespacedName.
Proof. solve_decision. Defined.

#[export] Instance NamespacedName_countable : Countable NamespacedName.
Proof.
  by apply (inj_countable' (λ k, (nn_Namespace k, nn_Name k)) (λ p, mkNN p.1 p.2)); intros [].
Defined.

Record OwnerReference := mkOwnerReference {
  or_APIVersion : string;
  or_Kind : string;
  or_Name : string;
  or_UID : string;
  or_Controller : option bool;
  or_BlockOwnerDeletion : option bool;
}.

#[export] Instance OwnerReference_eq_dec : EqDecision OwnerReference.
Proof. solve_decision. Defined.

Record ObjectMeta := mkMeta {
  Namespace : string;
  Name : string;
  UID : string;
  Generation : Z;
  DeletionTimestamp : option Z;
  Labels : gmap string string;
  Finalizers : list string;
  OwnerReferences : list OwnerReference;
}.

#[export] Instance ObjectMeta_eq_dec : EqDecision ObjectMeta.
Proof. solve_decision. Defined.

Definition meta_key (m : ObjectMeta) : NamespacedName := mkNN (Namespace m) (Name m).

(** [m[k]] on a Go map of strings: a missing key reads as the empty string. *)
Definition label (m : gmap string string) (k : string) : string := default "" (m !! k).

(** ** Status conditions *)

Abbreviation ConditionStatus := string (only parsing).
Definition ConditionTrue : ConditionStatus := "True".
Definition ConditionFalse : ConditionStatus := "False".

Record Condition := mkCondition {
  c_Type : string;
  c_Status : ConditionStatus;
  c_Reason : string;
  c_Message : string;
  c_ObservedGeneration : Z;
  c_LastTransitionTime : Z;
}.

#[export] Instance Condition_eq_dec : EqDecision Condition.
Proof. solve_decision. Defined.

(** ** Gateway API *)

Record LabelSelectorRequirement := mkRequirement {
  lsr_Key : string; lsr_Operator : string; lsr_Values : list string }.

#[export] Instance LabelSelectorRequirement_eq_dec : EqDecision LabelSelectorRequirement.
Proof. solve_decision. Defined.

Record LabelSelector := mkLabelSelector {
  MatchLabels : gmap string string; MatchExpressions : list LabelSelectorRequirement }.

#[export] Instance LabelSelector_eq_dec : EqDecision LabelSelector.
Proof. solve_decision. Defined.

Record RouteGroupKind := mkRouteGroupKind { rgk_Group : option string; rgk_Kind : string }.

#[export] Instance RouteGroupKind_eq_dec : EqDecision RouteGroupKind.
Proof. solve_decision. Defined.

Record RouteNamespaces := mkRouteNamespaces {
  rn_From : option string; rn_Selector : option LabelSelector }.

#[export] Instance RouteNamespaces_eq_dec : EqDecision RouteNamespaces.
Proof. solve_decision. Defined.

Record AllowedRoutes := mkAllowedRoutes {
  ar_Namespaces : option RouteNamespaces; ar_Kinds : list RouteGroupKind }.

#[export] Instance AllowedRoutes_eq_dec : EqDecision AllowedRoutes.
Proof. solve_decision. Defined.

Record Listener := mkListener {
  l_Name : string; l_Port : Z; l_Protocol : string; l_AllowedRoutes : option AllowedRoutes }.

#[export] Instance Listener_eq_dec : EqDecision Listener.
Proof. solve_decision. Defined.

Record ListenerStatus := mkListenerStatus {
  ls_Name : string;
  ls_SupportedKinds : list RouteGroupKind;
  ls_AttachedRoutes : Z;
  ls_Conditions : list Condition;
}.

#[export] Instance ListenerStatus_eq_dec : EqDecision ListenerStatus.
Proof. solve_decision. Defined.

Record GatewayStatusAddress := mkStatusAddress { sa_Type : option string; sa_Value : string }.

#[export] Instance GatewayStatusAddress_eq_dec : EqDecision GatewayStatusAddress.
Proof. solve_decision. Defined.

Record GatewaySpec := mkGatewaySpec {
  GatewayClassName : string;
  Listeners : list Listener;
  SpecAddresses : list GatewayStatusAddress;
}.

#[export] Instance GatewaySpec_eq_dec : EqDecision GatewaySpec.
Proof. solve_decision. Defined.

Record GatewayStatus := mkGatewayStatus {
  Addresses : list GatewayStatusAddress;
  Conditions : list Condition;
  ListenerStatuses : list ListenerStatus;
}.

#[export] Instance GatewayStatus_eq_dec : EqDecision GatewayStatus.
Proof. solve_decision. Defined.

Record Gateway := mkGateway {
  gw_meta : ObjectMeta; gw_spec : GatewaySpec; gw_status : GatewayStatus }.

#[export] Instance Gateway_eq_dec : EqDecision Gateway.
Proof. solve_decision. Defined.

Record GatewayClass := mkGatewayClass {
  gc_meta : ObjectMeta; gc_ControllerName : string; gc_Conditions : list Condition }.

#[export] Instance GatewayClass_eq_dec : EqDecision GatewayClass.
Proof. solve_decision. Defined.

Record ParentReference := mkParentRef {
  pr_Group : option string;
  pr_Kind : option string;
  pr_Namespace : option string;
  pr_Name : string;
  pr_SectionName : option string;
  pr_Port : option Z;
}.

#[export] Instance ParentReference_eq_dec : EqDecision ParentReference.
Proof. solve_decision. Defined.

Record BackendRef := mkBackendRef {
  br_Group : option string;
  br_Kind : option string;
  br_Name : string;
  br_Namespace : option string;
  br_Port : option Z;
}.

#[export] Instance BackendRef_eq_dec : EqDecision BackendRef.
Proof. solve_decision. Defined.

Record TCPRouteRule := mkRule { BackendRefs : list BackendRef }.

#[export] Instance TCPRouteRule_eq_dec : EqDecision TCPRouteRule.
Proof. solve_decision. Defined.

Record RouteParentStatus := mkRouteParentStatus {
  rps_ParentRef : ParentReference;
  rps_ControllerName : string;
  rps_Conditions : list Condition;
}.

#[export] Instance RouteParentStatus_eq_dec : EqDecision RouteParentStatus.
Proof. solve_decision. Defined.

Record TCPRoute := mkTCPRoute {
  rt_meta : ObjectMeta;
  ParentRefs : list ParentReference;
  Rules : list TCPRouteRule;
  Parents : list RouteParentStatus;
}.

#[export] Instance TCPRoute_eq_dec : EqDecision TCPRoute.
Proof. solve_decision. Defined.

(** ** apis/v1alpha1: the repository's [XEndpointSelector] *)

Record XEndpointSelector := mkXEndpointSelector {
  xs_APIVersion : string;
  xs_Kind : string;
  xs_meta : ObjectMeta;
  xs_Selector : LabelSelector;
  xs_Conditions : list Condition;
}.

#[export] Instance XEndpointSelector_eq_dec : EqDecision XEndpointSelector.
Proof. solve_decision. Defined.

Definition EndpointSelectorConditionAccepted : string := "Accepted".
Definition EndpointSelectorReasonAccepted : string := "Accepted".
Definition EndpointSelectorReasonInvalid : string := "Invalid".

(** ** Core, discovery and networking objects *)

Record PodCondition := mkPodCondition { pc_Type : string; pc_Status : string }.

#[export] Instance PodCondition_eq_dec : EqDecision PodCondition.
Proof. solve_decision. Defined.

Record Pod := mkPod {
  pod_meta : ObjectMeta; NodeName : string; PodIP : string; PodConditions : list PodCondition }.

#[export] Instance Pod_eq_dec : EqDecision Pod.
Proof. solve_decision. Defined.

Record ObjectReference := mkObjectReference {
  ref_APIVersion : string; ref_Kind : string; ref_Namespace : string; ref_Name : string;
  ref_UID : string }.

#[export] Instance ObjectReference_eq_dec : EqDecision ObjectReference.
Proof. solve_decision. Defined.

Record Endpoint := mkEndpoint {
  ep_Addresses : list string;
  ep_Ready : option bool;
  ep_TargetRef : option ObjectReference;
  ep_NodeName : option string;
}.

#[export] Instance Endpoint_eq_dec : EqDecision Endpoint.
Proof. solve_decision. Defined.

Record EndpointPort := mkEndpointPort { epp_Protocol : option string; epp_Port : option Z }.

#[export] Instance EndpointPort_eq_dec : EqDecision EndpointPort.
Proof. solve_decision. Defined.

Record EndpointSlice := mkEndpointSlice {
  es_meta : ObjectMeta;
  es_AddressType : string;
  es_Ports : list EndpointPort;
  es_Endpoints : list Endpoint;
}.

#[export] Instance EndpointSlice_eq_dec : EqDecision EndpointSlice.
Proof. solve_decision. Defined.

Record IPParentReference := mkIPParentRef {
  ip_Group : string; ip_Resource : string; ip_Namespace : string; ip_Name : string }.

#[export] Instance IPParentReference_eq_dec : EqDecision IPParentReference.
Proof. solve_decision. Defined.

Record IPAddress := mkIPAddress { ip_meta : ObjectMeta; ip_ParentRef : option IPParentReference }.

#[export] Instance IPAddress_eq_dec : EqDecision IPAddress.
Proof. solve_decision. Defined.

Record ServiceCIDR := mkServiceCIDR {
  sc_meta : ObjectMeta; CIDRs : list string; sc_Conditions : list Condition }.

#[export] Instance ServiceCIDR_eq_dec : EqDecision ServiceCIDR.
Proof. solve_decision. Defined.

(** ** internal/gatewaymeta and the controller's constants *)

Definition gatewaymeta_GatewayClassName : string := "clusterip-gw".
Definition MaxSupportedGatewayListeners : nat := 10.
Definition ManagedByValue : string := "clusterip-gw-controller.grosskur.github.io".
Definition GatewayNamespaceLabelKey : string := "gateway.networking.x-k8s.io/gateway-namespace".
Definition GatewayNameLabelKey : string := "gateway.networking.x-k8s.io/gateway-name".
Definition GatewayListenerLabelKey : string := "gateway.networking.x-k8s.io/gateway-listener".
Definition EndpointSelectorNamespaceLabelKey : string :=
  "gateway.networking.x-k8s.io/endpoint-selector-namespace".
Definition EndpointSelectorNameLabelKey : string :=
  "gateway.networking.x-k8s.io/endpoint-selector-name".

Definition gatewayAPIGroup : string := "gateway.networking.k8s.io".
Definition endpointSelectorAPIGroup : string := "gateway.networking.x-k8s.io".
Definition endpointSelectorVersion : string := "v1alpha1".
Definition endpointSelectorKind : string := "XEndpointSelector".
Definition controllerName : string := "grosskur.github.io/clusterip-gw".
Definition controllerFinalizer : string := "grosskur.github.io/clusterip-gw-ip-address-protection".
Definition managedByLabelKey : string := "ipaddress.kubernetes.io/managed-by".
Definition managedByLabelValue : string := "gateway.networking.x-k8s.io".
Definition ipFamilyLabelKey : string := "ipaddress.kubernetes.io/ip-family".
Definition ipFamilyIPv4Value : string := "IPv4".

(** ** Published constants of the vendored APIs *)

Definition LabelManagedBy : string := "endpointslice.kubernetes.io/managed-by".
Definition IPAddressType : string := "IPAddress".
Definition AddressTypeIPv4 : string := "IPv4".
Definition ProtocolTCP : string := "TCP".
Definition NamespacesFromSame : string := "Same".
Definition PodReady : string := "Ready".
Definition ServiceCIDRConditionReady : string := "Ready".

Definition TypeAccepted : string := "Accepted".
Definition TypeProgrammed : string := "Programmed".
Definition TypeResolvedRefs : string := "ResolvedRefs".
Definition TypeSupportedVersion : string := "SupportedVersion".

Definition ReasonAccepted : string := "Accepted".
Definition ReasonPending : string := "Pending".
Definition ReasonInvalid : string := "Invalid".
Definition ReasonInvalidParameters : string := "InvalidParameters".
Definition ReasonListenersNotValid : string := "ListenersNotValid".
Definition ReasonUnsupportedAddress : string := "UnsupportedAddress".
Definition ReasonAddressNotAssigned : string := "AddressNotAssigned".
Definition ReasonUnsupported : string := "Unsupported".
Definition ReasonSupportedVersion : string := "SupportedVersion".
Definition ReasonUnsupportedValue : string := "UnsupportedValue".
Definition ReasonUnsupportedProtocol : string := "UnsupportedProtocol".
Definition ReasonResolvedRefs : string := "ResolvedRefs".
Definition ReasonNotAllowedByListeners : string := "NotAllowedByListeners".
Definition ReasonInvalidKind : string := "InvalidKind".
Definition ReasonRefNotPermitted : string := "RefNotPermitted".
Definition ReasonBackendNotFound : string := "BackendNotFound".
