(* ===== verification/Api.v ===== *)
(** * The controller's outside world

    [ApiMachinery] is the interface of the vendored API machinery functions the
    controller calls; [ApiMachineryLaws] states their documented behaviour.
    [Caches] is what client-go's listers and informer indexers return: one
    reconcile reads one snapshot.  Writes (and the one live read) go to the API
    server: a reconcile is a [prog], a tree of [request]s with Go code between
    them, so that the same definition can be run against a server
    ([exec]) or interleaved with other workers ([pool_step]). *)

From S2P Require Import Prelude KubeTypes.

(** ** API machinery *)

Class ApiMachinery := {
  (** [apimeta.SetStatusCondition(&conditions, c)]: the updated slice. *)
  SetStatusCondition : list Condition → Condition → list Condition;
  (** [apimeta.FindStatusCondition]. *)
  FindStatusCondition : list Condition → string → option Condition;
  (** [metav1.LabelSelectorAsSelector] and [labels.Selector.Matches]. *)
  Selector : Type;
  LabelSelectorAsSelector : LabelSelector → result Selector;
  Selector_Matches : Selector → gmap string string → bool;
  (** [unstructured.Unstructured] and its converter. *)
  Unstructured : Type;
  unstructured_key : Unstructured → NamespacedName;
  FromUnstructured : Unstructured → result XEndpointSelector;
  ToUnstructured : XEndpointSelector → result Unstructured;
  (** [apierrors.NewNotFound] of a qualified resource and a name. *)
  NewNotFound : string → string → error;
  (** [metav1.NewControllerRef] of an owner, an API version and a kind. *)
  NewControllerRef : ObjectMeta → string → string → OwnerReference;
  (** [apiequality.Semantic.DeepEqual] at the types it is used at. *)
  DeepEqual_Labels : gmap string string → gmap string string → bool;
  DeepEqual_OwnerReferences : list OwnerReference → list OwnerReference → bool;
  DeepEqual_Ports : list EndpointPort → list EndpointPort → bool;
  DeepEqual_Endpoints : list Endpoint → list Endpoint → bool;
}.

(** A condition without its transition time; the comparisons in status.go
    ignore that field. *)
Definition untimed (c : Condition) : Condition :=
  mkCondition (c_Type c) (c_Status c) (c_Reason c) (c_Message c) (c_ObservedGeneration c) 0.

(** Replacing the first condition of a type, or appending. *)
Fixpoint upsert_condition (cs : list Condition) (c : Condition) : list Condition :=
  match cs with
  | [] => [c]
  | d :: cs' => if decide (c_Type d = c_Type c) then c :: cs' else d :: upsert_condition cs' c
  end.

(** Documented behaviour: an existing condition of the type has all its fields
    updated, otherwise the condition is appended; the transition time is
    managed by the function.  [Semantic.DeepEqual] is equality that does not
    tell a nil slice or map from an empty one; neither does this model. *)
Class ApiMachineryLaws `{!ApiMachinery} : Prop := {
  SetStatusCondition_spec cs c :
    untimed <$> SetStatusCondition cs c = upsert_condition (untimed <$> cs) (untimed c);
  FindStatusCondition_spec cs t :
    FindStatusCondition cs t = head (filter (λ c, c_Type c = t) cs);
  NewNotFound_reason r n : ReasonForError (NewNotFound r n) = Some StatusReasonNotFound;
  DeepEqual_Labels_spec a b : DeepEqual_Labels a b = true ↔ a = b;
  DeepEqual_OwnerReferences_spec a b : DeepEqual_OwnerReferences a b = true ↔ a = b;
  DeepEqual_Ports_spec a b : DeepEqual_Ports a b = true ↔ a = b;
  DeepEqual_Endpoints_spec a b : DeepEqual_Endpoints a b = true ↔ a = b;
}.

(** ** Objects held in informer stores: Go's [interface{}] *)

Section world.
Context `{API : !ApiMachinery}.

Inductive object :=
| OGatewayClass (o : GatewayClass)
| OGateway (o : Gateway)
| OTCPRoute (o : TCPRoute)
| OSelector (o : Unstructured)
| OPod (o : Pod)
| OEndpointSlice (o : EndpointSlice)
| OIPAddress (o : IPAddress)
| OServiceCIDR (o : ServiceCIDR)
| ODeletedFinalStateUnknown (o : object)
| OOther.

(** ** Listers and informer indexers

    An informer's store holds objects of its own resource.  A lookup whose
    items the source asserts to be of that type returns items of that type; a
    lookup whose items it tests, skipping the others, returns [object]s. *)

Record Caches := mkCaches {
  gatewayClasses_Get : string → result GatewayClass;
  gateways_Get : string → string → result Gateway;
  routes_Get : string → string → result TCPRoute;
  pods_List : string → result (list Pod);
  ipAddresses_List : result (list (option IPAddress));
  serviceCIDRs_List : result (list (option ServiceCIDR));
  endpointSelector_GetByKey : string → result (option Unstructured);
  gateway_ByClass : string → result (list Gateway);
  route_ByGateway : string → result (list object);
  route_ByBackendEndpointSelector : string → result (list TCPRoute);
  ipAddress_ByGateway : string → result (list object);
  endpointSlice_ByEndpointSelector : string → result (list EndpointSlice);
  endpointSelector_ByNamespace : string → result (list Unstructured);
}.

(** ** API server requests *)

Inductive request :=
| IPAddressCreate (o : IPAddress)
| IPAddressDelete (name : string)
| GatewayGet (ns name : string)
| GatewayUpdate (ns : string) (o : Gateway)
| GatewayUpdateStatus (ns : string) (o : Gateway)
| GatewayClassUpdateStatus (o : GatewayClass)
| TCPRouteUpdateStatus (ns : string) (o : TCPRoute)
| EndpointSelectorUpdateStatus (ns : string) (o : Unstructured)
| EndpointSliceCreate (ns : string) (o : EndpointSlice)
| EndpointSliceUpdate (ns : string) (o : EndpointSlice)
| EndpointSliceDelete (ns name : string).

(** The source ignores the object a write returns. *)
Definition response (r : request) : Type :=
  match r with GatewayGet _ _ => result Gateway | _ => result unit end.

Inductive prog (A : Type) : Type :=
| Ret (a : A)
| Call (r : request) (k : response r → prog A).
Arguments Ret {A} a.
Arguments Call {A} r k.

Fixpoint bind {A B} (p : prog A) (f : A → prog B) : prog B :=
  match p with
  | Ret a => f a
  | Call r k => Call r (λ x, bind (k x) f)
  end.

(** [if err != nil { return err }]. *)
Definition bind_ok {A B} (p : prog (result A)) (f : A → prog (result B)) : prog (result B) :=
  bind p (λ r, match r with Ok a => f a | Err e => Ret (Err e) end).

Definition lift_ok {A B} (r : result A) (f : A → prog (result B)) : prog (result B) :=
  match r with Ok a => f a | Err e => Ret (Err e) end.

(** A request whose answer is returned as it is. *)
Definition perform (r : request) : prog (response r) := Call r (λ x, Ret x).

(** Programs that make the same requests and return the same results. *)
Inductive prog_eq {A} : Equiv (prog A) :=
| eq_ret a : Ret a ≡ Ret a
| eq_call r k k' : (∀ x, k x ≡ k' x) → Call r k ≡ Call r k'.
#[export] Existing Instance prog_eq.

#[export] Instance prog_eq_refl {A} : Reflexive (≡@{prog A}).
Proof. intros p. induction p; constructor; auto. Qed.

#[export] Instance prog_eq_sym {A} : Symmetric (≡@{prog A}).
Proof. induction 1; constructor; auto. Qed.

Lemma prog_eq_inv {A} (p q : prog A) :
  p ≡ q →
  match p with
  | Ret a => q = Ret a
  | Call r k => ∃ k', q = Call r k' ∧ ∀ x, k x ≡ k' x
  end.
Proof. destruct 1; eauto. Qed.

#[export] Instance prog_eq_trans {A} : Transitive (≡@{prog A}).
Proof.
  intros p q t Hpq. revert t. induction Hpq as [a|r k k' Hk IH]; intros t Ht%prog_eq_inv.
  - by rewrite Ht.
  - destruct Ht as (k'' & -> & Hk''). constructor. eauto.
Qed.

#[export] Instance prog_eq_equivalence {A} : Equivalence (≡@{prog A}).
Proof. split; apply _. Qed.

(** ** Running a program against a server *)

Section exec.
Context {S : Type} (handle : ∀ r : request, S → response r * S).

Fixpoint exec {A} (p : prog A) (s : S) : A * S :=
  match p with
  | Ret a => (a, s)
  | Call r k => let '(x, s') := handle r s in exec (k x) s'
  end.

(** The requests issued along the way. *)
Fixpoint trace {A} (p : prog A) (s : S) : list request :=
  match p with
  | Ret _ => []
  | Call r k => let '(x, s') := handle r s in r :: trace (k x) s'
  end.

Lemma exec_bind {A B} (p : prog A) (f : A → prog B) s :
  exec (bind p f) s = let '(a, s') := exec p s in exec (f a) s'.
Proof. revert s. induction p as [|r k IH]; intros s; simpl; [done|]. by destruct (handle r s). Qed.

Lemma trace_bind {A B} (p : prog A) (f : A → prog B) s :
  trace (bind p f) s = trace p s ++ let '(a, s') := exec p s in trace (f a) s'.
Proof.
  revert s. induction p as [a|r k IH]; intros s; simpl; [done|].
  destruct (handle r s) as [x s']. simpl. by rewrite IH.
Qed.

Lemma exec_bind_ok {A B} (p : prog (result A)) (f : A → prog (result B)) s :
  exec (bind_ok p f) s =
  let '(r, s') := exec p s in
  match r with Ok a => exec (f a) s' | Err e => (Err e, s') end.
Proof. unfold bind_ok. rewrite exec_bind. destruct (exec p s) as [[a|e] s']; done. Qed.

Lemma trace_bind_ok {A B} (p : prog (result A)) (f : A → prog (result B)) s :
  trace (bind_ok p f) s =
  trace p s ++ let '(r, s') := exec p s in
               match r with Ok a => trace (f a) s' | Err _ => [] end.
Proof. unfold bind_ok. rewrite trace_bind. destruct (exec p s) as [[a|e] s']; done. Qed.

End exec.

Lemma prog_eq_exec {A} (p q : prog A) {S} (handle : ∀ r : request, S → response r * S) s :
  p ≡ q → exec handle p s = exec handle q s ∧ trace handle p s = trace handle q s.
Proof.
  intros Heq. revert s. induction Heq as [|r k k' _ IH]; intros s; simpl; [done|].
  destruct (handle r s) as [x s']. by destruct (IH x s') as [-> ->].
Qed.

Lemma bind_proper_eq {A B} (p p' : prog A) (f f' : A → prog B) :
  p ≡ p' → (∀ a, f a ≡ f' a) → bind p f ≡ bind p' f'.
Proof. induction 1; simpl; [auto|]. constructor; auto. Qed.

#[export] Instance bind_proper {A B} :
  Proper ((≡) ==> pointwise_relation A (≡) ==> (≡)) (@bind A B).
Proof. intros p p' Hp f f' Hf. by apply bind_proper_eq. Qed.

Lemma bind_assoc {A B C} (p : prog A) (f : A → prog B) (g : B → prog C) :
  bind (bind p f) g ≡ bind p (λ a, bind (f a) g).
Proof. induction p; simpl; [done|]. constructor; auto. Qed.

(** ** Interleaving

    A pool of workers over one server: a step serves one worker's pending
    request and runs the worker to its next request; a finished worker stays as
    it is.  [env] are the changes other clients of the server make meanwhile. *)

Section pool.
Context {S : Type} (handle : ∀ r : request, S → response r * S) {A : Type}.

Definition serve (p : prog A) (s : S) : prog A * S :=
  match p with
  | Ret a => (Ret a, s)
  | Call r k => let '(x, s') := handle r s in (k x, s')
  end.

Inductive pool_step (env : S → S → Prop) : list (prog A) * S → list (prog A) * S → Prop :=
| pool_serve i p s pool :
    pool !! i = Some p →
    pool_step env (pool, s) (<[i := (serve p s).1]> pool, (serve p s).2)
| pool_env s s' pool : env s s' → pool_step env (pool, s) (pool, s').

End pool.

(** Every request a program can make satisfies [P]. *)
Inductive only_requests (P : request → Prop) {A} : prog A → Prop :=
| only_ret a : only_requests P (Ret a)
| only_call r k : P r → (∀ x, only_requests P (k x)) → only_requests P (Call r k).

Lemma only_requests_bind P {A B} (p : prog A) (f : A → prog B) :
  only_requests P p → (∀ a, only_requests P (f a)) → only_requests P (bind p f).
Proof. induction 1; simpl; [done|]. constructor; eauto. Qed.

Lemma only_requests_bind_ok P {A B} (p : prog (result A)) (f : A → prog (result B)) :
  only_requests P p → (∀ a, only_requests P (f a)) → only_requests P (bind_ok p f).
Proof. intros. apply only_requests_bind; [done|]. intros [|]; [done|constructor]. Qed.

Lemma only_requests_lift_ok P {A B} (r : result A) (f : A → prog (result B)) :
  (∀ a, r = Ok a → only_requests P (f a)) → only_requests P (lift_ok r f).
Proof. destruct r; simpl; [eauto|constructor]. Qed.

Lemma only_requests_perform (P : request → Prop) r : P r → only_requests P (perform r).
Proof. intros. constructor; [done|constructor]. Qed.

Lemma only_requests_mono (P Q : request → Prop) {A} (p : prog A) :
  (∀ r, P r → Q r) → only_requests P p → only_requests Q p.
Proof. intros HPQ. induction 1; constructor; eauto. Qed.

Lemma only_requests_trace P {S A} (handle : ∀ r : request, S → response r * S) (p : prog A) s :
  only_requests P p → Forall P (trace handle p s).
Proof.
  intros Hp. revert s. induction Hp; intros s; simpl; [constructor|].
  destruct (handle r s). constructor; eauto.
Qed.

(** ** The API server, as far as IPAddress objects are concerned

    [owner] is the server's view: the parent reference of each existing
    IPAddress, by name.  [Create] is atomic and fails on an existing name; an
    error that is not a status error may or may not have taken effect. *)

Class IPAddressServer {S : Type} (handle : ∀ r : request, S → response r * S)
    (owner : S → gmap string (option IPParentReference)) : Prop := {
  ips_create_ok o s s' :
    handle (IPAddressCreate o) s = (Ok tt, s') →
    owner s !! Name (ip_meta o) = None ∧ owner s' = <[Name (ip_meta o) := ip_ParentRef o]> (owner s);
  ips_create_err o s e s' :
    handle (IPAddressCreate o) s = (Err e, s') →
    owner s' = owner s ∨
    (owner s !! Name (ip_meta o) = None ∧ owner s' = <[Name (ip_meta o) := ip_ParentRef o]> (owner s));
  ips_create_exists o s e s' :
    handle (IPAddressCreate o) s = (Err e, s') → IsAlreadyExists e = true →
    owner s' = owner s ∧ is_Some (owner s !! Name (ip_meta o));
  ips_delete_ok n s s' :
    handle (IPAddressDelete n) s = (Ok tt, s') → owner s' = delete n (owner s);
  ips_delete_err n s e s' :
    handle (IPAddressDelete n) s = (Err e, s') → owner s' = owner s ∨ owner s' = delete n (owner s);
  ips_delete_notfound n s e s' :
    handle (IPAddressDelete n) s = (Err e, s') → IsNotFound e = true →
    owner s' = owner s ∧ owner s !! n = None;
  ips_other r s :
    match r with IPAddressCreate _ | IPAddressDelete _ => True | _ => owner (handle r s).2 = owner s end;
}.

(** ** The API server, as far as EndpointSlices are concerned

    What a slice says, without the metadata the server owns. *)

Record slice_content := mkContent {
  sl_Labels : gmap string string;
  sl_OwnerReferences : list OwnerReference;
  sl_AddressType : string;
  sl_Ports : list EndpointPort;
  sl_Endpoints : list Endpoint;
}.

Definition content (es : EndpointSlice) : slice_content :=
  mkContent (Labels (es_meta es)) (OwnerReferences (es_meta es)) (es_AddressType es) (es_Ports es)
    (es_Endpoints es).

Definition slice_key (ns : string) (es : EndpointSlice) : NamespacedName := mkNN ns (Name (es_meta es)).

Class EndpointSliceServer {S : Type} (handle : ∀ r : request, S → response r * S)
    (slices : S → gmap NamespacedName slice_content) : Prop := {
  ess_create_ok ns o s s' :
    handle (EndpointSliceCreate ns o) s = (Ok tt, s') →
    slices s !! slice_key ns o = None ∧ slices s' = <[slice_key ns o := content o]> (slices s);
  ess_update_ok ns o s s' :
    handle (EndpointSliceUpdate ns o) s = (Ok tt, s') →
    slices s' = <[slice_key ns o := content o]> (slices s);
  ess_delete_ok ns n s s' :
    handle (EndpointSliceDelete ns n) s = (Ok tt, s') → slices s' = delete (mkNN ns n) (slices s);
  ess_delete_notfound ns n s e s' :
    handle (EndpointSliceDelete ns n) s = (Err e, s') → IsNotFound e = true →
    slices s' = slices s ∧ slices s !! mkNN ns n = None;
  ess_status ns o s : slices (handle (EndpointSelectorUpdateStatus ns o) s).2 = slices s;
}.

End world.

Arguments Ret {_ _} a.
Arguments Call {_ _} r k.

(** ** Notation *)

Notation "'let*' x ':=' p 'in' k" := (bind p (λ x, k))
  (at level 10, x pattern, p at level 100, k at level 200) : cgw_scope.
Notation "'do!' x ':=' p 'in' k" := (bind_ok p (λ x, k))
  (at level 10, x pattern, p at level 100, k at level 200) : cgw_scope.
Notation "'get!' x ':=' r 'in' k" := (lift_ok r (λ x, k))
  (at level 10, x pattern, r at level 100, k at level 200) : cgw_scope.

Create HintDb prog.
Create Rewrite HintDb prog_eqs.
#[export] Hint Rewrite @exec_bind @trace_bind @exec_bind_ok @trace_bind_ok : prog_eqs.
#[export] Hint Constructors only_requests : prog.
#[export] Hint Resolve only_requests_bind only_requests_bind_ok only_requests_lift_ok
  only_requests_perform : prog.
