(* ===== verification/GoStrings.v ===== *)
(** * The part of Go's [strings], [strconv] and [fmt] the program uses *)

From Stdlib Require Import Ascii.
From S2P Require Import Prelude GoNet.

(** [strings.Split(s, sep)] for a one-character separator. *)
Fixpoint split_char (n : Z) (s : string) : list string :=
  match s with
  | EmptyString => [""]
  | String c s' =>
      if is_char n c then "" :: split_char n s'
      else match split_char n s' with
           | [] => [String c ""]
           | w :: ws => String c w :: ws
           end
  end.

(** Does a character occur in a string? *)
Fixpoint has_char (n : Z) (s : string) : bool :=
  match s with
  | EmptyString => false
  | String c s' => is_char n c || has_char n s'
  end.

(** [strconv.Quote], the [%q] verb.  Bytes of non-ASCII characters are copied,
    which is what Quote does for printable UTF-8 text. *)
Definition chr (n : nat) : ascii := ascii_of_nat n.
Definition hex_digit (n : Z) : ascii :=
  chr (Z.to_nat (if n <? 10 then 48 + n else 87 + n)).

Definition quote_char (c : ascii) : string :=
  let n := code c in
  if n =? 34 then String (chr 92) (String (chr 34) "")
  else if n =? 92 then String (chr 92) (String (chr 92) "")
  else if n =? 7 then "\a" else if n =? 8 then "\b" else if n =? 12 then "\f"
  else if n =? 10 then "\n" else if n =? 13 then "\r" else if n =? 9 then "\t"
  else if n =? 11 then "\v"
  else if (n <? 32) || (n =? 127)
  then "\x" +:+ String (hex_digit (n / 16)) (String (hex_digit (n mod 16)) "")
  else String c "".

Fixpoint quote_body (s : string) : string :=
  match s with EmptyString => "" | String c s' => quote_char c +:+ quote_body s' end.

Definition Quote (s : string) : string :=
  String (chr 34) (quote_body s +:+ String (chr 34) "").

(** [strconv.Atoi], with a 64-bit [int]. *)
Definition num_error (fn s why : string) : error :=
  WrapError ("strconv." +:+ fn +:+ ": parsing " +:+ Quote s) (ErrorString why).

Definition Atoi (s : string) : result Z :=
  let '(sign, body) := match s with
    | String c s' => if is_char 45 c then (-1, s') else if is_char 43 c then (1, s') else (1, s)
    | EmptyString => (1, s)
    end in
  match body, digits_val body 0 with
  | EmptyString, _ | _, None => Err (num_error "Atoi" s "invalid syntax")
  | _, Some n =>
      if bool_decide (- 2 ^ 63 ≤ sign * n < 2 ^ 63) then Ok (sign * n)
      else Err (num_error "Atoi" s "value out of range")
  end.

(** ** Facts *)

Lemma split_char_none n s : has_char n s = false → split_char n s = [s].
Proof.
  induction s as [|c s IH]; [done|]. simpl. intros [Hc Hs]%orb_false_iff.
  by rewrite Hc, IH.
Qed.

Lemma split_char_app n c a b :
  is_char n c = true → has_char n a = false →
  split_char n (a +:+ String c b) = a :: split_char n b.
Proof.
  intros Hc. induction a as [|d a IH]; simpl.
  { intros _. by rewrite Hc. }
  intros [Hd Ha]%orb_false_iff. by rewrite Hd, IH.
Qed.

Lemma is_char_eq n c d : is_char n c = true → is_char n d = true → c = d.
Proof.
  unfold is_char, code. intros Hc%Z.eqb_eq Hd%Z.eqb_eq.
  rewrite <-(ascii_N_embedding c), <-(ascii_N_embedding d). f_equal. lia.
Qed.

(** The parts of a split contain no separator, and joining them gives the text back. *)
Lemma split_char_join n c a b s :
  is_char n c = true → split_char n s = [a; b] →
  s = a +:+ String c b ∧ has_char n a = false ∧ has_char n b = false.
Proof.
  intros Hc. assert (Hone : ∀ t w, split_char n t = [w] → t = w ∧ has_char n t = false).
  { induction t as [|d t IH]; simpl; intros w; [intros [= <-]; done|].
    destruct (is_char n d); [intros [= _ E]; by destruct t; simpl in *; repeat case_match|].
    destruct (split_char n t) as [|x [|]] eqn:Et; intros [= <-];
      [by destruct t; simpl in *; repeat case_match|].
    destruct (IH x eq_refl) as [-> ->]. done. }
  revert a. induction s as [|d s IH]; intros a; simpl; [done|].
  destruct (is_char n d) eqn:Hd.
  - intros [= <- Hs]. apply Hone in Hs as [-> Hb]. by rewrite (is_char_eq n d c).
  - destruct (split_char n s) as [|x [|y [|]]] eqn:Es; try done. intros [= <- ->].
    destruct (IH x eq_refl) as (-> & Hx & ->). simpl. by rewrite Hd, Hx.
Qed.

Lemma string_app_inj_r a b s : a +:+ s = b +:+ s → a = b.
Proof.
  intros E. assert (Hlen : ∀ x y, String.length (x +:+ y) = (String.length x + String.length y)%nat).
  { induction x; simpl; auto. }
  assert (String.length a = String.length b).
  { apply (f_equal String.length) in E. rewrite !Hlen in E. lia. }
  revert b E H. induction a as [|c a IH]; intros [|d b]; simpl; try done.
  intros [= -> E] [= ?]. f_equal. auto.
Qed.

Lemma string_length_app a b : String.length (a +:+ b) = (String.length a + String.length b)%nat.
Proof. induction a as [|c a IH]; [done|]. simpl. by rewrite IH. Qed.

Lemma string_app_assoc a b c : (a +:+ b) +:+ c = a +:+ b +:+ c.
Proof. induction a as [|x a IH]; [done|]. by rewrite !string_app_cons, IH. Qed.

Lemma substring_all s : String.substring 0 (String.length s) s = s.
Proof. induction s as [|c s IH]; [done|]. simpl. by rewrite IH. Qed.

Lemma substring_prefix a b : String.substring 0 (String.length a) (a +:+ b) = a.
Proof. induction a as [|c a IH]; [by destruct b|]. rewrite string_app_cons. simpl. by rewrite IH. Qed.

Lemma substring_suffix a b : String.substring (String.length a) (String.length b) (a +:+ b) = b.
Proof.
  induction a as [|c a IH]; [|rewrite string_app_cons; simpl; exact IH].
  rewrite string_app_nil. simpl. induction b as [|c b IH]; [done|]. simpl. by rewrite IH.
Qed.

(** A string before its first separator is determined by the whole. *)
Lemma string_cut_inj n c a a' b b' :
  is_char n c = true → has_char n a = false → has_char n a' = false →
  a +:+ String c b = a' +:+ String c b' → a = a' ∧ b = b'.
Proof.
  intros Hc. revert a'. induction a as [|x a IH]; intros [|y a']; simpl.
  - by intros _ _ [= ->].
  - intros _ [Hy _]%orb_false_iff [= -> _]. congruence.
  - intros [Hx _]%orb_false_iff _ [= -> _]. congruence.
  - intros [_ Ha]%orb_false_iff [_ Ha']%orb_false_iff [= -> E].
    destruct (IH a') as [-> ->]; done.
Qed.

Example quote_a : Quote "a\b" = String (chr 34) ("a\\b" +:+ String (chr 34) "").
Proof. reflexivity. Qed.

(** ** Decimal numbers *)

Lemma has_char_app n a b : has_char n (a +:+ b) = has_char n a || has_char n b.
Proof. induction a as [|c a IH]; [done|]. simpl. by rewrite IH, orb_assoc. Qed.

Lemma pretty_N_char_other n x : 57 < n → is_char n (pretty_N_char x) = false.
Proof.
  intros Hn. unfold is_char, code. apply Z.eqb_neq. unfold pretty_N_char. repeat case_match; simpl; lia.
Qed.

Lemma has_char_pretty_N_go n x s : 57 < n → has_char n s = false → has_char n (pretty_N_go x s) = false.
Proof.
  intros Hn. revert s. induction (N.lt_wf_0 x) as [x _ IH]; intros s Hs.
  destruct (decide (0 < x)%N) as [Hx|Hx].
  - rewrite pretty_N_go_step by done. apply IH; [apply N.div_lt; lia|].
    simpl. by rewrite pretty_N_char_other.
  - replace x with 0%N by lia. by rewrite pretty_N_go_0.
Qed.

(** A printed number has no colon, nor any later character. *)
Lemma has_char_pretty n z : 57 < n → has_char n (pretty (z : Z)) = false.
Proof.
  intros Hn. assert (Hp : ∀ p, has_char n (pretty (p : positive)) = false).
  { intros p. change (pretty p) with (pretty (N.pos p)). unfold pretty at 1, pretty_N.
    case_decide; [done|]. by apply has_char_pretty_N_go. }
  assert (Hc : ∀ x, x < 58 → (x =? n) = false) by (intros; apply Z.eqb_neq; lia).
  destruct z as [|p|p]; [|apply Hp|].
  - change (pretty 0) with "0". simpl. unfold is_char. by rewrite Hc.
  - change (pretty (Z.neg p)) with ("-" +:+ pretty p). rewrite has_char_app, Hp. simpl. unfold is_char. by rewrite Hc.
Qed.

Lemma has_char_dotted n bs : 57 < n → has_char n (dotted bs) = false.
Proof.
  intros Hn. unfold dotted. repeat case_match; try done.
  assert (Hd : has_char n "." = false) by (simpl; unfold is_char; change (code ".") with 46; rewrite (proj2 (Z.eqb_neq 46 n)); [done|lia]).
  by rewrite !has_char_app, !has_char_pretty, Hd.
Qed.

(** Reading back a printed number. *)
Lemma digits_val_pretty_N_go x s : digits_val (pretty_N_go x s) 0 = digits_val s (Z.of_N x).
Proof.
  revert s. induction (N.lt_wf_0 x) as [x _ IH]; intros s. destruct (decide (0 < x)%N) as [Hx|Hx].
  - rewrite pretty_N_go_step by done. rewrite IH by (apply N.div_lt; lia). simpl.
    assert (Hd : dec_val (pretty_N_char (x `mod` 10)) = Some (Z.of_N (x `mod` 10))).
    { pose proof (N.mod_lt x 10). assert (Hlt : (x `mod` 10 < 10)%N) by lia. revert Hlt.
      generalize (x `mod` 10)%N. intros d Hlt.
      assert (d = 0 ∨ d = 1 ∨ d = 2 ∨ d = 3 ∨ d = 4 ∨ d = 5 ∨ d = 6 ∨ d = 7 ∨ d = 8 ∨ d = 9)%N as Hds by lia.
      by destruct Hds as [->|[->|[->|[->|[->|[->|[->|[->|[->| ->]]]]]]]]]. }
    rewrite Hd. simpl. f_equal. rewrite N2Z.inj_div, N2Z.inj_mod. Z.to_euclidean_division_equations; lia.
  - replace x with 0%N by lia. by rewrite pretty_N_go_0.
Qed.

Lemma digits_val_pretty z : 0 ≤ z → digits_val (pretty z) 0 = Some z.
Proof.
  intros Hz. destruct z as [|p|p]; [done| |lia].
  change (pretty (Z.pos p)) with (pretty (N.pos p)). unfold pretty, pretty_N. case_decide; [done|].
  by rewrite digits_val_pretty_N_go.
Qed.
