(* ===== verification/Indexers.v ===== *)
(** * internal/controller/indexers.go

    Namespaced keys, typed access to informer objects, index functions and the
    predicates that classify references. *)

From Stdlib Require Import Ascii.
From S2P Require Import Prelude GoNet GoStrings KubeTypes Api.

(** ** Keys *)

Definition splitNamespacedKey (key : string) : result NamespacedName :=
  let parts := split_char 47 key in
  match parts with
  | [ns; name] =>
      if decide (ns = "") then Err (ErrorString ("invalid namespaced key " +:+ Quote key))
      else if decide (name = "") then Err (ErrorString ("invalid namespaced key " +:+ Quote key))
      else Ok (mkNN ns name)
  | _ => Err (ErrorString ("invalid namespaced key " +:+ Quote key))
  end.

Definition namespacedKey (key : NamespacedName) : string :=
  nn_Namespace key +:+ "/" +:+ nn_Name key.

(** ** Typed access

    [None] is a panic; a deleted object may be wrapped in one tombstone. *)

Section objects.
Context `{API : !ApiMachinery}.

Definition gatewayClassFromObject (obj : object) : option GatewayClass :=
  match obj with
  | OGatewayClass t => Some t
  | ODeletedFinalStateUnknown (OGatewayClass t) => Some t
  | _ => None
  end.

Definition gatewayFromObject (obj : object) : option Gateway :=
  match obj with
  | OGateway t => Some t
  | ODeletedFinalStateUnknown (OGateway t) => Some t
  | _ => None
  end.

Definition routeFromObject (obj : object) : option TCPRoute :=
  match obj with
  | OTCPRoute t => Some t
  | ODeletedFinalStateUnknown (OTCPRoute t) => Some t
  | _ => None
  end.

Definition podFromObject (obj : object) : option Pod :=
  match obj with
  | OPod t => Some t
  | ODeletedFinalStateUnknown (OPod t) => Some t
  | _ => None
  end.

Definition endpointSelectorFromObject (obj : object) : option Unstructured :=
  match obj with
  | OSelector t => Some t
  | ODeletedFinalStateUnknown (OSelector t) => Some t
  | _ => None
  end.

Definition endpointSliceFromObject (obj : object) : option EndpointSlice :=
  match obj with
  | OEndpointSlice t => Some t
  | ODeletedFinalStateUnknown (OEndpointSlice t) => Some t
  | _ => None
  end.

Definition ipAddressFromObject (obj : object) : option IPAddress :=
  match obj with
  | OIPAddress t => Some t
  | ODeletedFinalStateUnknown (OIPAddress t) => Some t
  | _ => None
  end.

(** ** References *)

Definition isGatewayParentRef (parent : ParentReference) : bool :=
  let group := non_empty_or gatewayAPIGroup (pr_Group parent) in
  let kind := non_empty_or "Gateway" (pr_Kind parent) in
  bool_decide (group = gatewayAPIGroup) && bool_decide (kind = "Gateway").

Definition isEndpointSelectorBackendRef (routeNamespace : string) (backend : BackendRef) : bool :=
  match br_Group backend with
  | None => false
  | Some group =>
      if decide (group = "") then false
      else
        let kind := non_empty_or endpointSelectorKind (br_Kind backend) in
        if bool_decide (group ≠ endpointSelectorAPIGroup) || bool_decide (kind ≠ endpointSelectorKind)
        then false
        else
          let namespace := non_empty_or routeNamespace (br_Namespace backend) in
          bool_decide (namespace ≠ "") && bool_decide (br_Name backend ≠ "")
  end.

(** The key of the object a reference names, from an object in [ns]. *)
Definition parent_key (ns : string) (parent : ParentReference) : string :=
  namespacedKey (mkNN (non_empty_or ns (pr_Namespace parent)) (pr_Name parent)).

Definition backend_key (ns : string) (backend : BackendRef) : string :=
  namespacedKey (mkNN (non_empty_or ns (br_Namespace backend)) (br_Name backend)).

(** The loops collect keys in order, skipping the ones already in [seen]. *)
Definition add_key (st : list string * gset string) (key : string) : list string * gset string :=
  let '(keys, seen) := st in
  if decide (key ∈ seen) then (keys, seen) else (keys ++ [key], {[key]} ∪ seen).

Definition routeGatewayParentKeys (route : TCPRoute) : list string :=
  (foldl (λ st parent,
     if isGatewayParentRef parent then add_key st (parent_key (Namespace (rt_meta route)) parent)
     else st) ([], ∅) (ParentRefs route)).1.

Definition routeBackendEndpointSelectorKeys (route : TCPRoute) : list string :=
  (foldl (λ st rule,
     foldl (λ st backend,
       if isEndpointSelectorBackendRef (Namespace (rt_meta route)) backend
       then add_key st (backend_key (Namespace (rt_meta route)) backend)
       else st) st (BackendRefs rule)) ([], ∅) (Rules route)).1.

Definition gatewayKeyForIPAddress (ipAddress : IPAddress) : string :=
  if decide (label (Labels (ip_meta ipAddress)) managedByLabelKey ≠ managedByLabelValue) then ""
  else match ip_ParentRef ipAddress with
  | None => ""
  | Some parent =>
      if bool_decide (ip_Group parent ≠ gatewayAPIGroup)
         || bool_decide (ip_Resource parent ≠ "gateways")
         || bool_decide (ip_Namespace parent = "") || bool_decide (ip_Name parent = "")
      then "" else namespacedKey (mkNN (ip_Namespace parent) (ip_Name parent))
  end.

Definition endpointSelectorKeyForEndpointSlice (endpointSlice : EndpointSlice) : string :=
  let labels := Labels (es_meta endpointSlice) in
  if decide (label labels LabelManagedBy ≠ ManagedByValue) then ""
  else
    let selectorName := label labels EndpointSelectorNameLabelKey in
    if decide (selectorName = "") then ""
    else
      let namespace := label labels EndpointSelectorNamespaceLabelKey in
      let namespace := if decide (namespace = "") then Namespace (es_meta endpointSlice) else namespace in
      if decide (namespace = "") then "" else namespacedKey (mkNN namespace selectorName).

(** ** Index functions; [None] is a panic *)

Definition gatewayByClassIndex : string := "gatewayByClass".
Definition routeByGatewayIndex : string := "routeByGateway".
Definition routeByBackendEndpointSelectorIndex : string := "routeByBackendEndpointSelector".
Definition ipAddressByGatewayIndex : string := "ipAddressByGateway".
Definition endpointSliceByEndpointSelectorIndex : string := "endpointSliceByEndpointSelector".

Definition indexGatewayByClass (obj : object) : option (list string) :=
  match obj with OGateway gateway => Some [GatewayClassName (gw_spec gateway)] | _ => None end.

Definition indexRouteByGateway (obj : object) : option (list string) :=
  match obj with OTCPRoute route => Some (routeGatewayParentKeys route) | _ => None end.

Definition indexRouteByBackendEndpointSelector (obj : object) : option (list string) :=
  match obj with OTCPRoute route => Some (routeBackendEndpointSelectorKeys route) | _ => None end.

Definition indexEndpointSliceByEndpointSelector (obj : object) : option (list string) :=
  match obj with
  | OEndpointSlice endpointSlice =>
      let key := endpointSelectorKeyForEndpointSlice endpointSlice in
      Some (if decide (key = "") then [] else [key])
  | _ => None
  end.

Definition indexIPAddressByGateway (obj : object) : option (list string) :=
  match obj with
  | OIPAddress ipAddress =>
      let key := gatewayKeyForIPAddress ipAddress in
      Some (if decide (key = "") then [] else [key])
  | _ => None
  end.

(** ** Lookups by key *)

Definition getGateway (c : Caches) (key : string) : result Gateway :=
  let! namespacedName := splitNamespacedKey key in
  gateways_Get c (nn_Namespace namespacedName) (nn_Name namespacedName).

Definition getRoute (c : Caches) (key : string) : result TCPRoute :=
  let! namespacedName := splitNamespacedKey key in
  routes_Get c (nn_Namespace namespacedName) (nn_Name namespacedName).

(** What client-go promises of an indexer: looking a key up returns the stored
    objects whose index function yields that key. *)
Definition indexed_by {A} (inj : A → object) (index : object → option (list string))
    (store : list A) (lookup : string → result (list A)) : Prop :=
  ∀ key, ∃ items, lookup key = Ok items ∧
    ∀ o, o ∈ items ↔ o ∈ store ∧ ∃ keys, index (inj o) = Some keys ∧ key ∈ keys.

End objects.

(** ** Facts *)

Definition no_slash (s : string) : Prop := has_char 47 s = false.

Lemma namespacedKey_split key :
  no_slash (nn_Namespace key) → no_slash (nn_Name key) →
  split_char 47 (namespacedKey key) = [nn_Namespace key; nn_Name key].
Proof.
  unfold namespacedKey. intros Hns Hn. rewrite string_app_cons, string_app_nil.
  by rewrite split_char_app, split_char_none.
Qed.

Lemma splitNamespacedKey_ok key nn :
  splitNamespacedKey key = Ok nn ↔
  key = namespacedKey nn ∧ nn_Namespace nn ≠ "" ∧ nn_Name nn ≠ "" ∧
  no_slash (nn_Namespace nn) ∧ no_slash (nn_Name nn).
Proof.
  unfold splitNamespacedKey. split.
  - destruct (split_char 47 key) as [|a [|b [|]]] eqn:E; try done.
    repeat case_decide; try done. intros [= <-]. simpl.
    by apply (split_char_join 47 "/"%char) in E as (-> & ? & ?).
  - intros (-> & ? & ? & ? & ?). destruct nn as [ns n]. simpl in *.
    rewrite namespacedKey_split by done. simpl. by rewrite !decide_False by done.
Qed.

Lemma namespacedKey_inj k1 k2 :
  no_slash (nn_Namespace k1) → no_slash (nn_Namespace k2) →
  namespacedKey k1 = namespacedKey k2 → k1 = k2.
Proof.
  destruct k1 as [a b], k2 as [a' b']. unfold namespacedKey, no_slash. simpl.
  intros H1 H2. rewrite !string_app_cons, !string_app_nil. intros E.
  by destruct (string_cut_inj 47 "/"%char a a' b b') as [-> ->].
Qed.

(** The loops' accumulator: no duplicates, and [seen] is the set of the keys. *)
Definition keys_inv (st : list string * gset string) : Prop :=
  NoDup st.1 ∧ ∀ k, k ∈ st.2 ↔ k ∈ st.1.

Lemma keys_inv_init : keys_inv ([], ∅).
Proof. split; [constructor|set_solver]. Qed.

Lemma add_key_inv st k : keys_inv st → keys_inv (add_key st k).
Proof.
  destruct st as [keys seen]. intros [Hnd Hs]. simpl in *. case_decide as Hk; [done|].
  split; simpl; [|set_solver]. apply list.NoDup_app. split_and!; [done|set_solver|apply NoDup_singleton].
Qed.

Lemma add_key_elem st k k' : keys_inv st → k' ∈ (add_key st k).1 ↔ k' ∈ st.1 ∨ k' = k.
Proof.
  destruct st as [keys seen]. intros [_ Hs]. simpl in *. case_decide; set_solver.
Qed.

(** One pass of a collecting loop: [f x] lists the keys of one element. *)
Lemma collect_keys {X} (step : list string * gset string → X → list string * gset string)
    (f : X → string → Prop) (xs : list X) st :
  (∀ st x, keys_inv st → keys_inv (step st x)) →
  (∀ st x k, keys_inv st → k ∈ (step st x).1 ↔ k ∈ st.1 ∨ f x k) →
  keys_inv st →
  keys_inv (foldl step st xs) ∧
  ∀ k, k ∈ (foldl step st xs).1 ↔ k ∈ st.1 ∨ ∃ x, x ∈ xs ∧ f x k.
Proof.
  intros Hinv Hel. revert st. induction xs as [|x xs IH]; intros st Hst; simpl.
  { split; [done|]. set_solver. }
  destruct (IH (step st x)) as [H1 H2]; [by apply Hinv|]. split; [done|].
  intros k. rewrite H2, Hel by done. set_solver.
Qed.

Section index_facts.
Context `{API : !ApiMachinery}.

Lemma gateway_keys_collect route :
  keys_inv (foldl (λ st parent,
     if isGatewayParentRef parent then add_key st (parent_key (Namespace (rt_meta route)) parent)
     else st) ([], ∅) (ParentRefs route)) ∧
  ∀ k, k ∈ routeGatewayParentKeys route ↔
    ∃ parent, parent ∈ ParentRefs route ∧
      isGatewayParentRef parent = true ∧ k = parent_key (Namespace (rt_meta route)) parent.
Proof.
  unfold routeGatewayParentKeys.
  edestruct (collect_keys (λ st parent, if isGatewayParentRef parent
      then add_key st (parent_key (Namespace (rt_meta route)) parent) else st)
    (λ parent k, isGatewayParentRef parent = true ∧ k = parent_key (Namespace (rt_meta route)) parent)
    (ParentRefs route) ([], ∅)) as [H1 H2].
  - intros st x. destruct (isGatewayParentRef x); auto using add_key_inv.
  - intros st x k Hst. destruct (isGatewayParentRef x); [rewrite add_key_elem by done|]; naive_solver.
  - apply keys_inv_init.
  - split; [done|]. intros k. rewrite H2. set_solver.
Qed.

Lemma routeGatewayParentKeys_NoDup route : NoDup (routeGatewayParentKeys route).
Proof. apply (proj1 (gateway_keys_collect route)). Qed.

Lemma elem_of_routeGatewayParentKeys route k :
  k ∈ routeGatewayParentKeys route ↔
  ∃ parent, parent ∈ ParentRefs route ∧
    isGatewayParentRef parent = true ∧ k = parent_key (Namespace (rt_meta route)) parent.
Proof. apply gateway_keys_collect. Qed.

Lemma backend_keys_collect route :
  NoDup (routeBackendEndpointSelectorKeys route) ∧
  ∀ k, k ∈ routeBackendEndpointSelectorKeys route ↔
    ∃ rule backend, rule ∈ Rules route ∧ backend ∈ BackendRefs rule ∧
      isEndpointSelectorBackendRef (Namespace (rt_meta route)) backend = true ∧
      k = backend_key (Namespace (rt_meta route)) backend.
Proof.
  unfold routeBackendEndpointSelectorKeys. set (ns := Namespace (rt_meta route)).
  set (inner := λ st backend, if isEndpointSelectorBackendRef ns backend
                              then add_key st (backend_key ns backend) else st).
  assert (Hin : ∀ (rule : TCPRouteRule) st, keys_inv st →
    keys_inv (foldl inner st (BackendRefs rule)) ∧
    ∀ k, k ∈ (foldl inner st (BackendRefs rule)).1 ↔ k ∈ st.1 ∨
      ∃ backend, backend ∈ BackendRefs rule ∧
        (isEndpointSelectorBackendRef ns backend = true ∧ k = backend_key ns backend)).
  { intros rule st Hst. apply (collect_keys inner
      (λ backend k, isEndpointSelectorBackendRef ns backend = true ∧ k = backend_key ns backend));
      [..|done]; subst inner; simpl.
    - intros st' x. destruct (isEndpointSelectorBackendRef ns x); auto using add_key_inv.
    - intros st' x k Hst'. destruct (isEndpointSelectorBackendRef ns x);
        [rewrite add_key_elem by done|]; naive_solver. }
  edestruct (collect_keys (λ st (rule : TCPRouteRule), foldl inner st (BackendRefs rule))
    (λ rule k, ∃ backend, backend ∈ BackendRefs rule ∧
       (isEndpointSelectorBackendRef ns backend = true ∧ k = backend_key ns backend))
    (Rules route) ([], ∅)) as [H1 H2].
  - intros st rule Hst. by apply Hin.
  - intros st rule k Hst. by apply Hin.
  - apply keys_inv_init.
  - split; [apply H1|]. intros k. rewrite H2. set_solver.
Qed.

End index_facts.
