(* ===== verification/Status.v ===== *)
(** * internal/controller/status.go

    Building, merging, removing and comparing status conditions, listener
    statuses and route parent statuses. *)

From S2P Require Import Prelude KubeTypes Api.

Section status.
Context `{API : !ApiMachinery}.

(** [now] is the clock reading [metav1.Now()]. *)
Definition condition (now : Z) (conditionType : string) (status : ConditionStatus)
    (reason message : string) (observedGeneration : Z) : Condition :=
  mkCondition conditionType status reason message observedGeneration now.

Definition type_less (a b : Condition) : bool := str_lt (c_Type a) (c_Type b).

Definition mergeConditions (existing desired : list Condition) : list Condition :=
  sort_Slice type_less (foldl SetStatusCondition existing desired).

(** A nil and an empty slice are the same list here. *)
Definition removeConditions (existing : list Condition) (conditionTypes : list string)
    : list Condition :=
  let remove : gset string := list_to_set conditionTypes in
  filter (λ c, c_Type c ∉ remove) existing.

Definition boolToConditionStatus (value : bool) : ConditionStatus :=
  if value then ConditionTrue else ConditionFalse.

Definition conditionReason (cond : bool) (trueReason falseReason : string) : string :=
  if cond then trueReason else falseReason.

(** ** Comparisons *)

Fixpoint conditionsEqual (a b : list Condition) : bool :=
  match a, b with
  | [], [] => true
  | x :: a', y :: b' =>
      if bool_decide (c_Type x ≠ c_Type y) || bool_decide (c_Status x ≠ c_Status y)
         || bool_decide (c_Reason x ≠ c_Reason y) || bool_decide (c_Message x ≠ c_Message y)
         || bool_decide (c_ObservedGeneration x ≠ c_ObservedGeneration y)
      then false else conditionsEqual a' b'
  | _, _ => false
  end.

Fixpoint gatewayAddressesEqual (a b : list GatewayStatusAddress) : bool :=
  match a, b with
  | [], [] => true
  | x :: a', y :: b' =>
      if decide (sa_Value x ≠ sa_Value y) then false
      else
        let typeA := deref_or "" (sa_Type x) in
        let typeB := deref_or "" (sa_Type y) in
        if decide (typeA ≠ typeB) then false else gatewayAddressesEqual a' b'
  | _, _ => false
  end.

Fixpoint kindsEqual (a b : list RouteGroupKind) : bool :=
  match a, b with
  | [], [] => true
  | x :: a', y :: b' => if decide (rgk_Kind x ≠ rgk_Kind y) then false else kindsEqual a' b'
  | _, _ => false
  end.

Fixpoint listenerStatusesEqual (a b : list ListenerStatus) : bool :=
  match a, b with
  | [], [] => true
  | x :: a', y :: b' =>
      if bool_decide (ls_Name x ≠ ls_Name y)
         || bool_decide (ls_AttachedRoutes x ≠ ls_AttachedRoutes y) then false
      else if negb (kindsEqual (ls_SupportedKinds x) (ls_SupportedKinds y)) then false
      else if negb (conditionsEqual (ls_Conditions x) (ls_Conditions y)) then false
      else listenerStatusesEqual a' b'
  | _, _ => false
  end.

Definition gatewayClassStatusEqual (oldObj newObj : GatewayClass) : bool :=
  conditionsEqual (gc_Conditions oldObj) (gc_Conditions newObj).

Definition gatewayStatusEqual (oldObj newObj : Gateway) : bool :=
  conditionsEqual (Conditions (gw_status oldObj)) (Conditions (gw_status newObj))
  && gatewayAddressesEqual (Addresses (gw_status oldObj)) (Addresses (gw_status newObj))
  && listenerStatusesEqual (ListenerStatuses (gw_status oldObj)) (ListenerStatuses (gw_status newObj)).

Definition endpointSelectorStatusEqual (oldObj newObj : XEndpointSelector) : bool :=
  conditionsEqual (xs_Conditions oldObj) (xs_Conditions newObj).

(** ** Route parents *)

Definition routeParentSortKey (parent : RouteParentStatus) : string :=
  let ref := rps_ParentRef parent in
  let group := deref_or "" (pr_Group ref) in
  let kind := deref_or "" (pr_Kind ref) in
  let namespace := deref_or "" (pr_Namespace ref) in
  let sectionName := deref_or "" (pr_SectionName ref) in
  let port := from_option pretty "" (pr_Port ref) in
  rps_ControllerName parent +:+ "/" +:+ group +:+ "/" +:+ kind +:+ "/" +:+ namespace +:+ "/"
    +:+ pr_Name ref +:+ "/" +:+ sectionName +:+ "/" +:+ port.

Definition mergeRouteParents (existing desired : list RouteParentStatus) : list RouteParentStatus :=
  sort_Slice (λ x y, str_lt (routeParentSortKey x) (routeParentSortKey y))
    (filter (λ p, rps_ControllerName p ≠ controllerName) existing ++ desired).

Fixpoint routeParentsEqual (a b : list RouteParentStatus) : bool :=
  match a, b with
  | [], [] => true
  | x :: a', y :: b' =>
      if decide (routeParentSortKey x ≠ routeParentSortKey y) then false
      else if negb (conditionsEqual (rps_Conditions x) (rps_Conditions y)) then false
      else routeParentsEqual a' b'
  | _, _ => false
  end.

Definition routeStatusEqual (oldObj newObj : TCPRoute) : bool :=
  routeParentsEqual (Parents oldObj) (Parents newObj).

End status.

(** ** Equality up to transition times *)

Definition cond_equiv (a b : list Condition) : Prop := untimed <$> a = untimed <$> b.

#[export] Instance cond_equiv_equivalence : Equivalence cond_equiv.
Proof. unfold cond_equiv. split; red; congruence. Qed.

Lemma untimed_eq c d :
  untimed c = untimed d ↔
  c_Type c = c_Type d ∧ c_Status c = c_Status d ∧ c_Reason c = c_Reason d ∧
  c_Message c = c_Message d ∧ c_ObservedGeneration c = c_ObservedGeneration d.
Proof. destruct c, d. unfold untimed. simpl. split; [by intros [=]|by intros (->&->&->&->&->)]. Qed.

Lemma untimed_idemp c : untimed (untimed c) = untimed c.
Proof. done. Qed.

Lemma conditionsEqual_iff a b : conditionsEqual a b = true ↔ cond_equiv a b.
Proof.
  unfold cond_equiv. revert b. induction a as [|x a IH]; intros [|y b]; simpl; try done.
  transitivity (untimed x = untimed y ∧ conditionsEqual a b = true).
  - rewrite untimed_eq. destruct (_ || _) eqn:E.
    + split; [done|]. intros [(?&?&?&?&?) _].
      rewrite !orb_true_iff, !bool_decide_eq_true in E. naive_solver.
    + rewrite !orb_false_iff, !bool_decide_eq_false in E. naive_solver (by apply dec_stable).
  - rewrite IH. split; [intros [H1 H2]; by f_equal|intros [= H1 H2]; by split; [apply untimed_eq|]].
Qed.

#[export] Instance conditionsEqual_proper :
  Proper (cond_equiv ==> cond_equiv ==> eq) conditionsEqual.
Proof.
  intros a a' Ha b b' Hb. apply eq_true_iff_eq. rewrite !conditionsEqual_iff.
  by rewrite Ha, Hb.
Qed.

(** ** Upserting *)

Abbreviation types := (fmap (M:=list) c_Type).

Lemma types_untimed cs : types (untimed <$> cs) = types cs.
Proof. rewrite <-list_fmap_compose. by apply list_fmap_ext. Qed.

Lemma NoDup_untimed cs : NoDup (types cs) → NoDup (untimed <$> cs).
Proof. rewrite <-types_untimed. apply NoDup_fmap_1. Qed.

Lemma upsert_types_elem cs c t :
  t ∈ types (upsert_condition cs c) ↔ t ∈ types cs ∨ t = c_Type c.
Proof.
  induction cs as [|d cs IH]; csimpl; [set_solver|].
  case_decide as E; rewrite ?list.fmap_cons; set_solver.
Qed.

Lemma upsert_types_NoDup cs c : NoDup (types cs) → NoDup (types (upsert_condition cs c)).
Proof.
  induction cs as [|d cs IH]; csimpl; [intros _; apply NoDup_singleton|].
  rewrite ?list.fmap_cons, list.NoDup_cons. intros [Hd Hnd].
  case_decide as E; rewrite ?list.fmap_cons, list.NoDup_cons.
  - by rewrite <-E.
  - rewrite upsert_types_elem. naive_solver.
Qed.

Lemma upsert_elem cs c d :
  NoDup (types cs) →
  d ∈ upsert_condition cs c ↔ d = c ∨ (d ∈ cs ∧ c_Type d ≠ c_Type c).
Proof.
  induction cs as [|e cs IH]; csimpl; [set_solver|].
  rewrite ?list.fmap_cons, list.NoDup_cons. intros [He Hnd]. specialize (IH Hnd).
  case_decide as E; rewrite !list.elem_of_cons.
  - split; [|naive_solver]. intros [->|Hd]; [by left|]. right. split; [by right|].
    rewrite <-E. intros Et. apply He. rewrite <-Et. by apply list_elem_of_fmap_2.
  - rewrite IH. naive_solver.
Qed.

Lemma upsert_id cs c : NoDup (types cs) → c ∈ cs → upsert_condition cs c = cs.
Proof.
  induction cs as [|d cs IH]; csimpl; [set_solver|].
  rewrite ?list.fmap_cons, list.NoDup_cons, list.elem_of_cons. intros [Hd Hnd] [->|Hc].
  - by rewrite decide_True.
  - rewrite decide_False; [by rewrite IH|]. intros E. apply Hd. rewrite E.
    by apply list_elem_of_fmap_2.
Qed.

Lemma upserts_NoDup des cs : NoDup (types cs) → NoDup (types (foldl upsert_condition cs des)).
Proof. revert cs. induction des; csimpl; auto using upsert_types_NoDup. Qed.

Lemma upserts_elem des cs d :
  NoDup (types cs) → NoDup (types des) →
  d ∈ foldl upsert_condition cs des ↔ d ∈ des ∨ (d ∈ cs ∧ c_Type d ∉ types des).
Proof.
  revert cs. induction des as [|c des IH]; intros cs Hcs; csimpl; [set_solver|].
  rewrite ?list.fmap_cons, list.NoDup_cons. intros [Hc Hdes].
  rewrite IH by auto using upsert_types_NoDup. rewrite upsert_elem by done.
  rewrite !list.elem_of_cons. split; [|naive_solver].
  intros [?|[[->|[??]] ?]]; naive_solver.
Qed.

Lemma upserts_id des cs :
  NoDup (types cs) → (∀ c, c ∈ des → c ∈ cs) → foldl upsert_condition cs des = cs.
Proof.
  intros Hcs. induction des as [|c des IH]; csimpl; [done|].
  intros Hin. rewrite upsert_id by (done || apply Hin; by left). apply IH. set_solver.
Qed.

(** ** Merging *)

#[export] Instance type_less_sw : StrictWeak type_less.
Proof. apply key_less_sw. Qed.

Lemma type_ties cs c d :
  NoDup (types cs) → c ∈ cs → d ∈ cs →
  type_less c d = false → type_less d c = false → c = d.
Proof.
  intros Hnd Hc Hd H1 H2. apply str_lt_antisym in H1; [|done].
  apply list_elem_of_lookup in Hc as [i Hi], Hd as [j Hj].
  assert (i = j) as ->; [|congruence].
  eapply (list.NoDup_lookup (types cs)); [done| |]; rewrite list_lookup_fmap, ?Hi, ?Hj; [done|].
  simpl. congruence.
Qed.

Lemma sorted_untimed cs : sorted_by type_less cs → sorted_by type_less (untimed <$> cs).
Proof.
  induction 1 as [|c cs Hs IH Hc]; [constructor|]. rewrite ?list.fmap_cons. constructor; [done|].
  rewrite list.Forall_fmap. eapply list.Forall_impl; [exact Hc|]. done.
Qed.

Section merge.
Context `{API : !ApiMachinery, Laws : !ApiMachineryLaws}.

Lemma SetStatusConditions_untimed cs des :
  untimed <$> foldl SetStatusCondition cs des
  = foldl upsert_condition (untimed <$> cs) (untimed <$> des).
Proof.
  revert cs. induction des as [|c des IH]; intros cs; [done|].
  rewrite ?list.fmap_cons. simpl. by rewrite IH, SetStatusCondition_spec.
Qed.

Lemma mergeConditions_perm cs des :
  untimed <$> mergeConditions cs des
  ≡ₚ foldl upsert_condition (untimed <$> cs) (untimed <$> des).
Proof.
  unfold mergeConditions, sort_Slice. by rewrite less_sort_perm, SetStatusConditions_untimed.
Qed.

Lemma mergeConditions_sorted cs des : sorted_by type_less (mergeConditions cs des).
Proof. apply less_sort_sorted. apply _. Qed.

Lemma mergeConditions_NoDup cs des :
  NoDup (types cs) → NoDup (types (mergeConditions cs des)).
Proof.
  intros Hcs. rewrite <-types_untimed, mergeConditions_perm.
  apply upserts_NoDup. by rewrite types_untimed.
Qed.

Lemma mergeConditions_elem cs des d :
  NoDup (types cs) → NoDup (types des) →
  d ∈ untimed <$> mergeConditions cs des ↔
  d ∈ untimed <$> des ∨ (d ∈ untimed <$> cs ∧ c_Type d ∉ types des).
Proof.
  intros Hcs Hdes. rewrite mergeConditions_perm, upserts_elem by (by rewrite types_untimed).
  by rewrite types_untimed.
Qed.

(** A list that already holds the desired conditions, sorted, is left as it is. *)
Lemma mergeConditions_fix cs des :
  NoDup (types cs) → sorted_by type_less cs →
  (∀ d, d ∈ untimed <$> des → d ∈ untimed <$> cs) →
  cond_equiv (mergeConditions cs des) cs.
Proof.
  intros Hnd Hs Hin. unfold cond_equiv. apply (sorted_by_unique type_less).
  - intros x y. rewrite mergeConditions_perm. apply type_ties.
    apply upserts_NoDup. by rewrite types_untimed.
  - apply sorted_untimed, mergeConditions_sorted.
  - by apply sorted_untimed.
  - rewrite mergeConditions_perm, upserts_id; [done|by rewrite types_untimed|done].
Qed.

#[export] Instance mergeConditions_proper :
  Proper (cond_equiv ==> cond_equiv ==> Permutation) (λ cs des, untimed <$> mergeConditions cs des).
Proof.
  intros cs cs' Hcs des des' Hdes. rewrite !mergeConditions_perm.
  unfold cond_equiv in *. by rewrite Hcs, Hdes.
Qed.

(** Merging the same conditions again, at any later time, changes nothing. *)
Lemma mergeConditions_idemp cs cs' des des' :
  NoDup (types cs) → NoDup (types des) → cond_equiv des des' →
  cond_equiv cs' (mergeConditions cs des) → sorted_by type_less cs' → NoDup (types cs') →
  cond_equiv (mergeConditions cs' des') cs'.
Proof.
  intros Hcs Hdes Heq Hcs' Hs Hnd. apply mergeConditions_fix; [done..|].
  intros d Hd. unfold cond_equiv in *. rewrite Hcs', mergeConditions_elem by done.
  left. by rewrite Heq.
Qed.

End merge.

Section merge_equiv.
Context `{API : !ApiMachinery, Laws : !ApiMachineryLaws}.

(** Merging respects equality up to transition times. *)
Lemma mergeConditions_equiv cs cs' des des' :
  NoDup (types cs) → cond_equiv cs cs' → cond_equiv des des' →
  cond_equiv (mergeConditions cs des) (mergeConditions cs' des').
Proof.
  intros Hnd Hcs Hdes. unfold cond_equiv. apply (sorted_by_unique type_less).
  - intros x y. rewrite mergeConditions_perm. apply type_ties.
    apply upserts_NoDup. by rewrite types_untimed.
  - apply sorted_untimed, mergeConditions_sorted.
  - apply sorted_untimed, mergeConditions_sorted.
  - by apply mergeConditions_proper.
Qed.

(** A built list of conditions of distinct types. *)
Lemma mergeConditions_nil_elem des d :
  NoDup (types des) →
  d ∈ untimed <$> mergeConditions [] des ↔ d ∈ untimed <$> des.
Proof. intros. rewrite mergeConditions_elem by (done || constructor). set_solver. Qed.

End merge_equiv.

(** ** Route parents *)

(** A parent status without its conditions' transition times. *)
Definition untimed_parent (p : RouteParentStatus) : RouteParentStatus :=
  mkRouteParentStatus (rps_ParentRef p) (rps_ControllerName p) (untimed <$> rps_Conditions p).

Definition parents_equiv (a b : list RouteParentStatus) : Prop :=
  untimed_parent <$> a = untimed_parent <$> b.

#[export] Instance parents_equiv_equivalence : Equivalence parents_equiv.
Proof. unfold parents_equiv. split; red; congruence. Qed.

Lemma routeParentSortKey_untimed p : routeParentSortKey (untimed_parent p) = routeParentSortKey p.
Proof. done. Qed.

Lemma routeParentsEqual_equiv a b : parents_equiv a b → routeParentsEqual a b = true.
Proof.
  unfold parents_equiv. revert b. induction a as [|x a IH]; intros [|y b]; simpl; try done.
  intros [= Href Hname Hcs Hrest].
  assert (routeParentSortKey x = routeParentSortKey y) as Hkey.
  { unfold routeParentSortKey. by rewrite Href, Hname. }
  rewrite decide_False by (intros Hne; by apply Hne).
  assert (conditionsEqual (rps_Conditions x) (rps_Conditions y) = true) as ->
    by (by apply conditionsEqual_iff). simpl. by apply IH.
Qed.

Definition parent_less (x y : RouteParentStatus) : bool :=
  str_lt (routeParentSortKey x) (routeParentSortKey y).

Abbreviation foreign_parents := (filter (λ p, rps_ControllerName p ≠ controllerName)).
Abbreviation own_parents := (filter (λ p, rps_ControllerName p = controllerName)).

Section route_parents.

Lemma mergeRouteParents_perm existing desired :
  mergeRouteParents existing desired ≡ₚ foreign_parents existing ++ desired.
Proof. apply less_sort_perm. Qed.

Lemma mergeRouteParents_foreign existing desired :
  Forall (λ p, rps_ControllerName p = controllerName) desired →
  foreign_parents (mergeRouteParents existing desired) ≡ₚ foreign_parents existing ∧
  own_parents (mergeRouteParents existing desired) ≡ₚ desired.
Proof.
  intros Hd. rewrite !mergeRouteParents_perm, !list.filter_app. split.
  - assert (foreign_parents desired = []) as ->.
    { apply elem_of_nil_inv. intros p. rewrite list_elem_of_filter. intros [Hp Hin].
      rewrite list.Forall_forall in Hd. by apply Hp, Hd. }
    rewrite List.app_nil_r, filter_id; [done|]. intros p. rewrite list_elem_of_filter. tauto.
  - assert (own_parents (foreign_parents existing) = []) as ->.
    { apply elem_of_nil_inv. intros p. rewrite !list_elem_of_filter. naive_solver. }
    simpl. rewrite filter_id; [done|]. by apply list.Forall_forall.
Qed.

Lemma sorted_parents_untimed ps : sorted_by parent_less ps → sorted_by parent_less (untimed_parent <$> ps).
Proof.
  induction 1 as [|c cs Hs IH Hc]; [constructor|]. rewrite ?list.fmap_cons. constructor; [done|].
  rewrite list.Forall_fmap. eapply list.Forall_impl; [exact Hc|]. done.
Qed.

(** Merging equivalent desired entries into the outcome of a merge changes
    nothing, if no two entries share a sort key. *)
Lemma mergeRouteParents_fix existing desired desired' :
  Forall (λ p, rps_ControllerName p = controllerName) desired →
  NoDup (routeParentSortKey <$> foreign_parents existing ++ desired) →
  parents_equiv desired desired' →
  parents_equiv (mergeRouteParents existing desired)
    (mergeRouteParents (mergeRouteParents existing desired) desired').
Proof.
  intros Hd Hnd Heq. unfold parents_equiv. apply (sorted_by_unique parent_less).
  - intros x y. rewrite mergeRouteParents_perm. intros Hx Hy H1 H2.
    apply str_lt_antisym in H1; [|done].
    apply list_elem_of_fmap in Hx as (x0 & -> & Hx), Hy as (y0 & -> & Hy).
    rewrite !routeParentSortKey_untimed in H1. f_equal.
    apply list_elem_of_lookup in Hx as [i Hi], Hy as [j Hj].
    assert (i = j) as ->; [|congruence].
    eapply (list.NoDup_lookup _ _ _ (routeParentSortKey x0) Hnd);
      rewrite list_lookup_fmap, ?Hi, ?Hj; simpl; congruence.
  - apply sorted_parents_untimed, (less_sort_sorted parent_less).
  - apply sorted_parents_untimed, (less_sort_sorted parent_less).
  - rewrite (mergeRouteParents_perm (mergeRouteParents _ _)).
    rewrite (proj1 (mergeRouteParents_foreign existing desired Hd)).
    rewrite mergeRouteParents_perm, !fmap_app. by rewrite Heq.
Qed.

End route_parents.
