(* ===== verification/Reference.v ===== *)
(** * A concrete instance of the interfaces

    Executable stand-ins for the API machinery, the informer caches and the API
    server, that satisfy the laws the theorems assume; the worked examples run
    the controller against them. *)

From S2P Require Import Prelude KubeTypes Api Indexers.

(** ** API machinery *)

Fixpoint ref_set (cs : list Condition) (c : Condition) : list Condition :=
  match cs with
  | [] => [c]
  | d :: cs' =>
      if decide (c_Type d = c_Type c) then
        mkCondition (c_Type c) (c_Status c) (c_Reason c) (c_Message c) (c_ObservedGeneration c)
          (if decide (c_Status d = c_Status c) then c_LastTransitionTime d else c_LastTransitionTime c)
        :: cs'
      else d :: ref_set cs' c
  end.

(** A selector is its set of required labels; expressions are refused. *)
#[export] Instance ref_machinery : ApiMachinery := {|
  SetStatusCondition := ref_set;
  FindStatusCondition cs t := head (filter (λ c, c_Type c = t) cs);
  Selector := gmap string string;
  LabelSelectorAsSelector s :=
    match MatchExpressions s with
    | [] => Ok (MatchLabels s)
    | r :: _ => Err (ErrorString (lsr_Operator r +:+ " is not a valid label selector operator"))
    end;
  Selector_Matches sel labels := bool_decide (map_Forall (λ k v, labels !! k = Some v) sel);
  Unstructured := XEndpointSelector;
  unstructured_key s := meta_key (xs_meta s);
  FromUnstructured s := Ok s;
  ToUnstructured s := Ok s;
  NewNotFound r n := StatusError StatusReasonNotFound (r +:+ " " +:+ n +:+ " not found");
  NewControllerRef m v k := mkOwnerReference v k (Name m) (UID m) (Some true) (Some true);
  DeepEqual_Labels a b := bool_decide (a = b);
  DeepEqual_OwnerReferences a b := bool_decide (a = b);
  DeepEqual_Ports a b := bool_decide (a = b);
  DeepEqual_Endpoints a b := bool_decide (a = b);
|}.

Lemma ref_set_spec cs c : untimed <$> ref_set cs c = upsert_condition (untimed <$> cs) (untimed c).
Proof.
  induction cs as [|d cs IH]; [done|]. csimpl. case_decide; csimpl; [done|]. by rewrite IH.
Qed.

#[export] Instance ref_machinery_laws : ApiMachineryLaws.
Proof. split; try (intros; apply bool_decide_eq_true); [apply ref_set_spec|done..]. Qed.

(** ** Stores and caches *)

Record Store := mkStore {
  st_classes : list GatewayClass;
  st_gateways : list Gateway;
  st_routes : list TCPRoute;
  st_selectors : list XEndpointSelector;
  st_pods : list Pod;
  st_slices : list EndpointSlice;
  st_ips : list IPAddress;
  st_cidrs : list ServiceCIDR;
}.

Definition not_found (what : string) : error :=
  StatusError StatusReasonNotFound (what +:+ " not found").

Definition find_or {A} (what : string) (p : A → bool) (l : list A) : result A :=
  match filter (λ x, p x = true) l with [] => Err (not_found what) | x :: _ => Ok x end.

Definition at_key (ns name : string) (m : ObjectMeta) : bool :=
  bool_decide (Namespace m = ns ∧ Name m = name).

Definition by_index {A} (inj : A → object) (index : object → option (list string)) (objs : list A)
    (key : string) : result (list A) :=
  Ok (filter (λ o, bool_decide (key ∈ default [] (index (inj o))) = true) objs).

Definition caches_of (st : Store) : Caches := @mkCaches ref_machinery
  (λ n, find_or "gatewayclass" (λ o, bool_decide (Name (gc_meta o) = n)) (st_classes st))
  (λ ns n, find_or "gateway" (λ o, at_key ns n (gw_meta o)) (st_gateways st))
  (λ ns n, find_or "tcproute" (λ o, at_key ns n (rt_meta o)) (st_routes st))
  (λ ns, Ok (filter (λ p, Namespace (pod_meta p) = ns) (st_pods st)))
  (Ok (map Some (st_ips st)))
  (Ok (map Some (st_cidrs st)))
  (λ k, Ok (head (filter (λ s, namespacedKey (meta_key (xs_meta s)) = k) (st_selectors st))))
  (by_index OGateway indexGatewayByClass (st_gateways st))
  (by_index id indexRouteByGateway (map OTCPRoute (st_routes st)))
  (by_index OTCPRoute indexRouteByBackendEndpointSelector (st_routes st))
  (by_index id indexIPAddressByGateway (map OIPAddress (st_ips st)))
  (by_index OEndpointSlice indexEndpointSliceByEndpointSelector (st_slices st))
  (λ ns, Ok (filter (λ s, Namespace (xs_meta s) = ns) (st_selectors st))).

Lemma by_index_indexed {A} (inj : A → object) index objs :
  indexed_by inj index objs (by_index inj index objs).
Proof.
  intros key. eexists. split; [done|]. intros o. rewrite list_elem_of_filter, bool_decide_eq_true.
  destruct (index (inj o)) as [ks|]; simpl; [naive_solver|]. rewrite elem_of_nil. naive_solver.
Qed.

(** ** An in-memory API server *)

Record Server := mkServer {
  srv_ips : gmap string IPAddress;
  srv_gateways : gmap NamespacedName Gateway;
  srv_classes : gmap string GatewayClass;
  srv_routes : gmap NamespacedName TCPRoute;
  srv_selectors : gmap NamespacedName XEndpointSelector;
  srv_slices : gmap NamespacedName EndpointSlice;
}.

Definition empty_server : Server := mkServer ∅ ∅ ∅ ∅ ∅ ∅.

Definition set_ips (s : Server) m := mkServer m (srv_gateways s) (srv_classes s) (srv_routes s) (srv_selectors s) (srv_slices s).
Definition set_gateways (s : Server) m := mkServer (srv_ips s) m (srv_classes s) (srv_routes s) (srv_selectors s) (srv_slices s).
Definition set_classes (s : Server) m := mkServer (srv_ips s) (srv_gateways s) m (srv_routes s) (srv_selectors s) (srv_slices s).
Definition set_routes (s : Server) m := mkServer (srv_ips s) (srv_gateways s) (srv_classes s) m (srv_selectors s) (srv_slices s).
Definition set_selectors (s : Server) m := mkServer (srv_ips s) (srv_gateways s) (srv_classes s) (srv_routes s) m (srv_slices s).
Definition set_slices (s : Server) m := mkServer (srv_ips s) (srv_gateways s) (srv_classes s) (srv_routes s) (srv_selectors s) m.

Definition exists_error (what : string) : error :=
  StatusError StatusReasonAlreadyExists (what +:+ " already exists").

(** Creating, replacing and deleting an object of one kind. *)
Definition srv_create {K V} `{Countable K} (m : gmap K V) (k : K) (v : V) (put : gmap K V → Server)
    (s : Server) : result unit * Server :=
  match m !! k with Some _ => (Err (exists_error "object"), s) | None => (Ok tt, put (<[k := v]> m)) end.

Definition srv_update {K V} `{Countable K} (m : gmap K V) (k : K) (v : V) (put : gmap K V → Server)
    (s : Server) : result unit * Server :=
  match m !! k with Some _ => (Ok tt, put (<[k := v]> m)) | None => (Err (not_found "object"), s) end.

Definition srv_delete {K V} `{Countable K} (m : gmap K V) (k : K) (put : gmap K V → Server)
    (s : Server) : result unit * Server :=
  match m !! k with Some _ => (Ok tt, put (delete k m)) | None => (Err (not_found "object"), s) end.

Definition ref_handle (r : request) (s : Server) : response r * Server :=
  match r return response r * Server with
  | IPAddressCreate o => srv_create (srv_ips s) (Name (ip_meta o)) o (set_ips s) s
  | IPAddressDelete n => srv_delete (srv_ips s) n (set_ips s) s
  | GatewayGet ns n =>
      match srv_gateways s !! mkNN ns n with
      | Some g => (Ok g, s) | None => (Err (not_found "gateway"), s) end
  | GatewayUpdate ns o | GatewayUpdateStatus ns o =>
      srv_update (srv_gateways s) (mkNN ns (Name (gw_meta o))) o (set_gateways s) s
  | GatewayClassUpdateStatus o => srv_update (srv_classes s) (Name (gc_meta o)) o (set_classes s) s
  | TCPRouteUpdateStatus ns o =>
      srv_update (srv_routes s) (mkNN ns (Name (rt_meta o))) o (set_routes s) s
  | EndpointSelectorUpdateStatus ns o =>
      srv_update (srv_selectors s) (mkNN ns (Name (xs_meta o))) o (set_selectors s) s
  | EndpointSliceCreate ns o =>
      srv_create (srv_slices s) (mkNN ns (Name (es_meta o))) o (set_slices s) s
  | EndpointSliceUpdate ns o =>
      srv_update (srv_slices s) (mkNN ns (Name (es_meta o))) o (set_slices s) s
  | EndpointSliceDelete ns n => srv_delete (srv_slices s) (mkNN ns n) (set_slices s) s
  end.

Definition ref_owner (s : Server) : gmap string (option IPParentReference) := ip_ParentRef <$> srv_ips s.

#[export] Instance ref_ip_server : IPAddressServer ref_handle ref_owner.
Proof.
  split; unfold ref_owner; simpl; unfold srv_create, srv_delete.
  - intros o s s'. case_match eqn:E; [done|]. intros [= <-].
    rewrite lookup_fmap, E. simpl. by rewrite fmap_insert.
  - intros o s e s'. case_match; [|done]. intros [= _ <-]. by left.
  - intros o s e s'. case_match eqn:E; [|done]. intros [= _ <-] _.
    rewrite lookup_fmap, E. simpl. eauto.
  - intros n s s'. case_match; [|done]. intros [= <-]. simpl. by rewrite fmap_delete.
  - intros n s e s'. case_match; [done|]. intros [= _ <-]. by left.
  - intros n s e s'. case_match eqn:E; [done|]. intros [= _ <-] _. by rewrite lookup_fmap, E.
  - intros r s. destruct r; simpl; try done; unfold srv_create, srv_update, srv_delete; by repeat case_match.
Qed.

Definition ref_slices (s : Server) : gmap NamespacedName slice_content := content <$> srv_slices s.

#[export] Instance ref_slice_server : EndpointSliceServer ref_handle ref_slices.
Proof.
  split; unfold ref_slices; simpl; unfold srv_create, srv_update, srv_delete.
  - intros ns o s s'. unfold slice_key. case_match eqn:E; [done|]. intros [= <-].
    rewrite lookup_fmap, E. simpl. by rewrite fmap_insert.
  - intros ns o s s'. unfold slice_key. case_match; [|done]. intros [= <-]. simpl. by rewrite fmap_insert.
  - intros ns n s s'. case_match; [|done]. intros [= <-]. simpl. by rewrite fmap_delete.
  - intros ns n s e s'. case_match eqn:E; [done|]. intros [= _ <-] _. by rewrite lookup_fmap, E.
  - intros ns o s. by case_match.
Qed.

(** ** Observations for the worked examples *)

Definition finished {A} (p : prog A) : option A := match p with Ret a => Some a | Call _ _ => None end.

Lemma finished_ret {A} (p : prog A) a : finished p = Some a → p = Ret a.
Proof. destruct p; simpl; congruence. Qed.

(** A request as a verb, the object's name and its finalizers. *)
Definition request_summary (r : request) : string * string * list string :=
  match r with
  | IPAddressCreate o => ("create ip", Name (ip_meta o), [])
  | IPAddressDelete n => ("delete ip", n, [])
  | GatewayGet _ n => ("get gateway", n, [])
  | GatewayUpdate _ o => ("update gateway", Name (gw_meta o), Finalizers (gw_meta o))
  | GatewayUpdateStatus _ o => ("gateway status", Name (gw_meta o), Finalizers (gw_meta o))
  | GatewayClassUpdateStatus o => ("class status", Name (gc_meta o), [])
  | TCPRouteUpdateStatus _ o => ("route status", Name (rt_meta o), [])
  | EndpointSelectorUpdateStatus _ o => ("selector status", nn_Name (unstructured_key o), [])
  | EndpointSliceCreate _ o => ("create slice", Name (es_meta o), [])
  | EndpointSliceUpdate _ o => ("update slice", Name (es_meta o), [])
  | EndpointSliceDelete _ n => ("delete slice", n, [])
  end.

(** Names of the claimed addresses, and the addresses of the written statuses. *)
Definition claimed_names (tr : list request) : list string :=
  omap (λ r, match r with IPAddressCreate o => Some (Name (ip_meta o)) | _ => None end) tr.

Definition published (tr : list request) : list (list string) :=
  omap (λ r, match r with
             | GatewayUpdateStatus _ o => Some (sa_Value <$> Addresses (gw_status o)) | _ => None end) tr.

Lemma claimed_names_in tr name :
  name ∈ claimed_names tr → ∃ o, IPAddressCreate o ∈ tr ∧ Name (ip_meta o) = name.
Proof. unfold claimed_names. rewrite list_elem_of_omap. intros ([] & ? & [=]); eauto. Qed.

Lemma published_in tr v vs :
  v :: vs ∈ published tr →
  ∃ ns o a, GatewayUpdateStatus ns o ∈ tr ∧ a ∈ Addresses (gw_status o) ∧ sa_Value a = v.
Proof.
  unfold published. rewrite list_elem_of_omap. intros ([] & Hin & [= Hv]).
  destruct (Addresses (gw_status o)) as [|a rest] eqn:E; [done|]. injection Hv as Hv _.
  exists ns, o, a. rewrite E. split_and!; [done|by left|done].
Qed.

Lemma exec_fst {A} (p : prog A) (s : Server) a :
  (exec ref_handle p s).1 = a → exec ref_handle p s = (a, (exec ref_handle p s).2).
Proof. intros <-. apply surjective_pairing. Qed.
