(* ===== verification/Ipam.v ===== *)
(** * internal/controller/ipam.go

    VIP allocation from ServiceCIDR ranges into IPAddress objects, release, and
    the finalizer that protects it. *)

From S2P Require Import Prelude GoNet GoStrings KubeTypes Api Indexers Status.

(** ** Address arithmetic *)

(** [next[i]++] for i = 3, 2, 1, 0 with the byte's wrap-around, stopping at the
    first byte that does not wrap to zero; [i] counts the bytes left. *)
Fixpoint nextAddr_loop (i : nat) (next : list Z) : Addr :=
  match i with
  | O => AddrInvalid
  | S i' =>
      let next := <[i' := (next !!! i' + 1) mod 256]> next in
      if decide (next !!! i' ≠ 0) then Addr4 next else nextAddr_loop i' next
  end.

(** Only IPv4 addresses get here ([listIPv4ServiceCIDRs] drops the others). *)
Definition nextAddr (addr : Addr) : Addr :=
  match addr with
  | Addr4 next => nextAddr_loop 4 next
  | _ => AddrInvalid
  end.

Definition firstAllocatable (prefix : Prefix) : Addr := nextAddr (pfx_addr prefix).

(** [addr[byteIndex] |= 1 << maskBit]. *)
Definition set_bit (addr : list Z) (bit : nat) : list Z :=
  let byteIndex := (bit / 8)%nat in
  let maskBit := 7 - Z.of_nat (bit mod 8) in
  <[byteIndex := Z.lor (addr !!! byteIndex) (Z.shiftl 1 maskBit)]> addr.

Definition lastAddr (prefix : Prefix) : Addr :=
  match pfx_addr (Masked prefix) with
  | Addr4 addr => Addr4 (foldl set_bit addr (seq (pfx_bits prefix) (32 - pfx_bits prefix)))
  | _ => AddrInvalid
  end.

Definition isLastAddress (prefix : Prefix) (addr : Addr) : bool :=
  bool_decide (addr = lastAddr prefix).

(** [candidate.String()] of an IPv4 candidate. *)
Definition addr_string (a : Addr) : string := dotted (addr_bytes a).

(** ** In-place deletion

    [filtered := values[:0]] shares the backing array of [values]: the loop
    reads index [r] and writes index [w] of the same array. *)
Fixpoint deleteString_loop (target : string) (n r w : nat) (arr : list string) : list string * nat :=
  match n with
  | O => (arr, w)
  | S n' =>
      let value := arr !!! r in
      if decide (value = target) then deleteString_loop target n' (S r) w arr
      else deleteString_loop target n' (S r) (S w) (<[w := value]> arr)
  end.

Definition deleteString (values : list string) (target : string) : list string :=
  let '(arr, w) := deleteString_loop target (length values) 0 0 values in take w arr.

(** ** Reading the caches *)

Section ipam.
Context `{API : !ApiMachinery}.

Definition serviceCIDRReady (serviceCIDR : option ServiceCIDR) : bool :=
  match serviceCIDR with
  | None => false
  | Some sc =>
      match sc_Conditions sc with
      | [] => true
      | cs =>
          (fix go (cs : list Condition) : bool :=
             match cs with
             | [] => true
             | c :: cs' =>
                 if decide (c_Type c ≠ ServiceCIDRConditionReady) then go cs'
                 else bool_decide (c_Status c = ConditionTrue)
             end) cs
      end
  end.

(** The IPv4 prefixes among the ranges of one ServiceCIDR. *)
Definition ipv4_prefixes (raws : list string) : list Prefix :=
  omap (λ raw, prefix ← ParsePrefix raw;
               if Is4 (pfx_addr prefix) then Some (Masked prefix) else None) raws.

Definition listIPv4ServiceCIDRs (c : Caches) : result (list Prefix) :=
  let! items := serviceCIDRs_List c in
  let out := foldl (λ out item,
    match item with
    | None => out
    | Some sc =>
        if decide (DeletionTimestamp (sc_meta sc) ≠ None) then out
        else if negb (serviceCIDRReady item) then out
        else out ++ ipv4_prefixes (CIDRs sc)
    end) [] items in
  Ok (slices_SortFunc (cmp_on prefix4_string) out).

Definition listTakenIPs (c : Caches) : result (gset string) :=
  let! items := ipAddresses_List c in
  Ok (foldl (λ out item,
        match item with None => out | Some ip => {[Name (ip_meta ip)]} ∪ out end) ∅ items).

Definition listOwnedGatewayIPAddresses (c : Caches) (key : NamespacedName) : result (list IPAddress) :=
  let! items := ipAddress_ByGateway c (namespacedKey key) in
  Ok (omap (λ item,
        match item with
        | OIPAddress ip =>
            if decide (label (Labels (ip_meta ip)) managedByLabelKey ≠ managedByLabelValue)
            then None else Some ip
        | _ => None
        end) items).

Definition gateway_key (gateway : Gateway) : NamespacedName := meta_key (gw_meta gateway).

(** ** Allocation *)

Definition vip_claim (gateway : Gateway) (candidate : Addr) : IPAddress :=
  mkIPAddress
    (mkMeta "" (addr_string candidate) "" 0 None
       (<[ipFamilyLabelKey := ipFamilyIPv4Value]> {[managedByLabelKey := managedByLabelValue]})
       [] [])
    (Some (mkIPParentRef gatewayAPIGroup "gateways"
             (Namespace (gw_meta gateway)) (Name (gw_meta gateway)))).

(** The inner loop over one prefix.  [inl]: the function returned; [inr]: the
    loop ended, with the set of taken names.  [fuel] bounds the rounds. *)
Fixpoint allocate_in (gateway : Gateway) (prefix : Prefix) (fuel : nat) (candidate : Addr)
    (taken : gset string) : prog (result string + gset string) :=
  match fuel with
  | O => Ret (inr taken)
  | S fuel =>
      if negb (IsValid candidate && Contains prefix candidate) then Ret (inr taken)
      else if isLastAddress prefix candidate then Ret (inr taken)
      else if decide (addr_string candidate ∈ taken)
      then allocate_in gateway prefix fuel (nextAddr candidate) taken
      else Call (IPAddressCreate (vip_claim gateway candidate)) (λ r : result unit,
        match r with
        | Err e =>
            if IsAlreadyExists e
            then allocate_in gateway prefix fuel (nextAddr candidate) ({[addr_string candidate]} ∪ taken)
            else Ret (inl (Err e))
        | Ok _ => Ret (inl (Ok (addr_string candidate)))
        end)
  end.

(** Every address of a prefix is visited at most once. *)
Definition prefix_fuel (prefix : Prefix) : nat := Z.to_nat (net_size (pfx_bits prefix)).

Definition all_allocated : error := ErrorString "all IPv4 ServiceCIDR addresses are allocated".
Definition no_cidrs : error := ErrorString "no IPv4 ServiceCIDR ranges are available for allocation".

Fixpoint allocate (gateway : Gateway) (cidrs : list Prefix) (taken : gset string)
    : prog (result string) :=
  match cidrs with
  | [] => Ret (Err all_allocated)
  | prefix :: cidrs =>
      let* r := allocate_in gateway prefix (prefix_fuel prefix) (firstAllocatable prefix) taken in
      match r with
      | inl result => Ret result
      | inr taken => allocate gateway cidrs taken
      end
  end.

(** Deleting a list of IPAddress objects, tolerating the ones already gone. *)
Fixpoint delete_ips (ips : list IPAddress) : prog (result unit) :=
  match ips with
  | [] => Ret (Ok tt)
  | ip :: ips =>
      Call (IPAddressDelete (Name (ip_meta ip))) (λ r : result unit,
        match r with
        | Err e => if IsNotFound e then delete_ips ips else Ret (Err e)
        | Ok _ => delete_ips ips
        end)
  end.

Definition ip_name_key (ip : IPAddress) : string := Name (ip_meta ip).

Definition ensureGatewayVIP (c : Caches) (gateway : Gateway) : prog (result string) :=
  get! owned := listOwnedGatewayIPAddresses c (gateway_key gateway) in
  match slices_SortFunc (cmp_on ip_name_key) owned with
  | first :: others =>
      do! _ := delete_ips others in Ret (Ok (Name (ip_meta first)))
  | [] =>
      get! cidrs := listIPv4ServiceCIDRs c in
      if decide (length cidrs = 0%nat) then Ret (Err no_cidrs)
      else
        get! taken := listTakenIPs c in
        allocate gateway cidrs taken
  end.

Definition releaseGatewayIPAddresses (c : Caches) (gateway : Gateway) : prog (result unit) :=
  get! owned := listOwnedGatewayIPAddresses c (gateway_key gateway) in
  delete_ips owned.

(** ** Finalizer *)

Definition with_finalizers (gateway : Gateway) (fs : list string) : Gateway :=
  let m := gw_meta gateway in
  mkGateway (mkMeta (Namespace m) (Name m) (UID m) (Generation m) (DeletionTimestamp m)
               (Labels m) fs (OwnerReferences m))
    (gw_spec gateway) (gw_status gateway).

Definition with_status (gateway : Gateway) (st : GatewayStatus) : Gateway :=
  mkGateway (gw_meta gateway) (gw_spec gateway) st.

Definition has_finalizer (gateway : Gateway) : bool :=
  bool_decide (controllerFinalizer ∈ Finalizers (gw_meta gateway)).

Definition gatewayPreviouslyManaged (c : Caches) (gateway : Gateway) : result bool :=
  if has_finalizer gateway then Ok true
  else
    let! owned := listOwnedGatewayIPAddresses c (gateway_key gateway) in
    Ok (0 <? length owned)%nat.

Definition clearManagedGatewayStatus (gateway : Gateway) : prog (result unit) :=
  let updated := with_status gateway
    (mkGatewayStatus [] (removeConditions (Conditions (gw_status gateway)) [TypeAccepted; TypeProgrammed]) []) in
  if gatewayStatusEqual gateway updated then Ret (Ok tt)
  else perform (GatewayUpdateStatus (Namespace (gw_meta updated)) updated).

(** The boolean says whether the finalizer was added. *)
Definition ensureGatewayFinalizer (gateway : Gateway) : prog (result bool) :=
  if has_finalizer gateway then Ret (Ok false)
  else
    Call (GatewayGet (Namespace (gw_meta gateway)) (Name (gw_meta gateway))) (λ r : result Gateway,
      match r with
      | Err e => Ret (Err e)
      | Ok current =>
          if has_finalizer current then Ret (Ok false)
          else
            let updated := with_finalizers current
              (Finalizers (gw_meta current) ++ [controllerFinalizer]) in
            do! _ := perform (GatewayUpdate (Namespace (gw_meta updated)) updated) in
            Ret (Ok true)
      end).

Definition removeGatewayFinalizer (gateway : Gateway) : prog (result unit) :=
  Call (GatewayGet (Namespace (gw_meta gateway)) (Name (gw_meta gateway))) (λ r : result Gateway,
    match r with
    | Err e => if IsNotFound e then Ret (Ok tt) else Ret (Err e)
    | Ok current =>
        if negb (has_finalizer current) then Ret (Ok tt)
        else
          let updated := with_finalizers current
            (deleteString (Finalizers (gw_meta current)) controllerFinalizer) in
          Call (GatewayUpdate (Namespace (gw_meta updated)) updated) (λ r : result unit,
            match r with
            | Err e => if IsNotFound e then Ret (Ok tt) else Ret (Err e)
            | Ok _ => Ret (Ok tt)
            end)
    end).

Definition cleanupGatewayResources (c : Caches) (gateway : Gateway) : prog (result unit) :=
  do! _ := releaseGatewayIPAddresses c gateway in
  removeGatewayFinalizer gateway.

End ipam.

(** ** Facts: address arithmetic *)

Lemma nextAddr_wf bs :
  wf4 bs →
  nextAddr (Addr4 bs) =
  if decide (value4 bs = 2 ^ 32 - 1) then AddrInvalid else Addr4 (bytes4 (value4 bs + 1)).
Proof.
  intros H. destruct_wf4 H. change (2 ^ 32 - 1) with 4294967295.
  assert (Hsucc : ∀ x, 0 ≤ x < 256 → (x + 1) mod 256 = if decide (x = 255) then 0 else x + 1).
  { intros x Hx. case_decide; subst; [done|]. by apply Z.mod_small; lia. }
  cbn -[Z.add Z.modulo]. rewrite !Hsucc by done.
  unfold bytes4, value4.
  repeat case_decide; subst; cbn -[Z.add Z.mul Z.div Z.modulo] in *; try lia; f_equal;
    repeat f_equal; Z.to_euclidean_division_equations; lia.
Qed.

(** Setting the low [k] bits of a byte whose low [k] bits are zero. *)
Definition fill_byte (k : nat) (b : Z) : Z :=
  foldl (λ b i, Z.lor b (Z.shiftl 1 (Z.of_nat i))) b (rev (seq 0 k)).

Lemma fill_byte_spec k b :
  (k ≤ 8)%nat → byte_wf b →
  fill_byte k (b / 2 ^ Z.of_nat k * 2 ^ Z.of_nat k)
  = b / 2 ^ Z.of_nat k * 2 ^ Z.of_nat k + 2 ^ Z.of_nat k - 1.
Proof.
  intros Hk Hb.
  assert (H : forallb (λ k, forallb (λ b, fill_byte k (b / 2 ^ Z.of_nat k * 2 ^ Z.of_nat k)
      =? b / 2 ^ Z.of_nat k * 2 ^ Z.of_nat k + 2 ^ Z.of_nat k - 1) (seqZ 0 256)) (seq 0 9) = true)
    by (vm_compute; done).
  rewrite forallb_forall in H. specialize (H k ltac:(apply in_seq; lia)).
  apply Z.eqb_eq. by apply (byte_check _ H).
Qed.

Definition host_bits (bits i : nat) : nat := (8 - Nat.min 8 (bits - 8 * i))%nat.

Lemma set_bits_fill n b0 b1 b2 b3 :
  (n ≤ 32)%nat →
  foldl set_bit [b0; b1; b2; b3] (seq n (32 - n)) =
  [fill_byte (host_bits n 0) b0; fill_byte (host_bits n 1) b1;
   fill_byte (host_bits n 2) b2; fill_byte (host_bits n 3) b3].
Proof.
  revert n. apply nat_le_32_cases. cbn [seq].
  repeat (apply Forall_cons; [|]); try apply Forall_nil;
    cbn -[Z.lor Z.shiftl]; reflexivity.
Qed.

Lemma fill_masked n i b :
  byte_wf b →
  fill_byte (host_bits n i) (mask_byte n i b) = mask_byte n i b + 2 ^ Z.of_nat (host_bits n i) - 1
  ∧ byte_wf (mask_byte n i b + 2 ^ Z.of_nat (host_bits n i) - 1).
Proof.
  intros Hb. rewrite mask_byte_shift. fold (host_bits n i).
  assert (Hk : (host_bits n i ≤ 8)%nat) by (unfold host_bits; lia). split; [by apply fill_byte_spec|].
  unfold byte_wf in *. set (k := host_bits n i) in *. clearbody k.
  assert (2 ^ Z.of_nat k * 2 ^ (8 - Z.of_nat k) = 256) as E.
  { rewrite <-Z.pow_add_r by lia. by replace (Z.of_nat k + (8 - Z.of_nat k)) with 8 by lia. }
  assert (0 < 2 ^ Z.of_nat k) by (apply Z.pow_pos_nonneg; lia).
  assert (0 < 2 ^ (8 - Z.of_nat k)) by (apply Z.pow_pos_nonneg; lia).
  set (m := 2 ^ Z.of_nat k) in *. set (q := 2 ^ (8 - Z.of_nat k)) in *. clearbody m q.
  assert (b / m < q) by (apply Z.div_lt_upper_bound; lia). pose proof (Z.div_pos b m). nia.
Qed.

Lemma host_bits_sum n :
  (n ≤ 32)%nat →
  (2 ^ Z.of_nat (host_bits n 0) - 1) * 16777216 + (2 ^ Z.of_nat (host_bits n 1) - 1) * 65536
  + (2 ^ Z.of_nat (host_bits n 2) - 1) * 256 + (2 ^ Z.of_nat (host_bits n 3) - 1) = net_size n - 1.
Proof.
  revert n. apply nat_le_32_cases. cbn [seq].
  repeat (apply Forall_cons; [vm_compute; reflexivity|]). apply Forall_nil.
Qed.

Lemma lastAddr_spec p :
  prefix4_wf p →
  lastAddr p = Addr4 (bytes4 (base_value p + net_size (pfx_bits p) - 1))
  ∧ 0 ≤ base_value p ∧ base_value p + net_size (pfx_bits p) ≤ 2 ^ 32.
Proof.
  intros (bs & Hp & Hbs & Hn). destruct p as [a n]. simpl in *. subst a.
  unfold lastAddr, base_value. cbn [Masked pfx_addr pfx_bits addr_bytes].
  destruct_wf4 Hbs. unfold mask_bytes. cbn [imap compose]. rewrite set_bits_fill by done.
  destruct (fill_masked n 0 b0) as [-> ?]; [done|]. destruct (fill_masked n 1 b1) as [-> ?]; [done|].
  destruct (fill_masked n 2 b2) as [-> ?]; [done|]. destruct (fill_masked n 3 b3) as [-> ?]; [done|].
  pose proof (host_bits_sum n Hn) as Hsum.
  set (l := [_; _; _; _]) at 1. assert (Hl : wf4 l) by (by apply wf4_intro).
  assert (Hv : value4 l = value4 [mask_byte n 0 b0; mask_byte n 1 b1; mask_byte n 2 b2; mask_byte n 3 b3]
                          + net_size n - 1).
  { subst l. unfold value4. lia. }
  rewrite <-Hv, bytes4_value4 by done. split; [done|].
  pose proof (value4_bound l Hl).
  assert (wf4 [mask_byte n 0 b0; mask_byte n 1 b1; mask_byte n 2 b2; mask_byte n 3 b3])
    as Hm%value4_bound by (apply wf4_intro; by apply mask_byte_wf). lia.
Qed.

(** The addresses of a prefix that may be allocated: all but the network
    address and the last one, in increasing order. *)
Definition allocatable (p : Prefix) : list (list Z) :=
  bytes4 <$> seqZ (base_value p + 1) (net_size (pfx_bits p) - 2).

Lemma elem_of_allocatable p bs :
  prefix4_wf p →
  bs ∈ allocatable p ↔
  wf4 bs ∧ base_value p < value4 bs < base_value p + net_size (pfx_bits p) - 1.
Proof.
  intros (_ & Hlo & Hhi)%lastAddr_spec. unfold allocatable. rewrite list_elem_of_fmap. split.
  - intros (v & -> & Hv%elem_of_seqZ). split; [apply bytes4_wf; lia|]. rewrite value4_bytes4; lia.
  - intros [Hwf Hv]. exists (value4 bs). split; [by rewrite bytes4_value4|]. apply elem_of_seqZ. lia.
Qed.

(** ** Facts: allocation as a walk over a list of candidates *)

Section alloc.
Context `{API : !ApiMachinery}.

(** The same walk over an explicit list of candidates. *)
Fixpoint claim_list (gateway : Gateway) (cs : list (list Z)) (taken : gset string)
    : prog (result string + gset string) :=
  match cs with
  | [] => Ret (inr taken)
  | bs :: cs =>
      if decide (dotted bs ∈ taken) then claim_list gateway cs taken
      else Call (IPAddressCreate (vip_claim gateway (Addr4 bs))) (λ r : result unit,
        match r with
        | Err e =>
            if IsAlreadyExists e then claim_list gateway cs ({[dotted bs]} ∪ taken)
            else Ret (inl (Err e))
        | Ok _ => Ret (inl (Ok (dotted bs)))
        end)
  end.

(** Prefixes as [listIPv4ServiceCIDRs] returns them. *)
Definition masked4 (p : Prefix) : Prop := prefix4_wf p ∧ Masked p = p.

Lemma masked4_addr p : masked4 p → pfx_addr p = Addr4 (bytes4 (base_value p)).
Proof.
  intros [(bs & Hp & Hbs & Hn) Hm]. unfold base_value. rewrite Hm, Hp. simpl.
  by rewrite bytes4_value4.
Qed.

Lemma seqZ_step v n : 0 < n → seqZ v n = v :: seqZ (v + 1) (n - 1).
Proof. intros. rewrite seqZ_cons by done. do 2 f_equal; lia. Qed.

Lemma allocate_in_walk gateway p fuel v taken :
  prefix4_wf p →
  let last := base_value p + net_size (pfx_bits p) - 1 in
  base_value p < v ≤ last → (Z.to_nat (last - v + 1) ≤ fuel)%nat →
  allocate_in gateway p fuel (Addr4 (bytes4 v)) taken
  ≡ claim_list gateway (bytes4 <$> seqZ v (last - v)) taken.
Proof.
  intros Hp last. destruct (lastAddr_spec p Hp) as (Hlast & Hlo & Hhi). fold last in Hlast.
  revert v taken. induction fuel as [|fuel IH]; intros v taken Hv Hfuel; [lia|]. cbn [allocate_in].
  assert (Hwf : wf4 (bytes4 v)) by (apply bytes4_wf; lia).
  assert (Hval : value4 (bytes4 v) = v) by (apply value4_bytes4; lia).
  assert (Contains p (Addr4 (bytes4 v)) = true) as ->
    by (rewrite Contains_iff, Hval by done; unfold last in *; lia). cbn [IsValid andb negb].
  unfold isLastAddress. rewrite Hlast. case_bool_decide as Hl.
  - assert (v = last) as ->.
    { assert (bytes4 v = bytes4 last) as Hb%(f_equal value4) by congruence.
      rewrite Hval, value4_bytes4 in Hb by lia. done. }
    by rewrite Z.sub_diag.
  - assert (v ≠ last) by (intros ->; done). rewrite seqZ_step, list.fmap_cons by lia. cbn [claim_list].
    assert (Hnext : nextAddr (Addr4 (bytes4 v)) = Addr4 (bytes4 (v + 1))).
    { rewrite nextAddr_wf, Hval by done. by rewrite decide_False by lia. }
    replace (last - v - 1) with (last - (v + 1)) by lia.
    change (addr_string (Addr4 (bytes4 v))) with (dotted (bytes4 v)).
    case_decide; [rewrite Hnext; apply IH; lia|]. constructor. intros [?|e]; [done|].
    destruct (IsAlreadyExists e); [rewrite Hnext; apply IH; lia|done].
Qed.

Lemma allocate_in_spec gateway p fuel taken :
  masked4 p → (prefix_fuel p ≤ fuel)%nat →
  allocate_in gateway p fuel (firstAllocatable p) taken
  ≡ claim_list gateway (allocatable p) taken.
Proof.
  intros Hm Hfuel. pose proof (masked4_addr p Hm) as Ha. destruct Hm as [Hp _].
  destruct (lastAddr_spec p Hp) as (Hlast & Hlo & Hhi).
  assert (Hn : 0 < net_size (pfx_bits p)) by (destruct Hp as (?&?&?&?); by apply net_size_pos).
  unfold prefix_fuel in Hfuel. unfold firstAllocatable, allocatable. rewrite Ha, nextAddr_wf, value4_bytes4
    by (try apply bytes4_wf; lia).
  destruct (decide (net_size (pfx_bits p) = 1)) as [E|E].
  - rewrite E in *. rewrite seqZ_nil by lia. destruct fuel as [|fuel]; [done|]. simpl. case_decide; [done|].
    assert (Contains p (Addr4 (bytes4 (base_value p + 1))) = false) as ->; [|done].
    apply not_true_iff_false. rewrite Contains_iff, value4_bytes4 by (try apply bytes4_wf; lia || done).
    rewrite E. lia.
  - rewrite decide_False by lia.
    rewrite (allocate_in_walk gateway p _ (base_value p + 1)) by (done || lia).
    by replace (base_value p + net_size (pfx_bits p) - 1 - (base_value p + 1))
      with (net_size (pfx_bits p) - 2) by lia.
Qed.

(** The candidates that are actually claimed, in order: the ones not taken. *)
Fixpoint attempts (taken : gset string) (cs : list (list Z)) : list (list Z) :=
  match cs with
  | [] => []
  | bs :: cs =>
      if decide (dotted bs ∈ taken) then attempts taken cs
      else bs :: attempts ({[dotted bs]} ∪ taken) cs
  end.

(** Claiming candidates until one is not already taken on the server. *)
Fixpoint try_claims (gateway : Gateway) (cs : list (list Z)) : prog (result string) :=
  match cs with
  | [] => Ret (Err all_allocated)
  | bs :: cs =>
      Call (IPAddressCreate (vip_claim gateway (Addr4 bs))) (λ r : result unit,
        match r with
        | Err e => if IsAlreadyExists e then try_claims gateway cs else Ret (Err e)
        | Ok _ => Ret (Ok (dotted bs))
        end)
  end.

Lemma claim_list_then gateway cs taken (rest : gset string → prog (result string)) css :
  (∀ taken, rest taken ≡ try_claims gateway (attempts taken css)) →
  bind (claim_list gateway cs taken)
    (λ r, match r with inl result => Ret result | inr taken => rest taken end)
  ≡ try_claims gateway (attempts taken (cs ++ css)).
Proof.
  intros Hrest. revert taken. induction cs as [|bs cs IH]; intros taken; simpl; [apply Hrest|].
  case_decide; [apply IH|]. simpl. constructor. intros [?|e]; [done|].
  destruct (IsAlreadyExists e); [apply IH|done].
Qed.

Lemma allocate_spec gateway cidrs taken :
  Forall masked4 cidrs →
  allocate gateway cidrs taken ≡ try_claims gateway (attempts taken (cidrs ≫= allocatable)).
Proof.
  intros Hall. revert taken. induction Hall as [|p cidrs Hp _ IH]; intros taken; simpl; [done|].
  rewrite (allocate_in_spec gateway p _ taken Hp (le_n _)). by apply claim_list_then.
Qed.

Lemma attempts_elem taken cs bs :
  bs ∈ attempts taken cs → bs ∈ cs ∧ dotted bs ∉ taken.
Proof.
  revert taken. induction cs as [|c cs IH]; intros taken; simpl; [set_solver|].
  case_decide; [intros []%IH; set_solver|].
  rewrite list.elem_of_cons. intros [->|[? ?]%IH]; set_solver.
Qed.

Lemma attempts_nil taken cs : (∀ bs, bs ∈ cs → dotted bs ∈ taken) → attempts taken cs = [].
Proof.
  induction cs as [|c cs IH]; intros H; simpl; [done|].
  rewrite decide_True by set_solver. apply IH. set_solver.
Qed.

(** Every free candidate is attempted. *)
Lemma attempts_complete taken cs bs :
  bs ∈ cs → dotted bs ∉ taken → ∃ bs', bs' ∈ attempts taken cs ∧ dotted bs' = dotted bs.
Proof.
  revert taken. induction cs as [|c cs IH]; intros taken; simpl; [set_solver|].
  rewrite list.elem_of_cons. intros Hin Hfree. case_decide as Hc.
  - destruct Hin as [->|Hin]; [done|]. by apply IH.
  - destruct (decide (dotted bs = dotted c)) as [E|E].
    + exists c. split; [by left|done].
    + destruct Hin as [->|Hin]; [done|].
      destruct (IH ({[dotted c]} ∪ taken)) as (b & Hb & Eb); [done|set_solver|].
      exists b. split; [by right|done].
Qed.

End alloc.

(** ** Facts: what the caches yield *)

Section lists.
Context `{API : !ApiMachinery}.

Lemma Masked_masked4 p : prefix4_wf p → masked4 (Masked p).
Proof.
  intros Hp. split; [by apply Masked_wf|].
  pose proof (Masked_base p Hp) as Hb. destruct Hp as (bs & Ha & Hbs & Hn).
  destruct p as [a n]. simpl in *. subst a.
  change (Masked (mkPrefix (Addr4 bs) n)) with (mkPrefix (Addr4 (mask_bytes n bs)) n) in *.
  unfold base_value in Hb. cbn [Masked pfx_addr pfx_bits addr_bytes] in *.
  do 2 f_equal. apply value4_inj; auto using mask_bytes_wf.
Qed.

Lemma elem_of_ipv4_prefixes raws p :
  p ∈ ipv4_prefixes raws ↔
  ∃ raw q, raw ∈ raws ∧ ParsePrefix raw = Some q ∧ Is4 (pfx_addr q) = true ∧ p = Masked q.
Proof.
  unfold ipv4_prefixes. rewrite list_elem_of_omap. split.
  - intros (raw & Hin & H). destruct (ParsePrefix raw) as [q|] eqn:E; [|done]. simpl in H.
    destruct (Is4 (pfx_addr q)) eqn:E4; [|done]. injection H as <-. eauto 10.
  - intros (raw & q & Hin & Hq & H4 & ->). exists raw. rewrite Hq. simpl. by rewrite H4.
Qed.

(** Which ServiceCIDR objects are used. *)
Definition usable_cidr (item : option ServiceCIDR) (sc : ServiceCIDR) : Prop :=
  item = Some sc ∧ DeletionTimestamp (sc_meta sc) = None ∧ serviceCIDRReady item = true.

Lemma listIPv4ServiceCIDRs_elem c out p :
  listIPv4ServiceCIDRs c = Ok out →
  p ∈ out ↔ ∃ items item sc, serviceCIDRs_List c = Ok items ∧ item ∈ items ∧
              usable_cidr item sc ∧ p ∈ ipv4_prefixes (CIDRs sc).
Proof.
  unfold listIPv4ServiceCIDRs. destruct (serviceCIDRs_List c) as [items|]; simpl; [|done].
  intros [= <-]. unfold slices_SortFunc. rewrite elem_of_less_sort.
  rewrite (foldl_collect _ (λ out, p ∈ out)
    (λ item, ∃ sc, usable_cidr item sc ∧ p ∈ ipv4_prefixes (CIDRs sc))); [set_solver|].
  unfold usable_cidr. intros out [sc|]; [|set_solver].
  case_decide as Hdel; [set_solver|]. destruct (serviceCIDRReady (Some sc)) eqn:Er; simpl.
  - rewrite list.elem_of_app. split; [|naive_solver]. intros [?|?]; [by left|right]. by exists sc.
  - split; [by left|]. intros [?|(sc' & (_ & _ & ?) & _)]; congruence.
Qed.

Lemma listIPv4ServiceCIDRs_masked c out : listIPv4ServiceCIDRs c = Ok out → Forall masked4 out.
Proof.
  intros H. apply list.Forall_forall. intros p Hp.
  rewrite (listIPv4ServiceCIDRs_elem c out p H) in Hp.
  destruct Hp as (_ & _ & sc & _ & _ & _ & (raw & q & _ & Hq & H4 & ->)%elem_of_ipv4_prefixes).
  eapply Masked_masked4, ParsePrefix_wf; eauto.
Qed.

Lemma elem_of_listTakenIPs c taken name :
  listTakenIPs c = Ok taken →
  name ∈ taken ↔ ∃ items ip, ipAddresses_List c = Ok items ∧ Some ip ∈ items ∧ Name (ip_meta ip) = name.
Proof.
  unfold listTakenIPs. destruct (ipAddresses_List c) as [items|]; simpl; [|done]. intros [= <-].
  rewrite (foldl_collect _ (λ out, name ∈ out)
    (λ item, ∃ ip, item = Some ip ∧ Name (ip_meta ip) = name)); [set_solver|].
  intros out [ip|]; set_solver.
Qed.

Lemma elem_of_owned c key owned ip :
  listOwnedGatewayIPAddresses c key = Ok owned →
  ip ∈ owned ↔ ∃ items, ipAddress_ByGateway c (namespacedKey key) = Ok items ∧ OIPAddress ip ∈ items ∧
                 label (Labels (ip_meta ip)) managedByLabelKey = managedByLabelValue.
Proof.
  unfold listOwnedGatewayIPAddresses. destruct (ipAddress_ByGateway c _) as [items|]; simpl; [|done].
  intros [= <-]. rewrite list_elem_of_omap. split.
  - intros (o & Ho & E). destruct o; try done. case_decide; [done|]. injection E as ->.
    by exists items.
  - intros (? & [= <-] & Ho & El). exists (OIPAddress ip). split; [done|]. by rewrite decide_False by auto.
Qed.

End lists.

(** ** Facts: claiming and deleting on the server *)

Section server.
Context `{API : !ApiMachinery}.

Definition gateway_ref (gateway : Gateway) : IPParentReference :=
  mkIPParentRef gatewayAPIGroup "gateways" (Namespace (gw_meta gateway)) (Name (gw_meta gateway)).

Section with_server.
Context {S : Type} (handle : ∀ r : request, S → response r * S)
  (owner : S → gmap string (option IPParentReference)) `{!IPAddressServer handle owner}.

(** Claiming stops at the first candidate the server does not know. *)
Lemma try_claims_ok gateway cs s v s' :
  exec handle (try_claims gateway cs) s = (Ok v, s') →
  ∃ l1 bs l2, cs = l1 ++ bs :: l2 ∧ v = dotted bs ∧
    owner s !! v = None ∧ owner s' = <[v := Some (gateway_ref gateway)]> (owner s) ∧
    (∀ b, b ∈ l1 → is_Some (owner s !! dotted b)) ∧
    trace handle (try_claims gateway cs) s
    = (λ b, IPAddressCreate (vip_claim gateway (Addr4 b))) <$> (l1 ++ [bs]).
Proof.
  revert s. induction cs as [|bs cs IH]; intros s; simpl; [done|].
  destruct (handle (IPAddressCreate (vip_claim gateway (Addr4 bs))) s) as [[[]|e] s1] eqn:E; simpl in *.
  - intros [= <- <-]. apply ips_create_ok in E as [Hfree Ho]. exists [], bs, cs.
    split_and!; try done. set_solver.
  - destruct (IsAlreadyExists e) eqn:Ee; simpl; [|done]. intros H.
    destruct (ips_create_exists _ _ _ _ E Ee) as [Hsame Hex].
    destruct (IH s1 H) as (l1 & b & l2 & -> & -> & Hf & Ho & Hl1 & Ht).
    exists (bs :: l1), b, l2. rewrite Hsame in *. split_and!; try done.
    + intros b' [->|?]%list.elem_of_cons; [done|]. auto.
    + by rewrite Ht.
Qed.

(** Deleting a list of objects leaves none of them and touches no other. *)
Lemma delete_ips_ok ips s s' :
  exec handle (delete_ips ips) s = (Ok tt, s') →
  ∀ n, owner s' !! n = if decide (n ∈ ip_name_key <$> ips) then None else owner s !! n.
Proof.
  revert s. induction ips as [|ip ips IH]; intros s; csimpl.
  { by intros [= ->]. }
  set (nm := Name (ip_meta ip)).
  destruct (handle (IPAddressDelete nm) s) as [[[]|e] s1] eqn:E; simpl in *.
  - intros H n. rewrite (IH _ H), (ips_delete_ok _ _ _ E).
    change (ip_name_key ip) with nm. destruct (decide (n = nm)) as [->|Hne].
    + rewrite lookup_delete_eq. repeat case_decide; set_solver.
    + rewrite lookup_delete_ne by done. repeat case_decide; set_solver.
  - destruct (IsNotFound e) eqn:Ee; simpl; [|done]. intros H n.
    destruct (ips_delete_notfound _ _ _ _ E Ee) as [Hs Hnone].
    rewrite (IH _ H), Hs. change (ip_name_key ip) with nm. destruct (decide (n = nm)) as [->|Hne].
    + rewrite Hnone. repeat case_decide; set_solver.
    + repeat case_decide; set_solver.
Qed.

End with_server.
End server.

(** ** Facts: in-place deletion *)

(** With [w ≤ r] the write index never reaches an element still to be read:
    after reading [r] elements the array is the kept prefix, some stale cells,
    and the unread suffix. *)
Lemma deleteString_loop_spec target done_ stale rest :
  let arr := done_ ++ stale ++ rest in
  let '(arr', w) := deleteString_loop target (length rest) (length done_ + length stale) (length done_) arr in
  take w arr' = done_ ++ filter (λ v, v ≠ target) rest.
Proof.
  revert done_ stale. induction rest as [|x rest IH]; intros done_ stale; simpl.
  { rewrite List.app_nil_r, !List.app_nil_r. by rewrite take_app_length. }
  rewrite (List.app_assoc done_ stale). rewrite list_lookup_total_alt, lookup_app_r
    by (rewrite List.length_app; lia).
  rewrite List.length_app, Nat.sub_diag. simpl. rewrite <-List.app_assoc.
  case_decide as Hx.
  - rewrite filter_cons_False by (by intros []).
    specialize (IH done_ (stale ++ [x])). rewrite List.length_app in IH. simpl in IH.
    rewrite <-List.app_assoc, Nat.add_1_r, Nat.add_succ_r in IH. apply IH.
  - rewrite filter_cons_True by done.
    specialize (IH (done_ ++ [x])). rewrite List.length_app in IH. simpl in IH.
    rewrite Nat.add_1_r in IH. destruct stale as [|y stale]; simpl in *.
    + specialize (IH []). simpl in IH. rewrite Nat.add_0_r in IH |- *.
      rewrite <-!List.app_assoc in IH. simpl in IH.
      rewrite insert_app_r_alt, Nat.sub_diag by done. simpl. apply IH.
    + specialize (IH (stale ++ [x])). rewrite List.length_app in IH. simpl in IH.
      rewrite <-!List.app_assoc in IH. simpl in IH.
      rewrite insert_app_r_alt, Nat.sub_diag by done. simpl.
      replace (S (length done_ + S (length stale))) with (S (length done_ + (length stale + 1))) by lia.
      apply IH.
Qed.

Lemma deleteString_filter values target :
  deleteString values target = filter (λ v, v ≠ target) values.
Proof.
  unfold deleteString. pose proof (deleteString_loop_spec target [] [] values) as H. simpl in H.
  by destruct (deleteString_loop target (length values) 0 0 values).
Qed.
