(* ===== verification/IpamSpec.v ===== *)
(** * VIP allocation: properties

    What [internal/controller/ipam.go] promises: addresses come from inside a
    ready IPv4 ServiceCIDR, are free, are claimed first-fit, and are never
    shared by two Gateways, whatever the interleaving of workers; release and
    cleanup delete exactly what the Gateway owns before the finalizer goes. *)

From S2P Require Import Prelude GoNet GoStrings KubeTypes Api Indexers Status Reference Ipam.

(** ** Fixtures for the worked examples *)

Definition demo_meta (ns name : string) : ObjectMeta := mkMeta ns name "uid" 1 None ∅ [] [].

Definition demo_listener (name : string) (port : Z) : Listener := mkListener name port "TCP" None.

Definition demo_gateway (name : string) : Gateway :=
  mkGateway (demo_meta "default" name)
    (mkGatewaySpec gatewaymeta_GatewayClassName [demo_listener "tcp" 80] [])
    (mkGatewayStatus [] [] []).

Definition demo_cidr (raw : string) : ServiceCIDR := mkServiceCIDR (demo_meta "" "kubernetes") [raw] [].

Definition demo_ip (gw_name ip : string) : IPAddress :=
  vip_claim (demo_gateway gw_name) (default AddrInvalid (ParseAddr ip)).

Definition demo_store (ips : list IPAddress) (raw : string) : Store :=
  mkStore [] [demo_gateway "a"; demo_gateway "b"] [] [] [] [] ips [demo_cidr raw].

Definition demo_server (ips : list IPAddress) : Server :=
  set_ips empty_server (list_to_map ((λ ip, (Name (ip_meta ip), ip)) <$> ips)).

(** ** Allocation *)

#[local] Arguments deleteString : simpl never.

Section props.
Context `{API : !ApiMachinery}.
Context {S : Type} (handle : ∀ r : request, S → response r * S)
  (owner : S → gmap string (option IPParentReference)) `{!IPAddressServer handle owner}.

Lemma ensureGatewayVIP_fresh c gateway cidrs taken :
  listOwnedGatewayIPAddresses c (gateway_key gateway) = Ok [] →
  listIPv4ServiceCIDRs c = Ok cidrs → cidrs ≠ [] → listTakenIPs c = Ok taken →
  ensureGatewayVIP c gateway ≡ try_claims gateway (attempts taken (cidrs ≫= allocatable)).
Proof.
  intros Ho Hc Hne Ht. unfold ensureGatewayVIP. rewrite Ho, Hc, Ht. simpl.
  rewrite decide_False by (by destruct cidrs).
  apply allocate_spec. by eapply listIPv4ServiceCIDRs_masked.
Qed.

(** What a fresh allocation can end in. *)
Lemma ensureGatewayVIP_fresh_inv c gateway s v s' :
  listOwnedGatewayIPAddresses c (gateway_key gateway) = Ok [] →
  exec handle (ensureGatewayVIP c gateway) s = (Ok v, s') →
  ∃ cidrs taken, listIPv4ServiceCIDRs c = Ok cidrs ∧ cidrs ≠ [] ∧ listTakenIPs c = Ok taken ∧
    exec handle (try_claims gateway (attempts taken (cidrs ≫= allocatable))) s = (Ok v, s').
Proof.
  intros Ho Hexec. destruct (listIPv4ServiceCIDRs c) as [[|p cidrs]|e] eqn:Hc.
  - unfold ensureGatewayVIP in Hexec. by rewrite Ho, Hc in Hexec.
  - destruct (listTakenIPs c) as [taken|e] eqn:Ht.
    + exists (p :: cidrs), taken. split_and!; try done.
      pose proof (ensureGatewayVIP_fresh c gateway _ _ Ho Hc ltac:(done) Ht) as Heq.
      by apply (prog_eq_exec _ _ handle s) in Heq as [<- _].
    + unfold ensureGatewayVIP in Hexec. by rewrite Ho, Hc, Ht in Hexec.
  - unfold ensureGatewayVIP in Hexec. by rewrite Ho, Hc in Hexec.
Qed.

(** C11. A freshly allocated VIP is an address of a usable ServiceCIDR range,
    strictly between the range's network address and its last address; no
    IPAddress of that name was cached or known to the server, and the server
    gained exactly one IPAddress, whose parent is the Gateway. *)
Theorem ensureGatewayVIP_sound c gateway s v s' :
  listOwnedGatewayIPAddresses c (gateway_key gateway) = Ok [] →
  exec handle (ensureGatewayVIP c gateway) s = (Ok v, s') →
  (∃ items item sc raw p bs,
     serviceCIDRs_List c = Ok items ∧ item ∈ items ∧ usable_cidr item sc ∧
     raw ∈ CIDRs sc ∧ ParsePrefix raw = Some p ∧ wf4 bs ∧ v = dotted bs ∧
     base_value p < value4 bs < base_value p + net_size (pfx_bits p) - 1) ∧
  (∀ items ip, ipAddresses_List c = Ok items → Some ip ∈ items → Name (ip_meta ip) ≠ v) ∧
  owner s !! v = None ∧
  owner s' = <[v := Some (gateway_ref gateway)]> (owner s).
Proof.
  intros Ho Hexec. apply ensureGatewayVIP_fresh_inv in Hexec
    as (cidrs & taken & Hc & _ & Ht & Hexec); [|done].
  eapply try_claims_ok in Hexec as (l1 & bs & l2 & Heq & -> & Hfree & Howner & _ & _); [|done].
  assert (Hbs : bs ∈ attempts taken (cidrs ≫= allocatable)) by (rewrite Heq; set_solver).
  apply attempts_elem in Hbs as [Hbs Hnt]. apply list_elem_of_bind in Hbs as (p & Hbs & Hp).
  split_and!; [|clear Hbs|done..].
  - pose proof (proj1 (listIPv4ServiceCIDRs_elem c cidrs p Hc) Hp) as (items & item & sc & ? & ? & ? & Hpre).
    apply elem_of_ipv4_prefixes in Hpre as (raw & q & Hraw & Hq & H4 & ->).
    assert (Hqwf : prefix4_wf q) by (by eapply ParsePrefix_wf).
    apply elem_of_allocatable in Hbs as [Hwf Hv]; [|by apply Masked_wf].
    rewrite Masked_base in Hv by done.
    assert (pfx_bits (Masked q) = pfx_bits q) as Hbits
      by (destruct Hqwf as (b & Hb & _); unfold Masked; by rewrite Hb).
    rewrite Hbits in Hv. naive_solver.
  - intros items ip Hitems Hin Hname. apply Hnt.
    rewrite (elem_of_listTakenIPs c taken (dotted bs) Ht). eauto.
Qed.

(** C25. Allocation is first-fit: the requests are exactly the creations of the
    candidates in range order that are not in the cached set, up to and
    including the one returned, and every earlier one already existed on the
    server. *)
Theorem ensureGatewayVIP_first_fit c gateway s v s' :
  listOwnedGatewayIPAddresses c (gateway_key gateway) = Ok [] →
  exec handle (ensureGatewayVIP c gateway) s = (Ok v, s') →
  ∃ cidrs taken l1 bs l2,
    listIPv4ServiceCIDRs c = Ok cidrs ∧ listTakenIPs c = Ok taken ∧
    attempts taken (cidrs ≫= allocatable) = l1 ++ bs :: l2 ∧ v = dotted bs ∧
    (∀ b, b ∈ l1 → is_Some (owner s !! dotted b)) ∧
    trace handle (ensureGatewayVIP c gateway) s
    = (λ b, IPAddressCreate (vip_claim gateway (Addr4 b))) <$> (l1 ++ [bs]).
Proof.
  intros Ho Hexec. pose proof Hexec as Hexec'.
  apply ensureGatewayVIP_fresh_inv in Hexec' as (cidrs & taken & Hc & Hne & Ht & Hx); [|done].
  eapply try_claims_ok in Hx as (l1 & bs & l2 & Heq & -> & _ & _ & Hl1 & Htr); [|done].
  exists cidrs, taken, l1, bs, l2. split_and!; try done. rewrite <-Htr.
  by apply (prog_eq_exec _ _ handle s (ensureGatewayVIP_fresh c gateway _ _ Ho Hc Hne Ht)).
Qed.

(** When no range is usable, or every allocatable address of every usable
    range is already in use, the call fails with the documented error and sends
    nothing to the server. *)
Theorem ensureGatewayVIP_exhausted c gateway cidrs taken s :
  listOwnedGatewayIPAddresses c (gateway_key gateway) = Ok [] →
  listIPv4ServiceCIDRs c = Ok cidrs → listTakenIPs c = Ok taken →
  (∀ p bs, p ∈ cidrs → bs ∈ allocatable p → dotted bs ∈ taken) →
  exec handle (ensureGatewayVIP c gateway) s
  = (Err (if decide (cidrs = []) then no_cidrs else all_allocated), s) ∧
  trace handle (ensureGatewayVIP c gateway) s = [].
Proof.
  intros Ho Hc Ht Hall. case_decide as Hne.
  - subst. unfold ensureGatewayVIP. by rewrite Ho, Hc.
  - pose proof (ensureGatewayVIP_fresh c gateway _ _ Ho Hc Hne Ht) as Heq.
    rewrite attempts_nil in Heq; [by apply (prog_eq_exec _ _ handle s) in Heq|].
    intros bs (p & Hbs & Hp)%list_elem_of_bind. eauto.
Qed.

(** A Gateway that already owns reservations keeps the one with the least
    name; on success all its other reservations are gone from the server and no
    other IPAddress was touched. *)
Theorem ensureGatewayVIP_keeps_first c gateway owned s v s' :
  listOwnedGatewayIPAddresses c (gateway_key gateway) = Ok owned → owned ≠ [] →
  NoDup (ip_name_key <$> owned) →
  exec handle (ensureGatewayVIP c gateway) s = (Ok v, s') →
  (∃ ip, ip ∈ owned ∧ ip_name_key ip = v) ∧
  (∀ ip, ip ∈ owned → String.le v (ip_name_key ip)) ∧
  (∀ ip, ip ∈ owned → ip_name_key ip ≠ v → owner s' !! ip_name_key ip = None) ∧
  owner s' !! v = owner s !! v ∧
  (∀ n, n ∉ ip_name_key <$> owned → owner s' !! n = owner s !! n).
Proof.
  intros Ho Hne Hnd. unfold ensureGatewayVIP. rewrite Ho. simpl.
  pose proof (less_sort_perm (λ x y, cmp_on ip_name_key x y <? 0) owned) as Hp.
  pose proof (less_sort_sorted (λ x y, cmp_on ip_name_key x y <? 0) owned) as Hs.
  unfold slices_SortFunc. destruct (less_sort _ owned) as [|first others].
  { apply Permutation_nil in Hp. done. }
  rewrite exec_bind_ok. destruct (exec handle (delete_ips others) s) as [[[]|e] s1] eqn:E; [|done].
  simpl. intros [= <- <-]. pose proof (delete_ips_ok handle owner others s s1 E) as Hdel.
  rewrite <-Hp in Hnd. csimpl. apply list.NoDup_cons in Hnd as [Hfirst Hnd].
  apply StronglySorted_cons in Hs as [Hle _]. rewrite list.Forall_forall in Hle.
  change (Name (ip_meta first)) with (ip_name_key first). split_and!.
  - exists first. split; [|done]. rewrite <-Hp. by left.
  - intros ip. rewrite <-Hp, list.elem_of_cons. intros [->|Hin]; [done|].
    apply Hle in Hin. unfold not_after in Hin. rewrite cmp_on_lt in Hin. by apply str_lt_le.
  - intros ip. rewrite <-Hp, list.elem_of_cons. intros [->|Hin] Hneq; [done|].
    rewrite Hdel, decide_True; [done|]. by apply list_elem_of_fmap_2.
  - by rewrite Hdel, decide_False.
  - intros n Hn. rewrite Hdel, decide_False; [done|]. contradict Hn. rewrite <-Hp. csimpl. by right.
Qed.

(** Releasing a Gateway's reservations deletes all the cached ones it owns
    and leaves every other IPAddress as it was. *)
Theorem releaseGatewayIPAddresses_exact c gateway owned s s' :
  listOwnedGatewayIPAddresses c (gateway_key gateway) = Ok owned →
  exec handle (releaseGatewayIPAddresses c gateway) s = (Ok tt, s') →
  ∀ n, owner s' !! n = if decide (n ∈ ip_name_key <$> owned) then None else owner s !! n.
Proof.
  intros Ho. unfold releaseGatewayIPAddresses. rewrite Ho. simpl. by apply delete_ips_ok.
Qed.

(** C20. Cleanup releases first: if a release step fails the finalizer is left
    alone; otherwise, by the time the Gateway is updated none of its cached
    reservations exists, and the update removes the controller's finalizer and
    changes nothing else. *)
Theorem cleanupGatewayResources_order c gateway owned s r s1 :
  listOwnedGatewayIPAddresses c (gateway_key gateway) = Ok owned →
  exec handle (releaseGatewayIPAddresses c gateway) s = (r, s1) →
  match r with
  | Err e =>
      exec handle (cleanupGatewayResources c gateway) s = (Err e, s1) ∧
      trace handle (cleanupGatewayResources c gateway) s
      = trace handle (releaseGatewayIPAddresses c gateway) s
  | Ok _ =>
      (∀ ip, ip ∈ owned → owner s1 !! ip_name_key ip = None) ∧
      trace handle (cleanupGatewayResources c gateway) s
      = trace handle (releaseGatewayIPAddresses c gateway) s
        ++ trace handle (removeGatewayFinalizer gateway) s1 ∧
      ∀ ns o, GatewayUpdate ns o ∈ trace handle (removeGatewayFinalizer gateway) s1 →
        ∃ current, fst (handle (GatewayGet (Namespace (gw_meta gateway)) (Name (gw_meta gateway))) s1)
                   = Ok current ∧
          controllerFinalizer ∈ Finalizers (gw_meta current) ∧
          o = with_finalizers current (filter (λ f, f ≠ controllerFinalizer) (Finalizers (gw_meta current)))
  end.
Proof.
  intros Ho Hrel. unfold cleanupGatewayResources. rewrite exec_bind_ok, trace_bind_ok, Hrel.
  destruct r as [[]|e]; [|by rewrite List.app_nil_r]. split_and!; [|done|].
  - intros ip Hip. unfold releaseGatewayIPAddresses in Hrel. rewrite Ho in Hrel. simpl in Hrel.
    rewrite (delete_ips_ok handle owner owned s s1 Hrel), decide_True; [done|].
    by apply list_elem_of_fmap_2.
  - intros ns o. simpl. destruct (handle (GatewayGet _ _) s1) as [[current|e] s2]; simpl.
    + destruct (has_finalizer current) eqn:Hf; simpl; [|set_solver].
      destruct (handle (GatewayUpdate _ _) s2) as [r s3].
      rewrite !list.elem_of_cons. intros [?|[Heq|Hin]]; [done| |].
      { exists current. rewrite <-deleteString_filter. unfold has_finalizer in Hf.
        apply bool_decide_eq_true in Hf. by injection Heq. }
      exfalso. revert Hin. destruct r as [|e]; simpl; [|destruct (IsNotFound e); simpl]; set_solver.
    + destruct (IsNotFound e); simpl; set_solver.
Qed.

(** *** Interleaved workers *)

(** A worker's state: still claiming, or finished with a claim on the server. *)
Inductive worker_ok (gateway : Gateway) (s : S) (p : prog (result string)) : Prop :=
| worker_claiming cs : p ≡ try_claims gateway cs → worker_ok gateway s p
| worker_done v : p = Ret (Ok v) → owner s !! v = Some (Some (gateway_ref gateway)) →
    worker_ok gateway s p
| worker_failed e : p = Ret (Err e) → worker_ok gateway s p.

(** The IPAddresses of [gateway] in [s] are still its own in [s']. *)
Definition keeps (gateway : Gateway) (s s' : S) : Prop :=
  ∀ v, owner s !! v = Some (Some (gateway_ref gateway)) → owner s' !! v = Some (Some (gateway_ref gateway)).

Lemma worker_ok_mono gateway s s' p : keeps gateway s s' → worker_ok gateway s p → worker_ok gateway s' p.
Proof.
  intros Hkeep [cs ?|v ? Hv|e ?]; [by eapply worker_claiming| |by eapply worker_failed].
  eapply worker_done; [done|]. by apply Hkeep.
Qed.

Lemma worker_ok_step gateway s p :
  worker_ok gateway s p →
  owner s ⊆ owner (serve handle p s).2 ∧
  worker_ok gateway (serve handle p s).2 (serve handle p s).1.
Proof.
  intros [cs Heq|v -> Hv|e ->]; simpl; [|split; [done|by eapply worker_done]|split; [done|by eapply worker_failed]].
  symmetry in Heq. destruct cs as [|bs cs]; apply prog_eq_inv in Heq; simpl in Heq.
  { subst p. split; [done|by eapply worker_failed]. }
  destruct Heq as (k & -> & Hk). simpl.
  destruct (handle (IPAddressCreate (vip_claim gateway (Addr4 bs))) s) as [[[]|e] s1] eqn:E; simpl.
  - apply ips_create_ok in E as [Hfree Hs1]. rewrite Hs1. split; [by apply insert_subseteq|].
    specialize (Hk (Ok tt)). apply prog_eq_inv in Hk. eapply worker_done; [done|]. rewrite Hs1. apply lookup_insert_eq.
  - specialize (Hk (Err e)). simpl in Hk. destruct (IsAlreadyExists e) eqn:Ee.
    + destruct (ips_create_exists _ _ _ _ E Ee) as [-> _]. split; [done|].
      eapply worker_claiming. by symmetry.
    + apply prog_eq_inv in Hk. split; [|by eapply worker_failed].
      apply ips_create_err in E as [->|[? ->]]; [done|]. by apply insert_subseteq.
Qed.

Definition pool_ok (gateways : list Gateway) (st : list (prog (result string)) * S) : Prop :=
  Forall2 (λ gateway p, worker_ok gateway st.2 p) gateways st.1.

(** Other clients may create, change and delete objects as they like, except
    that they leave the IPAddresses of the given Gateways to them. *)
Definition other_clients (gateways : list Gateway) (s s' : S) : Prop :=
  ∀ gateway, gateway ∈ gateways → keeps gateway s s'.

Lemma pool_ok_step gateways st st' :
  pool_ok gateways st → pool_step handle (other_clients gateways) st st' → pool_ok gateways st'.
Proof.
  unfold pool_ok. intros Hok Hstep. destruct Hstep as [i p s pool Hi|s s' pool Henv]; simpl in *.
  - destruct (Forall2_lookup_r _ _ _ _ _ Hok Hi) as (gateway & Hg & Hp).
    destruct (worker_ok_step gateway s p Hp) as [Hsub Hnew].
    rewrite <-(list_insert_id gateways i gateway) by done. apply list.Forall2_insert; [|done].
    eapply list.Forall2_impl; [done|]. intros g q. apply worker_ok_mono. intros v Hv. by eapply lookup_weaken.
  - apply Forall2_same_length_lookup_2; [by eapply list.Forall2_length|]. intros i gateway q Hg Hq.
    eapply worker_ok_mono; [apply Henv; by eapply list_elem_of_lookup_2|].
    exact (Forall2_lookup_lr _ _ _ _ _ _ Hok Hg Hq).
Qed.

Lemma pool_ok_run gateways st st' :
  pool_ok gateways st → rtc (pool_step handle (other_clients gateways)) st st' → pool_ok gateways st'.
Proof. induction 2; eauto using pool_ok_step. Qed.

Lemma fresh_worker_ok c gateway s :
  listOwnedGatewayIPAddresses c (gateway_key gateway) = Ok [] →
  worker_ok gateway s (ensureGatewayVIP c gateway).
Proof.
  intros Ho. destruct (listIPv4ServiceCIDRs c) as [cidrs|e] eqn:Hc.
  - destruct (decide (cidrs = [])) as [->|Hne].
    { eapply (worker_failed _ _ _ no_cidrs). unfold ensureGatewayVIP. by rewrite Ho, Hc. }
    destruct (listTakenIPs c) as [taken|e] eqn:Ht.
    + eapply worker_claiming. by apply ensureGatewayVIP_fresh.
    + eapply (worker_failed _ _ _ e). unfold ensureGatewayVIP. rewrite Ho, Hc, Ht. simpl.
      by rewrite decide_False by (by destruct cidrs).
  - eapply (worker_failed _ _ _ e). unfold ensureGatewayVIP. by rewrite Ho, Hc.
Qed.

(** C10. However the requests of any number of allocating
    workers and of other clients interleave, and however stale each worker's
    cache is, the addresses two workers return for different Gateways differ, and
    each is reserved for its Gateway.  The workers are those that know no
    reservation of their Gateway; the other clients may create, change and delete
    objects, IPAddresses included, but not the reservations of these Gateways.
    (When a Gateway's own worker releases its address before the status is
    rewritten, the address is free again: [withdrawn_address_shared].) *)
Theorem concurrent_vips_distinct (jobs : list (Caches * Gateway)) s0 pool s i j ci gi cj gj vi vj :
  (∀ c g, (c, g) ∈ jobs → listOwnedGatewayIPAddresses c (gateway_key g) = Ok []) →
  rtc (pool_step handle (other_clients jobs.*2)) ((λ '(c, g), ensureGatewayVIP c g) <$> jobs, s0) (pool, s) →
  jobs !! i = Some (ci, gi) → jobs !! j = Some (cj, gj) →
  pool !! i = Some (Ret (Ok vi)) → pool !! j = Some (Ret (Ok vj)) →
  gateway_key gi ≠ gateway_key gj →
  vi ≠ vj ∧ owner s !! vi = Some (Some (gateway_ref gi)) ∧ owner s !! vj = Some (Some (gateway_ref gj)).
Proof.
  intros Hfresh Hrun Hi Hj Hpi Hpj Hkey.
  assert (Hok : pool_ok jobs.*2 (pool, s)).
  { eapply pool_ok_run; [|done].
    unfold pool_ok. simpl. rewrite Forall2_fmap. apply Forall_Forall2_diag.
    apply list.Forall_forall. intros [c g] Hin. apply fresh_worker_ok. eauto. }
  assert (Hclaim : ∀ n c g v, jobs !! n = Some (c, g) → pool !! n = Some (Ret (Ok v)) →
    owner s !! v = Some (Some (gateway_ref g))).
  { intros n c g v Hn Hp. assert (jobs.*2 !! n = Some g) as Hg by (by rewrite list_lookup_fmap, Hn).
    destruct (Forall2_lookup_lr _ _ _ _ _ _ Hok Hg Hp) as [cs Heq|v' [= <-] Hv|e ?]; [|done..].
    symmetry in Heq. destruct cs; apply prog_eq_inv in Heq; simpl in Heq; [congruence|]. by destruct Heq as (? & ? & _). }
  pose proof (Hclaim _ _ _ _ Hi Hpi) as H1. pose proof (Hclaim _ _ _ _ Hj Hpj) as H2.
  split; [|done]. intros <-. apply Hkey. rewrite H1 in H2.
  destruct gi as [mi ? ?], gj as [mj ? ?]. unfold gateway_key, meta_key. simpl.
  injection H2 as -> ->. done.
Qed.

End props.

(** ** Worked examples

    Range 10.96.0.0/29 (addresses .1 to .6 allocatable); the cache knows .1, the
    server also has .2, created by a worker whose write the cache has not seen. *)

Definition ex_caches : Caches := caches_of (demo_store [demo_ip "b" "10.96.0.1"] "10.96.0.0/29").
Definition ex_server : Server := demo_server [demo_ip "b" "10.96.0.1"; demo_ip "b" "10.96.0.2"].
Definition ex_run : result string * Server :=
  exec ref_handle (ensureGatewayVIP ex_caches (demo_gateway "a")) ex_server.

Lemma ensureGatewayVIP_sound_witness :
  ex_run.1 = Ok "10.96.0.3" ∧ ref_owner ex_server !! "10.96.0.3" = None ∧
  ref_owner ex_run.2 = <["10.96.0.3" := Some (gateway_ref (demo_gateway "a"))]> (ref_owner ex_server).
Proof.
  split; [vm_compute; reflexivity|].
  destruct (ensureGatewayVIP_sound ref_handle ref_owner ex_caches (demo_gateway "a") ex_server
    "10.96.0.3" ex_run.2) as (_ & _ & H1 & H2); [vm_compute; reflexivity..|].
  split; [exact H1|exact H2].
Defined.

Lemma ensureGatewayVIP_first_fit_witness :
  request_summary <$> trace ref_handle (ensureGatewayVIP ex_caches (demo_gateway "a")) ex_server
  = [("create ip", "10.96.0.2", []); ("create ip", "10.96.0.3", [])] ∧
  ∃ cidrs taken l1 bs l2,
    listIPv4ServiceCIDRs ex_caches = Ok cidrs ∧ listTakenIPs ex_caches = Ok taken ∧
    attempts taken (cidrs ≫= allocatable) = l1 ++ bs :: l2 ∧ "10.96.0.3" = dotted bs.
Proof.
  split; [vm_compute; reflexivity|].
  destruct (ensureGatewayVIP_first_fit ref_handle ref_owner ex_caches (demo_gateway "a") ex_server
    "10.96.0.3" ex_run.2) as (cidrs & taken & l1 & bs & l2 & H1 & H2 & H3 & H4 & _);
    [vm_compute; reflexivity..|].
  exists cidrs, taken, l1, bs, l2. auto.
Defined.

(** A /30 has two allocatable addresses; both are taken. *)
Definition ex_full : Caches :=
  caches_of (demo_store [demo_ip "b" "10.96.0.1"; demo_ip "b" "10.96.0.2"] "10.96.0.0/30").

Lemma ensureGatewayVIP_exhausted_witness :
  exec ref_handle (ensureGatewayVIP ex_full (demo_gateway "a")) ex_server = (Err all_allocated, ex_server).
Proof.
  destruct (ensureGatewayVIP_exhausted ref_handle ex_full (demo_gateway "a")
    [mkPrefix (Addr4 [10; 96; 0; 0]) 30] {["10.96.0.2"; "10.96.0.1"]} ex_server) as [H _];
    [vm_compute; reflexivity..| |exact H].
  intros p bs Hp. apply list_elem_of_singleton in Hp as ->.
  change (allocatable _) with [[10; 96; 0; 1]; [10; 96; 0; 2]].
  rewrite !list.elem_of_cons. intros [->|[->|H]]; [vm_compute; reflexivity..|].
  by apply elem_of_nil in H.
Defined.

(** Gateway a owns .5 and .4 in the cache; .4 has the lesser name. *)
Definition ex_two : Caches :=
  caches_of (demo_store [demo_ip "a" "10.96.0.5"; demo_ip "b" "10.96.0.1"; demo_ip "a" "10.96.0.4"]
               "10.96.0.0/29").
Definition ex_two_server : Server :=
  demo_server [demo_ip "a" "10.96.0.5"; demo_ip "b" "10.96.0.1"; demo_ip "a" "10.96.0.4"].
Definition ex_two_run : result string * Server :=
  exec ref_handle (ensureGatewayVIP ex_two (demo_gateway "a")) ex_two_server.

Lemma ensureGatewayVIP_keeps_first_witness :
  ref_owner ex_two_run.2 !! "10.96.0.5" = None ∧
  ref_owner ex_two_run.2 !! "10.96.0.4" = Some (Some (gateway_ref (demo_gateway "a"))).
Proof.
  destruct (ensureGatewayVIP_keeps_first ref_handle ref_owner ex_two (demo_gateway "a")
    [demo_ip "a" "10.96.0.5"; demo_ip "a" "10.96.0.4"] ex_two_server "10.96.0.4" ex_two_run.2)
    as (_ & _ & H & H' & _).
  - vm_compute; reflexivity.
  - discriminate.
  - apply (bool_decide_unpack _). vm_compute. exact I.
  - vm_compute; reflexivity.
  - split.
    + apply (H (demo_ip "a" "10.96.0.5")); [by left|]. vm_compute. discriminate.
    + rewrite H'. vm_compute. reflexivity.
Defined.

Definition ex_release : result unit * Server :=
  exec ref_handle (releaseGatewayIPAddresses ex_two (demo_gateway "a")) ex_two_server.

Lemma releaseGatewayIPAddresses_exact_witness :
  ref_owner ex_release.2 !! "10.96.0.4" = None ∧
  ref_owner ex_release.2 !! "10.96.0.1" = ref_owner ex_two_server !! "10.96.0.1".
Proof.
  assert (H := releaseGatewayIPAddresses_exact ref_handle ref_owner ex_two (demo_gateway "a")
    [demo_ip "a" "10.96.0.5"; demo_ip "a" "10.96.0.4"] ex_two_server ex_release.2).
  split; rewrite H by (vm_compute; reflexivity); vm_compute; reflexivity.
Defined.

Definition ex_finalized : Gateway := with_finalizers (demo_gateway "a") ["other"; controllerFinalizer].
Definition ex_clean_server : Server :=
  set_gateways ex_two_server {[meta_key (gw_meta ex_finalized) := ex_finalized]}.

Lemma cleanupGatewayResources_order_witness :
  let released := exec ref_handle (releaseGatewayIPAddresses ex_two ex_finalized) ex_clean_server in
  trace ref_handle (cleanupGatewayResources ex_two ex_finalized) ex_clean_server
  = trace ref_handle (releaseGatewayIPAddresses ex_two ex_finalized) ex_clean_server
    ++ trace ref_handle (removeGatewayFinalizer ex_finalized) released.2 ∧
  request_summary <$> trace ref_handle (removeGatewayFinalizer ex_finalized) released.2
  = [("get gateway", "a", []); ("update gateway", "a", ["other"])].
Proof.
  intros released.
  destruct (cleanupGatewayResources_order ref_handle ref_owner ex_two ex_finalized
    [demo_ip "a" "10.96.0.5"; demo_ip "a" "10.96.0.4"] ex_clean_server (Ok tt) released.2)
    as (_ & H & _); [vm_compute; reflexivity..|].
  split; [exact H|]. vm_compute. reflexivity.
Defined.

(** Workers for a and b with different caches, served one after the other. *)
Definition ex_jobs : list (Caches * Gateway) :=
  [(ex_caches, demo_gateway "a"); (caches_of (demo_store [] "10.96.0.0/29"), demo_gateway "b")].

(** Another client deletes the IPAddress of a third Gateway. *)
Definition ex_third : Server := demo_server [demo_ip "c" "10.96.0.6"].

Lemma ex_deletion : other_clients ref_owner ex_jobs.*2 ex_third empty_server.
Proof.
  intros g Hg v (ip & Hr & Hip)%lookup_fmap_Some.
  unfold ex_third, demo_server, set_ips in Hip. cbn in Hip. apply lookup_insert_Some in Hip as [[_ <-]|[_ Hip]]; [|done].
  apply list.elem_of_cons in Hg as [->|Hg%list_elem_of_singleton]; [|subst g]; discriminate Hr.
Qed.

Lemma concurrent_vips_distinct_witness : ∃ pool s,
  rtc (pool_step ref_handle (other_clients ref_owner ex_jobs.*2))
    ((λ '(c, g), ensureGatewayVIP c g) <$> ex_jobs, ex_third) (pool, s) ∧
  pool !! 0%nat = Some (Ret (Ok "10.96.0.2")) ∧ pool !! 1%nat = Some (Ret (Ok "10.96.0.1")) ∧
  "10.96.0.2" ≠ "10.96.0.1" ∧
  ref_owner s !! "10.96.0.2" = Some (Some (gateway_ref (demo_gateway "a"))) ∧
  ref_owner s !! "10.96.0.1" = Some (Some (gateway_ref (demo_gateway "b"))).
Proof.
  assert (Hrun : ∃ pool s, rtc (pool_step ref_handle (other_clients ref_owner ex_jobs.*2))
    ((λ '(c, g), ensureGatewayVIP c g) <$> ex_jobs, ex_third) (pool, s) ∧
    pool !! 0%nat = Some (Ret (Ok "10.96.0.2")) ∧ pool !! 1%nat = Some (Ret (Ok "10.96.0.1"))).
  { eexists _, _. split.
    - eapply rtc_l; [|eapply rtc_l; [|eapply rtc_l; [|apply rtc_refl]]].
      + apply pool_env, ex_deletion.
      + apply (pool_serve ref_handle _ 0%nat (ensureGatewayVIP ex_caches (demo_gateway "a"))). reflexivity.
      + apply (pool_serve ref_handle _ 1%nat
                 (ensureGatewayVIP (caches_of (demo_store [] "10.96.0.0/29")) (demo_gateway "b"))).
        reflexivity.
    - split; rewrite ?list_lookup_insert_ne, ?list_lookup_insert_eq by (simpl; lia);
        f_equal; apply finished_ret; vm_compute; reflexivity. }
  destruct Hrun as (pool & s & Hrun & Hp & Hp'). exists pool, s. split; [done|].
  destruct (concurrent_vips_distinct ref_handle ref_owner ex_jobs ex_third pool s 0%nat 1%nat
    ex_caches (demo_gateway "a") (caches_of (demo_store [] "10.96.0.0/29")) (demo_gateway "b")
    "10.96.0.2" "10.96.0.1") as (H1 & H2 & H3); [|done..].
  intros c g. unfold ex_jobs. rewrite !list.elem_of_cons.
  intros [[= -> ->]|[[= -> ->]|H]]; [vm_compute; reflexivity..|by apply elem_of_nil in H].
Defined.
