(* ===== verification/Listeners.v ===== *)
(** * internal/controller/gateway_reconcile.go: listeners

    Validation of a Gateway's listeners and the listener statuses built from
    it.  [now] is the clock reading of [metav1.Now()]: transition times are not
    compared by the controller. *)

From S2P Require Import Prelude GoStrings KubeTypes Api Status.

(** [map[K]int] counters: [counts[k]++] for each key in turn. *)
Definition count_keys {K} `{Countable K} (ks : list K) : gmap K Z :=
  foldl (λ counts k, <[k := default 0 (counts !! k) + 1]> counts) ∅ ks.

Definition count_of {K} `{Countable K} (counts : gmap K Z) (k : K) : Z := default 0 (counts !! k).

Section listeners.
Context `{API : !ApiMachinery} (now : Z).

Definition allowedRoutesSupported (allowedRoutes : option AllowedRoutes) : bool :=
  match allowedRoutes with
  | None => true
  | Some ar =>
      if decide (length (ar_Kinds ar) ≠ 0%nat) then false
      else match ar_Namespaces ar with
      | None => true
      | Some ns =>
          match rn_Selector ns with
          | Some _ => false
          | None =>
              match rn_From ns with
              | None => true
              | Some from => bool_decide (from = NamespacesFromSame)
              end
          end
      end
  end.

Definition listenerStatusForOutcome (listener : Listener) (attachedRoutes : Z)
    (acceptedStatus : ConditionStatus) (acceptedReason acceptedMessage : string)
    (resolvedStatus : ConditionStatus) (resolvedReason resolvedMessage : string)
    (programmedStatus : ConditionStatus) (programmedReason programmedMessage : string)
    (observedGeneration : Z) : ListenerStatus :=
  let kind := mkRouteGroupKind (Some gatewayAPIGroup) "TCPRoute" in
  mkListenerStatus (l_Name listener) [kind] attachedRoutes
    (mergeConditions []
       [condition now TypeAccepted acceptedStatus acceptedReason acceptedMessage observedGeneration;
        condition now TypeResolvedRefs resolvedStatus resolvedReason resolvedMessage observedGeneration;
        condition now TypeProgrammed programmedStatus programmedReason programmedMessage observedGeneration]).

(** The three outcomes the source spells out at each call. *)
Definition listener_pending (listener : Listener) (attached generation : Z) : ListenerStatus :=
  listenerStatusForOutcome listener attached
    ConditionTrue ReasonAccepted "Listener accepted for TCPRoute attachment."
    ConditionTrue ReasonResolvedRefs "Listener references resolved."
    ConditionFalse ReasonPending "Waiting for VIP allocation." generation.

Definition listener_rejected (listener : Listener) (attached : Z) (acceptedReason message : string)
    (generation : Z) : ListenerStatus :=
  listenerStatusForOutcome listener attached
    ConditionFalse acceptedReason message
    ConditionFalse ReasonUnsupportedValue message
    ConditionFalse ReasonInvalid message generation.

(** ** Validation *)

Record gatewayListenersValidation := mkValidation {
  v_valid : bool;
  v_message : string;
  v_listeners : list Listener;
  v_statuses : list ListenerStatus;
}.

Definition too_many_message : string :=
  "At most " +:+ pretty MaxSupportedGatewayListeners +:+ " listeners are supported.".

(** The [switch] of the loop body: the message (empty: accepted) and the reason. *)
Definition listener_verdict (listeners : list Listener) (nameCounts : gmap string Z)
    (portCounts : gmap Z Z) (result_message : string) (listener : Listener) : string * string :=
  if decide (MaxSupportedGatewayListeners < length listeners)%nat
  then (result_message, ReasonUnsupportedValue)
  else if decide (l_Name listener = "")
  then ("Listener name must not be empty.", ReasonUnsupportedValue)
  else if decide (l_Port listener = 0)
  then ("Listener port must be non-zero.", ReasonUnsupportedValue)
  else if decide (l_Protocol listener ≠ "TCP")
  then ("Only TCP listeners are supported.", ReasonUnsupportedProtocol)
  else if negb (allowedRoutesSupported (l_AllowedRoutes listener))
  then ("listener.allowedRoutes is not supported in this phase.", ReasonUnsupportedValue)
  else if decide (1 < count_of nameCounts (l_Name listener))
  then ("Listener name " +:+ Quote (l_Name listener) +:+ " must be unique.", ReasonUnsupportedValue)
  else if decide (1 < count_of portCounts (l_Port listener))
  then ("Listener port " +:+ pretty (l_Port listener) +:+ " must be unique.", ReasonUnsupportedValue)
  else ("", ReasonUnsupportedValue).

Definition validate_step (listeners : list Listener) (nameCounts : gmap string Z)
    (portCounts : gmap Z Z) (generation : Z) (result : gatewayListenersValidation)
    (listener : Listener) : gatewayListenersValidation :=
  let '(message, acceptedReason) :=
    listener_verdict listeners nameCounts portCounts (v_message result) listener in
  if decide (message ≠ "") then
    let result :=
      if v_valid result then mkValidation false message (v_listeners result) (v_statuses result)
      else result in
    mkValidation (v_valid result) (v_message result) (v_listeners result)
      (v_statuses result ++ [listener_rejected listener 0 acceptedReason message generation])
  else
    mkValidation (v_valid result) (v_message result) (v_listeners result ++ [listener])
      (v_statuses result ++ [listener_pending listener 0 generation]).

Definition validateGatewayListeners (gateway : option Gateway) : gatewayListenersValidation :=
  match gateway with
  | None => mkValidation false "Gateway is required." [] []
  | Some gateway =>
      let listeners := Listeners (gw_spec gateway) in
      if decide (length listeners = 0%nat)
      then mkValidation false "At least one listener is required." [] []
      else
        let nameCounts := count_keys (l_Name <$> listeners) in
        let portCounts := count_keys (l_Port <$> listeners) in
        let result :=
          if decide (MaxSupportedGatewayListeners < length listeners)%nat
          then mkValidation false too_many_message [] []
          else mkValidation true "Listeners accepted." [] [] in
        foldl (validate_step listeners nameCounts portCounts (Generation (gw_meta gateway)))
          result listeners
  end.

Definition listenerStatusesForGatewayMessage (listeners : list Listener) (message : string)
    (observedGeneration : Z) : list ListenerStatus :=
  map (λ listener, listener_rejected listener 0 ReasonUnsupportedValue message observedGeneration)
    listeners.

Definition setListenerProgrammedCondition (listeners : list ListenerStatus) (status : ConditionStatus)
    (reason message : string) (observedGeneration : Z) : list ListenerStatus :=
  map (λ l,
    match FindStatusCondition (ls_Conditions l) TypeAccepted with
    | Some accepted =>
        if decide (c_Status accepted ≠ ConditionTrue) then l
        else mkListenerStatus (ls_Name l) (ls_SupportedKinds l) (ls_AttachedRoutes l)
               (mergeConditions (ls_Conditions l)
                  [condition now TypeProgrammed status reason message observedGeneration])
    | None => l
    end) listeners.

End listeners.

(** ** Facts *)

Lemma count_keys_spec {K} `{Countable K} (ks : list K) k :
  count_of (count_keys ks) k = Z.of_nat (length (filter (λ x, x = k) ks)).
Proof.
  assert (Hgen : ∀ m, count_of (foldl (λ counts k, <[k := default 0 (counts !! k) + 1]> counts) m ks) k
    = count_of m k + Z.of_nat (length (filter (λ x, x = k) ks))); [|unfold count_keys; by rewrite Hgen].
  induction ks as [|x ks IH]; intros m; simpl; [lia|].
  rewrite IH, filter_cons. unfold count_of. case_decide as E; simpl.
  - subst. rewrite lookup_insert_eq. simpl. lia.
  - by rewrite lookup_insert_ne.
Qed.

Lemma filter_eq_nil {K} `{EqDecision K} (ks : list K) k : k ∉ ks ↔ filter (λ x, x = k) ks = [].
Proof.
  split.
  - intros Hk. apply elem_of_nil_inv. intros y. rewrite list_elem_of_filter. naive_solver.
  - intros Hnil. by apply (filter_nil_not_elem_of (λ x, x = k)).
Qed.

(** No key occurs twice exactly when no counter exceeds one. *)
Lemma NoDup_counts {K} `{Countable K} (ks : list K) :
  NoDup ks ↔ ∀ k, k ∈ ks → ¬ 1 < count_of (count_keys ks) k.
Proof.
  setoid_rewrite count_keys_spec. induction ks as [|x ks IH].
  - split; [set_solver|constructor].
  - rewrite list.NoDup_cons, IH, filter_eq_nil. split.
    + intros [Hx Hks] k. rewrite filter_cons, list.elem_of_cons. case_decide as E; simpl.
      * subst. rewrite Hx. simpl. lia.
      * intros [->|Hk]; [done|]. by apply Hks.
    + intros Hks. split.
      * specialize (Hks x). rewrite filter_cons, decide_True in Hks by done. simpl in Hks.
        destruct (filter _ ks); [done|]. exfalso. apply Hks; [by left|simpl; lia].
      * intros k Hk. specialize (Hks k). rewrite filter_cons in Hks.
        case_decide; simpl in Hks; [|apply Hks; by right].
        intros ?. apply Hks; [by right|lia].
Qed.

(** What the requirements ask of [allowedRoutes]: nothing but "same namespace". *)
Definition allowed_routes_default (allowedRoutes : option AllowedRoutes) : Prop :=
  ∀ ar, allowedRoutes = Some ar → ar_Kinds ar = [] ∧
    ∀ ns, ar_Namespaces ar = Some ns → rn_Selector ns = None ∧
      ∀ from, rn_From ns = Some from → from = NamespacesFromSame.

Lemma allowedRoutesSupported_iff a : allowedRoutesSupported a = true ↔ allowed_routes_default a.
Proof.
  unfold allowedRoutesSupported, allowed_routes_default.
  destruct a as [[ns kinds]|]; simpl; [|naive_solver].
  destruct kinds; simpl; [|naive_solver].
  destruct ns as [[from [sel|]]|]; simpl; [naive_solver| |naive_solver].
  destruct from; rewrite ?bool_decide_eq_true; naive_solver.
Qed.

(** A listener the controller supports, among its Gateway's listeners. *)
Definition listener_supported (listeners : list Listener) (l : Listener) : Prop :=
  (length listeners ≤ MaxSupportedGatewayListeners)%nat ∧
  l_Name l ≠ "" ∧ l_Port l ≠ 0 ∧ l_Protocol l = "TCP" ∧ allowed_routes_default (l_AllowedRoutes l) ∧
  count_of (count_keys (l_Name <$> listeners)) (l_Name l) ≤ 1 ∧
  count_of (count_keys (l_Port <$> listeners)) (l_Port l) ≤ 1.

(** The verdict once the loop's message is the initial one. *)
Definition verdict (listeners : list Listener) (l : Listener) : string * string :=
  listener_verdict listeners (count_keys (l_Name <$> listeners)) (count_keys (l_Port <$> listeners))
    too_many_message l.

Definition verdict_ok (listeners : list Listener) (l : Listener) : bool :=
  bool_decide ((verdict listeners l).1 = "").

Lemma verdict_ok_iff listeners l : verdict_ok listeners l = true ↔ listener_supported listeners l.
Proof.
  unfold verdict_ok, verdict, listener_verdict, listener_supported.
  rewrite bool_decide_eq_true, <-allowedRoutesSupported_iff.
  destruct (allowedRoutesSupported _); repeat case_decide; simpl;
    split; intros; try done; destruct_and?; try done; try lia.
  all: split_and!; try done; try lia. all: by apply dec_stable.
Qed.

Section validate.
Context `{API : !ApiMachinery} (now : Z).

Definition validated_status (listeners : list Listener) (generation : Z) (l : Listener) : ListenerStatus :=
  if verdict_ok listeners l then listener_pending now l 0 generation
  else listener_rejected now l 0 (verdict listeners l).2 (verdict listeners l).1 generation.

(** The message of the first unsupported listener. *)
Definition first_problem (listeners ls : list Listener) (none : string) : string :=
  default none (head ((λ l, (verdict listeners l).1) <$> filter (λ l, verdict_ok listeners l = false) ls)).

Lemma listener_verdict_message listeners n p m l :
  (length listeners ≤ MaxSupportedGatewayListeners)%nat →
  listener_verdict listeners n p m l = listener_verdict listeners n p too_many_message l.
Proof.
  intros Hle. unfold listener_verdict.
  by rewrite !(decide_False (P := (MaxSupportedGatewayListeners < length listeners)%nat)) by lia.
Qed.

Lemma validate_fold listeners generation ls r :
  (if decide (length listeners ≤ MaxSupportedGatewayListeners)%nat then True
   else v_valid r = false ∧ v_message r = too_many_message) →
  foldl (validate_step now listeners (count_keys (l_Name <$> listeners))
           (count_keys (l_Port <$> listeners)) generation) r ls
  = mkValidation (v_valid r && forallb (verdict_ok listeners) ls)
      (if v_valid r then first_problem listeners ls (v_message r) else v_message r)
      (v_listeners r ++ filter (λ l, verdict_ok listeners l = true) ls)
      (v_statuses r ++ map (validated_status listeners generation) ls).
Proof.
  revert r. induction ls as [|l ls IH]; intros r Hr.
  { unfold first_problem. simpl. rewrite andb_true_r, !List.app_nil_r. by destruct r as [[] ? ? ?]. }
  assert (Hstep : validate_step now listeners (count_keys (l_Name <$> listeners))
      (count_keys (l_Port <$> listeners)) generation r l
    = mkValidation (v_valid r && verdict_ok listeners l)
        (if v_valid r && negb (verdict_ok listeners l) then (verdict listeners l).1 else v_message r)
        (v_listeners r ++ filter (λ l, verdict_ok listeners l = true) [l])
        (v_statuses r ++ [validated_status listeners generation l])).
  { unfold validate_step, validated_status, verdict_ok.
    assert (listener_verdict listeners (count_keys (l_Name <$> listeners))
      (count_keys (l_Port <$> listeners)) (v_message r) l = verdict listeners l) as ->.
    { unfold verdict. case_decide; [by apply listener_verdict_message|]. by destruct Hr as [_ ->]. }
    rewrite filter_cons, filter_nil. destruct (verdict listeners l) as [m rs]. simpl.
    destruct (decide (m = "")) as [->|Hm]; simpl.
    - by rewrite andb_true_r, andb_false_r.
    - rewrite decide_True by done. rewrite bool_decide_false by done. simpl.
      rewrite andb_false_r, andb_true_r, List.app_nil_r. by destruct r as [[] ? ? ?]. }
  simpl foldl. rewrite Hstep, IH; simpl.
  - unfold first_problem. rewrite !filter_cons, filter_nil, <-!List.app_assoc, andb_assoc.
    destruct (v_valid r), (verdict_ok listeners l) eqn:E; simpl; done.
  - case_decide; [done|]. destruct Hr as [-> ->]. done.
Qed.

Lemma validate_nonempty gateway :
  let listeners := Listeners (gw_spec gateway) in
  listeners ≠ [] →
  validateGatewayListeners now (Some gateway) =
  mkValidation (forallb (verdict_ok listeners) listeners)
    (if decide (length listeners ≤ MaxSupportedGatewayListeners)%nat
     then first_problem listeners listeners "Listeners accepted." else too_many_message)
    (filter (λ l, verdict_ok listeners l = true) listeners)
    (map (validated_status listeners (Generation (gw_meta gateway))) listeners).
Proof.
  intros listeners Hne. unfold validateGatewayListeners. fold listeners.
  rewrite decide_False by (by rewrite length_zero_iff_nil).
  destruct (decide (length listeners ≤ MaxSupportedGatewayListeners)%nat) as [Hle|Hgt].
  - rewrite decide_False by lia. rewrite validate_fold; [done|]. by rewrite decide_True.
  - rewrite decide_True by lia. rewrite validate_fold; [|by rewrite decide_False].
    simpl. f_equal. symmetry. destruct listeners as [|l ls]; [done|].
    simpl. assert (verdict_ok (l :: ls) l = false) as ->; [|done].
    apply not_true_is_false. rewrite verdict_ok_iff. unfold listener_supported. lia.
Qed.

(** A valid Gateway: between one and ten listeners, each supported. *)
Lemma validate_valid_iff gateway :
  let listeners := Listeners (gw_spec gateway) in
  v_valid (validateGatewayListeners now (Some gateway)) = true ↔
  listeners ≠ [] ∧ ∀ l, l ∈ listeners → listener_supported listeners l.
Proof.
  intros listeners. destruct (decide (listeners = [])) as [E|Hne].
  { unfold validateGatewayListeners. fold listeners. rewrite E. simpl. naive_solver. }
  rewrite validate_nonempty by done. simpl. fold listeners.
  rewrite forallb_forall. setoid_rewrite <-list_elem_of_In. setoid_rewrite verdict_ok_iff. naive_solver.
Qed.

Lemma validate_valid_listeners gateway :
  v_valid (validateGatewayListeners now (Some gateway)) = true →
  v_listeners (validateGatewayListeners now (Some gateway)) = Listeners (gw_spec gateway).
Proof.
  intros Hv. pose proof (proj1 (validate_valid_iff gateway) Hv) as [Hne Hall].
  rewrite validate_nonempty by done. simpl. apply filter_id.
  intros l Hl. apply verdict_ok_iff. by apply Hall.
Qed.

End validate.
