(* ===== verification/Selector.v ===== *)
(** * internal/controller/endpointselector_reconcile.go: the selector object

    Fetching, converting and evaluating an XEndpointSelector, and writing its
    status; EndpointSlices are in [Slices.v]. *)

From S2P Require Import Prelude KubeTypes Api Indexers Status.

Section selector.
Context `{API : !ApiMachinery} (now : Z).

(** [apiv1alpha1.Resource("xendpointselectors")], qualified. *)
Definition endpointSelectorResource : string := "xendpointselectors.gateway.networking.x-k8s.io".

Definition SchemeGroupVersion_string : string :=
  endpointSelectorAPIGroup +:+ "/" +:+ endpointSelectorVersion.

Definition evaluateEndpointSelector (selector : XEndpointSelector)
    : ConditionStatus * string * string :=
  match LabelSelectorAsSelector (xs_Selector selector) with
  | Err err =>
      (ConditionFalse, EndpointSelectorReasonInvalid, "Spec.selector is invalid: " +:+ Error err)
  | Ok _ =>
      (ConditionTrue, EndpointSelectorReasonAccepted,
       "XEndpointSelector accepted by clusterip-gw-controller.")
  end.

Definition endpointSelectorFromUnstructured (obj : Unstructured) : result XEndpointSelector :=
  FromUnstructured obj.

Definition endpointSelectorToUnstructured (selector : XEndpointSelector) : result Unstructured :=
  let selector :=
    if decide (xs_APIVersion selector = "")
    then mkXEndpointSelector SchemeGroupVersion_string (xs_Kind selector) (xs_meta selector)
           (xs_Selector selector) (xs_Conditions selector)
    else selector in
  let selector :=
    if decide (xs_Kind selector = "")
    then mkXEndpointSelector (xs_APIVersion selector) endpointSelectorKind (xs_meta selector)
           (xs_Selector selector) (xs_Conditions selector)
    else selector in
  ToUnstructured selector.

Definition getEndpointSelector (c : Caches) (key : NamespacedName) : result XEndpointSelector :=
  let! obj := endpointSelector_GetByKey c (namespacedKey key) in
  match obj with
  | None => Err (NewNotFound endpointSelectorResource (nn_Name key))
  | Some obj => endpointSelectorFromUnstructured obj
  end.

Definition updateEndpointSelectorStatus (selector : XEndpointSelector) (status : ConditionStatus)
    (reason message : string) : prog (result unit) :=
  let updated :=
    mkXEndpointSelector (xs_APIVersion selector) (xs_Kind selector) (xs_meta selector)
      (xs_Selector selector)
      (mergeConditions []
         [condition now EndpointSelectorConditionAccepted status reason message
            (Generation (xs_meta selector))]) in
  if endpointSelectorStatusEqual selector updated then Ret (Ok tt)
  else
    get! unstructuredSelector := endpointSelectorToUnstructured updated in
    perform (EndpointSelectorUpdateStatus (Namespace (xs_meta updated)) unstructuredSelector).

End selector.
