(* ===== verification/DeepCopy.v ===== *)
(** * apis/v1alpha1/zz_generated.deepcopy.go

    The deep copies of the repository's API types, over a memory in which slices
    are addresses: what a copy reads, and what it shares with its original, also
    when the controller gives a copy new status conditions.  The structs of apimachinery and their own copies are a typeclass. *)

From S2P Require Import Prelude KubeTypes.

Definition addr : Type := positive.

Section deepcopy.
(** How ObjectMeta, LabelSelector, Condition and ListMeta lie in memory, and the
    cells they use there. *)
Context {RMeta RSelector RCondition RListMeta X : Type}.
Context `{!Inhabited RMeta, !Inhabited RSelector, !Inhabited RCondition}.

(** ** The types in memory; a slice is nil or the address of its array *)

Definition slice : Type := option addr.

Record EndpointSelectorSpec_ := mkSpec { spec_Selector : RSelector }.
Record EndpointSelectorStatus_ := mkStatus { status_Conditions : slice }.
Record XEndpointSelector_ := mkSelector_ {
  x_APIVersion : string; x_Kind : string;   (** TypeMeta *)
  x_ObjectMeta : RMeta;
  x_Spec : EndpointSelectorSpec_;
  x_Status : EndpointSelectorStatus_;
}.
Record XEndpointSelectorList_ := mkSelectorList_ {
  xl_APIVersion : string; xl_Kind : string; xl_ListMeta : RListMeta; xl_Items : slice }.

Inductive cell := CConditions (l : list RCondition) | CItems (l : list XEndpointSelector_) | COther (x : X).
Abbreviation heap := (gmap addr cell).

#[export] Instance selector_inhabited : Inhabited XEndpointSelector_ :=
  populate (mkSelector_ "" "" inhabitant (mkSpec inhabitant) (mkStatus None)).

(** ** What a type needs to be copied *)

(** [DeepCopyInto], with what a value reads as and the addresses it reaches. *)
Class DeepCopy (T V : Type) := {
  DeepCopyInto : T → heap → T * heap;
  reads : heap → T → option V;
  reach : heap → T → gset addr;
}.

(** The copy reads the same, is all in new memory, and nothing else changes;
    what a value reads depends only on the memory it reaches. *)
Class DeepCopyLaws (T V : Type) `{!DeepCopy T V} : Prop := {
  copy_ok h t v t' h' :
    reads h t = Some v → DeepCopyInto t h = (t', h') →
    h ⊆ h' ∧ reads h' t' = Some v ∧ reach h' t' ## dom h;
  reads_local h h2 t v :
    reads h t = Some v → (∀ a, a ∈ reach h t → h2 !! a = h !! a) →
    reads h2 t = Some v ∧ reach h2 t = reach h t;
  reach_dom h t v : reads h t = Some v → reach h t ⊆ dom h;
}.

Section laws.
Context `{DeepCopyLaws T V}.

Lemma reads_extends h h' t v : reads h t = Some v → h ⊆ h' → reads h' t = Some v ∧ reach h' t = reach h t.
Proof.
  intros Hr Hsub. apply (reads_local h); [done|]. intros a Ha.
  apply (reach_dom h t v Hr), elem_of_dom in Ha as [c Hc]. rewrite Hc. by eapply lookup_weaken.
Qed.

End laws.

(** ** Slices: [make], then a loop that copies each element *)

Class ArrayOf (T : Type) := {
  to_cell : list T → cell;
  of_cell : cell → option (list T);
  of_to l : of_cell (to_cell l) = Some l;
}.

#[export] Instance conditions_array : ArrayOf RCondition := {
  to_cell := CConditions; of_cell c := match c with CConditions l => Some l | _ => None end;
  of_to l := eq_refl }.
#[export] Instance items_array : ArrayOf XEndpointSelector_ := {
  to_cell := CItems; of_cell c := match c with CItems l => Some l | _ => None end; of_to l := eq_refl }.

Section slices.
Context {T V : Type} `{!ArrayOf T, !Inhabited T, DC : !DeepCopy T V}.

Definition array (h : heap) (a : addr) : option (list T) := c ← h !! a; of_cell c.

(** The assignment of the [i]th element of the array [a]. *)
Definition write (a : addr) (i : nat) (e : T) (h : heap) : heap :=
  match array h a with Some l => <[a := to_cell (<[i := e]> l)]> h | None => h end.

(** The rest of the loop, [n] elements from the [i]th on. *)
Fixpoint copy_loop (a out : addr) (i n : nat) (h : heap) : heap :=
  match n with
  | O => h
  | S n =>
      match array h a ≫= (.!! i) with
      | None => h
      | Some e => let '(e, h) := DeepCopyInto e h in copy_loop a out (S i) n (write out i e h)
      end
  end.

Definition copy_slice (s : slice) (h : heap) : slice * heap :=
  match s with
  | None => (None, h)
  | Some a =>
      let n := length (default [] (array h a)) in
      let out := fresh (dom h) in
      (Some out, copy_loop a out 0 n (<[out := to_cell (replicate n inhabitant)]> h))
  end.

#[export] Instance slice_copy : DeepCopy slice (list V) := {
  DeepCopyInto := copy_slice;
  reads h s := match s with None => Some [] | Some a => l ← array h a; mapM (reads h) l end;
  reach h s := match s with None => ∅ | Some a => {[a]} ∪ ⋃ (reach h <$> default [] (array h a)) end;
}.

Context `{!DeepCopyLaws T V}.

(** The elements copied so far. *)
Definition copied (h0 h : heap) (out : addr) (e : T) (v : V) : Prop :=
  reads h e = Some v ∧ reach h e ## dom h0 ∪ {[out]}.

Lemma copied_extends h0 h h' out es vs :
  Forall2 (copied h0 h out) es vs → (∀ a, a ≠ out → a ∈ dom h → h' !! a = h !! a) →
  Forall2 (copied h0 h' out) es vs.
Proof.
  intros H Hsame. eapply list.Forall2_impl; [exact H|]. intros e v [Hr Hd].
  destruct (reads_local h h' e v Hr) as [Hr' Hd'].
  - intros a Ha. apply Hsame; [set_solver|]. by eapply reach_dom.
  - split; [done|]. by rewrite Hd'.
Qed.

Lemma write_array out i e h l :
  array h out = Some l → write out i e h = <[out := to_cell (<[i := e]> l)]> h.
Proof. intros Hl. unfold write. by rewrite Hl. Qed.

Lemma array_insert h out l : array (<[out := to_cell l]> h) out = Some l.
Proof. unfold array. rewrite lookup_insert_eq. apply of_to. Qed.

Lemma array_extends h0 h a l : h0 ⊆ h → array h0 a = Some l → array h a = Some l.
Proof. unfold array. intros Hsub (c & Hc & Hl)%bind_Some. by rewrite (lookup_weaken _ _ _ _ Hc Hsub). Qed.

(** One round of the loop: the copy of [e] is written at [i]. *)
Lemma copy_step_ok h0 out vs i h es rest e v e' h1 :
  out ∉ dom h0 → h0 ⊆ h → array h out = Some (es ++ rest) → length es = i → (0 < length rest)%nat →
  Forall2 (copied h0 h out) es (take i vs) → vs !! i = Some v →
  reads h0 e = Some v → DeepCopyInto e h = (e', h1) →
  h0 ⊆ write out i e' h1 ∧ array (write out i e' h1) out = Some ((es ++ [e']) ++ tail rest) ∧
  Forall2 (copied h0 (write out i e' h1) out) (es ++ [e']) (take (S i) vs).
Proof.
  intros Hout Hsub Harr Hi Hrest Hes Hv He Hcopy.
  destruct (reads_extends h0 h e v He Hsub) as [He1 _].
  destruct (copy_ok h e v e' h1 He1 Hcopy) as (Hsub1 & Hr' & Hd').
  assert (Hw : write out i e' h1 = <[out := to_cell (es ++ e' :: tail rest)]> h1).
  { rewrite (write_array _ _ _ _ (es ++ rest)) by (by eapply array_extends).
    rewrite <-Hi, insert_app_r_alt, Nat.sub_diag by lia. by destruct rest; simpl in *; [lia|]. }
  assert (Houtin : out ∈ dom h).
  { unfold array in Harr. apply bind_Some in Harr as (c & Hc & _). apply elem_of_dom. eauto. }
  rewrite Hw. split_and!.
  - apply insert_subseteq_r; [by apply not_elem_of_dom|by etrans].
  - rewrite array_insert. by rewrite <-app_assoc.
  - erewrite take_S_r by done. apply Forall2_app; [|constructor; [|constructor]].
    + eapply copied_extends; [exact Hes|]. intros a Ha Hin. rewrite lookup_insert_ne by done.
      apply elem_of_dom in Hin as [c Hc]. rewrite Hc. by eapply lookup_weaken.
    + destruct (reads_local h1 (<[out := to_cell (es ++ e' :: tail rest)]> h1) e' v Hr') as [H1 H2].
      { intros a Ha. rewrite lookup_insert_ne; [done|]. intros <-. set_solver. }
      split; [done|]. rewrite H2. apply subseteq_dom in Hsub. set_solver.
Qed.

Lemma copy_loop_ok h0 a out l vs n i h es :
  array h0 a = Some l → mapM (reads h0) l = Some vs → out ∉ dom h0 → h0 ⊆ h →
  array h out = Some (es ++ replicate n inhabitant) → length es = i → (i + n = length l)%nat →
  Forall2 (copied h0 h out) es (take i vs) →
  h0 ⊆ copy_loop a out i n h ∧
  ∃ es', array (copy_loop a out i n h) out = Some es' ∧
    Forall2 (copied h0 (copy_loop a out i n h) out) es' vs.
Proof.
  intros Hl Hvs Hout. pose proof (length_mapM _ _ _ Hvs) as Hlen.
  revert i h es. induction n as [|n IH]; intros i h es Hsub Harr Hi Hn Hes; simpl.
  - split; [done|]. exists es. rewrite app_nil_r in Harr. split; [done|].
    by rewrite take_ge in Hes by lia.
  - rewrite (array_extends h0 h a l Hsub Hl). simpl.
    destruct (lookup_lt_is_Some_2 l i) as [e He]; [lia|]. rewrite He.
    destruct (lookup_lt_is_Some_2 vs i) as [v Hv]; [lia|].
    assert (Hr : reads h0 e = Some v).
    { apply mapM_Some_1 in Hvs. by eapply (list.Forall2_lookup_lr _ _ _ _ _ _ Hvs). }
    destruct (DeepCopyInto e h) as [e' h1] eqn:Hcopy.
    destruct (copy_step_ok h0 out vs i h es (replicate (S n) inhabitant) e v e' h1)
      as (Hsub' & Harr' & Hes'); try done; [rewrite length_replicate; lia|].
    apply (IH _ _ (es ++ [e'])); try done; [rewrite length_app; simpl; lia|lia].
Qed.

(** Everything the copy reaches is new. *)
Lemma copied_reach h0 h out es vs :
  out ∉ dom h0 → Forall2 (copied h0 h out) es vs → {[out]} ∪ ⋃ (reach h <$> es) ## dom h0.
Proof.
  intros Hout H. assert (⋃ (reach h <$> es) ## dom h0); [|set_solver].
  induction H as [|e v es vs [_ Hd] _ IH]; simpl; set_solver.
Qed.

Lemma copied_reads h0 h out es vs : Forall2 (copied h0 h out) es vs → mapM (reads h) es = Some vs.
Proof. intros H. apply mapM_Some. eapply list.Forall2_impl; [exact H|]. by intros e v [? _]. Qed.

Lemma slice_copy_ok h s vs s' h' :
  reads h s = Some vs → DeepCopyInto s h = (s', h') →
  h ⊆ h' ∧ reads h' s' = Some vs ∧ reach h' s' ## dom h.
Proof.
  destruct s as [a|]; simpl; [|intros [= <-] [= <- <-]; simpl; split_and!; [done|done|set_solver]].
  intros (l & Hl & Hvs)%bind_Some [= <- <-]. rewrite Hl. simpl.
  set (out := fresh (dom h)). assert (Hout : out ∉ dom h) by apply is_fresh.
  destruct (copy_loop_ok h a out l vs (length l) 0 (<[out := to_cell (replicate (length l) inhabitant)]> h) [])
    as (Hsub & es & Hes & Hall); try done.
  - apply insert_subseteq. by apply not_elem_of_dom.
  - rewrite array_insert. done.
  - split; [done|]. rewrite Hes. simpl. split; [by eapply copied_reads|by eapply copied_reach].
Qed.

Lemma elems_local h h2 (l : list T) (vs : list V) :
  mapM (reads h) l = Some vs → (∀ b, b ∈ ⋃ (reach h <$> l) → h2 !! b = h !! b) →
  mapM (reads h2) l = Some vs ∧ reach h2 <$> l = reach h <$> l.
Proof.
  intros H%mapM_Some_1. induction H as [|e v l vs He _ IH]; intros Hsame; [done|]. simpl in *.
  destruct (reads_local h h2 e v He) as [-> Hre]; [set_solver|].
  destruct IH as [-> IH]; [set_solver|]. split; [done|by f_equal].
Qed.

#[export] Instance slice_copy_laws : DeepCopyLaws slice (list V).
Proof.
  split; [exact slice_copy_ok|..].
  - intros h h2 [a|] vs; simpl; [|done]. intros (l & Hl & Hvs)%bind_Some Hsame.
    assert (array h2 a = Some l) as Hl2 by (unfold array; rewrite Hsame; [done|set_solver]).
    rewrite Hl, Hl2 in *. simpl in *. destruct (elems_local h h2 l vs Hvs) as [? ->]; [set_solver|done].
  - intros h [a|] vs; simpl; [|set_solver]. intros (l & Hl & Hvs%mapM_Some_1)%bind_Some. rewrite Hl. simpl.
    assert (a ∈ dom h). { apply elem_of_dom. unfold array in Hl. destruct (h !! a); [by eexists|done]. }
    assert (⋃ (reach h <$> l) ⊆ dom h); [|set_solver].
    clear Hl. induction Hvs as [|e v l vs He _ IH]; simpl; [set_solver|]. apply reach_dom in He.
    by apply union_least.
Qed.

End slices.

(** ** The generated functions *)

(** The vendored types' copies. *)
Context `{CM : !DeepCopy RMeta ObjectMeta, LM : !DeepCopyLaws RMeta ObjectMeta}.
Context `{CS : !DeepCopy RSelector LabelSelector, LS : !DeepCopyLaws RSelector LabelSelector}.
Context `{CC : !DeepCopy RCondition Condition, LC : !DeepCopyLaws RCondition Condition}.
Context {VListMeta : Type} `{CL : !DeepCopy RListMeta VListMeta, LL : !DeepCopyLaws RListMeta VListMeta}.

#[export] Instance spec_copy : DeepCopy EndpointSelectorSpec_ LabelSelector := {
  DeepCopyInto spec h := let '(s, h) := DeepCopyInto (spec_Selector spec) h in (mkSpec s, h);
  reads h spec := reads h (spec_Selector spec);
  reach h spec := reach h (spec_Selector spec);
}.

#[export] Instance status_copy : DeepCopy EndpointSelectorStatus_ (list Condition) := {
  DeepCopyInto st h := let '(cs, h) := DeepCopyInto (status_Conditions st) h in (mkStatus cs, h);
  reads h st := reads h (status_Conditions st);
  reach h st := reach h (status_Conditions st);
}.

#[export] Instance selector_copy : DeepCopy XEndpointSelector_ XEndpointSelector := {
  DeepCopyInto x h :=
    let '(m, h) := DeepCopyInto (x_ObjectMeta x) h in
    let '(spec, h) := DeepCopyInto (x_Spec x) h in
    let '(st, h) := DeepCopyInto (x_Status x) h in
    (mkSelector_ (x_APIVersion x) (x_Kind x) m spec st, h);
  reads h x :=
    m ← reads h (x_ObjectMeta x);
    sel ← reads h (x_Spec x);
    cs ← reads h (x_Status x);
    Some (mkXEndpointSelector (x_APIVersion x) (x_Kind x) m sel cs);
  reach h x := reach h (x_ObjectMeta x) ∪ reach h (x_Spec x) ∪ reach h (x_Status x);
}.

#[export] Instance list_copy : DeepCopy XEndpointSelectorList_ (string * string * VListMeta * list XEndpointSelector) := {
  DeepCopyInto xl h :=
    let '(m, h) := DeepCopyInto (xl_ListMeta xl) h in
    let '(items, h) := DeepCopyInto (xl_Items xl) h in
    (mkSelectorList_ (xl_APIVersion xl) (xl_Kind xl) m items, h);
  reads h xl :=
    m ← reads h (xl_ListMeta xl);
    items ← reads h (xl_Items xl);
    Some (xl_APIVersion xl, xl_Kind xl, m, items);
  reach h xl := reach h (xl_ListMeta xl) ∪ reach h (xl_Items xl);
}.

(** [DeepCopy]: nil for nil, and otherwise a new struct that [DeepCopyInto]
    fills.  A pointer to a struct is the struct. *)
Definition DeepCopy_new {T V} `{!DeepCopy T V} (x : option T) (h : heap) : option T * heap :=
  match x with
  | None => (None, h)
  | Some x => let '(out, h) := DeepCopyInto x h in (Some out, h)
  end.

Definition EndpointSelectorSpec_DeepCopy : option EndpointSelectorSpec_ → heap → option EndpointSelectorSpec_ * heap :=
  DeepCopy_new.
Definition EndpointSelectorStatus_DeepCopy :
    option EndpointSelectorStatus_ → heap → option EndpointSelectorStatus_ * heap := DeepCopy_new.
Definition XEndpointSelector_DeepCopy : option XEndpointSelector_ → heap → option XEndpointSelector_ * heap :=
  DeepCopy_new.
Definition XEndpointSelectorList_DeepCopy :
    option XEndpointSelectorList_ → heap → option XEndpointSelectorList_ * heap := DeepCopy_new.

Inductive runtime_Object :=
| SelectorObject (x : XEndpointSelector_) | SelectorListObject (xl : XEndpointSelectorList_).

Definition XEndpointSelector_DeepCopyObject (x : option XEndpointSelector_) (h : heap) : option runtime_Object * heap :=
  let '(c, h) := XEndpointSelector_DeepCopy x h in (SelectorObject <$> c, h).

Definition XEndpointSelectorList_DeepCopyObject (xl : option XEndpointSelectorList_) (h : heap)
    : option runtime_Object * heap :=
  let '(c, h) := XEndpointSelectorList_DeepCopy xl h in (SelectorListObject <$> c, h).

(** ** A change made to a copy

    The copy that updateEndpointSelectorStatus makes of a selector and the
    assignment of its [Status.Conditions]; [conditions] is the array that
    [mergeConditions] has built. *)
Definition copy_with_conditions (selector : XEndpointSelector_) (conditions : list RCondition) (h : heap)
    : XEndpointSelector_ * heap :=
  let '(updated, h) := DeepCopyInto selector h in
  let a := fresh (dom h) in
  (mkSelector_ (x_APIVersion updated) (x_Kind updated) (x_ObjectMeta updated) (x_Spec updated) (mkStatus (Some a)),
   <[a := CConditions conditions]> h).

(** ** Facts *)

(** Two values copied one after the other. *)
Lemma copy_two {T1 V1 T2 V2} `{DeepCopyLaws T1 V1, DeepCopyLaws T2 V2} h (t1 : T1) (v1 : V1) (t2 : T2) (v2 : V2)
    t1' h1 t2' h2 :
  reads h t1 = Some v1 → reads h t2 = Some v2 →
  DeepCopyInto t1 h = (t1', h1) → DeepCopyInto t2 h1 = (t2', h2) →
  h ⊆ h1 ∧ h1 ⊆ h2 ∧ reads h2 t1' = Some v1 ∧ reads h2 t2' = Some v2 ∧
  reach h2 t1' ## dom h ∧ reach h2 t2' ## dom h.
Proof.
  intros Hv1 Hv2 Hc1 Hc2.
  destruct (copy_ok h t1 v1 t1' h1 Hv1 Hc1) as (Hs1 & Hr1 & Hd1).
  destruct (reads_extends h h1 t2 v2 Hv2 Hs1) as [Hv2' _].
  destruct (copy_ok h1 t2 v2 t2' h2 Hv2' Hc2) as (Hs2 & Hr2 & Hd2).
  destruct (reads_extends h1 h2 t1' v1 Hr1 Hs2) as [Hr1' He].
  apply subseteq_dom in Hs1 as Hdom. split_and!; try done; [by rewrite He|set_solver].
Qed.

#[export] Instance spec_copy_laws : DeepCopyLaws EndpointSelectorSpec_ LabelSelector.
Proof.
  split.
  - intros h [s] v t' h'. cbn. destruct (DeepCopyInto s h) as [s' h1] eqn:E. intros Hr [= <- <-]. by eapply copy_ok.
  - intros h h2 [s] v. apply (reads_local (T:=RSelector)).
  - intros h [s] v. apply (reach_dom (T:=RSelector)).
Qed.

#[export] Instance status_copy_laws : DeepCopyLaws EndpointSelectorStatus_ (list Condition).
Proof.
  split.
  - intros h [s] v t' h'. cbn [DeepCopyInto reads reach status_copy status_Conditions].
    destruct (DeepCopyInto s h) as [s' h1] eqn:E. intros Hr [= <- <-]. by eapply (copy_ok (T:=slice)).
  - intros h h2 [s] v. apply (reads_local (T:=slice)).
  - intros h [s] v. apply (reach_dom (T:=slice)).
Qed.

#[export] Instance selector_copy_laws : DeepCopyLaws XEndpointSelector_ XEndpointSelector.
Proof.
  split.
  - intros h [av k m spec st] v t' h'. cbn [DeepCopyInto reads reach selector_copy x_ObjectMeta x_Spec x_Status x_APIVersion x_Kind].
    destruct (DeepCopyInto m h) as [m' h1] eqn:E1. destruct (DeepCopyInto spec h1) as [spec' h2] eqn:E2.
    destruct (DeepCopyInto st h2) as [st' h3] eqn:E3.
    intros (vm & Hm & (vs & Hs & (vc & Hc & [= <-])%bind_Some)%bind_Some)%bind_Some [= <- <-].
    destruct (copy_two h m vm spec vs m' h1 spec' h2 Hm Hs E1 E2) as (H1 & H2 & Hm2 & Hs2 & Dm & Ds).
    assert (Hsub : h ⊆ h2) by by etrans.
    destruct (reads_extends h h2 st vc Hc Hsub) as [Hc2 _].
    destruct (copy_ok h2 st vc st' h3 Hc2 E3) as (H3 & Hc3 & Dc).
    cbn [x_ObjectMeta x_Spec x_Status x_APIVersion x_Kind].
    destruct (reads_extends h2 h3 m' vm Hm2 H3) as [-> ->]. destruct (reads_extends h2 h3 spec' vs Hs2 H3) as [-> ->].
    rewrite Hc3. split_and!; [by etrans|done|]. apply subseteq_dom in Hsub. set_solver.
  - intros h h2 [av k m spec st] v. cbn [reads reach selector_copy x_ObjectMeta x_Spec x_Status x_APIVersion x_Kind].
    intros (vm & Hm & (vs & Hs & (vc & Hc & [= <-])%bind_Some)%bind_Some)%bind_Some Hsame.
    destruct (reads_local h h2 m vm Hm) as [-> ->]; [set_solver|].
    destruct (reads_local h h2 spec vs Hs) as [-> ->]; [set_solver|].
    destruct (reads_local h h2 st vc Hc) as [-> ->]; [set_solver|done].
  - intros h [av k m spec st] v. cbn [reads reach selector_copy x_ObjectMeta x_Spec x_Status x_APIVersion x_Kind].
    intros (vm & Hm%reach_dom & (vs & Hs%reach_dom & (vc & Hc%reach_dom & _)%bind_Some)%bind_Some)%bind_Some.
    set_solver.
Qed.

#[export] Instance list_copy_laws :
  DeepCopyLaws XEndpointSelectorList_ (string * string * VListMeta * list XEndpointSelector).
Proof.
  split.
  - intros h [av k m items] v t' h'. cbn [DeepCopyInto reads reach list_copy xl_ListMeta xl_Items xl_APIVersion xl_Kind].
    destruct (DeepCopyInto m h) as [m' h1] eqn:E1. destruct (DeepCopyInto items h1) as [items' h2] eqn:E2.
    intros (vm & Hm & (vi & Hi & [= <-])%bind_Some)%bind_Some [= <- <-].
    destruct (copy_two h m vm items vi m' h1 items' h2 Hm Hi E1 E2) as (H1 & H2 & Hm2 & Hi2 & Dm & Di).
    cbn [xl_ListMeta xl_Items xl_APIVersion xl_Kind]. rewrite Hm2, Hi2. split_and!; [by etrans|done|set_solver].
  - intros h h2 [av k m items] v. cbn [reads reach list_copy xl_ListMeta xl_Items xl_APIVersion xl_Kind].
    intros (vm & Hm & (vi & Hi & [= <-])%bind_Some)%bind_Some Hsame.
    destruct (reads_local h h2 m vm Hm) as [-> ->]; [set_solver|].
    destruct (reads_local h h2 items vi Hi) as [-> ->]; [set_solver|done].
  - intros h [av k m items] v. cbn [reads reach list_copy xl_ListMeta xl_Items xl_APIVersion xl_Kind].
    intros (vm & Hm%reach_dom & (vi & Hi%reach_dom & _)%bind_Some)%bind_Some. set_solver.
Qed.

(** [h2] is [h] after writes at [A] and in memory allocated since. *)
Definition written_at (A : gset addr) (h h2 : heap) : Prop := ∀ a, a ∈ dom h → a ∉ A → h2 !! a = h !! a.

(** [copy] makes a copy that shares nothing with its original: writes through
    either leave the other as it was. *)
Definition separate_copy {T V} `{!DeepCopy T V} (copy : option T → heap → option T * heap) (h : heap) (x : T) (v : V)
    : Prop :=
  ∃ x' h', copy (Some x) h = (Some x', h') ∧ reads h' x' = Some v ∧
    (∀ h2, written_at (reach h' x') h' h2 → reads h2 x = Some v) ∧
    (∀ h2, written_at (reach h' x) h' h2 → reads h2 x' = Some v).

Lemma copy_separate {T V} `{DeepCopyLaws T V} h (x : T) (v : V) : reads h x = Some v → separate_copy DeepCopy_new h x v.
Proof.
  intros Hr. unfold separate_copy, DeepCopy_new. destruct (DeepCopyInto x h) as [x' h'] eqn:E.
  destruct (copy_ok h x v x' h' Hr E) as (Hsub & Hr' & Hd). destruct (reads_extends h h' x v Hr Hsub) as [Hx He].
  pose proof (reach_dom h x v Hr) as Hin. pose proof (reach_dom h' x' v Hr') as Hin'. apply subseteq_dom in Hsub.
  exists x', h'. split_and!; [done|done|..]; intros h2 Hsame.
  - apply (reads_local h' h2 x v Hx). intros a Ha. apply Hsame; rewrite He in Ha; set_solver.
  - apply (reads_local h' h2 x' v Hr'). intros a Ha. apply Hsame; [set_solver|]. rewrite He. set_solver.
Qed.

(** The change made by the status update is such a write: the copy reads with
    the new conditions, the original as it did. *)
Lemma copy_with_conditions_ok h (x : XEndpointSelector_) (v : XEndpointSelector) conditions cs x' h' :
  reads h x = Some v → mapM (reads h) conditions = Some cs → copy_with_conditions x conditions h = (x', h') →
  reads h' x' = Some (mkXEndpointSelector (xs_APIVersion v) (xs_Kind v) (xs_meta v) (xs_Selector v) cs) ∧
  reads h' x = Some v.
Proof.
  intros Hr Hcs. unfold copy_with_conditions. destruct (DeepCopyInto x h) as [y h1] eqn:E. intros [= <- <-].
  destruct (copy_ok h x v y h1 Hr E) as (Hsub & Hy & _). set (a := fresh (dom h1)).
  assert (Hext : h1 ⊆ <[a := CConditions conditions]> h1) by (apply insert_subseteq, not_elem_of_dom, is_fresh).
  destruct (reads_extends h _ x v Hr (transitivity Hsub Hext)) as [-> _]. split; [|done].
  destruct (reads_extends h1 _ y v Hy Hext) as [Hy' _]. revert Hy'.
  cbn [reads selector_copy x_ObjectMeta x_Spec x_Status x_APIVersion x_Kind].
  intros (vm & -> & (vs & -> & (vc & _ & [= <-])%bind_Some)%bind_Some)%bind_Some.
  cbn. unfold array. rewrite lookup_insert_eq. cbn.
  assert (mapM (reads (<[a := CConditions conditions]> h1)) conditions = Some cs) as ->; [|done].
  apply mapM_Some. apply mapM_Some_1 in Hcs. eapply list.Forall2_impl; [exact Hcs|].
  intros c vc' Hc. by apply (reads_extends h _ c vc' Hc (transitivity Hsub Hext)).
Qed.

(** C36. A deep copy of a selector, or of a list of them, reads
    as its original does and shares no memory with it: whatever is then written
    through the copy or into new memory, the original still reads the same, and
    whatever is written through the original, the copy does.  So when the
    controller makes a copy and gives it newly built status conditions, the copy
    reads with those and everything else as it was, and the original is
    unchanged. *)
Theorem deep_copies_separate :
  (∀ h (x : XEndpointSelector_) (v : XEndpointSelector), reads h x = Some v →
    separate_copy XEndpointSelector_DeepCopy h x v) ∧
  (∀ h (xl : XEndpointSelectorList_) v, reads h xl = Some v →
    separate_copy XEndpointSelectorList_DeepCopy h xl v) ∧
  (∀ h (x : XEndpointSelector_) (v : XEndpointSelector) conditions cs x' h',
    reads h x = Some v → mapM (reads h) conditions = Some cs → copy_with_conditions x conditions h = (x', h') →
    reads h' x' = Some (mkXEndpointSelector (xs_APIVersion v) (xs_Kind v) (xs_meta v) (xs_Selector v) cs) ∧
    reads h' x = Some v).
Proof. split_and!; intros *; [apply copy_separate..|apply copy_with_conditions_ok]. Qed.

End deepcopy.

(** ** A small apimachinery, and a worked example

    Conditions and ListMeta without references; an ObjectMeta and a
    LabelSelector whose labels are a map in memory. *)

Definition labels_cell : Type := gmap string string.
Record map_ref := mkMapRef { mr_addr : option addr }.
Record meta_ref := mkMetaRef { mt_base : ObjectMeta; mt_labels : map_ref }.
Record selector_ref := mkSelectorRef { sr_labels : map_ref }.

#[export] Instance meta_ref_inhabited : Inhabited meta_ref :=
  populate (mkMetaRef (mkMeta "" "" "" 0 None ∅ [] []) (mkMapRef None)).
#[export] Instance condition_inhabited : Inhabited Condition := populate (mkCondition "" "" "" "" 0 0).
#[export] Instance selector_ref_inhabited : Inhabited selector_ref := populate (mkSelectorRef (mkMapRef None)).

Section demo.
Abbreviation Copy := (DeepCopy (RMeta := meta_ref) (RSelector := selector_ref) (RCondition := Condition)
                        (X := labels_cell)).
Abbreviation CopyLaws T V DC := (@DeepCopyLaws meta_ref selector_ref Condition labels_cell T V DC).

(** A value without references. *)
Definition flat_copy (T : Type) : Copy T T :=
  {| DeepCopyInto t h := (t, h); reads h t := Some t; reach h t := ∅ |}.

Lemma flat_copy_laws T : CopyLaws T T (flat_copy T).
Proof.
  split.
  - intros h t v t' h' [= <-] [= <- <-]. split_and!; [done|done|]. simpl. set_solver.
  - intros h h2 t v [= <-] _. done.
  - intros h t v _. simpl. set_solver.
Qed.

#[export] Instance condition_copy : Copy Condition Condition := flat_copy _.
#[export] Instance condition_copy_laws : CopyLaws Condition Condition condition_copy := flat_copy_laws _.
#[export] Instance string_copy : Copy string string := flat_copy _.
#[export] Instance string_copy_laws : CopyLaws string string string_copy := flat_copy_laws _.

#[export] Instance map_copy : Copy map_ref (gmap string string) := {
  DeepCopyInto r h :=
    match mr_addr r ≫= (h !!.) with
    | Some (COther m) => let a := fresh (dom h) in (mkMapRef (Some a), <[a := COther m]> h)
    | _ => (r, h)
    end;
  reads h r :=
    match mr_addr r with
    | None => Some ∅
    | Some a => match h !! a with Some (COther m) => Some m | _ => None end
    end;
  reach h r := match mr_addr r with None => ∅ | Some a => {[a]} end;
}.

#[export] Instance map_copy_laws : CopyLaws map_ref (gmap string string) map_copy.
Proof.
  split.
  - intros h [[a|]] v t' h'; cbn; [|intros [= <-] [= <- <-]; split_and!; [done|done|set_solver]].
    destruct (h !! a) as [[| |m]|]; try done. intros [= <-] [= <- <-].
    pose proof (is_fresh (dom h)) as Hf. split_and!.
    + apply insert_subseteq. by apply not_elem_of_dom.
    + cbn. by rewrite lookup_insert_eq.
    + cbn. set_solver.
  - intros h h2 [[a|]] v; cbn; [|done]. intros Hr Hs. by rewrite Hs by set_solver.
  - intros h [[a|]] v; cbn; [|set_solver]. destruct (h !! a) eqn:E; [|done]. intros _.
    apply singleton_subseteq_l, elem_of_dom. by eexists.
Qed.

Definition with_labels (m : ObjectMeta) (labels : gmap string string) : ObjectMeta :=
  mkMeta (Namespace m) (Name m) (UID m) (Generation m) (DeletionTimestamp m) labels (Finalizers m)
    (OwnerReferences m).

#[export] Instance meta_copy : Copy meta_ref ObjectMeta := {
  DeepCopyInto r h := let '(l, h) := DeepCopyInto (mt_labels r) h in (mkMetaRef (mt_base r) l, h);
  reads h r := with_labels (mt_base r) <$> reads h (mt_labels r);
  reach h r := reach h (mt_labels r);
}.

#[export] Instance meta_copy_laws : CopyLaws meta_ref ObjectMeta meta_copy.
Proof.
  split.
  - intros h [b l] v t' h'. cbn [DeepCopyInto reads reach meta_copy mt_base mt_labels].
    destruct (DeepCopyInto l h) as [l' h1] eqn:E. intros (m & Hm & ->)%fmap_Some [= <- <-].
    destruct (copy_ok h l m l' h1 Hm E) as (? & Hr & ?). cbn [mt_base mt_labels]. by rewrite Hr.
  - intros h h2 [b l] v. cbn [reads reach meta_copy mt_base mt_labels]. intros (m & Hm & ->)%fmap_Some Hs.
    by destruct (reads_local h h2 l m Hm Hs) as [-> ->].
  - intros h [b l] v. cbn [reads reach meta_copy mt_base mt_labels]. intros (m & Hm & ->)%fmap_Some.
    by eapply reach_dom.
Qed.

#[export] Instance label_selector_copy : Copy selector_ref LabelSelector := {
  DeepCopyInto r h := let '(l, h) := DeepCopyInto (sr_labels r) h in (mkSelectorRef l, h);
  reads h r := (λ m, mkLabelSelector m []) <$> reads h (sr_labels r);
  reach h r := reach h (sr_labels r);
}.

#[export] Instance label_selector_copy_laws : CopyLaws selector_ref LabelSelector label_selector_copy.
Proof.
  split.
  - intros h [l] v t' h'. cbn [DeepCopyInto reads reach label_selector_copy sr_labels].
    destruct (DeepCopyInto l h) as [l' h1] eqn:E. intros (m & Hm & ->)%fmap_Some [= <- <-].
    destruct (copy_ok h l m l' h1 Hm E) as (? & Hr & ?). cbn [sr_labels]. by rewrite Hr.
  - intros h h2 [l] v. cbn [reads reach label_selector_copy sr_labels]. intros (m & Hm & ->)%fmap_Some Hs.
    by destruct (reads_local h h2 l m Hm Hs) as [-> ->].
  - intros h [l] v. cbn [reads reach label_selector_copy sr_labels]. intros (m & Hm & ->)%fmap_Some.
    by eapply reach_dom.
Qed.

(** A selector with a label map at 1 and its conditions at 2. *)
Definition demo_heap : gmap addr (cell (RMeta := meta_ref) (RSelector := selector_ref) (RCondition := Condition)
                                    (X := labels_cell)) :=
  {[1%positive := COther {["app" := "web"]};
    2%positive := CConditions [mkCondition "Accepted" "True" "Accepted" "" 1 0]]}.

Definition demo_in_memory : XEndpointSelector_ :=
  mkSelector_ "" "" (mkMetaRef (mkMeta "default" "sel" "" 1 None ∅ [] []) (mkMapRef None))
    (mkSpec (mkSelectorRef (mkMapRef (Some 1%positive)))) (mkStatus (Some 2%positive)).

Definition demo_value : XEndpointSelector :=
  mkXEndpointSelector "" "" (mkMeta "default" "sel" "" 1 None ∅ [] []) (mkLabelSelector {["app" := "web"]} [])
    [mkCondition "Accepted" "True" "Accepted" "" 1 0].

Definition demo_conditions : list Condition := [mkCondition "Accepted" "False" "Invalid" "" 1 0].

Lemma deep_copies_separate_witness :
  separate_copy XEndpointSelector_DeepCopy demo_heap demo_in_memory demo_value ∧
  reads (copy_with_conditions demo_in_memory demo_conditions demo_heap).2 demo_in_memory = Some demo_value.
Proof.
  destruct (deep_copies_separate (RMeta := meta_ref) (RSelector := selector_ref) (RCondition := Condition)
    (RListMeta := string) (X := labels_cell) (VListMeta := string)) as (H & _ & Hc). split.
  - apply H. vm_compute. reflexivity.
  - apply (Hc demo_heap demo_in_memory demo_value demo_conditions demo_conditions
      (copy_with_conditions demo_in_memory demo_conditions demo_heap).1);
      [vm_compute; reflexivity|vm_compute; reflexivity|apply surjective_pairing].
Defined.
End demo.
