(* ===== verification/Route.v ===== *)
(** * internal/controller/route_reconcile.go

    TCPRoute evaluation, listener resolution, route attachment, and the route
    reconciler. *)

From S2P Require Import Prelude GoStrings KubeTypes Api Indexers Status Listeners Selector.

Section route.
Context `{API : !ApiMachinery} (now : Z).

Record routeEvaluation := mkRouteEvaluation {
  re_acceptedStatus : ConditionStatus;
  re_acceptedReason : string;
  re_acceptedMessage : string;
  re_resolvedStatus : ConditionStatus;
  re_resolvedReason : string;
  re_resolvedMessage : string;
}.

Definition parentMatchesListener (parent : ParentReference) (listener : Listener) : bool :=
  if match pr_SectionName parent with Some n => bool_decide (n ≠ l_Name listener) | None => false end
  then false
  else if match pr_Port parent with Some p => bool_decide (p ≠ l_Port listener) | None => false end
  then false
  else true.

(** Does this parent reference of a route in [ns] name the Gateway? *)
Definition parent_names_gateway (ns : string) (parent : ParentReference) (gateway : Gateway) : bool :=
  bool_decide (non_empty_or ns (pr_Namespace parent) = Namespace (gw_meta gateway))
  && bool_decide (pr_Name parent = Name (gw_meta gateway)).

Definition matching_ref (ns : string) (gateway : Gateway) : list ParentReference → ParentReference :=
  fix loop (parents : list ParentReference) : ParentReference :=
    match parents with
    | [] => mkParentRef None None None (Name (gw_meta gateway)) None None
    | parent :: parents =>
        if negb (isGatewayParentRef parent) then loop parents
        else if parent_names_gateway ns parent gateway then parent
        else loop parents
    end.

Definition matchingParentRef (route : TCPRoute) (gateway : Gateway) : ParentReference :=
  matching_ref (Namespace (rt_meta route)) gateway (ParentRefs route).

Definition resolveGatewayListener (gateway : Gateway) (parent : ParentReference) : result Listener :=
  let validation := validateGatewayListeners now (Some gateway) in
  if negb (v_valid validation) then Err (ErrorString (v_message validation))
  else
    match filter (λ listener, parentMatchesListener parent listener = true) (v_listeners validation) with
    | [] => Err (ErrorString "ParentRef does not select a Gateway listener")
    | [listener] => Ok listener
    | _ => Err (ErrorString "ParentRef must select exactly one Gateway listener by sectionName or port")
    end.

Definition namespace_name_cmp (a b : TCPRoute) : Z :=
  if decide (Namespace (rt_meta a) = Namespace (rt_meta b)) then
    if str_lt (Name (rt_meta a)) (Name (rt_meta b)) then -1
    else if str_lt (Name (rt_meta b)) (Name (rt_meta a)) then 1 else 0
  else if str_lt (Namespace (rt_meta a)) (Namespace (rt_meta b)) then -1 else 1.

(** The inner loop: some parent reference attaches the route to the listener. *)
Definition attaches (gateway : Gateway) (listener : Listener) (route : TCPRoute) : bool :=
  existsb (λ parent,
      if negb (isGatewayParentRef parent) then false
      else if negb (parent_names_gateway (Namespace (rt_meta route)) parent gateway) then false
      else parentMatchesListener parent listener)
    (ParentRefs route).

Definition attachedRoutesForListener (gateway : Gateway) (listener : Listener)
    (routes : list TCPRoute) : list TCPRoute :=
  slices_SortFunc namespace_name_cmp
    (filter (λ route,
       (if decide (Namespace (rt_meta route) ≠ Namespace (gw_meta gateway)) then false
        else attaches gateway listener route) = true) routes).

Definition countAttachedRoutesForListener (gateway : Gateway) (listener : Listener)
    (routes : list TCPRoute) : nat :=
  length (attachedRoutesForListener gateway listener routes).

Definition listRoutesForGateway (c : Caches) (key : NamespacedName) : result (list TCPRoute) :=
  let! items := route_ByGateway c (namespacedKey key) in
  Ok (omap (λ item, match item with OTCPRoute route => Some route | _ => None end) items).

(** ** Evaluation *)

Definition with_accepted (ev : routeEvaluation) (status : ConditionStatus) (reason message : string)
    : routeEvaluation :=
  mkRouteEvaluation status reason message
    (re_resolvedStatus ev) (re_resolvedReason ev) (re_resolvedMessage ev).

Definition with_resolved (ev : routeEvaluation) (status : ConditionStatus) (reason message : string)
    : routeEvaluation :=
  mkRouteEvaluation (re_acceptedStatus ev) (re_acceptedReason ev) (re_acceptedMessage ev)
    status reason message.

Definition class_quoted : string := Quote gatewaymeta_GatewayClassName.

(** The Accepted half of [evaluateRoute]. *)
Definition evaluate_attachment (route : TCPRoute) (parentRef : ParentReference) (gateway : Gateway)
    (attachedRoutes : list TCPRoute) (evaluation : routeEvaluation) : routeEvaluation :=
  if decide (Namespace (rt_meta route) ≠ Namespace (gw_meta gateway))
  then with_accepted evaluation ConditionFalse ReasonNotAllowedByListeners
         "Cross-namespace TCPRoute attachment is not supported in this phase."
  else if decide (length (ParentRefs route) ≠ 1%nat)
  then with_accepted evaluation ConditionFalse ReasonUnsupportedValue
         "Exactly one parentRef is supported."
  else
    match resolveGatewayListener gateway parentRef with
    | Err err => with_accepted evaluation ConditionFalse ReasonUnsupportedValue (Error err)
    | Ok listener =>
        if decide (countAttachedRoutesForListener gateway listener attachedRoutes ≠ 1%nat)
        then with_accepted evaluation ConditionFalse ReasonUnsupportedValue
               ("Listener " +:+ Quote (l_Name listener) +:+ " supports exactly one attached TCPRoute.")
        else with_accepted evaluation ConditionTrue ReasonAccepted
               "TCPRoute accepted by clusterip-gw-controller."
    end.

(** The ResolvedRefs half. *)
Definition evaluate_backend (c : Caches) (route : TCPRoute) (evaluation : routeEvaluation)
    : routeEvaluation :=
  match Rules route with
  | [rule] =>
      match BackendRefs rule with
      | [backend] =>
          let group := deref_or "" (br_Group backend) in
          let kind := non_empty_or endpointSelectorKind (br_Kind backend) in
          if bool_decide (group ≠ endpointSelectorAPIGroup) || bool_decide (kind ≠ endpointSelectorKind)
          then with_resolved evaluation ConditionFalse ReasonInvalidKind
                 "Only gateway.networking.x-k8s.io XEndpointSelector backendRefs are supported."
          else
            let backendNamespace := non_empty_or (Namespace (rt_meta route)) (br_Namespace backend) in
            if decide (backendNamespace ≠ Namespace (rt_meta route))
            then with_resolved evaluation ConditionFalse ReasonRefNotPermitted
                   "Cross-namespace XEndpointSelector backendRefs are not supported in this phase."
            else
              match br_Port backend with
              | None => with_resolved evaluation ConditionFalse ReasonBackendNotFound
                          "XEndpointSelector backendRefs must set port."
              | Some _ =>
                  match getEndpointSelector c (mkNN backendNamespace (br_Name backend)) with
                  | Err err =>
                      if IsNotFound err
                      then with_resolved evaluation ConditionFalse ReasonBackendNotFound
                             ("Backend XEndpointSelector " +:+ backendNamespace +:+ "/"
                                +:+ br_Name backend +:+ " was not found.")
                      else with_resolved evaluation ConditionFalse ReasonBackendNotFound (Error err)
                  | Ok selector =>
                      let '(acceptedStatus, acceptedReason, acceptedMessage) :=
                        evaluateEndpointSelector selector in
                      if decide (acceptedStatus ≠ ConditionTrue)
                      then with_resolved evaluation ConditionFalse ReasonBackendNotFound
                             ("Backend XEndpointSelector " +:+ backendNamespace +:+ "/"
                                +:+ br_Name backend +:+ " is not accepted: "
                                +:+ acceptedReason +:+ ": " +:+ acceptedMessage)
                      else evaluation
                  end
              end
      | _ => with_resolved evaluation ConditionFalse ReasonUnsupportedValue
               "Exactly one backendRef is supported."
      end
  | _ => with_resolved evaluation ConditionFalse ReasonUnsupportedValue
           "Exactly one TCPRoute rule is supported."
  end.

Definition evaluateRoute (c : Caches) (route : TCPRoute) (parentRef : ParentReference)
    (gateway : Gateway) (gatewayClass : option GatewayClass) (attachedRoutes : list TCPRoute)
    : routeEvaluation :=
  let evaluation := mkRouteEvaluation
    ConditionFalse ReasonPending "Waiting for Gateway reconciliation."
    ConditionTrue ReasonResolvedRefs "Backend references resolved." in
  if match gatewayClass with
     | None => true
     | Some gc => bool_decide (gc_ControllerName gc ≠ controllerName)
     end
  then with_accepted evaluation ConditionFalse ReasonPending
         ("GatewayClass " +:+ class_quoted +:+ " is not accepted by this controller.")
  else
    evaluate_backend c route (evaluate_attachment route parentRef gateway attachedRoutes evaluation).

(** ** The reconciler *)

(** [c.gatewayClasses.Get]: the lister gives a nil class with a NotFound error,
    which the callers let pass. *)
Definition getGatewayClass (c : Caches) : result (option GatewayClass) :=
  match gatewayClasses_Get c gatewaymeta_GatewayClassName with
  | Ok gatewayClass => Ok (Some gatewayClass)
  | Err err => if IsNotFound err then Ok None else Err err
  end.

Definition route_parent_status (route : TCPRoute) (parentRef : ParentReference)
    (evaluation : routeEvaluation) : RouteParentStatus :=
  mkRouteParentStatus parentRef controllerName
    (mergeConditions []
       [condition now TypeAccepted (re_acceptedStatus evaluation) (re_acceptedReason evaluation)
          (re_acceptedMessage evaluation) (Generation (rt_meta route));
        condition now TypeResolvedRefs (re_resolvedStatus evaluation) (re_resolvedReason evaluation)
          (re_resolvedMessage evaluation) (Generation (rt_meta route))]).

(** One round of the loop over parent references; [None]: [continue]. *)
Definition desired_parent (c : Caches) (route : TCPRoute) (parentRef : ParentReference)
    : result (option RouteParentStatus) :=
  if negb (isGatewayParentRef parentRef) then Ok None
  else
    let gatewayNamespace := non_empty_or (Namespace (rt_meta route)) (pr_Namespace parentRef) in
    match gateways_Get c gatewayNamespace (pr_Name parentRef) with
    | Err err => if IsNotFound err then Ok None else Err err
    | Ok gateway =>
        if decide (GatewayClassName (gw_spec gateway) ≠ gatewaymeta_GatewayClassName) then Ok None
        else
          let! gatewayClass := getGatewayClass c in
          let! attachedRoutes := listRoutesForGateway c (meta_key (gw_meta gateway)) in
          let evaluation := evaluateRoute c route parentRef gateway gatewayClass attachedRoutes in
          Ok (Some (route_parent_status route parentRef evaluation))
    end.

Fixpoint desired_parents (c : Caches) (route : TCPRoute) (parents : list ParentReference)
    : result (list RouteParentStatus) :=
  match parents with
  | [] => Ok []
  | parentRef :: parents =>
      let! status := desired_parent c route parentRef in
      let! rest := desired_parents c route parents in
      Ok (match status with Some s => s :: rest | None => rest end)
  end.

Definition with_parents (route : TCPRoute) (parents : list RouteParentStatus) : TCPRoute :=
  mkTCPRoute (rt_meta route) (ParentRefs route) (Rules route) parents.

Definition reconcileRoute (c : Caches) (key : string) : prog (result unit) :=
  match getRoute c key with
  | Err err => if IsNotFound err then Ret (Ok tt) else Ret (Err err)
  | Ok route =>
      get! desired := desired_parents c route (ParentRefs route) in
      let updated := with_parents route (mergeRouteParents (Parents route) desired) in
      if routeStatusEqual route updated then Ret (Ok tt)
      else perform (TCPRouteUpdateStatus (Namespace (rt_meta route)) updated)
  end.

End route.
