(* ===== verification/Gateway.v ===== *)
(** * internal/controller/gateway_reconcile.go

    GatewayClass and Gateway reconciliation, the Gateway's evaluation, and
    [updateGatewayStatus] of status.go. *)

From S2P Require Import Prelude GoStrings KubeTypes Api Indexers Status Ipam Listeners Selector Route.

Section gateway.
Context `{API : !ApiMachinery} (now : Z).

(** ** GatewayClass *)

Definition shouldManageGatewayClass (gatewayClass : option GatewayClass) : bool :=
  match gatewayClass with
  | None => false
  | Some gc =>
      bool_decide (Name (gc_meta gc) = gatewaymeta_GatewayClassName)
      || bool_decide (gc_ControllerName gc = controllerName)
  end.

Definition gatewayClassAcceptedMessage (gatewayClass : GatewayClass) (accepted : bool) : string :=
  if accepted then "GatewayClass accepted by clusterip-gw-controller."
  else if decide (Name (gc_meta gatewayClass) ≠ gatewaymeta_GatewayClassName)
  then "Only GatewayClass " +:+ class_quoted +:+ " is supported by this controller."
  else "GatewayClass " +:+ class_quoted +:+ " must set spec.controllerName to "
         +:+ Quote controllerName +:+ ".".

Definition with_class_conditions (gatewayClass : GatewayClass) (cs : list Condition) : GatewayClass :=
  mkGatewayClass (gc_meta gatewayClass) (gc_ControllerName gatewayClass) cs.

Definition reconcileGatewayClass (c : Caches) (key : string) : prog (result unit) :=
  match gatewayClasses_Get c key with
  | Err err => if IsNotFound err then Ret (Ok tt) else Ret (Err err)
  | Ok gatewayClass =>
      if negb (shouldManageGatewayClass (Some gatewayClass)) then Ret (Ok tt)
      else
        let generation := Generation (gc_meta gatewayClass) in
        let accepted :=
          bool_decide (Name (gc_meta gatewayClass) = gatewaymeta_GatewayClassName)
          && bool_decide (gc_ControllerName gatewayClass = controllerName) in
        let conditions := mergeConditions (gc_Conditions gatewayClass)
          [condition now TypeAccepted (boolToConditionStatus accepted)
             (conditionReason accepted ReasonAccepted ReasonUnsupported)
             (gatewayClassAcceptedMessage gatewayClass accepted) generation] in
        let conditions :=
          if accepted then
            mergeConditions conditions
              [condition now TypeSupportedVersion ConditionTrue ReasonSupportedVersion
                 "Gateway API versions used by this controller are supported." generation]
          else conditions in
        let updated := with_class_conditions gatewayClass conditions in
        if gatewayClassStatusEqual gatewayClass updated then Ret (Ok tt)
        else perform (GatewayClassUpdateStatus updated)
  end.

(** ** Gateway evaluation *)

Record gatewayEvaluation := mkGatewayEvaluation {
  ge_acceptedStatus : ConditionStatus;
  ge_acceptedReason : string;
  ge_acceptedMessage : string;
  ge_programmedReason : string;
  ge_programmedMessage : string;
  ge_listeners : list ListenerStatus;
  ge_valid : bool;
  ge_selectedVIP : string;
  ge_needsVIP : bool;
}.

(** Not accepted, with the same message for both conditions. *)
Definition rejected (reason message : string) (listeners : list ListenerStatus) : gatewayEvaluation :=
  mkGatewayEvaluation ConditionFalse reason message ReasonInvalid message listeners false "" false.

(** The loop's state: [statuses], [firstError] and [usableListeners]. *)
Record listenerLoop := mkLoop {
  ll_statuses : list ListenerStatus;
  ll_firstError : string;
  ll_usable : nat;
}.

Definition loop_reject (generation : Z) (st : listenerLoop) (listener : Listener) (attached : Z)
    (message : string) : listenerLoop :=
  mkLoop
    (ll_statuses st ++ [listener_rejected now listener attached ReasonUnsupportedValue message generation])
    (if decide (ll_firstError st = "") then message else ll_firstError st)
    (ll_usable st).

Definition unsupported_route_message (route : TCPRoute) (ev : routeEvaluation) : string :=
  "Attached TCPRoute " +:+ Namespace (rt_meta route) +:+ "/" +:+ Name (rt_meta route)
    +:+ " is not supported: " +:+ re_acceptedMessage ev +:+ "; " +:+ re_resolvedMessage ev.

Definition evaluate_listener (c : Caches) (gateway : Gateway) (gatewayClass : option GatewayClass)
    (attachedRoutes : list TCPRoute) (st : listenerLoop) (listener : Listener) : listenerLoop :=
  let generation := Generation (gw_meta gateway) in
  match attachedRoutesForListener gateway listener attachedRoutes with
  | [] =>
      loop_reject generation st listener 0
        ("Listener " +:+ Quote (l_Name listener) +:+ " requires exactly one attached TCPRoute.")
  | [route] =>
      let routeEval :=
        evaluateRoute now c route (matchingParentRef route gateway) gateway gatewayClass attachedRoutes in
      if bool_decide (re_acceptedStatus routeEval ≠ ConditionTrue)
         || bool_decide (re_resolvedStatus routeEval ≠ ConditionTrue)
      then loop_reject generation st listener 1 (unsupported_route_message route routeEval)
      else
        mkLoop (ll_statuses st ++ [listener_pending now listener 1 generation])
          (ll_firstError st) (S (ll_usable st))
  | attached =>
      loop_reject generation st listener (int32 (Z.of_nat (length attached)))
        ("Listener " +:+ Quote (l_Name listener)
           +:+ " supports exactly one attached TCPRoute; multiple attached TCPRoutes were found.")
  end.

Definition evaluateGateway (c : Caches) (gateway : Gateway) (gatewayClass : option GatewayClass)
    (attachedRoutes : list TCPRoute) : gatewayEvaluation :=
  match gatewayClass with
  | None =>
      rejected ReasonInvalidParameters ("GatewayClass " +:+ class_quoted +:+ " was not found.") []
  | Some gc =>
      if decide (gc_ControllerName gc ≠ controllerName)
      then rejected ReasonInvalidParameters
             ("GatewayClass " +:+ Quote (Name (gc_meta gc)) +:+ " is controlled by "
                +:+ Quote (gc_ControllerName gc) +:+ ", not " +:+ Quote controllerName +:+ ".") []
      else
        let validation := validateGatewayListeners now (Some gateway) in
        if negb (v_valid validation)
        then rejected ReasonListenersNotValid (v_message validation) (v_statuses validation)
        else if decide (0 < length (SpecAddresses (gw_spec gateway)))%nat
        then
          let message := "Spec.addresses is not supported for " +:+ gatewaymeta_GatewayClassName
                           +:+ " Gateways in this phase." in
          rejected ReasonUnsupportedAddress message
            (listenerStatusesForGatewayMessage now (Listeners (gw_spec gateway)) message
               (Generation (gw_meta gateway)))
        else
          let st := foldl (evaluate_listener c gateway gatewayClass attachedRoutes)
                      (mkLoop [] "" 0) (v_listeners validation) in
          if decide (ll_usable st = 0%nat)
          then rejected ReasonInvalid (ll_firstError st) (ll_statuses st)
          else
            mkGatewayEvaluation ConditionTrue ReasonAccepted
              (if decide (ll_usable st = length (v_listeners validation))
               then "Gateway accepted by clusterip-gw-controller."
               else "Gateway accepted by clusterip-gw-controller; some listeners are not supported.")
              ReasonPending "Waiting for VIP allocation."
              (ll_statuses st) true "" true
  end.

(** ** Status *)

Definition evaluated_status (gateway : Gateway) (evaluation : gatewayEvaluation) : GatewayStatus :=
  mkGatewayStatus
    (if decide (ge_selectedVIP evaluation ≠ "")
     then [mkStatusAddress (Some IPAddressType) (ge_selectedVIP evaluation)] else [])
    (mergeConditions (Conditions (gw_status gateway))
       [condition now TypeAccepted (ge_acceptedStatus evaluation) (ge_acceptedReason evaluation)
          (ge_acceptedMessage evaluation) (Generation (gw_meta gateway));
        condition now TypeProgrammed ConditionFalse (ge_programmedReason evaluation)
          (ge_programmedMessage evaluation) (Generation (gw_meta gateway))])
    (ge_listeners evaluation).

Definition updateGatewayStatus (gateway : Gateway) (evaluation : gatewayEvaluation)
    : prog (result unit) :=
  let updated := with_status gateway (evaluated_status gateway evaluation) in
  if gatewayStatusEqual gateway updated then Ret (Ok tt)
  else perform (GatewayUpdateStatus (Namespace (gw_meta updated)) updated).

(** ** The reconciler *)

(** What becomes of a valid evaluation once the VIP is known, or is not. *)
Definition with_vip (gateway : Gateway) (evaluation : gatewayEvaluation) (r : result string)
    : gatewayEvaluation :=
  let generation := Generation (gw_meta gateway) in
  match r with
  | Err err =>
      mkGatewayEvaluation (ge_acceptedStatus evaluation) (ge_acceptedReason evaluation)
        (ge_acceptedMessage evaluation) ReasonAddressNotAssigned (Error err)
        (setListenerProgrammedCondition now (ge_listeners evaluation) ConditionFalse
           ReasonAddressNotAssigned (Error err) generation)
        (ge_valid evaluation) "" false
  | Ok vip =>
      mkGatewayEvaluation (ge_acceptedStatus evaluation) (ge_acceptedReason evaluation)
        (ge_acceptedMessage evaluation) ReasonPending
        "VIP reserved; dataplane programming is not implemented in this phase."
        (setListenerProgrammedCondition now (ge_listeners evaluation) ConditionFalse
           ReasonPending "VIP reserved; dataplane programming is pending." generation)
        (ge_valid evaluation) vip (ge_needsVIP evaluation)
  end.

Definition reconcileGateway (c : Caches) (key : string) : prog (result unit) :=
  match getGateway c key with
  | Err err => if IsNotFound err then Ret (Ok tt) else Ret (Err err)
  | Ok gateway =>
      if decide (GatewayClassName (gw_spec gateway) ≠ gatewaymeta_GatewayClassName) then
        get! previouslyManaged := gatewayPreviouslyManaged c gateway in
        do! _ := (if previouslyManaged then clearManagedGatewayStatus gateway else Ret (Ok tt)) in
        cleanupGatewayResources c gateway
      else if decide (DeletionTimestamp (gw_meta gateway) ≠ None) then
        cleanupGatewayResources c gateway
      else
        do! finalizerAdded := ensureGatewayFinalizer gateway in
        if finalizerAdded then Ret (Ok tt)
        else
          get! gatewayClass := getGatewayClass c in
          get! attachedRoutes := listRoutesForGateway c (meta_key (gw_meta gateway)) in
          let evaluation := evaluateGateway c gateway gatewayClass attachedRoutes in
          if negb (ge_valid evaluation) then
            do! _ := releaseGatewayIPAddresses c gateway in
            updateGatewayStatus gateway evaluation
          else
            let* r := ensureGatewayVIP c gateway in
            updateGatewayStatus gateway (with_vip gateway evaluation r)
  end.

End gateway.
