(* ===== verification/RouteSpec.v ===== *)
(** * Listeners and routes: properties

    What listener validation, route evaluation and the route reconciler promise:
    the supported shapes are exactly the documented ones, a listener serves at
    most one accepted route, and route status converges without touching other
    controllers' entries. *)

From Stdlib Require Import FunctionalExtensionality.
From S2P Require Import Prelude KubeTypes Api Indexers Status Reference Ipam IpamSpec.
From S2P Require Import Listeners Selector Route.

(** ** Specification *)

Definition parent_selects (parent : ParentReference) (l : Listener) : Prop :=
  (∀ n, pr_SectionName parent = Some n → n = l_Name l) ∧ (∀ p, pr_Port parent = Some p → p = l_Port l).

(** The route has a parent reference to this listener of this Gateway. *)
Definition attached_to (gateway : Gateway) (l : Listener) (route : TCPRoute) : Prop :=
  Namespace (rt_meta route) = Namespace (gw_meta gateway) ∧
  ∃ parent, parent ∈ ParentRefs route ∧ isGatewayParentRef parent = true ∧
    non_empty_or (Namespace (rt_meta route)) (pr_Namespace parent) = Namespace (gw_meta gateway) ∧
    pr_Name parent = Name (gw_meta gateway) ∧ parent_selects parent l.

(** Between one and ten listeners, with unique names and ports, each a plain TCP
    listener open to routes of its own namespace. *)
Definition gateway_listeners_ok (gateway : Gateway) : Prop :=
  let ls := Listeners (gw_spec gateway) in
  (0 < length ls ≤ MaxSupportedGatewayListeners)%nat ∧
  NoDup (l_Name <$> ls) ∧ NoDup (l_Port <$> ls) ∧
  ∀ l, l ∈ ls → l_Name l ≠ "" ∧ l_Port l ≠ 0 ∧ l_Protocol l = "TCP" ∧
    allowed_routes_default (l_AllowedRoutes l).

(** The parent reference selects exactly the listener [l] of a valid Gateway. *)
Definition selects_one (gateway : Gateway) (parent : ParentReference) (l : Listener) : Prop :=
  gateway_listeners_ok gateway ∧
  l ∈ Listeners (gw_spec gateway) ∧ parent_selects parent l ∧
  ∀ l', l' ∈ Listeners (gw_spec gateway) → parent_selects parent l' → l' = l.

Definition class_accepted (cls : option GatewayClass) : Prop :=
  ∃ gc, cls = Some gc ∧ gc_ControllerName gc = controllerName.

(** ** Facts *)

Lemma opt_mismatch {A} `{EqDecision A} (o : option A) x :
  match o with Some n => bool_decide (n ≠ x) | None => false end = false ↔
  ∀ n, o = Some n → n = x.
Proof.
  destruct o as [n|]; [|naive_solver]. rewrite bool_decide_eq_false. split.
  - intros Hn%dec_stable m [= <-]. done.
  - intros Hn Hne. by apply Hne, Hn.
Qed.

Lemma parentMatchesListener_iff parent l : parentMatchesListener parent l = true ↔ parent_selects parent l.
Proof.
  unfold parentMatchesListener, parent_selects. rewrite <-!opt_mismatch.
  destruct (match pr_SectionName parent with Some _ => _ | None => _ end),
    (match pr_Port parent with Some _ => _ | None => _ end); naive_solver.
Qed.

Lemma attaches_iff gateway l route :
  (if decide (Namespace (rt_meta route) ≠ Namespace (gw_meta gateway)) then false
   else attaches gateway l route) = true ↔ attached_to gateway l route.
Proof.
  unfold attached_to, attaches. case_decide; [naive_solver|].
  rewrite existsb_exists. setoid_rewrite <-list_elem_of_In.
  unfold parent_names_gateway. setoid_rewrite <-parentMatchesListener_iff.
  split.
  - intros (p & Hp & Hif). split; [done|]. exists p.
    destruct (isGatewayParentRef p); [|done]. simpl in Hif.
    destruct (bool_decide _) eqn:E1, (bool_decide (pr_Name p = _)) eqn:E2; try done.
    apply bool_decide_eq_true in E1, E2. done.
  - intros (_ & p & Hp & Hg & Hns & Hn & Hsel). exists p. split; [done|].
    rewrite Hg, Hns, Hn, !bool_decide_true by done. done.
Qed.

Lemma elem_of_attached gateway l routes route :
  route ∈ attachedRoutesForListener gateway l routes ↔ route ∈ routes ∧ attached_to gateway l route.
Proof.
  unfold attachedRoutesForListener, slices_SortFunc.
  rewrite elem_of_less_sort, list_elem_of_filter, attaches_iff. tauto.
Qed.

Lemma attached_NoDup gateway l routes : NoDup routes → NoDup (attachedRoutesForListener gateway l routes).
Proof.
  intros. unfold attachedRoutesForListener, slices_SortFunc.
  rewrite less_sort_perm. by apply list.NoDup_filter.
Qed.

(** One element, in terms of membership. *)
Lemma singleton_iff {A} (xs : list A) x :
  NoDup xs → xs = [x] ↔ x ∈ xs ∧ ∀ y, y ∈ xs → y = x.
Proof.
  intros Hnd. split; [intros ->; set_solver|]. intros [Hx Hall].
  destruct xs as [|y [|z xs]]; [set_solver|f_equal; apply Hall; by left|].
  exfalso. apply list.NoDup_cons in Hnd as [Hy _]. apply Hy.
  rewrite (Hall y) by (by left). rewrite (Hall z) by (right; by left). by left.
Qed.

Lemma length_one_iff {A} (xs : list A) :
  NoDup xs → length xs = 1%nat ↔ ∃ x, x ∈ xs ∧ ∀ y, y ∈ xs → y = x.
Proof.
  intros Hnd. split.
  - destruct xs as [|x [|]]; [done| |done]. intros _. exists x. set_solver.
  - intros [x Hx]. by apply singleton_iff in Hx as ->.
Qed.

Lemma gateway_listeners_ok_iff gateway :
  let ls := Listeners (gw_spec gateway) in
  gateway_listeners_ok gateway ↔ ls ≠ [] ∧ ∀ l, l ∈ ls → listener_supported ls l.
Proof.
  intros ls. unfold gateway_listeners_ok, listener_supported. fold ls.
  rewrite !NoDup_counts. split.
  - intros ([Hpos Hmax] & Hn & Hp & Hall). split; [by destruct ls; simpl in *; [lia|]|].
    intros l Hl. destruct (Hall l Hl) as (? & ? & ? & ?).
    specialize (Hn (l_Name l) ltac:(by apply list_elem_of_fmap_2)).
    specialize (Hp (l_Port l) ltac:(by apply list_elem_of_fmap_2)). split_and!; try done; lia.
  - intros [Hne Hall]. destruct ls as [|l0 ls0] eqn:E; [done|]. split_and!.
    + simpl. lia.
    + apply (Hall l0). by left.
    + intros k (l & -> & Hl)%list_elem_of_fmap. destruct (Hall l Hl). lia.
    + intros k (l & -> & Hl)%list_elem_of_fmap. destruct (Hall l Hl). lia.
    + intros l Hl. destruct (Hall l Hl). naive_solver.
Qed.

Section route_facts.
Context `{API : !ApiMachinery, Laws : !ApiMachineryLaws}.

Lemma resolveGatewayListener_iff now gateway parent l :
  resolveGatewayListener now gateway parent = Ok l ↔ selects_one gateway parent l.
Proof.
  unfold resolveGatewayListener, selects_one. rewrite gateway_listeners_ok_iff.
  destruct (v_valid (validateGatewayListeners now (Some gateway))) eqn:Hv; cbn [negb].
  - rewrite validate_valid_listeners by done.
    apply (proj1 (validate_valid_iff now gateway)) in Hv.
    set (ls := Listeners (gw_spec gateway)) in *.
    assert (NoDup ls) as Hnd.
    { apply (NoDup_fmap_1 l_Name). apply gateway_listeners_ok_iff in Hv. apply Hv. }
    transitivity (filter (λ l, parentMatchesListener parent l = true) ls = [l]).
    { destruct (filter _ ls) as [|? [|]]; naive_solver. }
    rewrite singleton_iff by (by apply list.NoDup_filter). setoid_rewrite list_elem_of_filter.
    setoid_rewrite parentMatchesListener_iff. naive_solver.
  - split; [done|]. intros [Hok _].
    apply (proj2 (validate_valid_iff now gateway)) in Hok. congruence.
Qed.

(** The clock plays no part in resolving or evaluating. *)
Lemma resolveGatewayListener_now now now' gateway parent :
  resolveGatewayListener now gateway parent = resolveGatewayListener now' gateway parent.
Proof.
  unfold resolveGatewayListener.
  destruct (decide (Listeners (gw_spec gateway) = [])) as [E|Hne].
  - unfold validateGatewayListeners. by rewrite E.
  - by rewrite !validate_nonempty.
Qed.

Lemma evaluateRoute_now now now' c route parent gateway cls routes :
  evaluateRoute now c route parent gateway cls routes
  = evaluateRoute now' c route parent gateway cls routes.
Proof.
  unfold evaluateRoute, evaluate_attachment. by rewrite (resolveGatewayListener_now now now').
Qed.

Lemma class_rejected_iff cls :
  match cls with None => true | Some gc => bool_decide (gc_ControllerName gc ≠ controllerName) end = false
  ↔ class_accepted cls.
Proof.
  unfold class_accepted. destruct cls as [gc|]; [|naive_solver].
  rewrite bool_decide_eq_false. split; [|naive_solver]. intros ?%dec_stable. eauto.
Qed.

Lemma evaluate_backend_accepted c route ev :
  re_acceptedStatus (evaluate_backend c route ev) = re_acceptedStatus ev.
Proof. unfold evaluate_backend. by repeat case_match. Qed.

Lemma evaluate_attachment_resolved now route parent gateway routes ev :
  re_resolvedStatus (evaluate_attachment now route parent gateway routes ev) = re_resolvedStatus ev.
Proof. unfold evaluate_attachment. by repeat case_match. Qed.

End route_facts.

(** ** Properties *)

(** The backend the controller supports: one rule with one reference, with a
    port, to an existing selector of the route's namespace whose label selector
    is well formed. *)
Definition backend_resolves `{!ApiMachinery} (c : Caches) (route : TCPRoute) : Prop :=
  ∃ rule backend port selector sel,
    Rules route = [rule] ∧ BackendRefs rule = [backend] ∧
    br_Group backend = Some endpointSelectorAPIGroup ∧
    non_empty_or endpointSelectorKind (br_Kind backend) = endpointSelectorKind ∧
    non_empty_or (Namespace (rt_meta route)) (br_Namespace backend) = Namespace (rt_meta route) ∧
    br_Port backend = Some port ∧
    getEndpointSelector c (mkNN (Namespace (rt_meta route)) (br_Name backend)) = Ok selector ∧
    LabelSelectorAsSelector (xs_Selector selector) = Ok sel.

(** Validation succeeds exactly on Gateways
    with one to ten well-formed listeners with unique names and ports; the
    listeners it keeps are the supported ones, and there is one status per
    listener, in order. *)
Theorem validateGatewayListeners_spec `{!ApiMachinery} now gateway :
  let ls := Listeners (gw_spec gateway) in
  let v := validateGatewayListeners now (Some gateway) in
  (v_valid v = true ↔ gateway_listeners_ok gateway) ∧
  (∀ l, l ∈ v_listeners v ↔ l ∈ ls ∧ listener_supported ls l) ∧
  ls_Name <$> v_statuses v = l_Name <$> ls.
Proof.
  intros ls v. rewrite gateway_listeners_ok_iff. split; [apply validate_valid_iff|]. unfold v.
  destruct (decide (ls = [])) as [E|Hne].
  - unfold validateGatewayListeners. fold ls. rewrite E. simpl. set_solver.
  - rewrite validate_nonempty by done. fold ls. cbn [v_listeners v_statuses]. split.
    + intros l. rewrite list_elem_of_filter, verdict_ok_iff. tauto.
    + rewrite <-list_fmap_compose. apply list_fmap_ext. intros _ l _. simpl.
      unfold validated_status. by destruct (verdict_ok ls l).
Qed.

Lemma evaluate_attachment_accepted `{!ApiMachinery} now route parent gateway routes ev :
  NoDup routes →
  re_acceptedStatus (evaluate_attachment now route parent gateway routes ev) = ConditionTrue ↔
  Namespace (rt_meta route) = Namespace (gw_meta gateway) ∧
  length (ParentRefs route) = 1%nat ∧
  ∃ l, selects_one gateway parent l ∧
    ∃ r, (r ∈ routes ∧ attached_to gateway l r) ∧ ∀ r', r' ∈ routes ∧ attached_to gateway l r' → r' = r.
Proof.
  intros Hnd. unfold evaluate_attachment, countAttachedRoutesForListener.
  case_decide as Hns; [by split; [|intros [? _]]|].
  case_decide as Hlen; [by split; [|intros (_ & ? & _)]|].
  assert (Hone : ∀ l, length (attachedRoutesForListener gateway l routes) = 1%nat ↔
    ∃ r, (r ∈ routes ∧ attached_to gateway l r) ∧ ∀ r', r' ∈ routes ∧ attached_to gateway l r' → r' = r).
  { intros l. rewrite length_one_iff by (by apply attached_NoDup).
    by setoid_rewrite elem_of_attached. }
  setoid_rewrite <-(resolveGatewayListener_iff now). setoid_rewrite <-Hone.
  destruct (resolveGatewayListener now gateway parent) as [l|e];
    [|by split; [|intros (_ & _ & ? & ? & _)]].
  case_decide as Hl; [by split; [|intros (_ & _ & ? & [= ->] & ?)]|].
  split; [|done]. intros _. split_and!; [done..|]. by exists l.
Qed.

Lemma evaluate_backend_resolved `{!ApiMachinery} c route ev :
  re_resolvedStatus ev = ConditionTrue →
  re_resolvedStatus (evaluate_backend c route ev) = ConditionTrue ↔ backend_resolves c route.
Proof.
  intros Hev. unfold evaluate_backend, backend_resolves.
  destruct (Rules route) as [|rule [|]]; [naive_solver| |naive_solver].
  destruct (BackendRefs rule) as [|backend [|]] eqn:Hrefs;
    [by split; [|intros (? & ? & ? & ? & ? & [= <-] & ? & _); congruence]| |
     by split; [|intros (? & ? & ? & ? & ? & [= <-] & ? & _); congruence]].
  destruct (_ || _) eqn:Hkind.
  { apply orb_true_iff in Hkind. rewrite !bool_decide_eq_true in Hkind. split; [done|].
    intros (? & ? & ? & ? & ? & [= <-] & Hb & Hg & Hk & _). rewrite Hrefs in Hb. simplify_eq. rewrite Hg in Hkind.
    by destruct Hkind as [[]|[]]. }
  apply orb_false_iff in Hkind as [Hg%bool_decide_eq_false%dec_stable Hk%bool_decide_eq_false%dec_stable].
  assert (br_Group backend = Some endpointSelectorAPIGroup) as Hgroup
    by (destruct (br_Group backend); simpl in Hg; [congruence|done]).
  case_decide as Hns.
  { split; [done|]. intros (? & ? & ? & ? & ? & [= <-] & Hb & _ & _ & ? & _). rewrite Hrefs in Hb. by simplify_eq. }
  rewrite Hns.
  destruct (br_Port backend) as [port|] eqn:Hport;
    [|split; [done|]; intros (? & ? & ? & ? & ? & [= <-] & Hb & _ & _ & _ & ? & _); rewrite Hrefs in Hb; by simplify_eq].
  destruct (getEndpointSelector c _) as [selector|e] eqn:Hsel.
  - unfold evaluateEndpointSelector. destruct (LabelSelectorAsSelector _) as [sel|e] eqn:Hls; simpl.
    + split; [|done]. intros _. exists rule, backend, port, selector, sel. done.
    + split; [done|]. intros (? & ? & ? & ? & ? & [= <-] & Hb & _ & _ & _ & _ & Hsel' & Hls').
      rewrite Hrefs in Hb. simplify_eq. congruence.
  - split; [by destruct (IsNotFound e)|].
    intros (? & ? & ? & ? & ? & [= <-] & Hb & _ & _ & _ & _ & Hsel' & _). rewrite Hrefs in Hb. simplify_eq. congruence.
Qed.

(** C15. A route is Accepted exactly when the
    GatewayClass is this controller's, the route is in the Gateway's namespace
    and has one parent reference, the Gateway's listeners are well formed, the
    reference selects exactly one of them, and that listener has exactly one
    attached route.  (The Gateway's spec.addresses is not looked at.) *)
Theorem evaluateRoute_accepted_iff `{!ApiMachinery} now c route parent gateway cls routes :
  NoDup routes →
  re_acceptedStatus (evaluateRoute now c route parent gateway cls routes) = ConditionTrue ↔
  class_accepted cls ∧ Namespace (rt_meta route) = Namespace (gw_meta gateway) ∧
  length (ParentRefs route) = 1%nat ∧
  ∃ l, selects_one gateway parent l ∧
    ∃ r, (r ∈ routes ∧ attached_to gateway l r) ∧ ∀ r', r' ∈ routes ∧ attached_to gateway l r' → r' = r.
Proof.
  intros Hnd. rewrite <-class_rejected_iff. unfold evaluateRoute.
  destruct (match cls with Some _ => _ | None => _ end); [by split; [|intros []]|].
  rewrite evaluate_backend_accepted, evaluate_attachment_accepted by done. tauto.
Qed.

(** C27. When the GatewayClass is this controller's,
    a route's references are resolved exactly when its only backend is a
    supported, existing and well-formed XEndpointSelector. *)
Theorem evaluateRoute_resolved_iff `{!ApiMachinery} now c route parent gateway cls routes :
  class_accepted cls →
  re_resolvedStatus (evaluateRoute now c route parent gateway cls routes) = ConditionTrue ↔
  backend_resolves c route.
Proof.
  intros Hcls%class_rejected_iff. unfold evaluateRoute. rewrite Hcls.
  apply evaluate_backend_resolved. apply evaluate_attachment_resolved.
Qed.

(** The route holds the listener through one of its parent references. *)
Definition accepted_on `{!ApiMachinery} (now : Z) (c : Caches) (gateway : Gateway)
    (cls : option GatewayClass) (routes : list TCPRoute) (l : Listener)
    (r : TCPRoute) (p : ParentReference) : Prop :=
  r ∈ routes ∧ p ∈ ParentRefs r ∧ isGatewayParentRef p = true ∧
  non_empty_or (Namespace (rt_meta r)) (pr_Namespace p) = Namespace (gw_meta gateway) ∧
  pr_Name p = Name (gw_meta gateway) ∧
  resolveGatewayListener now gateway p = Ok l ∧
  re_acceptedStatus (evaluateRoute now c r p gateway cls routes) = ConditionTrue.

Lemma accepted_on_only `{!ApiMachinery} now c gateway cls routes l r p :
  accepted_on now c gateway cls routes l r p → attachedRoutesForListener gateway l routes = [r].
Proof.
  intros (Hr & Hp & Hg & Hns & Hn & Hres & Hacc). unfold evaluateRoute in Hacc.
  destruct (match cls with Some _ => _ | None => _ end); [done|].
  rewrite evaluate_backend_accepted in Hacc. unfold evaluate_attachment in Hacc.
  case_decide as Hrns; [done|]. case_decide; [done|]. rewrite Hres in Hacc.
  assert (Hatt : r ∈ attachedRoutesForListener gateway l routes).
  { apply elem_of_attached. split; [done|]. split; [done|]. exists p. split_and!; try done.
    apply resolveGatewayListener_iff in Hres. apply Hres. }
  case_decide as Hone; [done|]. unfold countAttachedRoutesForListener in Hone.
  destruct (attachedRoutesForListener _ _ _) as [|? [|]]; try done.
  by apply list_elem_of_singleton in Hatt as ->.
Qed.

(** Two routes are never both Accepted on the same
    listener. *)
Theorem one_route_per_listener `{!ApiMachinery} now c gateway cls routes l r1 p1 r2 p2 :
  accepted_on now c gateway cls routes l r1 p1 →
  accepted_on now c gateway cls routes l r2 p2 →
  r1 = r2.
Proof. intros H1%accepted_on_only H2%accepted_on_only. congruence. Qed.

(** ** Reconciling a route *)

Section reconcile.
Context `{API : !ApiMachinery}.

Lemma desired_parent_own now c route p s :
  desired_parent now c route p = Ok (Some s) → rps_ControllerName s = controllerName ∧ rps_ParentRef s = p.
Proof.
  unfold desired_parent. destruct (isGatewayParentRef p); simpl; [|done].
  destruct (gateways_Get c _ _) as [gw|e]; [|by destruct (IsNotFound e)].
  case_decide; [done|]. rewrite result_bind_ok. intros (cls & _ & H2).
  apply result_bind_ok in H2 as (rs & _ & [= <-]). done.
Qed.

Lemma desired_parents_own now c route ps out :
  desired_parents now c route ps = Ok out →
  Forall (λ s, rps_ControllerName s = controllerName ∧ rps_ParentRef s ∈ ps) out.
Proof.
  revert out. induction ps as [|p ps IH]; intros out; simpl; [by intros [= <-]|].
  intros (o & Ho & (rest & Hrest & [= <-])%result_bind_ok)%result_bind_ok.
  assert (Forall (λ s, rps_ControllerName s = controllerName ∧ rps_ParentRef s ∈ p :: ps) rest) as Hr.
  { eapply list.Forall_impl; [by apply IH|]. simpl. set_solver. }
  destruct o as [s|]; [|done]. apply desired_parent_own in Ho as [? Hs]. constructor; [|done].
  split; [done|]. rewrite Hs. by left.
Qed.

(** The only request the route reconciler makes is one
    status write of the route it read: other controllers' parent entries are
    kept, this controller's are replaced by exactly the ones computed from the
    parent references, and nothing else of the route changes. *)
Theorem reconcileRoute_writes now c key :
  only_requests (λ r, ∃ route desired parents,
    getRoute c key = Ok route ∧ desired_parents now c route (ParentRefs route) = Ok desired ∧
    r = TCPRouteUpdateStatus (Namespace (rt_meta route)) (with_parents route parents) ∧
    foreign_parents parents ≡ₚ foreign_parents (Parents route) ∧ own_parents parents ≡ₚ desired)
  (reconcileRoute now c key).
Proof.
  unfold reconcileRoute. destruct (getRoute c key) as [route|e]; [|destruct (IsNotFound e); constructor].
  destruct (desired_parents now c route _) as [desired|e] eqn:Hd; simpl; [|constructor].
  destruct (routeStatusEqual _ _); constructor; [|constructor].
  exists route, desired, (mergeRouteParents (Parents route) desired). split_and!; try done;
    apply mergeRouteParents_foreign; eapply list.Forall_impl;
    [by eapply desired_parents_own|naive_solver|by eapply desired_parents_own|naive_solver].
Qed.

Context `{Laws : !ApiMachineryLaws}.

Lemma route_parent_status_now now now' route p ev :
  untimed_parent (route_parent_status now route p ev)
  = untimed_parent (route_parent_status now' route p ev).
Proof.
  unfold untimed_parent, route_parent_status. simpl. f_equal.
  apply mergeConditions_equiv; [constructor|done|done].
Qed.

(** A route without its status; two lookups that return the same routes, in any
    order and with any status. *)
Definition erase_parents (route : TCPRoute) : TCPRoute := with_parents route [].

Definition routes_equiv (rs rs' : list TCPRoute) : Prop := erase_parents <$> rs ≡ₚ erase_parents <$> rs'.

#[export] Instance routes_equiv_equivalence : Equivalence routes_equiv.
Proof. unfold routes_equiv. split; red; [done|by intros|intros x y z -> ->; done]. Qed.

Definition lookup_equiv (a b : result (list TCPRoute)) : Prop :=
  match a, b with
  | Ok rs, Ok rs' => routes_equiv rs rs'
  | Err e, Err e' => e = e'
  | _, _ => False
  end.

(** The two cache snapshots agree on everything evaluation reads. *)
Definition same_inputs (c c' : Caches) : Prop :=
  (∀ ns n, gateways_Get c' ns n = gateways_Get c ns n) ∧
  (∀ n, gatewayClasses_Get c' n = gatewayClasses_Get c n) ∧
  (∀ k, lookup_equiv (listRoutesForGateway c k) (listRoutesForGateway c' k)) ∧
  (∀ k, endpointSelector_GetByKey c' k = endpointSelector_GetByKey c k).

Lemma count_routes_equiv gateway l rs rs' :
  routes_equiv rs rs' →
  countAttachedRoutesForListener gateway l rs = countAttachedRoutesForListener gateway l rs'.
Proof.
  intros Heq. unfold countAttachedRoutesForListener, attachedRoutesForListener, slices_SortFunc.
  rewrite !length_less_sort. set (P := λ route : TCPRoute, _ = true).
  assert (Herase : ∀ xs, length (filter P xs) = length (filter P (erase_parents <$> xs))).
  { intros xs. rewrite filter_fmap_invariant by done. by rewrite length_fmap. }
  unfold routes_equiv in Heq. by rewrite (Herase rs), (Herase rs'), Heq.
Qed.

Lemma evaluateRoute_inputs now now' c c' route ps p gateway cls rs rs' :
  same_inputs c c' → routes_equiv rs rs' →
  evaluateRoute now' c' (with_parents route ps) p gateway cls rs'
  = evaluateRoute now c route p gateway cls rs.
Proof.
  intros (_ & _ & _ & Hsel) Hrs. rewrite (evaluateRoute_now now' now).
  assert (Hget : getEndpointSelector c' = getEndpointSelector c).
  { apply functional_extensionality. intros k. unfold getEndpointSelector. by rewrite Hsel. }
  unfold evaluateRoute, evaluate_backend, evaluate_attachment. rewrite Hget. simpl.
  destruct (resolveGatewayListener now gateway p) as [l|e]; [|done].
  by rewrite (count_routes_equiv gateway l rs rs').
Qed.

Lemma desired_parent_inputs now now' c c' route ps p :
  same_inputs c c' →
  match desired_parent now c route p with
  | Err e => desired_parent now' c' (with_parents route ps) p = Err e
  | Ok None => desired_parent now' c' (with_parents route ps) p = Ok None
  | Ok (Some s) => ∃ s', desired_parent now' c' (with_parents route ps) p = Ok (Some s') ∧
      untimed_parent s = untimed_parent s'
  end.
Proof.
  intros Hc. pose proof Hc as (Hg & Hcls & Hr & _). unfold desired_parent. simpl.
  destruct (isGatewayParentRef p); simpl; [|done]. rewrite Hg.
  destruct (gateways_Get c _ _) as [gw|e]; [|by destruct (IsNotFound e)].
  case_decide; [done|].
  assert (getGatewayClass c' = getGatewayClass c) as -> by (unfold getGatewayClass; by rewrite Hcls).
  destruct (getGatewayClass c) as [cls|e]; simpl; [|done].
  specialize (Hr (meta_key (gw_meta gw))). unfold lookup_equiv in Hr.
  destruct (listRoutesForGateway c _) as [rs|e], (listRoutesForGateway c' _) as [rs'|e'];
    simpl; try done; [|by subst].
  eexists. split; [done|]. rewrite (evaluateRoute_inputs now now' c c' _ _ _ _ _ rs rs') by done.
  change (route_parent_status now' (with_parents route ps)) with (route_parent_status now' route).
  apply route_parent_status_now.
Qed.

Lemma desired_parents_inputs now now' c c' route ps prs out :
  same_inputs c c' → desired_parents now c route prs = Ok out →
  ∃ out', desired_parents now' c' (with_parents route ps) prs = Ok out' ∧ parents_equiv out out'.
Proof.
  intros Hc. revert out. induction prs as [|p prs IH]; intros out; simpl; [intros [= <-]; by exists []|].
  intros (o & Ho & (rest & Hrest & [= <-])%result_bind_ok)%result_bind_ok.
  destruct (IH rest Hrest) as (rest' & -> & Heq).
  pose proof (desired_parent_inputs now now' c c' route ps p Hc) as Hp. rewrite Ho in Hp.
  destruct o as [s|]; [|rewrite Hp; simpl; eauto].
  destruct Hp as (s' & -> & Hs). simpl. eexists. split; [done|].
  unfold parents_equiv in *. rewrite !list.fmap_cons. by f_equal.
Qed.

(** Once a status write has reached the cache, a
    later reconcile over unchanged inputs makes no request. *)
Theorem reconcileRoute_converges now now' c c' key route desired :
  getRoute c key = Ok route → desired_parents now c route (ParentRefs route) = Ok desired →
  NoDup (routeParentSortKey <$> foreign_parents (Parents route) ++ desired) →
  same_inputs c c' →
  getRoute c' key = Ok (with_parents route (mergeRouteParents (Parents route) desired)) →
  reconcileRoute now' c' key = Ret (Ok tt).
Proof.
  intros Hget Hd Hnd Hc Hget'. unfold reconcileRoute. rewrite Hget'.
  destruct (desired_parents_inputs now now' c c' route (mergeRouteParents (Parents route) desired)
    (ParentRefs route) desired Hc Hd) as (desired' & Hd' & Heq).
  cbn [ParentRefs with_parents]. rewrite Hd'. simpl. unfold routeStatusEqual. simpl.
  rewrite routeParentsEqual_equiv; [done|]. apply mergeRouteParents_fix; [|done..].
  eapply list.Forall_impl; [by eapply desired_parents_own|]. naive_solver.
Qed.

End reconcile.

(** ** Worked examples

    Gateway "a" with one listener "tcp", one route "r" attached to it, and the
    selector "sel" the route refers to. *)

Definition demo_parent : ParentReference := mkParentRef None None None "a" None None.

Definition demo_route : TCPRoute :=
  mkTCPRoute (demo_meta "default" "r") [demo_parent]
    [mkRule [mkBackendRef (Some endpointSelectorAPIGroup) None "sel" None (Some 8080)]] [].

Definition demo_selector : XEndpointSelector :=
  mkXEndpointSelector "" "" (demo_meta "default" "sel") (mkLabelSelector {["app" := "web"]} []) [].

Definition demo_class : GatewayClass :=
  mkGatewayClass (demo_meta "" gatewaymeta_GatewayClassName) controllerName [].

Definition route_store (gateway : Gateway) (route : TCPRoute) : Store :=
  mkStore [demo_class] [gateway] [route] [demo_selector] [] [] [] [demo_cidr "10.96.0.0/29"].

Definition route_caches : Caches := caches_of (route_store (demo_gateway "a") demo_route).

Lemma evaluateRoute_accepted_iff_witness :
  ∃ l, selects_one (demo_gateway "a") demo_parent l ∧
    ∃ r, (r ∈ [demo_route] ∧ attached_to (demo_gateway "a") l r) ∧
      ∀ r', r' ∈ [demo_route] ∧ attached_to (demo_gateway "a") l r' → r' = r.
Proof.
  destruct (evaluateRoute_accepted_iff 0 route_caches demo_route demo_parent (demo_gateway "a")
    (Some demo_class) [demo_route] (NoDup_singleton demo_route)) as [H _].
  apply H. vm_compute. reflexivity.
Defined.

Lemma evaluateRoute_resolved_iff_witness : backend_resolves route_caches demo_route.
Proof.
  apply (evaluateRoute_resolved_iff 0 route_caches demo_route demo_parent (demo_gateway "a")
    (Some demo_class) [demo_route]); [|vm_compute; reflexivity].
  exists demo_class. split; reflexivity.
Defined.

Lemma one_route_per_listener_witness :
  accepted_on 0 route_caches (demo_gateway "a") (Some demo_class) [demo_route]
    (demo_listener "tcp" 80) demo_route demo_parent ∧ demo_route = demo_route.
Proof.
  assert (H : accepted_on 0 route_caches (demo_gateway "a") (Some demo_class) [demo_route]
    (demo_listener "tcp" 80) demo_route demo_parent).
  { split; [left|]. split; [left|]. split_and!; vm_compute; reflexivity. }
  split; [exact H|].
  exact (one_route_per_listener 0 route_caches (demo_gateway "a") (Some demo_class) [demo_route]
    (demo_listener "tcp" 80) demo_route demo_parent demo_route demo_parent H H).
Defined.

(** The status the first reconcile writes, at time 5, and the cache that holds it. *)
Definition demo_desired : list RouteParentStatus :=
  match desired_parents 5 route_caches demo_route [demo_parent] with Ok d => d | Err _ => [] end.
Definition demo_route_written : TCPRoute := with_parents demo_route (mergeRouteParents [] demo_desired).
Definition route_caches' : Caches := caches_of (route_store (demo_gateway "a") demo_route_written).

Lemma demo_same_inputs : same_inputs route_caches route_caches'.
Proof.
  split_and!; try reflexivity. intros k.
  unfold lookup_equiv, listRoutesForGateway, route_caches, route_caches', caches_of, by_index; simpl.
  rewrite !filter_cons, !filter_nil. cbn [indexRouteByGateway id default].
  change (routeGatewayParentKeys demo_route_written) with (routeGatewayParentKeys demo_route).
  case_decide; unfold routes_equiv; reflexivity.
Qed.

Lemma reconcileRoute_converges_witness :
  Parents demo_route_written ≠ [] ∧ reconcileRoute 9 route_caches' "default/r" = Ret (Ok tt).
Proof.
  split; [vm_compute; discriminate|].
  apply (reconcileRoute_converges 5 9 route_caches route_caches' "default/r" demo_route demo_desired).
  - vm_compute. reflexivity.
  - vm_compute. reflexivity.
  - apply (bool_decide_unpack _). vm_compute. exact I.
  - apply demo_same_inputs.
  - vm_compute. reflexivity.
Defined.
