(* ===== verification/GatewayFacts.v ===== *)
(** * Gateways: facts about evaluation and requests

    The listener loop of [evaluateGateway] as a map over listeners, condition
    statuses of what is built, independence of the clock, and the requests each
    helper of ipam.go can make. *)

From S2P Require Import Prelude KubeTypes Api Indexers Status Ipam Listeners Selector Route RouteSpec Gateway.

(** ** Conditions *)

(** No condition of type [t] has a status other than [st]. *)
Definition only_status (t : string) (st : ConditionStatus) (cs : list Condition) : Prop :=
  ∀ c, c ∈ cs → c_Type c = t → c_Status c = st.

Lemma only_status_untimed t st cs : only_status t st (untimed <$> cs) ↔ only_status t st cs.
Proof.
  unfold only_status. split; intros H c Hc Ht.
  - apply (H (untimed c)); [by apply list_elem_of_fmap_2|done].
  - apply list_elem_of_fmap in Hc as (d & -> & Hd). by apply (H d).
Qed.

Section conditions.
Context `{API : !ApiMachinery, Laws : !ApiMachineryLaws}.

Lemma mergeConditions_only t st cs des :
  NoDup (types cs) → NoDup (types des) → t ∈ types des → only_status t st des →
  only_status t st (mergeConditions cs des).
Proof.
  intros Hcs Hdes Ht Hst. apply only_status_untimed. intros d.
  rewrite mergeConditions_elem by done. intros [Hd|[_ Hd]] <-; [|done].
  apply list_elem_of_fmap in Hd as (d0 & -> & Hd). by apply (Hst d0).
Qed.

Lemma removeConditions_only t st cs ts : t ∈ ts → only_status t st (removeConditions cs ts).
Proof.
  intros Ht c. unfold removeConditions. rewrite list_elem_of_filter, elem_of_list_to_set.
  by intros [Hc _] <-.
Qed.

Lemma listener_conditions now l n s1 r1 m1 s2 r2 m2 s3 r3 m3 g :
  let cs := ls_Conditions (listenerStatusForOutcome now l n s1 r1 m1 s2 r2 m2 s3 r3 m3 g) in
  NoDup (types cs) ∧ only_status TypeAccepted s1 cs ∧ only_status TypeProgrammed s3 cs ∧
  TypeAccepted ∈ types cs.
Proof.
  unfold listenerStatusForOutcome. cbn [ls_Conditions]. set (des := _ :: _ :: _ :: _ : list Condition).
  assert (Hnd : NoDup (types des)) by (apply (bool_decide_unpack _); by vm_compute).
  assert (Ha : only_status TypeAccepted s1 des).
  { intros c. unfold des. rewrite !list.elem_of_cons, elem_of_nil. by intros [->|[->|[->|[]]]]. }
  assert (Hp : only_status TypeProgrammed s3 des).
  { intros c. unfold des. rewrite !list.elem_of_cons, elem_of_nil. by intros [->|[->|[->|[]]]]. }
  split_and!.
  - apply mergeConditions_NoDup. constructor.
  - apply mergeConditions_only; [constructor|done| |done]. by left.
  - apply mergeConditions_only; [constructor|done| |done]. right; right; by left.
  - rewrite <-types_untimed. apply list_elem_of_fmap. eexists (untimed _). split; [|
      apply mergeConditions_nil_elem; [done|]; by left]. done.
Qed.

Lemma FindStatusCondition_only t st cs :
  t ∈ types cs → only_status t st cs →
  ∃ c, FindStatusCondition cs t = Some c ∧ c_Status c = st.
Proof.
  intros Ht Hst. rewrite FindStatusCondition_spec.
  apply list_elem_of_fmap in Ht as (c & -> & Hc).
  destruct (filter (λ d, c_Type d = c_Type c) cs) as [|d ds] eqn:E.
  - exfalso. eapply (filter_nil_not_elem_of (λ d, c_Type d = c_Type c)); [exact E|done|exact Hc].
  - assert (d ∈ filter (λ d, c_Type d = c_Type c) cs) as Hd by (rewrite E; by left).
    apply list_elem_of_filter in Hd as [Hdt Hd]. exists d. split; [done|]. by apply Hst.
Qed.

Lemma listener_outcome now l n s1 r1 m1 s2 r2 m2 s3 r3 m3 g :
  let cs := ls_Conditions (listenerStatusForOutcome now l n s1 r1 m1 s2 r2 m2 s3 r3 m3 g) in
  NoDup (types cs) ∧ only_status TypeProgrammed s3 cs ∧
  ∃ a, FindStatusCondition cs TypeAccepted = Some a ∧ c_Status a = s1.
Proof.
  destruct (listener_conditions now l n s1 r1 m1 s2 r2 m2 s3 r3 m3 g) as (? & ? & ? & ?).
  split_and!; [done..|]. by apply FindStatusCondition_only.
Qed.

End conditions.

(** ** The listener loop *)

Section evaluate.
Context `{API : !ApiMachinery, Laws : !ApiMachineryLaws}.

(** The listener's only attached route is accepted and resolved. *)
Definition listener_usable (now : Z) (c : Caches) (gateway : Gateway) (cls : option GatewayClass)
    (routes : list TCPRoute) (l : Listener) : bool :=
  match attachedRoutesForListener gateway l routes with
  | [route] =>
      let ev := evaluateRoute now c route (matchingParentRef route gateway) gateway cls routes in
      bool_decide (re_acceptedStatus ev = ConditionTrue) && bool_decide (re_resolvedStatus ev = ConditionTrue)
  | _ => false
  end.

(** What the loop adds for a listener it cannot use. *)
Definition listener_problem (now : Z) (c : Caches) (gateway : Gateway) (cls : option GatewayClass)
    (routes : list TCPRoute) (l : Listener) : string :=
  match attachedRoutesForListener gateway l routes with
  | [] => "Listener " +:+ GoStrings.Quote (l_Name l) +:+ " requires exactly one attached TCPRoute."
  | [route] =>
      unsupported_route_message route
        (evaluateRoute now c route (matchingParentRef route gateway) gateway cls routes)
  | _ => "Listener " +:+ GoStrings.Quote (l_Name l)
           +:+ " supports exactly one attached TCPRoute; multiple attached TCPRoutes were found."
  end.

Definition listener_result (now : Z) (c : Caches) (gateway : Gateway) (cls : option GatewayClass)
    (routes : list TCPRoute) (l : Listener) : ListenerStatus :=
  let n := int32 (Z.of_nat (length (attachedRoutesForListener gateway l routes))) in
  if listener_usable now c gateway cls routes l
  then listener_pending now l n (Generation (gw_meta gateway))
  else listener_rejected now l n ReasonUnsupportedValue (listener_problem now c gateway cls routes l)
         (Generation (gw_meta gateway)).

Lemma evaluate_listener_step now c gateway cls routes st l :
  evaluate_listener now c gateway cls routes st l =
  mkLoop (ll_statuses st ++ [listener_result now c gateway cls routes l])
    (if listener_usable now c gateway cls routes l then ll_firstError st
     else if decide (ll_firstError st = "") then listener_problem now c gateway cls routes l
     else ll_firstError st)
    (if listener_usable now c gateway cls routes l then S (ll_usable st) else ll_usable st).
Proof.
  unfold evaluate_listener, listener_result, listener_usable, listener_problem.
  destruct (attachedRoutesForListener gateway l routes) as [|r [|r' rs]]; [done| |done].
  set (ev := evaluateRoute _ _ _ _ _ _ _).
  rewrite !bool_decide_not. by destruct (bool_decide _), (bool_decide _).
Qed.

Lemma evaluate_listeners_fold now c gateway cls routes ls st :
  let st' := foldl (evaluate_listener now c gateway cls routes) st ls in
  ll_statuses st' = ll_statuses st ++ map (listener_result now c gateway cls routes) ls ∧
  ll_usable st' = (ll_usable st + length (filter (λ l, listener_usable now c gateway cls routes l = true) ls))%nat.
Proof.
  revert st. induction ls as [|l ls IH]; intros st; simpl; [by rewrite List.app_nil_r|].
  destruct (IH (evaluate_listener now c gateway cls routes st l)) as [-> ->].
  rewrite evaluate_listener_step, filter_cons. cbn [ll_statuses ll_usable]. split.
  - by rewrite <-List.app_assoc.
  - destruct (listener_usable _ _ _ _ _ l); simpl; lia.
Qed.

Lemma listener_usable_now now now' c gateway cls routes l :
  listener_usable now c gateway cls routes l = listener_usable now' c gateway cls routes l.
Proof.
  unfold listener_usable. destruct (attachedRoutesForListener _ _ _) as [|r [|]]; [done| |done].
  by rewrite (evaluateRoute_now now now').
Qed.

End evaluate.

(** ** Requests *)

Section requests.
Context `{API : !ApiMachinery}.

Lemma delete_ips_requests ips :
  only_requests (λ r, ∃ ip, ip ∈ ips ∧ r = IPAddressDelete (ip_name_key ip)) (delete_ips ips).
Proof.
  induction ips as [|ip ips IH]; simpl; [constructor|].
  assert (Hrest : only_requests (λ r, ∃ ip', ip' ∈ ip :: ips ∧ r = IPAddressDelete (ip_name_key ip'))
    (delete_ips ips)).
  { eapply only_requests_mono; [|exact IH]. intros r (ip' & ? & ->). exists ip'. split; [by right|done]. }
  constructor; [exists ip; split; [by left|done]|]. intros [[]|e]; [done|].
  destruct (IsNotFound e); [done|constructor].
Qed.

Lemma allocate_in_requests gateway p fuel a taken :
  only_requests (λ r, ∃ b, r = IPAddressCreate (vip_claim gateway b)) (allocate_in gateway p fuel a taken).
Proof.
  revert a taken. induction fuel as [|fuel IH]; intros a taken; simpl; [constructor|].
  destruct (negb _); [constructor|]. destruct (isLastAddress p a); [constructor|].
  case_decide; [apply IH|]. constructor; [eauto|]. intros [[]|e]; [constructor|].
  destruct (IsAlreadyExists e); [apply IH|constructor].
Qed.

Lemma allocate_requests gateway cidrs taken :
  only_requests (λ r, ∃ b, r = IPAddressCreate (vip_claim gateway b)) (allocate gateway cidrs taken).
Proof.
  revert taken. induction cidrs as [|p cidrs IH]; intros taken; simpl; [constructor|].
  apply only_requests_bind; [apply allocate_in_requests|]. intros [r|taken']; [constructor|apply IH].
Qed.

(** The requests a Gateway's reconciliation may make. *)
Inductive gateway_request (c : Caches) (gateway : Gateway) : request → Prop :=
| gr_get : gateway_request c gateway (GatewayGet (Namespace (gw_meta gateway)) (Name (gw_meta gateway)))
| gr_claim a : gateway_request c gateway (IPAddressCreate (vip_claim gateway a))
| gr_release owned ip :
    listOwnedGatewayIPAddresses c (gateway_key gateway) = Ok owned → ip ∈ owned →
    gateway_request c gateway (IPAddressDelete (ip_name_key ip))
| gr_finalizer current fs :
    (∀ f, f ≠ controllerFinalizer → f ∈ fs ↔ f ∈ Finalizers (gw_meta current)) →
    gateway_request c gateway (GatewayUpdate (Namespace (gw_meta current)) (with_finalizers current fs))
| gr_status st :
    gateway_request c gateway (GatewayUpdateStatus (Namespace (gw_meta gateway)) (with_status gateway st)).

(** A request of the Gateway's that claims no address. *)
Definition is_claim (r : request) : bool := match r with IPAddressCreate _ => true | _ => false end.

Definition quiet_request (c : Caches) (gateway : Gateway) (r : request) : Prop :=
  gateway_request c gateway r ∧ is_claim r = false.

Lemma release_requests c gateway :
  only_requests (quiet_request c gateway) (releaseGatewayIPAddresses c gateway).
Proof.
  unfold releaseGatewayIPAddresses. apply only_requests_lift_ok. intros owned Ho.
  eapply only_requests_mono; [|apply delete_ips_requests]. intros r (ip & Hip & ->).
  split; [by eapply gr_release|done].
Qed.

Lemma ensureGatewayVIP_requests c gateway :
  only_requests (gateway_request c gateway) (ensureGatewayVIP c gateway).
Proof.
  unfold ensureGatewayVIP. apply only_requests_lift_ok. intros owned Ho.
  destruct (slices_SortFunc _ owned) as [|first others] eqn:E.
  - apply only_requests_lift_ok. intros cidrs _. case_decide; [constructor|].
    apply only_requests_lift_ok. intros taken _. eapply only_requests_mono; [|apply allocate_requests].
    intros r [b ->]. constructor.
  - apply only_requests_bind_ok; [|constructor]. eapply only_requests_mono; [|apply delete_ips_requests].
    intros r (ip & Hip & ->). eapply gr_release; [exact Ho|].
    rewrite <-(elem_of_less_sort (λ x y, cmp_on ip_name_key x y <? 0)).
    unfold slices_SortFunc in E. rewrite E. by right.
Qed.

Lemma ensureGatewayFinalizer_requests c gateway :
  only_requests (quiet_request c gateway) (ensureGatewayFinalizer gateway).
Proof.
  unfold ensureGatewayFinalizer. destruct (has_finalizer gateway); [constructor|].
  constructor; [split; [constructor|done]|]. intros [current|e]; [|constructor].
  destruct (has_finalizer current); [constructor|]. apply only_requests_bind_ok; [|constructor].
  apply (only_requests_perform _ (GatewayUpdate _ _)). split; [|done].
  apply (gr_finalizer _ _ current). set_solver.
Qed.

Lemma cleanup_requests c gateway :
  only_requests (quiet_request c gateway) (cleanupGatewayResources c gateway).
Proof.
  unfold cleanupGatewayResources. apply only_requests_bind_ok; [apply release_requests|]. intros _.
  unfold removeGatewayFinalizer. constructor; [split; [constructor|done]|].
  intros [current|e]; [|destruct (IsNotFound e); constructor].
  destruct (negb (has_finalizer current)); [constructor|]. constructor.
  - split; [|done]. apply (gr_finalizer _ _ current). intros f Hf.
    rewrite deleteString_filter, list_elem_of_filter. tauto.
  - intros [[]|e]; [constructor|]. destruct (IsNotFound e); constructor.
Qed.

Lemma clear_requests c gateway :
  only_requests (quiet_request c gateway) (clearManagedGatewayStatus gateway).
Proof.
  unfold clearManagedGatewayStatus. destruct (gatewayStatusEqual _ _); [constructor|].
  apply (only_requests_perform _ (GatewayUpdateStatus _ _)). split; [apply (gr_status c gateway)|done].
Qed.

Lemma update_requests now c gateway ev :
  only_requests (quiet_request c gateway) (updateGatewayStatus now gateway ev).
Proof.
  unfold updateGatewayStatus. destruct (gatewayStatusEqual _ _); [constructor|].
  apply (only_requests_perform _ (GatewayUpdateStatus _ _)). split; [apply (gr_status c gateway)|done].
Qed.

Lemma quiet_gateway_request c gateway r : quiet_request c gateway r → gateway_request c gateway r.
Proof. by intros []. Qed.

End requests.

(** ** Listener statuses up to transition times *)

Definition untimed_status (s : ListenerStatus) : ListenerStatus :=
  mkListenerStatus (ls_Name s) (ls_SupportedKinds s) (ls_AttachedRoutes s) (untimed <$> ls_Conditions s).

Definition statuses_equiv (a b : list ListenerStatus) : Prop := untimed_status <$> a = untimed_status <$> b.

#[export] Instance statuses_equiv_equivalence : Equivalence statuses_equiv.
Proof. unfold statuses_equiv. split; red; congruence. Qed.

Lemma kindsEqual_refl ks : kindsEqual ks ks = true.
Proof. induction ks; simpl; [done|]. by rewrite decide_False by auto. Qed.

Lemma gatewayAddressesEqual_refl xs : gatewayAddressesEqual xs xs = true.
Proof. induction xs; simpl; [done|]. by rewrite !decide_False by auto. Qed.

Lemma listenerStatusesEqual_equiv a b : statuses_equiv a b → listenerStatusesEqual a b = true.
Proof.
  unfold statuses_equiv. revert b. induction a as [|x a IH]; intros [|y b]; simpl; try done.
  intros [= Hn Hk Hr Hc Hrest]. rewrite Hn, Hk, Hr, kindsEqual_refl.
  rewrite !bool_decide_false by auto. simpl.
  assert (conditionsEqual (ls_Conditions x) (ls_Conditions y) = true) as ->
    by (by apply conditionsEqual_iff). simpl. by apply IH.
Qed.

Lemma listenerStatusesEqual_trans a b b' :
  listenerStatusesEqual a b = true → statuses_equiv b b' → listenerStatusesEqual a b' = true.
Proof.
  unfold statuses_equiv. revert a b'. induction b as [|y b IH]; intros [|x a] [|y' b']; simpl; try done.
  intros H [= Hn Hk Hr Hc Hrest]. rewrite <-Hn, <-Hk, <-Hr.
  destruct (_ || _); [done|]. destruct (negb (kindsEqual _ _)); [done|].
  assert (conditionsEqual (ls_Conditions x) (ls_Conditions y') = conditionsEqual (ls_Conditions x) (ls_Conditions y)) as ->.
  { by apply conditionsEqual_proper. }
  destruct (negb (conditionsEqual _ _)); [done|]. by apply IH.
Qed.

Lemma statuses_equiv_map {A} (f g : A → ListenerStatus) xs :
  (∀ x, untimed_status (f x) = untimed_status (g x)) → statuses_equiv (map f xs) (map g xs).
Proof. intros Hfg. unfold statuses_equiv. induction xs; simpl; [done|]. by f_equal. Qed.

Section now.
Context `{API : !ApiMachinery, Laws : !ApiMachineryLaws}.

Lemma listenerStatusForOutcome_now now now' l n s1 r1 m1 s2 r2 m2 s3 r3 m3 g :
  untimed_status (listenerStatusForOutcome now l n s1 r1 m1 s2 r2 m2 s3 r3 m3 g)
  = untimed_status (listenerStatusForOutcome now' l n s1 r1 m1 s2 r2 m2 s3 r3 m3 g).
Proof.
  unfold untimed_status, listenerStatusForOutcome. simpl. f_equal.
  apply mergeConditions_equiv; [constructor|done|done].
Qed.

Lemma validate_now now now' gateway :
  let v := validateGatewayListeners now (Some gateway) in
  let v' := validateGatewayListeners now' (Some gateway) in
  v_valid v = v_valid v' ∧ v_message v = v_message v' ∧ v_listeners v = v_listeners v' ∧
  statuses_equiv (v_statuses v) (v_statuses v').
Proof.
  destruct (decide (Listeners (gw_spec gateway) = [])) as [E|Hne].
  - unfold validateGatewayListeners. by rewrite E.
  - rewrite !validate_nonempty by done. split_and!; [done..|]. apply statuses_equiv_map.
    intros l. unfold validated_status. destruct (verdict_ok _ l); apply listenerStatusForOutcome_now.
Qed.

Lemma listener_problem_now now now' c gateway cls routes l :
  listener_problem now c gateway cls routes l = listener_problem now' c gateway cls routes l.
Proof.
  unfold listener_problem. destruct (attachedRoutesForListener _ _ _) as [|r [|]]; [done| |done].
  by rewrite (evaluateRoute_now now now').
Qed.

Lemma listener_result_now now now' c gateway cls routes l :
  untimed_status (listener_result now c gateway cls routes l)
  = untimed_status (listener_result now' c gateway cls routes l).
Proof.
  unfold listener_result.
  rewrite (listener_usable_now now now'), (listener_problem_now now now').
  destruct (listener_usable now' c gateway cls routes l); apply listenerStatusForOutcome_now.
Qed.

Lemma evaluate_listeners_now now now' c gateway cls routes ls st st' :
  statuses_equiv (ll_statuses st) (ll_statuses st') → ll_firstError st = ll_firstError st' →
  ll_usable st = ll_usable st' →
  let r := foldl (evaluate_listener now c gateway cls routes) st ls in
  let r' := foldl (evaluate_listener now' c gateway cls routes) st' ls in
  statuses_equiv (ll_statuses r) (ll_statuses r') ∧ ll_firstError r = ll_firstError r' ∧
  ll_usable r = ll_usable r'.
Proof.
  revert st st'. induction ls as [|l ls IH]; intros st st' Hs He Hu; simpl; [done|].
  pose proof (listener_problem_now now now' c gateway cls routes l) as Hp.
  pose proof (listener_usable_now now now' c gateway cls routes l) as Hl.
  rewrite !evaluate_listener_step. apply IH; cbn [ll_statuses ll_firstError ll_usable].
  - unfold statuses_equiv in *. rewrite !fmap_app, Hs. f_equal. rewrite !list_fmap_singleton. f_equal. apply listener_result_now.
  - by rewrite Hl, Hp, He.
  - by rewrite Hl, Hu.
Qed.

(** Evaluations that differ only in transition times. *)
Definition evaluation_equiv (e e' : gatewayEvaluation) : Prop :=
  ge_acceptedStatus e = ge_acceptedStatus e' ∧ ge_acceptedReason e = ge_acceptedReason e' ∧
  ge_acceptedMessage e = ge_acceptedMessage e' ∧ ge_programmedReason e = ge_programmedReason e' ∧
  ge_programmedMessage e = ge_programmedMessage e' ∧ statuses_equiv (ge_listeners e) (ge_listeners e') ∧
  ge_valid e = ge_valid e' ∧ ge_selectedVIP e = ge_selectedVIP e'.

Lemma evaluateGateway_now now now' c gateway cls routes :
  evaluation_equiv (evaluateGateway now c gateway cls routes) (evaluateGateway now' c gateway cls routes).
Proof.
  unfold evaluateGateway. destruct cls as [gc|]; [|done]. case_decide; [done|].
  destruct (validate_now now now' gateway) as (Hv & Hm & Hl & Hs). rewrite Hv, Hm, Hl.
  destruct (negb _); [done|]. case_decide.
  { split_and!; try done. apply statuses_equiv_map. intros l. apply listenerStatusForOutcome_now. }
  destruct (evaluate_listeners_now now now' c gateway (Some gc) routes
    (v_listeners (validateGatewayListeners now' (Some gateway))) (mkLoop [] "" 0) (mkLoop [] "" 0))
    as (Hst & He & Hu); [done..|].
  rewrite Hu. case_decide; [by rewrite He|done].
Qed.

Lemma FindStatusCondition_equiv cs cs' t :
  cond_equiv cs cs' → untimed <$> FindStatusCondition cs t = untimed <$> FindStatusCondition cs' t.
Proof.
  intros Heq. rewrite !FindStatusCondition_spec.
  assert (Hf : ∀ ds, untimed <$> head (filter (λ c, c_Type c = t) ds)
    = head (filter (λ c, c_Type c = t) (untimed <$> ds))).
  { induction ds as [|d ds IH]; [done|]. rewrite list.fmap_cons, !filter_cons.
    simpl. by case_decide. }
  by rewrite !Hf, Heq.
Qed.

Lemma setListenerProgrammed_now now now' ss ss' st r m g :
  Forall (λ s, NoDup (types (ls_Conditions s))) ss →
  statuses_equiv ss ss' →
  statuses_equiv (setListenerProgrammedCondition now ss st r m g)
    (setListenerProgrammedCondition now' ss' st r m g).
Proof.
  intros Hnd. revert ss'. induction Hnd as [|s ss Hs _ IH]; intros [|s' ss'] Heq; try done.
  unfold statuses_equiv in *. rewrite !list.fmap_cons in Heq. simpl.
  assert (untimed_status s = untimed_status s' ∧ untimed_status <$> ss = untimed_status <$> ss') as [Hss Hrest].
  { injection Heq as ?????. split; [|done]. unfold untimed_status. congruence. }
  f_equal; [|by apply IH]. unfold untimed_status in Hss.
  injection Hss as Hn Hk Ha Hc.
  pose proof (FindStatusCondition_equiv _ _ TypeAccepted Hc) as Hfind.
  destruct (FindStatusCondition (ls_Conditions s) _) as [a|], (FindStatusCondition (ls_Conditions s') _) as [a'|];
    simpl in Hfind; try done; [|unfold untimed_status; congruence].
  injection Hfind as _ Hstatus _ _ _. rewrite Hstatus.
  case_decide; unfold untimed_status; simpl; [congruence|].
  f_equal; try done. by apply mergeConditions_equiv.
Qed.

End now.
