(* ===== verification/GatewayProps.v ===== *)
(** * Gateways: properties

    When a Gateway is accepted and served, what its reconciliation may ask of
    the API server and in which order, that the published address is reserved
    for it, and that its status converges. *)

From S2P Require Import Prelude KubeTypes Api Indexers Status Reference Ipam IpamSpec.
From S2P Require Import Listeners Selector Route RouteSpec Gateway GatewayFacts.

(** The listener has one attached route, whose only parent reference selects
    this listener only and whose backend resolves. *)
Definition listener_served `{!ApiMachinery} (c : Caches) (gateway : Gateway) (routes : list TCPRoute)
    (l : Listener) : Prop :=
  ∃ r p, ParentRefs r = [p] ∧
    (r ∈ routes ∧ attached_to gateway l r) ∧
    (∀ r', r' ∈ routes ∧ attached_to gateway l r' → r' = r) ∧
    (∀ l', l' ∈ Listeners (gw_spec gateway) → parent_selects p l' → l' = l) ∧
    backend_resolves c r.

Section facts.
Context `{API : !ApiMachinery, Laws : !ApiMachineryLaws}.

Lemma matchingParentRef_single gateway l r p :
  ParentRefs r = [p] → attached_to gateway l r →
  matchingParentRef r gateway = p ∧ parent_selects p l.
Proof.
  intros Hp (_ & p' & Hin & Hg & Hns & Hn & Hsel). rewrite Hp in Hin.
  apply list_elem_of_singleton in Hin as ->. split; [|done].
  unfold matchingParentRef. rewrite Hp. simpl. rewrite Hg. simpl.
  unfold parent_names_gateway. by rewrite !bool_decide_true.
Qed.

Lemma listener_usable_iff now c gateway cls routes l :
  NoDup routes → class_accepted cls → gateway_listeners_ok gateway →
  l ∈ Listeners (gw_spec gateway) →
  listener_usable now c gateway cls routes l = true ↔ listener_served c gateway routes l.
Proof.
  intros Hnd Hcls Hok Hl. unfold listener_usable, listener_served.
  assert (Hone : ∀ r, attachedRoutesForListener gateway l routes = [r] ↔
    (r ∈ routes ∧ attached_to gateway l r) ∧ ∀ r', r' ∈ routes ∧ attached_to gateway l r' → r' = r).
  { intros r. rewrite singleton_iff by (by apply attached_NoDup). by setoid_rewrite elem_of_attached. }
  assert (Hev : ∀ r p, ParentRefs r = [p] → attached_to gateway l r →
    attachedRoutesForListener gateway l routes = [r] →
    let ev := evaluateRoute now c r (matchingParentRef r gateway) gateway cls routes in
    (re_acceptedStatus ev = ConditionTrue ∧ re_resolvedStatus ev = ConditionTrue) ↔
    (∀ l', l' ∈ Listeners (gw_spec gateway) → parent_selects p l' → l' = l) ∧ backend_resolves c r).
  { intros r p Hp Hatt Hr. destruct (matchingParentRef_single _ _ _ _ Hp Hatt) as [-> Hsel].
    unfold evaluateRoute. apply class_rejected_iff in Hcls as ->. cbv zeta.
    rewrite evaluate_backend_resolved by (apply evaluate_attachment_resolved).
    rewrite evaluate_backend_accepted, evaluate_attachment_accepted by done.
    apply Hone in Hr as [Hr Hu]. rewrite Hp. split.
    - intros [(_ & _ & l0 & (_ & _ & _ & Hl0) & _) ?]. split; [|done].
      rewrite (Hl0 l) by done. intros l' ? ?. by apply Hl0.
    - intros [Hu' ?]. split; [|done]. split_and!; [apply Hatt|done|]. exists l. split; [done|]. eauto. }
  split.
  - destruct (attachedRoutesForListener _ _ _) as [|r [|]] eqn:E; try done.
    rewrite andb_true_iff, !bool_decide_eq_true. intros [Hacc Hres].
    pose proof (proj1 (Hone r) eq_refl) as [Hr Hu].
    assert (∃ p, ParentRefs r = [p]) as [p Hp].
    { unfold evaluateRoute in Hacc. apply class_rejected_iff in Hcls. rewrite Hcls in Hacc.
      rewrite evaluate_backend_accepted, evaluate_attachment_accepted in Hacc by done.
      destruct Hacc as (_ & Hlen & _). destruct (ParentRefs r) as [|? [|]]; eauto; done. }
    exists r, p. split; [done|]. split; [done|]. split; [done|].
    apply (Hev r p Hp); [apply Hr|done|done].
  - intros (r & p & Hp & Hr & Hu & Hsel & Hb). pose proof (proj2 (Hone r) (conj Hr Hu)) as E.
    rewrite E. rewrite andb_true_iff, !bool_decide_eq_true.
    apply (Hev r p Hp); [apply Hr|done|done].
Qed.

Lemma evaluate_valid now c gateway cls routes :
  class_accepted cls → gateway_listeners_ok gateway → SpecAddresses (gw_spec gateway) = [] →
  let ev := evaluateGateway now c gateway cls routes in
  ge_listeners ev = map (listener_result now c gateway cls routes) (Listeners (gw_spec gateway)) ∧
  (ge_valid ev = true ↔ ∃ l, l ∈ Listeners (gw_spec gateway) ∧
     listener_usable now c gateway cls routes l = true).
Proof.
  intros (gc & -> & Hgc) Hok%gateway_listeners_ok_iff Ha. unfold evaluateGateway.
  apply (validate_valid_iff now) in Hok. rewrite decide_False by auto.
  rewrite Hok, validate_valid_listeners, Ha by done. cbn [negb length].
  rewrite decide_False by lia. destruct (evaluate_listeners_fold now c gateway (Some gc) routes
    (Listeners (gw_spec gateway)) (mkLoop [] "" 0)) as [Hs Hu]. rewrite Hs, Hu.
  cbn [ll_statuses ll_usable app Nat.add]. split; [by case_decide|].
  set (us := filter _ _).
  assert (Hus : ∀ l, l ∈ us ↔ l ∈ Listeners (gw_spec gateway) ∧
    listener_usable now c gateway (Some gc) routes l = true) by (intros l; unfold us; rewrite list_elem_of_filter; tauto).
  setoid_rewrite <-Hus. clearbody us. case_decide as Hlen; simpl.
  - split; [done|]. intros [l Hl]. apply length_zero_iff_nil in Hlen. subst us. by apply elem_of_nil in Hl.
  - split; [|done]. intros _. destruct us as [|l us]; [done|]. exists l. by left.
Qed.

Lemma evaluateGateway_checks now c gateway cls routes :
  ge_valid (evaluateGateway now c gateway cls routes) = true →
  class_accepted cls ∧ gateway_listeners_ok gateway ∧ SpecAddresses (gw_spec gateway) = [].
Proof.
  unfold evaluateGateway. destruct cls as [gc|]; [|done]. case_decide; [done|].
  destruct (v_valid _) eqn:Hval; [|done]. cbn [negb]. case_decide as Haddr; [done|]. intros _.
  split_and!; [by exists gc| |destruct (SpecAddresses _); simpl in *; [done|lia]].
  apply gateway_listeners_ok_iff. by apply (validate_valid_iff now).
Qed.

End facts.

(** ** Evaluation *)

(** What a Gateway must be to be accepted. *)
Definition acceptable `{!ApiMachinery} (c : Caches) (gateway : Gateway) (cls : option GatewayClass)
    (routes : list TCPRoute) : Prop :=
  class_accepted cls ∧ gateway_listeners_ok gateway ∧ SpecAddresses (gw_spec gateway) = [] ∧
  ∃ l, l ∈ Listeners (gw_spec gateway) ∧ listener_served c gateway routes l.

Lemma evaluate_acceptable `{!ApiMachinery} `{!ApiMachineryLaws} now c gateway cls routes :
  NoDup routes → ge_valid (evaluateGateway now c gateway cls routes) = true ↔ acceptable c gateway cls routes.
Proof.
  intros Hnd. destruct (ge_valid (evaluateGateway now c gateway cls routes)) eqn:Hv.
  - split; [|done]. intros _. destruct (evaluateGateway_checks _ _ _ _ _ Hv) as (Hcls & Hok & Ha).
    split_and!; [done..|].
    apply (evaluate_valid now c gateway cls routes) in Hv as (l & Hl & Hus); [|done..].
    exists l. split; [done|]. by apply (listener_usable_iff now c gateway cls).
  - split; [done|]. intros (Hcls & Hok & Ha & l & Hl & Hs).
    rewrite <-Hv. apply (evaluate_valid now c gateway cls routes); [done..|].
    exists l. split; [done|]. by apply listener_usable_iff.
Qed.

(** For a Gateway whose class, listeners and
    addresses are supported there is one status per listener, in order: it
    counts the attached routes, is Accepted exactly when the listener is served,
    and is not Programmed. *)
Theorem evaluateGateway_statuses `{!ApiMachinery} `{!ApiMachineryLaws} now c gateway cls routes :
  NoDup routes → class_accepted cls → gateway_listeners_ok gateway → SpecAddresses (gw_spec gateway) = [] →
  Forall2 (λ l s,
      ls_Name s = l_Name l ∧
      ls_AttachedRoutes s = int32 (Z.of_nat (length (attachedRoutesForListener gateway l routes))) ∧
      only_status TypeProgrammed ConditionFalse (ls_Conditions s) ∧
      ∃ a, FindStatusCondition (ls_Conditions s) TypeAccepted = Some a ∧
        (c_Status a = ConditionTrue ↔ listener_served c gateway routes l))
    (Listeners (gw_spec gateway)) (ge_listeners (evaluateGateway now c gateway cls routes)).
Proof.
  intros Hnd Hcls Hok Ha. destruct (evaluate_valid now c gateway cls routes Hcls Hok Ha) as [-> _].
  apply (proj2 (list.Forall2_fmap_r _ _ _ _)), Forall_Forall2_diag, list.Forall_forall. intros l Hl. simpl.
  setoid_rewrite <-(listener_usable_iff now c gateway cls routes l Hnd Hcls Hok Hl).
  unfold listener_result.
  destruct (listener_usable _ _ _ _ _ l); unfold listener_pending, listener_rejected;
    (edestruct listener_outcome as (_ & Hp & a & Hf & Hst);
     split_and!; [done|done|exact Hp|exists a; split; [exact Hf|rewrite Hst; done]]).
Qed.

(** ** Requests of a reconciliation *)

(** The status says nothing is programmed. *)
Definition not_programmed (st : GatewayStatus) : Prop :=
  only_status TypeProgrammed ConditionFalse (Conditions st) ∧
  ∀ s, s ∈ ListenerStatuses st → only_status TypeProgrammed ConditionFalse (ls_Conditions s).

Section reconcile.
Context `{API : !ApiMachinery, Laws : !ApiMachineryLaws}.

(** What the reconciler writes after evaluation: the evaluation of the cached
    objects, completed by the outcome of the allocation if it is valid. *)
Definition final_evaluation (now : Z) (c : Caches) (gateway : Gateway) (cls : option GatewayClass)
    (routes : list TCPRoute) (r : result string) : gatewayEvaluation :=
  let ev := evaluateGateway now c gateway cls routes in
  if ge_valid ev then with_vip now gateway ev r else ev.

Lemma setListenerProgrammed_only now ss r m g :
  Forall (λ s, NoDup (types (ls_Conditions s)) ∧ only_status TypeProgrammed ConditionFalse (ls_Conditions s)) ss →
  Forall (λ s, NoDup (types (ls_Conditions s)) ∧ only_status TypeProgrammed ConditionFalse (ls_Conditions s))
    (setListenerProgrammedCondition now ss ConditionFalse r m g).
Proof.
  intros Hss. unfold setListenerProgrammedCondition. apply list.Forall_fmap.
  eapply list.Forall_impl; [exact Hss|]. intros s [Hnd Hs]. simpl.
  destruct (FindStatusCondition _ _) as [a|]; [|done]. case_decide; [done|]. simpl. split.
  - by apply mergeConditions_NoDup.
  - apply mergeConditions_only; [done|apply NoDup_singleton|by left|].
    intros d ->%list_elem_of_singleton. done.
Qed.

Lemma evaluateGateway_not_programmed now c gateway cls routes :
  Forall (λ s, NoDup (types (ls_Conditions s)) ∧ only_status TypeProgrammed ConditionFalse (ls_Conditions s))
    (ge_listeners (evaluateGateway now c gateway cls routes)).
Proof.
  assert (Hout : ∀ l n s1 r1 m1 s2 r2 m2 r3 m3 g,
    let s := listenerStatusForOutcome now l n s1 r1 m1 s2 r2 m2 ConditionFalse r3 m3 g in
    NoDup (types (ls_Conditions s)) ∧ only_status TypeProgrammed ConditionFalse (ls_Conditions s)).
  { intros. edestruct listener_outcome as (H1 & H2 & _). split; [exact H1|exact H2]. }
  unfold evaluateGateway. destruct cls as [gc|]; [|constructor]. case_decide; [constructor|].
  destruct (negb (v_valid _)) eqn:Hv.
  { cbn [rejected ge_listeners]. destruct (decide (Listeners (gw_spec gateway) = [])) as [E|Hne].
    - unfold validateGatewayListeners. rewrite E. constructor.
    - rewrite validate_nonempty by done. simpl. apply list.Forall_fmap, list.Forall_true.
      intros l. unfold validated_status. simpl. destruct (verdict_ok _ l); apply Hout. }
  case_decide.
  { simpl. unfold listenerStatusesForGatewayMessage. apply list.Forall_fmap, list.Forall_true.
    intros l. apply Hout. }
  destruct (evaluate_listeners_fold now c gateway (Some gc) routes
    (v_listeners (validateGatewayListeners now (Some gateway))) (mkLoop [] "" 0)) as [Hs _].
  case_decide; cbn [rejected ge_listeners]; rewrite Hs; cbn [ll_statuses app];
    apply list.Forall_fmap, list.Forall_true; intros l; simpl; unfold listener_result;
    destruct (listener_usable _ _ _ _ _ l); apply Hout.
Qed.

Lemma final_evaluation_not_programmed now c gateway cls routes r :
  Forall (λ s, NoDup (types (ls_Conditions s)) ∧ only_status TypeProgrammed ConditionFalse (ls_Conditions s))
    (ge_listeners (final_evaluation now c gateway cls routes r)).
Proof.
  unfold final_evaluation. destruct (ge_valid _); [|apply evaluateGateway_not_programmed].
  destruct r; apply setListenerProgrammed_only, evaluateGateway_not_programmed.
Qed.

Lemma final_evaluation_accepted now c gateway cls routes r :
  ge_acceptedStatus (final_evaluation now c gateway cls routes r)
  = if ge_valid (evaluateGateway now c gateway cls routes) then ConditionTrue else ConditionFalse.
Proof.
  assert (H : ge_acceptedStatus (evaluateGateway now c gateway cls routes)
    = if ge_valid (evaluateGateway now c gateway cls routes) then ConditionTrue else ConditionFalse).
  { unfold evaluateGateway. destruct cls as [gc|]; [|done]. case_decide; [done|].
    destruct (v_valid _); [|done]. cbn [negb]. case_decide; [done|]. by case_decide. }
  unfold final_evaluation. destruct (ge_valid _) eqn:Hv; [|by rewrite H]. destruct r; simpl; by rewrite H.
Qed.

(** The status written after an evaluation has its Accepted condition. *)
Lemma written_accepted now gateway ev :
  NoDup (types (Conditions (gw_status gateway))) →
  ∃ a, FindStatusCondition (Conditions (evaluated_status now gateway ev)) TypeAccepted = Some a ∧
       c_Status a = ge_acceptedStatus ev.
Proof.
  intros Hnd. apply FindStatusCondition_only; cbn [evaluated_status Conditions].
  - rewrite <-types_untimed. apply list_elem_of_fmap. eexists (untimed _). split; [|
      apply mergeConditions_elem; [done| |left; by left]]; [done|].
    apply (bool_decide_unpack _). by vm_compute.
  - apply mergeConditions_only; [done| |by left|].
    + apply (bool_decide_unpack _). by vm_compute.
    + intros d. rewrite !list.elem_of_cons, elem_of_nil. by intros [->|[->|[]]].
Qed.

(** C14. A Gateway is accepted exactly when its GatewayClass
    is this controller's, its listeners are well formed, it requests no
    addresses, and some listener is served.  So says the status that is written
    after the evaluation, whatever came of allocating an address; and exactly
    then is the evaluation valid, which makes the reconciler ask for an address
    instead of releasing those the Gateway has. *)
Theorem evaluateGateway_valid_iff now c gateway cls routes :
  NoDup routes →
  (ge_valid (evaluateGateway now c gateway cls routes) = true ↔ acceptable c gateway cls routes) ∧
  (ge_acceptedStatus (evaluateGateway now c gateway cls routes) = ConditionTrue ↔
     acceptable c gateway cls routes) ∧
  (NoDup (types (Conditions (gw_status gateway))) → ∀ r, ∃ a,
     FindStatusCondition
       (Conditions (evaluated_status now gateway (final_evaluation now c gateway cls routes r))) TypeAccepted = Some a ∧
     (c_Status a = ConditionTrue ↔ acceptable c gateway cls routes)).
Proof.
  intros Hnd. pose proof (evaluate_acceptable now c gateway cls routes Hnd) as Hv.
  assert (Hacc : ∀ r, ge_acceptedStatus (final_evaluation now c gateway cls routes r) = ConditionTrue ↔
    acceptable c gateway cls routes).
  { intros r. rewrite final_evaluation_accepted, <-Hv. by destruct (ge_valid _). }
  split_and!; [done| |].
  - rewrite <-(Hacc (Ok "")). unfold final_evaluation. by destruct (ge_valid _).
  - intros Hcs r. destruct (written_accepted now gateway (final_evaluation now c gateway cls routes r) Hcs)
      as (a & Ha & Hs). exists a. split; [done|]. by rewrite Hs.
Qed.

(** The reconciler in terms of [final_evaluation]. *)
Lemma reconcileGateway_unfold now c key gateway :
  getGateway c key = Ok gateway →
  GatewayClassName (gw_spec gateway) = gatewaymeta_GatewayClassName →
  DeletionTimestamp (gw_meta gateway) = None →
  reconcileGateway now c key ≡
  do! finalizerAdded := ensureGatewayFinalizer gateway in
  if finalizerAdded then Ret (Ok tt)
  else
    get! cls := getGatewayClass c in
    get! routes := listRoutesForGateway c (gateway_key gateway) in
    if ge_valid (evaluateGateway now c gateway cls routes) then
      let* r := ensureGatewayVIP c gateway in
      updateGatewayStatus now gateway (final_evaluation now c gateway cls routes r)
    else
      do! _ := releaseGatewayIPAddresses c gateway in
      updateGatewayStatus now gateway (final_evaluation now c gateway cls routes (Ok "")).
Proof.
  intros Hg Hc Hd. unfold reconcileGateway. rewrite Hg, Hc, Hd.
  rewrite !decide_False by auto. apply bind_proper; [done|]. intros [[]|e]; [done| |done].
  unfold gateway_key. destruct (getGatewayClass c) as [cls|e]; simpl; [|done].
  destruct (listRoutesForGateway c _) as [routes|e]; simpl; [|done].
  unfold final_evaluation. by destruct (ge_valid _).
Qed.

(** Reconciling a Gateway reads and updates that
    Gateway only, changes no finalizer but the controller's, claims addresses
    only in that Gateway's name and deletes only reservations it owns. *)
Theorem reconcileGateway_requests now c key :
  only_requests (λ r, ∃ gateway, getGateway c key = Ok gateway ∧ gateway_request c gateway r)
    (reconcileGateway now c key).
Proof.
  unfold reconcileGateway. destruct (getGateway c key) as [gateway|e]; [|destruct (IsNotFound e); constructor].
  eapply only_requests_mono; [intros r Hr; exists gateway; split; [done|exact Hr]|].
  assert (Hq : ∀ A (p : prog A), only_requests (quiet_request c gateway) p →
    only_requests (gateway_request c gateway) p)
    by (intros A p; apply only_requests_mono, quiet_gateway_request).
  case_decide.
  - apply only_requests_lift_ok. intros [] _; apply only_requests_bind_ok;
      try (intros _; apply Hq, cleanup_requests); [apply Hq, clear_requests|constructor].
  - case_decide; [apply Hq, cleanup_requests|].
    apply only_requests_bind_ok; [apply Hq, ensureGatewayFinalizer_requests|].
    intros [|]; [constructor|]. apply only_requests_lift_ok. intros cls _.
    apply only_requests_lift_ok. intros routes _. destruct (negb _).
    + apply only_requests_bind_ok; [apply Hq, release_requests|]. intros _. apply Hq, update_requests.
    + apply only_requests_bind; [apply ensureGatewayVIP_requests|]. intros r. apply Hq, update_requests.
Qed.

(** Among the requests, the status writes. *)
Definition status_write_ok (r : request) : Prop :=
  match r with GatewayUpdateStatus _ o => not_programmed (gw_status o) | _ => True end.

Definition no_status_write (r : request) : Prop :=
  match r with GatewayUpdateStatus _ _ => False | _ => True end.

Lemma no_status_write_ok {A} (p : prog A) :
  only_requests no_status_write p → only_requests status_write_ok p.
Proof. apply only_requests_mono. by intros []. Qed.

Lemma delete_ips_no_status ips : only_requests no_status_write (delete_ips ips).
Proof. eapply only_requests_mono; [|apply delete_ips_requests]. by intros r (ip & _ & ->). Qed.

Lemma releasing_no_status c gateway : only_requests no_status_write (releaseGatewayIPAddresses c gateway).
Proof.
  unfold releaseGatewayIPAddresses. apply only_requests_lift_ok. intros. apply delete_ips_no_status.
Qed.

Lemma cleanup_no_status c gateway : only_requests no_status_write (cleanupGatewayResources c gateway).
Proof.
  unfold cleanupGatewayResources. apply only_requests_bind_ok; [apply releasing_no_status|]. intros _.
  unfold removeGatewayFinalizer. constructor; [done|].
  intros [current|e]; [|destruct (IsNotFound e); constructor].
  destruct (negb _); [constructor|]. constructor; [done|].
  intros [[]|e]; [constructor|]. destruct (IsNotFound e); constructor.
Qed.

Lemma ensureGatewayVIP_no_status c gateway : only_requests no_status_write (ensureGatewayVIP c gateway).
Proof.
  unfold ensureGatewayVIP. apply only_requests_lift_ok. intros owned _.
  destruct (slices_SortFunc _ owned).
  - apply only_requests_lift_ok. intros cidrs _. case_decide; [constructor|].
    apply only_requests_lift_ok. intros taken _.
    eapply only_requests_mono; [|apply allocate_requests]. by intros r [b ->].
  - apply only_requests_bind_ok; [|constructor]. apply delete_ips_no_status.
Qed.

Lemma finalizer_no_status gateway : only_requests no_status_write (ensureGatewayFinalizer gateway).
Proof.
  unfold ensureGatewayFinalizer. destruct (has_finalizer gateway); [constructor|].
  constructor; [done|]. intros [current|e]; [|constructor]. destruct (has_finalizer current); [constructor|].
  apply only_requests_bind_ok; [|constructor]. by apply (only_requests_perform _ (GatewayUpdate _ _)).
Qed.

Lemma update_ok now gateway ev :
  NoDup (types (Conditions (gw_status gateway))) →
  Forall (λ s, NoDup (types (ls_Conditions s)) ∧ only_status TypeProgrammed ConditionFalse (ls_Conditions s))
    (ge_listeners ev) →
  only_requests status_write_ok (updateGatewayStatus now gateway ev).
Proof.
  intros Hnd Hl. unfold updateGatewayStatus. destruct (gatewayStatusEqual _ _); [constructor|].
  apply (only_requests_perform _ (GatewayUpdateStatus _ _)). split.
  - apply mergeConditions_only; [done| |right; by left|].
    + by apply (bool_decide_unpack _).
    + intros d. rewrite !list.elem_of_cons, elem_of_nil. by intros [->|[->|[]]].
  - simpl. intros s Hs. rewrite list.Forall_forall in Hl. by apply Hl.
Qed.

(** The controller never reports a Gateway
    or a listener as Programmed: every status it writes has Programmed false
    wherever the condition is present. *)
Theorem reconcileGateway_never_programmed now c key gateway :
  getGateway c key = Ok gateway → NoDup (types (Conditions (gw_status gateway))) →
  only_requests (λ r, ∀ ns o, r = GatewayUpdateStatus ns o → not_programmed (gw_status o))
    (reconcileGateway now c key).
Proof.
  intros Hg Hnd. apply (only_requests_mono status_write_ok).
  { intros r Hr ns o ->. exact Hr. }
  pose proof (λ cls routes r, final_evaluation_not_programmed now c gateway cls routes r) as Hfin.
  unfold reconcileGateway. rewrite Hg. case_decide.
  - apply only_requests_lift_ok. intros b _. apply only_requests_bind_ok; [|intros; apply no_status_write_ok, cleanup_no_status].
    destruct b; [|constructor]. unfold clearManagedGatewayStatus.
    destruct (gatewayStatusEqual _ _); [constructor|].
    apply (only_requests_perform _ (GatewayUpdateStatus _ _)). split; simpl; [|set_solver].
    apply removeConditions_only. right; by left.
  - case_decide; [apply no_status_write_ok, cleanup_no_status|].
    apply only_requests_bind_ok; [apply no_status_write_ok, finalizer_no_status|].
    intros [|]; [constructor|]. apply only_requests_lift_ok. intros cls _.
    apply only_requests_lift_ok. intros routes _. destruct (ge_valid _) eqn:Hv; cbn [negb].
    + apply only_requests_bind; [apply no_status_write_ok, ensureGatewayVIP_no_status|]. intros r. apply update_ok; [done|].
      specialize (Hfin cls routes r). unfold final_evaluation in Hfin. by rewrite Hv in Hfin.
    + apply only_requests_bind_ok; [apply no_status_write_ok, releasing_no_status|].
      intros _. apply update_ok; [done|].
      specialize (Hfin cls routes (Ok "")). unfold final_evaluation in Hfin. by rewrite Hv in Hfin.
Qed.

(** ** Ordering *)

Section order.
Context {S : Type} (handle : ∀ r : request, S → response r * S)
  (owner : S → gmap string (option IPParentReference)) `{!IPAddressServer handle owner}.

Lemma quiet_trace c gateway {A} (p : prog A) s r :
  only_requests (quiet_request c gateway) p → r ∈ trace handle p s → is_claim r = false.
Proof.
  intros Hp Hr. apply (only_requests_trace _ handle _ s) in Hp. rewrite list.Forall_forall in Hp.
  by apply Hp.
Qed.

Lemma ensureGatewayFinalizer_false gateway s s' :
  exec handle (ensureGatewayFinalizer gateway) s = (Ok false, s') →
  has_finalizer gateway = true ∨
  ∃ current, (handle (GatewayGet (Namespace (gw_meta gateway)) (Name (gw_meta gateway))) s).1 = Ok current ∧
    has_finalizer current = true.
Proof.
  unfold ensureGatewayFinalizer. destruct (has_finalizer gateway); [by left|]. simpl.
  destruct (handle (GatewayGet _ _) s) as [[current|e] s1]; simpl; [|done].
  destruct (has_finalizer current) eqn:Hc; [right; eauto|].
  rewrite exec_bind_ok. simpl. destruct (handle (GatewayUpdate _ _) s1) as [[[]|e] s2]; simpl; done.
Qed.

(** C13. An address is claimed only for a live
    Gateway of this class that is valid and already carries the controller's
    finalizer, in the cache or on the server. *)
Theorem reconcileGateway_claims_guarded now c key s o :
  IPAddressCreate o ∈ trace handle (reconcileGateway now c key) s →
  ∃ gateway cls routes,
    getGateway c key = Ok gateway ∧
    GatewayClassName (gw_spec gateway) = gatewaymeta_GatewayClassName ∧
    DeletionTimestamp (gw_meta gateway) = None ∧
    (has_finalizer gateway = true ∨
     ∃ current, (handle (GatewayGet (Namespace (gw_meta gateway)) (Name (gw_meta gateway))) s).1 = Ok current ∧
       has_finalizer current = true) ∧
    getGatewayClass c = Ok cls ∧ listRoutesForGateway c (gateway_key gateway) = Ok routes ∧
    ge_valid (evaluateGateway now c gateway cls routes) = true ∧
    ip_ParentRef o = Some (gateway_ref gateway).
Proof.
  intros Hin. pose proof (reconcileGateway_unfold now c key) as Hunf.
  destruct (getGateway c key) as [gateway|e] eqn:Hg;
    [|unfold reconcileGateway in Hin; rewrite Hg in Hin;
      by destruct (IsNotFound e); simpl in Hin; apply elem_of_nil in Hin].
  specialize (Hunf gateway eq_refl).
  assert (Hquiet : ∀ A (p : prog A) s', only_requests (quiet_request c gateway) p →
    IPAddressCreate o ∉ trace handle p s').
  { intros A p s' Hp Hr. by apply (quiet_trace c gateway p) in Hr. }
  destruct (decide (GatewayClassName (gw_spec gateway) = gatewaymeta_GatewayClassName)) as [Hclass|Hclass].
  2: { exfalso. revert Hin. unfold reconcileGateway. rewrite Hg, decide_True by done.
       apply Hquiet. apply only_requests_lift_ok. intros b _.
       apply only_requests_bind_ok; [destruct b; [apply clear_requests|constructor]|].
       intros _. apply cleanup_requests. }
  destruct (decide (DeletionTimestamp (gw_meta gateway) = None)) as [Hdel|Hdel].
  2: { exfalso. revert Hin. unfold reconcileGateway.
       rewrite Hg, decide_False, decide_True by auto. apply Hquiet, cleanup_requests. }
  specialize (Hunf Hclass Hdel). apply (prog_eq_exec _ _ handle s) in Hunf as [_ Htr].
  rewrite Htr, trace_bind_ok in Hin. clear Htr.
  apply list.elem_of_app in Hin as [Hin|Hin];
    [by apply Hquiet in Hin; [|apply ensureGatewayFinalizer_requests]|].
  destruct (exec handle (ensureGatewayFinalizer gateway) s) as [[[]|e] s1] eqn:Hfin;
    [by apply elem_of_nil in Hin| |by apply elem_of_nil in Hin].
  apply ensureGatewayFinalizer_false in Hfin.
  destruct (getGatewayClass c) as [cls|e] eqn:Hcls; simpl in Hin; [|by apply elem_of_nil in Hin].
  destruct (listRoutesForGateway c _) as [routes|e] eqn:Hrs; simpl in Hin; [|by apply elem_of_nil in Hin].
  destruct (ge_valid (evaluateGateway now c gateway cls routes)) eqn:Hv.
  - exists gateway, cls, routes. split_and!; try done.
    rewrite trace_bind in Hin. apply list.elem_of_app in Hin as [Hin|Hin].
    + pose proof (only_requests_trace _ handle _ s1 (ensureGatewayVIP_requests c gateway)) as Hall.
      rewrite list.Forall_forall in Hall. apply Hall in Hin. by inversion Hin.
    + exfalso. destruct (exec handle (ensureGatewayVIP c gateway) s1) as [r s2].
      by apply Hquiet in Hin; [|apply update_requests].
  - exfalso. revert Hin. apply Hquiet. apply only_requests_bind_ok; [apply release_requests|].
    intros _. apply update_requests.
Qed.

Lemma update_write now gateway ev s ns o :
  GatewayUpdateStatus ns o ∈ trace handle (updateGatewayStatus now gateway ev) s →
  o = with_status gateway (evaluated_status now gateway ev) ∧
  ∀ a, a ∈ Addresses (gw_status o) →
    ge_selectedVIP ev ≠ "" ∧ a = mkStatusAddress (Some IPAddressType) (ge_selectedVIP ev).
Proof.
  unfold updateGatewayStatus. destruct (gatewayStatusEqual _ _); simpl; [by intros ?%elem_of_nil|].
  destruct (handle _ s) as [x s']. intros [= _ ->]%list_elem_of_singleton.
  split; [done|]. intros a. simpl. case_decide; [|by intros ?%elem_of_nil].
  by intros ->%list_elem_of_singleton.
Qed.

Lemma update_owner now gateway ev s :
  owner (exec handle (updateGatewayStatus now gateway ev) s).2 = owner s.
Proof.
  unfold updateGatewayStatus. destruct (gatewayStatusEqual _ _); simpl; [done|].
  destruct (handle (GatewayUpdateStatus _ _) s) as [x s'] eqn:E. simpl.
  pose proof (ips_other (GatewayUpdateStatus (Namespace (gw_meta gateway))
    (with_status gateway (evaluated_status now gateway ev))) s) as Ho. simpl in Ho.
  by rewrite E in Ho.
Qed.

Lemma evaluateGateway_no_vip now c gateway cls routes :
  ge_selectedVIP (evaluateGateway now c gateway cls routes) = "".
Proof. unfold evaluateGateway. by repeat case_match. Qed.

(** What led to a published address: the guards passed, and [ensureGatewayVIP]
    returned it just before the write. *)
Lemma published_inv now c key gateway s ns o a :
  getGateway c key = Ok gateway →
  GatewayUpdateStatus ns o ∈ trace handle (reconcileGateway now c key) s →
  a ∈ Addresses (gw_status o) →
  ∃ cls routes s1 v s2,
    GatewayClassName (gw_spec gateway) = gatewaymeta_GatewayClassName ∧
    DeletionTimestamp (gw_meta gateway) = None ∧
    ge_valid (evaluateGateway now c gateway cls routes) = true ∧
    exec handle (ensureGatewayVIP c gateway) s1 = (Ok v, s2) ∧
    a = mkStatusAddress (Some IPAddressType) v ∧
    o = with_status gateway
      (evaluated_status now gateway (with_vip now gateway (evaluateGateway now c gateway cls routes) (Ok v))) ∧
    owner (exec handle (reconcileGateway now c key) s).2 = owner s2.
Proof.
  intros Hg Hin Ha. pose proof (reconcileGateway_unfold now c key gateway Hg) as Hunf.
  assert (Hno : ∀ A (p : prog A) s', only_requests no_status_write p →
    GatewayUpdateStatus ns o ∉ trace handle p s').
  { intros A p s' Hp Hr. apply (only_requests_trace _ handle _ s') in Hp.
    rewrite list.Forall_forall in Hp. by apply Hp in Hr. }
  destruct (decide (GatewayClassName (gw_spec gateway) = gatewaymeta_GatewayClassName)) as [Hclass|Hclass].
  2: { exfalso. unfold reconcileGateway in Hin. rewrite Hg, decide_True in Hin by done.
       destruct (gatewayPreviouslyManaged c gateway) as [b|e]; simpl in Hin; [|by apply elem_of_nil in Hin].
       rewrite trace_bind_ok in Hin. apply list.elem_of_app in Hin as [Hin|Hin].
       - destruct b; [|by apply elem_of_nil in Hin]. unfold clearManagedGatewayStatus in Hin.
         destruct (gatewayStatusEqual _ _); simpl in Hin; [by apply elem_of_nil in Hin|].
         destruct (handle _ _) in Hin. apply list_elem_of_singleton in Hin as [= _ ->].
         by apply elem_of_nil in Ha.
       - destruct (exec _ _ _) as [[[]|e] s1]; [|by apply elem_of_nil in Hin].
         revert Hin. apply Hno, cleanup_no_status. }
  destruct (decide (DeletionTimestamp (gw_meta gateway) = None)) as [Hdel|Hdel].
  2: { exfalso. revert Hin. unfold reconcileGateway.
       rewrite Hg, decide_False, decide_True by auto. apply Hno, cleanup_no_status. }
  specialize (Hunf Hclass Hdel). apply (prog_eq_exec _ _ handle s) in Hunf as [-> Htr].
  rewrite Htr, trace_bind_ok in Hin. clear Htr. rewrite exec_bind_ok.
  apply list.elem_of_app in Hin as [Hin|Hin];
    [by apply Hno in Hin; [|apply finalizer_no_status]|].
  destruct (exec handle (ensureGatewayFinalizer gateway) s) as [[[]|e] s1];
    [by apply elem_of_nil in Hin| |by apply elem_of_nil in Hin].
  destruct (getGatewayClass c) as [cls|e]; simpl in *; [|by apply elem_of_nil in Hin].
  destruct (listRoutesForGateway c _) as [routes|e]; simpl in *; [|by apply elem_of_nil in Hin].
  destruct (ge_valid (evaluateGateway now c gateway cls routes)) eqn:Hv.
  - rewrite trace_bind in Hin. rewrite exec_bind. apply list.elem_of_app in Hin as [Hin|Hin];
      [by apply Hno in Hin; [|apply ensureGatewayVIP_no_status]|].
    destruct (exec handle (ensureGatewayVIP c gateway) s1) as [r s2] eqn:Hvip.
    apply update_write in Hin as [Ho Hst]. apply Hst in Ha as [Hsel ->].
    unfold final_evaluation in *. rewrite Hv in *. destruct r as [v|e]; [|done].
    exists cls, routes, s1, v, s2. split_and!; try done. apply update_owner.
  - exfalso. rewrite trace_bind_ok in Hin. apply list.elem_of_app in Hin as [Hin|Hin];
      [by apply Hno in Hin; [|apply releasing_no_status]|].
    destruct (exec handle (releaseGatewayIPAddresses c gateway) s1) as [[[]|e] s2];
      [|by apply elem_of_nil in Hin].
    apply update_write in Hin as [-> Hst]. apply Hst in Ha as [Hsel _].
    unfold final_evaluation in Hsel. rewrite Hv in Hsel. by rewrite evaluateGateway_no_vip in Hsel.
Qed.

(** C26. When the controller publishes an address for a
    Gateway that held no cached reservation, the server has an IPAddress of that
    name whose parent is the Gateway. *)
Theorem published_vip_reserved now c key gateway s ns o a :
  getGateway c key = Ok gateway →
  listOwnedGatewayIPAddresses c (gateway_key gateway) = Ok [] →
  GatewayUpdateStatus ns o ∈ trace handle (reconcileGateway now c key) s →
  a ∈ Addresses (gw_status o) →
  owner (exec handle (reconcileGateway now c key) s).2 !! sa_Value a = Some (Some (gateway_ref gateway)).
Proof.
  intros Hg Howned Hin Ha.
  destruct (published_inv now c key gateway s ns o a Hg Hin Ha)
    as (cls & routes & s1 & v & s2 & _ & _ & _ & Hvip & -> & _ & ->).
  apply ensureGatewayVIP_fresh_inv in Hvip as (cidrs & taken & _ & _ & _ & Hvip); [|done].
  eapply try_claims_ok in Hvip as (l1 & bs & l2 & _ & -> & _ & -> & _); [|done].
  apply lookup_insert_eq.
Qed.

End order.

(** ** Convergence *)

Lemma final_evaluation_now now now' c gateway st cls routes r :
  evaluation_equiv (final_evaluation now c gateway cls routes r)
    (final_evaluation now' c (with_status gateway st) cls routes r).
Proof.
  unfold final_evaluation.
  change (evaluateGateway now' c (with_status gateway st)) with (evaluateGateway now' c gateway).
  pose proof (evaluateGateway_now now now' c gateway cls routes)
    as (H1 & H2 & H3 & H4 & H5 & H6 & H7 & H8). rewrite H7.
  pose proof (evaluateGateway_not_programmed now c gateway cls routes) as Hnp.
  assert (Hnd : Forall (λ s, NoDup (types (ls_Conditions s)))
    (ge_listeners (evaluateGateway now c gateway cls routes))).
  { eapply list.Forall_impl; [exact Hnp|]. naive_solver. }
  destruct (ge_valid (evaluateGateway now' c gateway cls routes)) eqn:Hv;
    [|split_and!; congruence || done].
  destruct r as [v|e]; split_and!; simpl; try congruence;
    by apply setListenerProgrammed_now.
Qed.

Lemma evaluated_conditions_equiv now now' gateway ev ev' :
  NoDup (types (Conditions (gw_status gateway))) → evaluation_equiv ev ev' →
  cond_equiv (Conditions (evaluated_status now gateway ev))
    (Conditions (evaluated_status now' (with_status gateway (evaluated_status now gateway ev)) ev')).
Proof.
  intros Hnd (H1 & H2 & H3 & H4 & H5 & _). symmetry.
  unfold evaluated_status. cbn [Conditions with_status gw_status gw_meta].
  eapply mergeConditions_idemp; [exact Hnd| | |reflexivity|apply mergeConditions_sorted|by apply mergeConditions_NoDup].
  - by apply (bool_decide_unpack _).
  - unfold cond_equiv. by rewrite H1, H2, H3, H4, H5.
Qed.

(** A written status equals that of an equivalent later evaluation. *)
Lemma written_status_equal now now' gateway ev ev' :
  NoDup (types (Conditions (gw_status gateway))) → evaluation_equiv ev ev' →
  let written := with_status gateway (evaluated_status now gateway ev) in
  gatewayStatusEqual written (with_status written (evaluated_status now' written ev')) = true.
Proof.
  intros Hnd Heq written. unfold gatewayStatusEqual. rewrite !andb_true_iff. split_and!.
  - apply conditionsEqual_iff. by apply evaluated_conditions_equiv.
  - destruct Heq as (_ & _ & _ & _ & _ & _ & _ & Hv). simpl. rewrite Hv. apply gatewayAddressesEqual_refl.
  - apply listenerStatusesEqual_equiv. apply Heq.
Qed.

(** So does a status that needed no write. *)
Lemma kept_status_equal now now' gateway ev ev' :
  NoDup (types (Conditions (gw_status gateway))) → evaluation_equiv ev ev' →
  gatewayStatusEqual gateway (with_status gateway (evaluated_status now gateway ev)) = true →
  gatewayStatusEqual gateway (with_status gateway (evaluated_status now' gateway ev')) = true.
Proof.
  intros Hnd (H1 & H2 & H3 & H4 & H5 & Hl & _ & Hv). unfold gatewayStatusEqual. rewrite !andb_true_iff. simpl.
  rewrite <-Hv. intros [[Hc Ha] Hls]. split_and!; [|done|by eapply listenerStatusesEqual_trans].
  apply conditionsEqual_iff in Hc. apply conditionsEqual_iff. etransitivity; [exact Hc|].
  apply mergeConditions_equiv; [done|done|]. unfold cond_equiv. by rewrite H1, H2, H3, H4, H5.
Qed.

(** After the status of an evaluation has been
    written, evaluating the same objects again at any later time, with the same
    allocation outcome, writes nothing. *)
Theorem gateway_status_converges now now' c gateway cls routes r :
  NoDup (types (Conditions (gw_status gateway))) →
  let written := with_status gateway
    (evaluated_status now gateway (final_evaluation now c gateway cls routes r)) in
  updateGatewayStatus now' written (final_evaluation now' c written cls routes r) = Ret (Ok tt).
Proof.
  intros Hnd written. unfold updateGatewayStatus. unfold written at 1 2.
  rewrite written_status_equal; [done|done|apply final_evaluation_now].
Qed.

(** ** GatewayClass *)

(** The conditions a GatewayClass should have. *)
Definition class_conditions (gc : GatewayClass) (accepted : bool) : list Condition :=
  condition 0 TypeAccepted (if accepted then ConditionTrue else ConditionFalse)
    (if accepted then ReasonAccepted else ReasonUnsupported)
    (gatewayClassAcceptedMessage gc accepted) (Generation (gc_meta gc)) ::
  (if accepted then
     [condition 0 TypeSupportedVersion ConditionTrue ReasonSupportedVersion
        "Gateway API versions used by this controller are supported." (Generation (gc_meta gc))]
   else []).

Definition class_is_ours (gc : GatewayClass) : Prop :=
  Name (gc_meta gc) = gatewaymeta_GatewayClassName ∧ gc_ControllerName gc = controllerName.

#[export] Instance class_is_ours_dec gc : Decision (class_is_ours gc).
Proof. unfold class_is_ours. apply _. Defined.

(** The conditions the reconciler merges, as the source does it: in one or two
    merges. *)
Definition merged_class_conditions (now : Z) (gc : GatewayClass) : list Condition :=
  let generation := Generation (gc_meta gc) in
  let accepted :=
    bool_decide (Name (gc_meta gc) = gatewaymeta_GatewayClassName)
    && bool_decide (gc_ControllerName gc = controllerName) in
  let conditions := mergeConditions (gc_Conditions gc)
    [condition now TypeAccepted (boolToConditionStatus accepted)
       (conditionReason accepted ReasonAccepted ReasonUnsupported)
       (gatewayClassAcceptedMessage gc accepted) generation] in
  if accepted then
    mergeConditions conditions
      [condition now TypeSupportedVersion ConditionTrue ReasonSupportedVersion
         "Gateway API versions used by this controller are supported." generation]
  else conditions.

Lemma reconcileGatewayClass_unfold now c key gc :
  gatewayClasses_Get c key = Ok gc →
  reconcileGatewayClass now c key =
  if negb (shouldManageGatewayClass (Some gc)) then Ret (Ok tt)
  else if conditionsEqual (gc_Conditions gc) (merged_class_conditions now gc) then Ret (Ok tt)
  else perform (GatewayClassUpdateStatus (with_class_conditions gc (merged_class_conditions now gc))).
Proof. intros Hg. unfold reconcileGatewayClass. by rewrite Hg. Qed.

Lemma merge_one_elem now cs t st r m g d :
  NoDup (types cs) →
  d ∈ untimed <$> mergeConditions cs [condition now t st r m g] ↔
  d = condition 0 t st r m g ∨ (d ∈ untimed <$> cs ∧ c_Type d ≠ t).
Proof.
  intros Hnd. rewrite mergeConditions_elem by (done || apply NoDup_singleton).
  rewrite !list_fmap_singleton, !list_elem_of_singleton. done.
Qed.

Lemma merged_class_conditions_spec now gc :
  NoDup (types (gc_Conditions gc)) →
  let desired := class_conditions gc (bool_decide (class_is_ours gc)) in
  NoDup (types (merged_class_conditions now gc)) ∧
  sorted_by type_less (merged_class_conditions now gc) ∧
  ∀ d, d ∈ untimed <$> merged_class_conditions now gc ↔
    d ∈ desired ∨ (d ∈ untimed <$> gc_Conditions gc ∧ c_Type d ∉ types desired).
Proof.
  intros Hnd. unfold merged_class_conditions. rewrite <-bool_decide_and.
  rewrite (bool_decide_ext _ (class_is_ours gc)) by done.
  assert (Hnd1 : ∀ d, NoDup (types (mergeConditions (gc_Conditions gc) d)))
    by (intros; by apply mergeConditions_NoDup).
  cbv zeta. destruct (bool_decide (class_is_ours gc));
    cbn [boolToConditionStatus conditionReason class_conditions];
    (split_and!; [by try apply mergeConditions_NoDup|apply mergeConditions_sorted|]); intros d;
    rewrite !merge_one_elem by done; unfold class_conditions; csimpl; rewrite !list.elem_of_cons, !elem_of_nil; [|tauto].
  destruct (decide (c_Type d = TypeSupportedVersion)) as [E|E]; [|tauto].
  split; [tauto|]. intros [[->|[->|[]]]|[_ Hn]]; [by right; split; [left|]|by left|tauto].
Qed.

(** The class reconciler writes at most the status
    of the class it read, and only if the class has this controller's name or
    names this controller; the written conditions are the desired ones -
    accepted exactly when both hold - and the existing ones of other types. *)
Theorem reconcileGatewayClass_spec now c key gc :
  gatewayClasses_Get c key = Ok gc → NoDup (types (gc_Conditions gc)) →
  let desired := class_conditions gc (bool_decide (class_is_ours gc)) in
  only_requests (λ r, ∃ cs,
      r = GatewayClassUpdateStatus (with_class_conditions gc cs) ∧
      (Name (gc_meta gc) = gatewaymeta_GatewayClassName ∨ gc_ControllerName gc = controllerName) ∧
      ∀ d, d ∈ untimed <$> cs ↔ d ∈ desired ∨ (d ∈ untimed <$> gc_Conditions gc ∧ c_Type d ∉ types desired))
    (reconcileGatewayClass now c key).
Proof.
  intros Hg Hnd desired. rewrite (reconcileGatewayClass_unfold now c key gc) by done.
  destruct (shouldManageGatewayClass (Some gc)) eqn:Hm; cbn [negb]; [|constructor].
  destruct (conditionsEqual _ _); [constructor|].
  apply (only_requests_perform _ (GatewayClassUpdateStatus _)). exists (merged_class_conditions now gc).
  split_and!; [done| |by apply merged_class_conditions_spec].
  unfold shouldManageGatewayClass in Hm. by rewrite orb_true_iff, !bool_decide_eq_true in Hm.
Qed.

(** Once the written class status is in the
    cache, reconciling again, at any later time, makes no request. *)
Theorem reconcileGatewayClass_converges now now' c' key gc :
  NoDup (types (gc_Conditions gc)) →
  gatewayClasses_Get c' key = Ok (with_class_conditions gc (merged_class_conditions now gc)) →
  reconcileGatewayClass now' c' key = Ret (Ok tt).
Proof.
  intros Hnd Hg. rewrite (reconcileGatewayClass_unfold now' c' key _ Hg).
  destruct (negb _); [done|].
  destruct (merged_class_conditions_spec now gc Hnd) as (Hnd1 & Hs1 & He1).
  set (gc1 := with_class_conditions gc (merged_class_conditions now gc)) in *.
  destruct (merged_class_conditions_spec now' gc1 Hnd1) as (Hnd2 & Hs2 & He2).
  assert (conditionsEqual (gc_Conditions gc1) (merged_class_conditions now' gc1) = true) as ->; [|done].
  apply conditionsEqual_iff. unfold cond_equiv. apply (sorted_by_unique type_less).
  - intros x y. apply type_ties. by rewrite types_untimed.
  - by apply sorted_untimed.
  - by apply sorted_untimed.
  - apply list.NoDup_Permutation; [by apply NoDup_untimed|by apply NoDup_untimed|]. intros d.
    rewrite He2. change (gc_Conditions gc1) with (merged_class_conditions now gc).
    change (class_conditions gc1 (bool_decide (class_is_ours gc1)))
      with (class_conditions gc (bool_decide (class_is_ours gc))). rewrite He1.
    tauto.
Qed.

End reconcile.

(** ** Worked examples *)

Definition served_gateway : Gateway := with_finalizers (demo_gateway "a") [controllerFinalizer].
Definition served_caches : Caches := caches_of (route_store served_gateway demo_route).

Lemma demo_ours : class_accepted (Some demo_class).
Proof. by exists demo_class. Qed.

Lemma demo_listeners_ok : gateway_listeners_ok served_gateway.
Proof. apply gateway_listeners_ok_iff, (validate_valid_iff 0). vm_compute. reflexivity. Qed.

Lemma evaluateGateway_valid_iff_witness :
  ∃ l, l ∈ Listeners (gw_spec served_gateway) ∧ listener_served served_caches served_gateway [demo_route] l.
Proof.
  destruct (evaluateGateway_valid_iff 0 served_caches served_gateway (Some demo_class) [demo_route]
    (NoDup_singleton demo_route)) as (H & _ & _).
  apply H. vm_compute. reflexivity.
Defined.

Lemma evaluateGateway_statuses_witness :
  ∃ s, s ∈ ge_listeners (evaluateGateway 0 served_caches served_gateway (Some demo_class) [demo_route]) ∧
    ls_Name s = "tcp" ∧ ls_AttachedRoutes s = 1 ∧
    only_status TypeProgrammed ConditionFalse (ls_Conditions s).
Proof.
  assert (H := evaluateGateway_statuses 0 served_caches served_gateway (Some demo_class) [demo_route]
    (NoDup_singleton demo_route) demo_ours demo_listeners_ok eq_refl).
  apply list.Forall2_cons_inv_l in H as (s & ss & (Hn & Ha & Hp & _) & _ & ->).
  exists s. split; [by left|]. split; [exact Hn|]. split; [|exact Hp].
  rewrite Ha. vm_compute. reflexivity.
Defined.

Definition served_trace : list request :=
  trace ref_handle (reconcileGateway 7 served_caches "default/a") empty_server.

Lemma reconcileGateway_never_programmed_witness :
  only_requests (λ r, ∀ ns o, r = GatewayUpdateStatus ns o → not_programmed (gw_status o))
    (reconcileGateway 7 served_caches "default/a").
Proof.
  apply (reconcileGateway_never_programmed 7 served_caches "default/a" served_gateway).
  - vm_compute. reflexivity.
  - apply NoDup_nil_2.
Defined.

Lemma reconcileGateway_claims_guarded_witness :
  ∃ o, IPAddressCreate o ∈ served_trace ∧ Name (ip_meta o) = "10.96.0.1" ∧
    ip_ParentRef o = Some (gateway_ref served_gateway).
Proof.
  destruct (claimed_names_in served_trace "10.96.0.1") as (o & Hin & Hname).
  { apply (bool_decide_unpack _). vm_compute. exact I. }
  exists o. split; [exact Hin|]. split; [exact Hname|].
  destruct (reconcileGateway_claims_guarded ref_handle 7 served_caches "default/a" empty_server o Hin)
    as (gateway & cls & routes & Hg & _ & _ & _ & _ & _ & _ & Hp).
  rewrite Hp. assert (getGateway served_caches "default/a" = Ok served_gateway) as E
    by (vm_compute; reflexivity).
  rewrite E in Hg. by injection Hg as <-.
Defined.

Lemma published_vip_reserved_witness :
  ref_owner (exec ref_handle (reconcileGateway 7 served_caches "default/a") empty_server).2 !! "10.96.0.1"
  = Some (Some (gateway_ref served_gateway)).
Proof.
  destruct (published_in served_trace "10.96.0.1" []) as (ns & o & a & Hin & Ha & <-).
  { apply (bool_decide_unpack _). vm_compute. exact I. }
  apply (published_vip_reserved ref_handle ref_owner 7 served_caches "default/a" served_gateway
    empty_server ns o a); [vm_compute; reflexivity|vm_compute; reflexivity|exact Hin|exact Ha].
Defined.

Lemma gateway_status_converges_witness :
  let written := with_status served_gateway (evaluated_status 7 served_gateway
    (final_evaluation 7 served_caches served_gateway (Some demo_class) [demo_route] (Ok "10.96.0.1"))) in
  sa_Value <$> Addresses (gw_status written) = ["10.96.0.1"] ∧
  updateGatewayStatus 9 written
    (final_evaluation 9 served_caches written (Some demo_class) [demo_route] (Ok "10.96.0.1")) = Ret (Ok tt).
Proof.
  intros written. split; [vm_compute; reflexivity|].
  apply (gateway_status_converges 7 9 served_caches served_gateway (Some demo_class) [demo_route]
    (Ok "10.96.0.1")). apply NoDup_nil_2.
Defined.

Lemma reconcileGatewayClass_spec_witness :
  only_requests (λ r, ∃ cs, r = GatewayClassUpdateStatus (with_class_conditions demo_class cs) ∧
      ∀ d, d ∈ untimed <$> cs → d ∈ class_conditions demo_class true)
    (reconcileGatewayClass 3 served_caches gatewaymeta_GatewayClassName).
Proof.
  eapply only_requests_mono;
    [|apply (reconcileGatewayClass_spec 3 served_caches gatewaymeta_GatewayClassName demo_class);
      [vm_compute; reflexivity|apply NoDup_nil_2]].
  intros r (cs & Hr & _ & Hcs). exists cs. split; [exact Hr|]. intros d Hd.
  apply Hcs in Hd as [Hd|[Hd _]]; [|by apply elem_of_nil in Hd].
  rewrite bool_decide_true in Hd by (split; reflexivity). exact Hd.
Defined.

Definition class_caches' : Caches := caches_of
  (mkStore [with_class_conditions demo_class (merged_class_conditions 3 demo_class)] [] [] [] [] [] [] []).

Lemma reconcileGatewayClass_converges_witness :
  reconcileGatewayClass 8 class_caches' gatewaymeta_GatewayClassName = Ret (Ok tt).
Proof.
  apply (reconcileGatewayClass_converges 3 8 class_caches' gatewaymeta_GatewayClassName demo_class);
    [apply NoDup_nil_2|vm_compute; reflexivity].
Defined.
