(* ===== verification/GoHash.v ===== *)
(** * crypto/sha1, crypto/sha256 and encoding/hex

    The two digests of the Go standard library the program names objects with,
    on lists of bytes, and lowercase hexadecimal. *)

From Stdlib Require Import Ascii.
From S2P Require Import Prelude GoNet GoStrings.

(** [[]byte(s)]. *)
Fixpoint bytes_of (s : string) : list Z :=
  match s with EmptyString => [] | String c s' => code c :: bytes_of s' end.

(** ** 32-bit words *)

Definition w32 (z : Z) : Z := z mod 2 ^ 32.
Definition rotl (n : Z) (x : Z) : Z := w32 (Z.lor (Z.shiftl x n) (Z.shiftr x (32 - n))).
Definition rotr (n : Z) (x : Z) : Z := rotl (32 - n) x.
Definition not32 (x : Z) : Z := 2 ^ 32 - 1 - x.

Definition be32 (b0 b1 b2 b3 : Z) : Z := b0 * 2 ^ 24 + b1 * 2 ^ 16 + b2 * 2 ^ 8 + b3.
Definition bytes_be32 (x : Z) : list Z :=
  [x / 2 ^ 24 mod 256; x / 2 ^ 16 mod 256; x / 2 ^ 8 mod 256; x mod 256].

Fixpoint words_be (bs : list Z) : list Z :=
  match bs with
  | b0 :: b1 :: b2 :: b3 :: bs' => be32 b0 b1 b2 b3 :: words_be bs'
  | _ => []
  end.

(** ** Merkle-Damgard padding and blocks of sixteen words *)

Definition pad (msg : list Z) : list Z :=
  let n := Z.of_nat (length msg) in
  let zeros := (55 - n) mod 64 in
  msg ++ 128 :: replicate (Z.to_nat zeros) 0
    ++ bytes_be32 (n * 8 / 2 ^ 32) ++ bytes_be32 (w32 (n * 8)).

Fixpoint blocks (fuel : nat) (ws : list Z) : list (list Z) :=
  match fuel with
  | O => []
  | S fuel => match ws with [] => [] | _ => take 16 ws :: blocks fuel (drop 16 ws) end
  end.

Definition message_blocks (msg : list Z) : list (list Z) :=
  let ws := words_be (pad msg) in blocks (length ws) ws.

(** ** SHA-1 *)

(** The message schedule, most recent word first. *)
Fixpoint sha1_schedule (n : nat) (rev_ws : list Z) : list Z :=
  match n with
  | O => rev_ws
  | S n =>
      let w := rotl 1 (Z.lxor (Z.lxor (rev_ws !!! 2%nat) (rev_ws !!! 7%nat))
                         (Z.lxor (rev_ws !!! 13%nat) (rev_ws !!! 15%nat))) in
      sha1_schedule n (w :: rev_ws)
  end.

Definition sha1_f (t : nat) (b c d : Z) : Z :=
  if (t <? 20)%nat then Z.lor (Z.land b c) (Z.land (not32 b) d)
  else if (t <? 40)%nat then Z.lxor (Z.lxor b c) d
  else if (t <? 60)%nat then Z.lor (Z.lor (Z.land b c) (Z.land b d)) (Z.land c d)
  else Z.lxor (Z.lxor b c) d.

Definition sha1_k (t : nat) : Z :=
  if (t <? 20)%nat then 0x5A827999 else if (t <? 40)%nat then 0x6ED9EBA1
  else if (t <? 60)%nat then 0x8F1BBCDC else 0xCA62C1D6.

Definition sha1_round (st : Z * Z * Z * Z * Z) (tw : nat * Z) : Z * Z * Z * Z * Z :=
  let '(a, b, c, d, e) := st in
  let '(t, w) := tw in
  (w32 (rotl 5 a + sha1_f t b c d + e + sha1_k t + w), a, rotl 30 b, c, d).

Definition sha1_block (st : Z * Z * Z * Z * Z) (ws : list Z) : Z * Z * Z * Z * Z :=
  let schedule := rev (sha1_schedule 64 (rev ws)) in
  let '(a, b, c, d, e) := st in
  let '(a', b', c', d', e') := foldl sha1_round st (zip (seq 0 80) schedule) in
  (w32 (a + a'), w32 (b + b'), w32 (c + c'), w32 (d + d'), w32 (e + e')).

Definition sha1_Sum (msg : list Z) : list Z :=
  let '(a, b, c, d, e) := foldl sha1_block
    (0x67452301, 0xEFCDAB89, 0x98BADCFE, 0x10325476, 0xC3D2E1F0) (message_blocks msg) in
  [a; b; c; d; e] ≫= bytes_be32.

(** ** SHA-256 *)

(** FIPS 180: the round constants are the first 32 bits of the fractional parts
    of the cube roots of the first 64 primes, the initial state those of the
    square roots of the first 8. *)
Definition primes64 : list Z :=
  take 64 (filter (λ n, Forall (λ d, n mod d ≠ 0) (seqZ 2 (Z.sqrt n - 1))) (seqZ 2 310)).

(** The integer cube root, bit by bit. *)
Definition cube_root (n : Z) : Z :=
  foldl (λ r i, let r' := r + 2 ^ i in if bool_decide (r' * r' * r' ≤ n) then r' else r) 0
    (reverse (seqZ 0 36)).

Definition sha256_K : list Z := Eval vm_compute in (λ p, w32 (cube_root (p * 2 ^ 96))) <$> primes64.

Definition sha256_H : list Z := Eval vm_compute in (λ p, w32 (Z.sqrt (p * 2 ^ 64))) <$> take 8 primes64.

Fixpoint sha256_schedule (n : nat) (rev_ws : list Z) : list Z :=
  match n with
  | O => rev_ws
  | S n =>
      let w2 := rev_ws !!! 1%nat in
      let w15 := rev_ws !!! 14%nat in
      let s0 := Z.lxor (Z.lxor (rotr 7 w15) (rotr 18 w15)) (Z.shiftr w15 3) in
      let s1 := Z.lxor (Z.lxor (rotr 17 w2) (rotr 19 w2)) (Z.shiftr w2 10) in
      sha256_schedule n (w32 (rev_ws !!! 15%nat + s0 + rev_ws !!! 6%nat + s1) :: rev_ws)
  end.

Record sha256_state := mkSha256 {
  h_a : Z; h_b : Z; h_c : Z; h_d : Z; h_e : Z; h_f : Z; h_g : Z; h_h : Z }.

Definition sha256_round (st : sha256_state) (kw : Z * Z) : sha256_state :=
  let '(mkSha256 a b c d e f g h) := st in
  let s1 := Z.lxor (Z.lxor (rotr 6 e) (rotr 11 e)) (rotr 25 e) in
  let ch := Z.lxor (Z.land e f) (Z.land (not32 e) g) in
  let t1 := h + s1 + ch + kw.1 + kw.2 in
  let s0 := Z.lxor (Z.lxor (rotr 2 a) (rotr 13 a)) (rotr 22 a) in
  let maj := Z.lxor (Z.lxor (Z.land a b) (Z.land a c)) (Z.land b c) in
  mkSha256 (w32 (t1 + s0 + maj)) a b c (w32 (d + t1)) e f g.

Definition sha256_block (st : sha256_state) (ws : list Z) : sha256_state :=
  let schedule := rev (sha256_schedule 48 (rev ws)) in
  let r := foldl sha256_round st (zip sha256_K schedule) in
  mkSha256 (w32 (h_a st + h_a r)) (w32 (h_b st + h_b r)) (w32 (h_c st + h_c r)) (w32 (h_d st + h_d r))
    (w32 (h_e st + h_e r)) (w32 (h_f st + h_f r)) (w32 (h_g st + h_g r)) (w32 (h_h st + h_h r)).

Definition sha256_Sum (msg : list Z) : list Z :=
  let h i := sha256_H !!! i in
  let r := foldl sha256_block
    (mkSha256 (h 0) (h 1) (h 2) (h 3) (h 4) (h 5) (h 6) (h 7))%nat
    (message_blocks msg) in
  [h_a r; h_b r; h_c r; h_d r; h_e r; h_f r; h_g r; h_h r] ≫= bytes_be32.

(** ** [hex.EncodeToString] *)

Fixpoint hex_EncodeToString (bs : list Z) : string :=
  match bs with
  | [] => ""
  | b :: bs' => String (hex_digit (b / 16)) (String (hex_digit (b mod 16)) (hex_EncodeToString bs'))
  end.

(** ** Test vectors *)

Example sha1_abc :
  hex_EncodeToString (sha1_Sum (bytes_of "abc")) = "a9993e364706816aba3e25717850c26c9cd0d89d".
Proof. vm_compute. reflexivity. Qed.

Example sha1_empty :
  hex_EncodeToString (sha1_Sum []) = "da39a3ee5e6b4b0d3255bfef95601890afd80709".
Proof. vm_compute. reflexivity. Qed.

Example sha256_abc :
  hex_EncodeToString (sha256_Sum (bytes_of "abc"))
  = "ba7816bf8f01cfea414140de5dae2223b00361a396177a9cb410ff61f20015ad".
Proof. vm_compute. reflexivity. Qed.

Example sha256_two_blocks :
  hex_EncodeToString (sha256_Sum (bytes_of "abcdbcdecdefdefgefghfghighijhijkijkljklmklmnlmnomnopnopq"))
  = "248d6a61d20638b8e5c026930c3e6039a33ce45964ff2167f6ecedd419db06c1".
Proof. vm_compute. reflexivity. Qed.

(** ** Facts *)

Lemma length_hex bs : String.length (hex_EncodeToString bs) = (2 * length bs)%nat.
Proof. induction bs as [|b bs IH]; simpl; [done|]. rewrite IH. lia. Qed.

Lemma length_sha1 msg : length (sha1_Sum msg) = 20%nat.
Proof. unfold sha1_Sum. by destruct (foldl _ _ _) as [[[[]]]]. Qed.

Lemma length_sha256 msg : length (sha256_Sum msg) = 32%nat.
Proof. done. Qed.
