(* ===== verification/Slices.v ===== *)
(** * internal/controller/endpointselector_reconcile.go: EndpointSlices

    Which Gateway listeners an XEndpointSelector backs, the endpoints it
    selects, the slices it should have, and the reconciler that makes the API
    server agree. *)

From S2P Require Import Prelude GoNet GoStrings GoHash KubeTypes Api Indexers Status.
From S2P Require Import Listeners Selector Route.

Section slices.
Context `{API : !ApiMachinery} (now : Z).

(** ** Bindings *)

Record gatewayBinding := mkBinding {
  b_gateway : Gateway; b_listenerName : string; b_backendPort : Z }.

Definition binding_key (b : gatewayBinding) : string :=
  namespacedKey (meta_key (gw_meta (b_gateway b))) +:+ ":" +:+ b_listenerName b.

(** The loop over parent references; [port] is the backend's. *)
Fixpoint binding_loop (c : Caches) (route : TCPRoute) (port : Z) (parents : list ParentReference)
    : result (option gatewayBinding) :=
  match parents with
  | [] => Ok None
  | parentRef :: parents =>
      if negb (isGatewayParentRef parentRef) then binding_loop c route port parents
      else
        let gatewayNamespace := non_empty_or (Namespace (rt_meta route)) (pr_Namespace parentRef) in
        match gateways_Get c gatewayNamespace (pr_Name parentRef) with
        | Err err => if IsNotFound err then binding_loop c route port parents else Err err
        | Ok gateway =>
            if decide (GatewayClassName (gw_spec gateway) ≠ gatewaymeta_GatewayClassName)
            then binding_loop c route port parents
            else
              let! gatewayClass := getGatewayClass c in
              let! attachedRoutes := listRoutesForGateway c (meta_key (gw_meta gateway)) in
              let evaluation := evaluateRoute now c route parentRef gateway gatewayClass attachedRoutes in
              if bool_decide (re_acceptedStatus evaluation ≠ ConditionTrue)
                 || bool_decide (re_resolvedStatus evaluation ≠ ConditionTrue)
              then binding_loop c route port parents
              else
                match resolveGatewayListener now gateway parentRef with
                | Err _ => binding_loop c route port parents
                | Ok listener => Ok (Some (mkBinding gateway (l_Name listener) (int32 port)))
                end
        end
  end.

Definition gatewayBindingForRoute (c : Caches) (selector : XEndpointSelector) (route : TCPRoute)
    : result (option gatewayBinding) :=
  match Rules route with
  | [rule] =>
      match BackendRefs rule with
      | [backend] =>
          if negb (isEndpointSelectorBackendRef (Namespace (rt_meta route)) backend) then Ok None
          else
            let backendNamespace := non_empty_or (Namespace (rt_meta route)) (br_Namespace backend) in
            if bool_decide (backendNamespace ≠ Namespace (xs_meta selector))
               || bool_decide (br_Name backend ≠ Name (xs_meta selector))
            then Ok None
            else match br_Port backend with
                 | None => Ok None
                 | Some port => binding_loop c route port (ParentRefs route)
                 end
      | _ => Ok None
      end
  | _ => Ok None
  end.

(** The loop over the referring routes, with the keys seen so far. *)
Fixpoint collect_bindings (c : Caches) (selector : XEndpointSelector) (items : list TCPRoute)
    (seen : gset string) (bindings : list gatewayBinding) : result (list gatewayBinding) :=
  match items with
  | [] => Ok bindings
  | route :: items =>
      let! used := gatewayBindingForRoute c selector route in
      match used with
      | None => collect_bindings c selector items seen bindings
      | Some binding =>
          let key := binding_key binding in
          if decide (key ∈ seen) then collect_bindings c selector items seen bindings
          else collect_bindings c selector items ({[key]} ∪ seen) (bindings ++ [binding])
      end
  end.

Definition listReferencedGatewayBindings (c : Caches) (selector : XEndpointSelector)
    : result (list gatewayBinding) :=
  let! items := route_ByBackendEndpointSelector c (namespacedKey (meta_key (xs_meta selector))) in
  let! bindings := collect_bindings c selector items ∅ [] in
  Ok (sort_Slice (λ x y, str_lt (binding_key x) (binding_key y)) bindings).

(** ** Endpoints *)

Fixpoint podReady_loop (conditions : list PodCondition) : bool :=
  match conditions with
  | [] => false
  | condition :: conditions =>
      if decide (pc_Type condition = PodReady) then bool_decide (pc_Status condition = ConditionTrue)
      else podReady_loop conditions
  end.

Definition podReady (pod : Pod) : bool := podReady_loop (PodConditions pod).

(** [net.ParseIP(value).To4() != nil]. *)
Definition isIPv4String (value : string) : bool :=
  match ParseIP value with
  | Some ip => match To4 ip with Some _ => true | None => false end
  | None => false
  end.

Definition endpointForPod (pod : Pod) : option Endpoint :=
  let m := pod_meta pod in
  if bool_decide (Namespace m = "") || bool_decide (Name m = "") || bool_decide (DeletionTimestamp m ≠ None)
  then None
  else if negb (podReady pod) || negb (isIPv4String (PodIP pod)) then None
  else
    Some (mkEndpoint [PodIP pod] (Some true)
            (Some (mkObjectReference "v1" "Pod" (Namespace m) (Name m) (UID m)))
            (if decide (NodeName pod ≠ "") then Some (NodeName pod) else None)).

Definition first_address (e : Endpoint) : string := default "" (head (ep_Addresses e)).

Definition endpoint_less (x y : Endpoint) : bool :=
  let a := first_address x in
  let b := first_address y in
  match ep_TargetRef x, ep_TargetRef y with
  | Some rx, Some ry =>
      if decide (a = b) then str_lt (ref_Name rx) (ref_Name ry) else str_lt a b
  | _, _ => str_lt a b
  end.

Definition buildEndpointSliceEndpoints (c : Caches) (selector : XEndpointSelector)
    : result (list Endpoint) :=
  let! labelSelector := LabelSelectorAsSelector (xs_Selector selector) in
  let! pods := pods_List c (Namespace (xs_meta selector)) in
  Ok (sort_Slice endpoint_less
        (omap (λ pod, if negb (Selector_Matches labelSelector (Labels (pod_meta pod))) then None
                      else endpointForPod pod) pods)).

(** ** The desired slice *)

(** [name[:n]]. *)
Definition str_take (n : nat) (s : string) : string := String.substring 0 n s.

Definition endpointSliceName (gatewayName listenerName : string) : string :=
  let name := if decide (listenerName ≠ "") then gatewayName +:+ "-" +:+ listenerName else gatewayName in
  if decide (String.length name ≤ 63)%nat then name
  else
    let sum := sha1_Sum (bytes_of name) in
    let suffix := "-" +:+ hex_EncodeToString (take 4 sum) in
    let maxPrefixLen := (63 - String.length suffix)%nat in
    str_take maxPrefixLen name +:+ suffix.

Definition gateway_api_version : string := gatewayAPIGroup +:+ "/v1".

Definition desiredEndpointSlice (selector : XEndpointSelector) (gateway : Gateway)
    (listenerName : string) (port : Z) (endpoints : list Endpoint) : EndpointSlice :=
  mkEndpointSlice
    (mkMeta (Namespace (gw_meta gateway)) (endpointSliceName (Name (gw_meta gateway)) listenerName)
       "" 0 None
       (list_to_map
          [(LabelManagedBy, ManagedByValue);
           (EndpointSelectorNamespaceLabelKey, Namespace (xs_meta selector));
           (EndpointSelectorNameLabelKey, Name (xs_meta selector));
           (GatewayNamespaceLabelKey, Namespace (gw_meta gateway));
           (GatewayNameLabelKey, Name (gw_meta gateway));
           (GatewayListenerLabelKey, listenerName)])
       [] [NewControllerRef (gw_meta gateway) gateway_api_version "Gateway"])
    AddressTypeIPv4
    [mkEndpointPort (Some ProtocolTCP) (Some port)]
    endpoints.

Definition endpointSliceEqual (a b : EndpointSlice) : bool :=
  DeepEqual_Labels (Labels (es_meta a)) (Labels (es_meta b))
  && DeepEqual_OwnerReferences (OwnerReferences (es_meta a)) (OwnerReferences (es_meta b))
  && bool_decide (es_AddressType a = es_AddressType b)
  && DeepEqual_Ports (es_Ports a) (es_Ports b)
  && DeepEqual_Endpoints (es_Endpoints a) (es_Endpoints b).

(** ** The reconciler *)

Definition listManagedEndpointSlices (c : Caches) (key : NamespacedName) : result (list EndpointSlice) :=
  endpointSlice_ByEndpointSelector c (namespacedKey key).

Fixpoint delete_slices (existing : list EndpointSlice) : prog (result unit) :=
  match existing with
  | [] => Ret (Ok tt)
  | es :: existing =>
      Call (EndpointSliceDelete (Namespace (es_meta es)) (Name (es_meta es))) (λ r : result unit,
        match r with
        | Err err => if IsNotFound err then delete_slices existing else Ret (Err err)
        | Ok _ => delete_slices existing
        end)
  end.

Definition deleteManagedEndpointSlices (c : Caches) (key : NamespacedName) : prog (result unit) :=
  get! existing := listManagedEndpointSlices c key in
  delete_slices existing.

(** The existing object with the desired labels, owners, type, ports and endpoints. *)
Definition updated_slice (es desired : EndpointSlice) : EndpointSlice :=
  let m := es_meta es in
  mkEndpointSlice
    (mkMeta (Namespace m) (Name m) (UID m) (Generation m) (DeletionTimestamp m)
       (Labels (es_meta desired)) (Finalizers m) (OwnerReferences (es_meta desired)))
    (es_AddressType desired) (es_Ports desired) (es_Endpoints desired).

(** The loop over the existing slices; the result is what [desired] still holds. *)
Fixpoint sync_existing (existing : list EndpointSlice) (desired : gmap string EndpointSlice)
    : prog (result (gmap string EndpointSlice)) :=
  match existing with
  | [] => Ret (Ok desired)
  | es :: existing =>
      match desired !! Name (es_meta es) with
      | None =>
          Call (EndpointSliceDelete (Namespace (es_meta es)) (Name (es_meta es))) (λ r : result unit,
            match r with
            | Err err => if IsNotFound err then sync_existing existing desired else Ret (Err err)
            | Ok _ => sync_existing existing desired
            end)
      | Some desiredSlice =>
          if endpointSliceEqual es desiredSlice
          then sync_existing existing (delete (Name (es_meta es)) desired)
          else
            let updated := updated_slice es desiredSlice in
            Call (EndpointSliceUpdate (Namespace (es_meta updated)) updated) (λ r : result unit,
              match r with
              | Err err => Ret (Err err)
              | Ok _ => sync_existing existing (delete (Name (es_meta es)) desired)
              end)
      end
  end.

Fixpoint create_slices (slices : list EndpointSlice) : prog (result unit) :=
  match slices with
  | [] => Ret (Ok tt)
  | es :: slices =>
      do! _ := perform (EndpointSliceCreate (Namespace (es_meta es)) es) in
      create_slices slices
  end.

Definition desired_slices (selector : XEndpointSelector) (bindings : list gatewayBinding)
    (endpoints : list Endpoint) : gmap string EndpointSlice :=
  foldl (λ desired binding,
      let slice := desiredEndpointSlice selector (b_gateway binding) (b_listenerName binding)
                     (b_backendPort binding) endpoints in
      <[Name (es_meta slice) := slice]> desired) ∅ bindings.

(** [range] is the order in which Go happens to iterate over the map. *)
Definition reconcileEndpointSelector (range : gmap string EndpointSlice → list EndpointSlice)
    (c : Caches) (key : string) : prog (result unit) :=
  get! namespacedName := splitNamespacedKey key in
  match getEndpointSelector c namespacedName with
  | Err err =>
      if IsNotFound err then deleteManagedEndpointSlices c namespacedName else Ret (Err err)
  | Ok selector =>
      let '(acceptedStatus, acceptedReason, acceptedMessage) := evaluateEndpointSelector selector in
      do! _ := updateEndpointSelectorStatus now selector acceptedStatus acceptedReason acceptedMessage in
      if decide (acceptedStatus ≠ ConditionTrue) then deleteManagedEndpointSlices c namespacedName
      else
        get! bindings := listReferencedGatewayBindings c selector in
        if decide (length bindings = 0%nat) then deleteManagedEndpointSlices c namespacedName
        else
          get! endpoints := buildEndpointSliceEndpoints c selector in
          let desired := desired_slices selector bindings endpoints in
          get! existing := listManagedEndpointSlices c namespacedName in
          do! desired := sync_existing existing desired in
          create_slices (range desired)
  end.

End slices.
