(* ===== verification/SliceSpec.v ===== *)
(** * EndpointSlices: properties

    Slice names, the endpoints of a selector, and the refinement of the slice
    reconciler to its goal: after a successful run the server holds exactly the
    desired slices among the managed ones. *)

From S2P Require Import Prelude GoNet GoStrings GoHash KubeTypes Api Indexers Status Reference Ipam IpamSpec.
From S2P Require Import Listeners Selector Route RouteSpec Slices.

(** ** Names *)

Lemma length_str_take n s : (n ≤ String.length s)%nat → String.length (str_take n s) = n.
Proof.
  unfold str_take. revert n. induction s as [|c s IH]; intros [|n] Hn; simpl in *; try done; [lia|].
  rewrite IH; lia.
Qed.

Lemma name_suffix_length name :
  String.length ("-" +:+ hex_EncodeToString (take 4 (sha1_Sum (bytes_of name)))) = 9%nat.
Proof.
  rewrite string_length_app, length_hex, length_take, length_sha1. done.
Qed.

(** A slice name is never longer than a label may
    be (63 bytes), and a short enough gateway-listener name is used as it is. *)
Theorem endpointSliceName_bounded gatewayName listenerName :
  let name := if decide (listenerName ≠ "") then gatewayName +:+ "-" +:+ listenerName else gatewayName in
  (String.length (endpointSliceName gatewayName listenerName) ≤ 63)%nat ∧
  ((String.length name ≤ 63)%nat → endpointSliceName gatewayName listenerName = name) ∧
  ((63 < String.length name)%nat → String.length (endpointSliceName gatewayName listenerName) = 63%nat).
Proof.
  intros name. unfold endpointSliceName. fold name.
  destruct (decide (String.length name ≤ 63)%nat) as [Hle|Hgt]; [split_and!; [done..|lia]|].
  rewrite name_suffix_length, string_length_app, name_suffix_length, length_str_take by lia.
  split_and!; [lia|done|done].
Qed.

(** C40. The gateway and listener names are joined by
    a character that may occur in both, so two listeners of two Gateways in one
    namespace can be given the same slice: the selector's desired slices then
    have fewer entries than it has bindings. *)
Theorem endpointSliceName_collides `{!ApiMachinery} g1 g2 selector endpoints p1 p2 :
  Namespace (gw_meta g1) = Namespace (gw_meta g2) →
  Name (gw_meta g1) = "a-b" → Name (gw_meta g2) = "a" →
  binding_key (mkBinding g1 "c" p1) ≠ binding_key (mkBinding g2 "b-c" p2) ∧
  size (desired_slices selector [mkBinding g1 "c" p1; mkBinding g2 "b-c" p2] endpoints) = 1%nat.
Proof.
  intros Hns H1 H2. split.
  - unfold binding_key, namespacedKey, meta_key. simpl. rewrite H1, H2, Hns.
    rewrite !string_app_assoc. by intros ?%(inj (String.append _)).
  - unfold desired_slices. simpl. rewrite H1, H2.
    change (endpointSliceName "a-b" "c") with "a-b-c". change (endpointSliceName "a" "b-c") with "a-b-c".
    rewrite insert_insert_eq. by rewrite map_size_insert_None.
Qed.

(** ** Endpoints *)

Definition target_name (e : Endpoint) : string := from_option ref_Name "" (ep_TargetRef e).

(** The order on endpoints that have a target: by address, then by pod name. *)
Definition endpoint_before (x y : Endpoint) : bool :=
  if decide (first_address x = first_address y) then str_lt (target_name x) (target_name y)
  else str_lt (first_address x) (first_address y).

#[export] Instance endpoint_before_sw : StrictWeak endpoint_before.
Proof.
  split; unfold endpoint_before; intros *; [repeat case_decide; try congruence; apply str_lt_asym|].
  generalize (first_address x), (first_address y), (first_address z). intros ax ay az.
  repeat case_decide; subst; try done; intros Hyx Hzy; try by eapply str_lt_ntrans.
  all: exfalso; naive_solver eauto using str_lt_antisym.
Qed.

(** A pod that serves: named, not being deleted, its Ready condition true, with
    an IPv4 address. *)
Definition pod_serves (pod : Pod) : Prop :=
  Namespace (pod_meta pod) ≠ "" ∧ Name (pod_meta pod) ≠ "" ∧ DeletionTimestamp (pod_meta pod) = None ∧
  (∃ pc, head (filter (λ pc, pc_Type pc = PodReady) (PodConditions pod)) = Some pc ∧
         pc_Status pc = ConditionTrue) ∧
  is_Some (ParseIPv4 (PodIP pod)).

Definition pod_endpoint (pod : Pod) : Endpoint :=
  let m := pod_meta pod in
  mkEndpoint [PodIP pod] (Some true)
    (Some (mkObjectReference "v1" "Pod" (Namespace m) (Name m) (UID m)))
    (if decide (NodeName pod = "") then None else Some (NodeName pod)).

Lemma podReady_iff pod :
  podReady pod = true ↔
  ∃ pc, head (filter (λ pc, pc_Type pc = PodReady) (PodConditions pod)) = Some pc ∧
        pc_Status pc = ConditionTrue.
Proof.
  unfold podReady. induction (PodConditions pod) as [|pc pcs IH]; simpl; [naive_solver|].
  rewrite filter_cons. case_decide; simpl; [|exact IH].
  rewrite bool_decide_eq_true. naive_solver.
Qed.

Lemma isIPv4String_iff s : isIPv4String s = true ↔ is_Some (ParseIPv4 s).
Proof.
  unfold isIPv4String, ParseIPv4. destruct (ParseIP s) as [ip|]; simpl; [|by rewrite is_Some_alt].
  destruct (To4 ip); rewrite is_Some_alt; done.
Qed.

Lemma endpointForPod_iff pod e : endpointForPod pod = Some e ↔ pod_serves pod ∧ e = pod_endpoint pod.
Proof.
  unfold endpointForPod, pod_serves. rewrite <-podReady_iff, <-isIPv4String_iff.
  destruct (_ || _ || _) eqn:E.
  { split; [done|]. intros [(H1 & H2 & H3 & _) _].
    rewrite !bool_decide_false in E by auto. done. }
  rewrite !orb_false_iff, !bool_decide_eq_false in E. destruct E as [[E1 E2] E3%dec_stable].
  destruct (podReady pod), (isIPv4String (PodIP pod)); simpl;
    (split; [|intros [(_ & _ & _ & ? & ?) ->]]; try done).
  - intros [= <-]. split; [done|]. unfold pod_endpoint. f_equal. by repeat case_decide.
  - f_equal. unfold pod_endpoint. f_equal. by repeat case_decide.
Qed.

Section endpoints.
Context `{API : !ApiMachinery}.

Lemma build_elements c selector es :
  buildEndpointSliceEndpoints c selector = Ok es →
  ∃ sel pods, LabelSelectorAsSelector (xs_Selector selector) = Ok sel ∧
    pods_List c (Namespace (xs_meta selector)) = Ok pods ∧
    es = less_sort endpoint_before
      (pod_endpoint <$> filter (λ pod, Selector_Matches sel (Labels (pod_meta pod)) = true ∧
                                       is_Some (endpointForPod pod)) pods).
Proof.
  unfold buildEndpointSliceEndpoints.
  intros (sel & Hsel & (pods & Hpods & [= <-])%result_bind_ok)%result_bind_ok.
  exists sel, pods. split_and!; [done..|]. unfold sort_Slice.
  match goal with |- less_sort _ ?l = _ => assert (l
    = pod_endpoint <$> filter (λ pod, Selector_Matches sel (Labels (pod_meta pod)) = true ∧
                                      is_Some (endpointForPod pod)) pods) as -> end.
  { clear Hpods. induction pods as [|pod pods IH]; [done|]. csimpl. rewrite filter_cons, IH.
    case_decide as D.
    - destruct D as [-> [e E]]. pose proof E as [_ ->]%endpointForPod_iff. simpl. by rewrite E.
    - destruct (Selector_Matches sel _); [|done]. simpl.
      destruct (endpointForPod pod) as [e|]; [|done]. exfalso. eauto. }
  apply less_sort_ext. intros x y Hx Hy.
  apply list_elem_of_fmap in Hx as (px & -> & _), Hy as (py & -> & _).
  unfold endpoint_less, endpoint_before. simpl. by case_decide.
Qed.

Lemma build_spec c selector es :
  buildEndpointSliceEndpoints c selector = Ok es →
  ∃ sel pods, LabelSelectorAsSelector (xs_Selector selector) = Ok sel ∧
    pods_List c (Namespace (xs_meta selector)) = Ok pods ∧
    (∀ e, e ∈ es ↔ ∃ pod, pod ∈ pods ∧ Selector_Matches sel (Labels (pod_meta pod)) = true ∧
                          pod_serves pod ∧ e = pod_endpoint pod) ∧
    sorted_by endpoint_before es.
Proof.
  intros (sel & pods & Hsel & Hpods & ->)%build_elements. exists sel, pods. split_and!; [done..| |].
  - intros e. rewrite elem_of_less_sort, list_elem_of_fmap.
    setoid_rewrite list_elem_of_filter. split.
    + intros (pod & -> & (Hm & [e0 He]) & Hin). apply endpointForPod_iff in He as [Hs _]. eauto 6.
    + intros (pod & Hin & Hm & Hs & ->). exists pod. split; [done|]. split; [|done]. split; [done|].
      eexists. by apply endpointForPod_iff.
  - apply less_sort_sorted. apply _.
Qed.

(** C32. The endpoints of a selector are exactly
    those of the serving pods of its namespace that its labels match, ready,
    ordered by address. *)
Theorem buildEndpointSliceEndpoints_spec c selector es :
  buildEndpointSliceEndpoints c selector = Ok es →
  ∃ sel pods, LabelSelectorAsSelector (xs_Selector selector) = Ok sel ∧
    pods_List c (Namespace (xs_meta selector)) = Ok pods ∧
    (∀ e, e ∈ es ↔ ∃ pod, pod ∈ pods ∧ Selector_Matches sel (Labels (pod_meta pod)) = true ∧
                          pod_serves pod ∧ e = pod_endpoint pod) ∧
    sorted_by endpoint_before es.
Proof. apply build_spec. Qed.

(** The result does not depend on the order
    in which the pod lister happens to return the pods, so that an unchanged set
    of pods never looks like a changed slice. *)
Theorem buildEndpointSliceEndpoints_order c c' selector pods pods' :
  pods_List c (Namespace (xs_meta selector)) = Ok pods →
  pods_List c' (Namespace (xs_meta selector)) = Ok pods' →
  pods ≡ₚ pods' → NoDup ((λ pod, Name (pod_meta pod)) <$> pods) →
  buildEndpointSliceEndpoints c selector = buildEndpointSliceEndpoints c' selector.
Proof.
  intros Hp Hp' Hperm Hnd.
  destruct (buildEndpointSliceEndpoints c selector) as [es|e] eqn:E;
    destruct (buildEndpointSliceEndpoints c' selector) as [es'|e'] eqn:E';
    try (unfold buildEndpointSliceEndpoints in E, E'; destruct (LabelSelectorAsSelector _);
         simpl in E, E'; [rewrite Hp in E; rewrite Hp' in E'; done|congruence]).
  apply build_elements in E as (sel & ps & Hsel & Hps & ->), E' as (sel' & ps' & Hsel' & Hps' & ->).
  assert (sel' = sel) as -> by congruence. rewrite Hp in Hps. rewrite Hp' in Hps'.
  injection Hps as <-. injection Hps' as <-. f_equal. apply less_sort_unique; [apply _| |by rewrite Hperm].
  intros x y Hx Hy. apply list_elem_of_fmap in Hx as (px & -> & Hx), Hy as (py & -> & Hy).
  apply list_elem_of_filter in Hx as [_ Hx], Hy as [_ Hy].
  intros H1 H2. f_equal. unfold endpoint_before in H1, H2. simpl in H1, H2.
  unfold first_address, target_name in H1, H2. simpl in H1, H2.
  assert (Name (pod_meta px) = Name (pod_meta py)) as Hname.
  { repeat case_decide; try congruence; [by apply str_lt_antisym|]. by apply str_lt_antisym in H1. }
  apply list_elem_of_lookup in Hx as [i Hi], Hy as [j Hj].
  assert (i = j) as ->; [|congruence].
  eapply (list.NoDup_lookup _ _ _ (Name (pod_meta px)) Hnd); rewrite list_lookup_fmap, ?Hi, ?Hj; simpl; congruence.
Qed.

End endpoints.

(** ** The desired slices *)

Definition binding_slice `{!ApiMachinery} (selector : XEndpointSelector) (endpoints : list Endpoint)
    (b : gatewayBinding) : EndpointSlice :=
  desiredEndpointSlice selector (b_gateway b) (b_listenerName b) (b_backendPort b) endpoints.

Definition binding_name (b : gatewayBinding) : string :=
  endpointSliceName (Name (gw_meta (b_gateway b))) (b_listenerName b).

Section desired.
Context `{API : !ApiMachinery}.

Lemma desired_slices_snoc selector bindings b endpoints :
  desired_slices selector (bindings ++ [b]) endpoints
  = <[binding_name b := binding_slice selector endpoints b]> (desired_slices selector bindings endpoints).
Proof. unfold desired_slices. by rewrite foldl_app. Qed.

Lemma desired_slices_elem selector bindings endpoints n d :
  desired_slices selector bindings endpoints !! n = Some d →
  ∃ b, b ∈ bindings ∧ d = binding_slice selector endpoints b ∧ n = binding_name b.
Proof.
  induction bindings as [|b bindings IH] using rev_ind; [done|].
  rewrite desired_slices_snoc, lookup_insert. case_decide as E.
  - intros [= <-]. exists b. set_solver.
  - intros (b' & ? & ?)%IH. exists b'. set_solver.
Qed.

Lemma desired_slices_lookup selector bindings endpoints b :
  NoDup (binding_name <$> bindings) → b ∈ bindings →
  desired_slices selector bindings endpoints !! binding_name b = Some (binding_slice selector endpoints b).
Proof.
  induction bindings as [|b' bindings IH] using rev_ind; [set_solver|].
  rewrite fmap_app, list.NoDup_app, desired_slices_snoc. intros (Hnd & Hdis & _) Hb.
  apply list.elem_of_app in Hb as [Hb|Hb%list_elem_of_singleton].
  - rewrite lookup_insert_ne; [by apply IH|]. intros E. apply (Hdis (binding_name b)).
    + by apply list_elem_of_fmap_2.
    + rewrite <-E. by left.
  - subst. apply lookup_insert_eq.
Qed.

End desired.

(** ** The reconciler *)

Lemma content_eq `{!ApiMachinery} `{!ApiMachineryLaws} a b :
  endpointSliceEqual a b = true ↔ content a = content b.
Proof.
  unfold endpointSliceEqual, content.
  rewrite !andb_true_iff, DeepEqual_Labels_spec, DeepEqual_OwnerReferences_spec, bool_decide_eq_true,
    DeepEqual_Ports_spec, DeepEqual_Endpoints_spec.
  split; [by intros [[[[-> ->] ->] ->] ->]|by intros [= -> -> -> -> ->]].
Qed.

Abbreviation slice_names := (fmap (M:=list) (λ es : EndpointSlice, Name (es_meta es))).

Section refine.
Context `{API : !ApiMachinery, Laws : !ApiMachineryLaws}.
Context {S : Type} (handle : ∀ r : request, S → response r * S)
  (slices : S → gmap NamespacedName slice_content) `{!EndpointSliceServer handle slices}.

(** The cached slices are the server's, all in one namespace. *)
Definition cache_current (ns : string) (existing : list EndpointSlice) (s : S) : Prop :=
  NoDup (slice_names existing) ∧
  ∀ es, es ∈ existing → Namespace (es_meta es) = ns ∧ slices s !! slice_key ns es = Some (content es).

Lemma cache_current_rest ns es existing s s1 :
  cache_current ns (es :: existing) s → (∀ k, k ≠ slice_key ns es → slices s1 !! k = slices s !! k) →
  cache_current ns existing s1.
Proof.
  intros [Hnd Hcur] Hs1. rewrite list.fmap_cons, list.NoDup_cons in Hnd. destruct Hnd as [Hes Hnd].
  split; [done|]. intros es' Hes'. destruct (Hcur es') as [? Hc]; [by right|].
  split; [done|]. rewrite Hs1; [done|]. unfold slice_key. intros [= E]. apply Hes. rewrite <-E.
  by apply (list_elem_of_fmap_2 (λ es, Name (es_meta es))).
Qed.

(** What the loop over the existing slices leaves, of the map and on the server. *)
Definition synced (ns : string) (existing : list EndpointSlice) (desired : gmap string EndpointSlice) (s : S)
    (rest : gmap string EndpointSlice) (s' : S) : Prop :=
  (∀ n, rest !! n = if decide (n ∈ slice_names existing) then None else desired !! n) ∧
  (∀ k, slices s' !! k = if decide (nn_Namespace k = ns ∧ nn_Name k ∈ slice_names existing)
                         then content <$> desired !! nn_Name k else slices s !! k).

(** The first slice has been brought to what is desired of its name. *)
Lemma synced_cons ns es existing desired s s1 rest s' :
  Name (es_meta es) ∉ slice_names existing →
  (∀ k, slices s1 !! k = if decide (k = slice_key ns es) then content <$> desired !! Name (es_meta es)
                         else slices s !! k) →
  synced ns existing (delete (Name (es_meta es)) desired) s1 rest s' →
  synced ns (es :: existing) desired s rest s'.
Proof.
  intros Hes Hs1 [H1 H2]. unfold synced. rewrite list.fmap_cons.
  split; [intros n; rewrite H1|intros k; rewrite H2, Hs1].
  - destruct (decide (n = Name (es_meta es))) as [->|Hne].
    + rewrite lookup_delete_eq. repeat case_decide; set_solver.
    + rewrite lookup_delete_ne by done. repeat case_decide; set_solver.
  - destruct (decide (k = slice_key ns es)) as [->|Hne]; simpl.
    + rewrite !(decide_False (P := _ ∧ _)) by (by intros []).
      by rewrite decide_True by (split; [done|by left]).
    + destruct k as [kns kn]. simpl. unfold slice_key in Hne.
      destruct (decide (kns = ns ∧ kn ∈ slice_names existing)) as [[-> Hin]|Hout].
      * rewrite decide_True by (split; [done|by right]). rewrite lookup_delete_ne; [done|]. intros <-. done.
      * rewrite decide_False; [done|]. intros [-> [->|?]%list.elem_of_cons]; [done|]. by apply Hout.
Qed.

(** The server after the loop over the existing slices. *)
Lemma sync_existing_exec ns existing desired s rest s' :
  cache_current ns existing s →
  exec handle (sync_existing existing desired) s = (Ok rest, s') → synced ns existing desired s rest s'.
Proof.
  revert desired s. induction existing as [|es existing IH]; intros desired s Hcc.
  { simpl. intros [= <- <-]. split; intros k; [done|]. rewrite decide_False; [done|]. by intros [_ ?%elem_of_nil]. }
  pose proof Hcc as [Hnd Hcur]. rewrite list.fmap_cons, list.NoDup_cons in Hnd. destruct Hnd as [Hes _].
  destruct (Hcur es) as [Hns Hcontent]; [by left|].
  assert (Hstep : ∀ s1 desired1,
    (∀ k, slices s1 !! k = if decide (k = slice_key ns es) then content <$> desired !! Name (es_meta es)
                           else slices s !! k) →
    desired1 = delete (Name (es_meta es)) desired →
    exec handle (sync_existing existing desired1) s1 = (Ok rest, s') → synced ns (es :: existing) desired s rest s').
  { intros s1 desired1 Hs1 -> Hexec. eapply synced_cons; [done|exact Hs1|]. apply IH; [|done].
    eapply cache_current_rest; [exact Hcc|]. intros k Hk. by rewrite Hs1, decide_False. }
  simpl. rewrite Hns. destruct (desired !! Name (es_meta es)) as [d|] eqn:Hd.
  - destruct (endpointSliceEqual es d) eqn:Heq.
    + apply Hstep; [|done]. intros k. case_decide as E; [|done]. subst.
      apply content_eq in Heq. by rewrite Hcontent, Heq.
    + simpl. destruct (handle (EndpointSliceUpdate _ _) s) as [[[]|e] s1] eqn:Hu; [|done].
      apply ess_update_ok in Hu. apply Hstep; [|done]. intros k. rewrite Hu.
      unfold slice_key. simpl. rewrite lookup_insert. by repeat case_decide.
  - assert (Hdel : ∀ s1, slices s1 = delete (slice_key ns es) (slices s) → ∀ k,
      slices s1 !! k = if decide (k = slice_key ns es) then content <$> None else slices s !! k).
    { intros s1 -> k. rewrite lookup_delete. by repeat case_decide. }
    simpl. destruct (handle (EndpointSliceDelete _ _) s) as [[[]|e] s1] eqn:Hdl.
    + apply ess_delete_ok in Hdl. apply Hstep; [by apply Hdel|by rewrite delete_id].
    + destruct (IsNotFound e) eqn:He; [|done]. apply ess_delete_notfound in Hdl as [Hs1 Hnone]; [|done].
      apply Hstep; [|by rewrite delete_id]. apply Hdel. by rewrite Hs1, delete_id.
Qed.

Lemma create_slices_exec ns ds s s' :
  (∀ d, d ∈ ds → Namespace (es_meta d) = ns) → NoDup (slice_names ds) →
  exec handle (create_slices ds) s = (Ok tt, s') →
  (∀ d, d ∈ ds → slices s' !! slice_key ns d = Some (content d)) ∧
  (∀ k, (nn_Namespace k = ns → nn_Name k ∉ slice_names ds) → slices s' !! k = slices s !! k).
Proof.
  revert s. induction ds as [|d ds IH]; intros s Hns Hnd; simpl; [intros [= <-]; set_solver|].
  rewrite list.fmap_cons, list.NoDup_cons in Hnd. destruct Hnd as [Hd Hnd].
  rewrite (Hns d) by (by left).
  destruct (handle (EndpointSliceCreate _ _) s) as [[[]|e] s1] eqn:Hc; simpl; [|done].
  apply ess_create_ok in Hc as [_ Hs1]. intros Hexec.
  destruct (IH s1) as [H1 H2]; [set_solver|done|done|]. split.
  - intros d' [->|Hin]%list.elem_of_cons; [|by apply H1].
    rewrite H2 by done. rewrite Hs1. apply lookup_insert_eq.
  - intros k Hk. rewrite H2 by set_solver. rewrite Hs1, lookup_insert_ne; [done|].
    intros <-. apply (Hk eq_refl). by left.
Qed.

Lemma update_selector_exec now selector st r m s x s' :
  exec handle (updateEndpointSelectorStatus now selector st r m) s = (x, s') → slices s' = slices s.
Proof.
  unfold updateEndpointSelectorStatus. destruct (endpointSelectorStatusEqual _ _); simpl; [by intros [= _ <-]|].
  destruct (endpointSelectorToUnstructured _) as [u|e]; simpl; [|by intros [= _ <-]].
  destruct (handle (EndpointSelectorUpdateStatus _ _) s) as [y s1] eqn:E. intros [= _ <-].
  pose proof (ess_status (Namespace (xs_meta selector)) u s) as Hs. by rewrite E in Hs.
Qed.

Lemma map_to_list_range (m : gmap string EndpointSlice) l :
  l ≡ₚ (map_to_list m).*2 → ∀ d, d ∈ l ↔ ∃ n, m !! n = Some d.
Proof.
  intros Hl d. rewrite Hl, list_elem_of_fmap. split.
  - intros ([n d'] & -> & Hin%elem_of_map_to_list). eauto.
  - intros [n Hn]. exists (n, d). by rewrite elem_of_map_to_list.
Qed.

(** C12. When the bindings of an accepted, referenced
    selector are to Gateways of one namespace and have distinct slice names, and
    the cached slices of the selector are the server's, a successful
    reconciliation leaves the server with exactly the desired slices among those
    it manages: every binding's slice with its content, no other slice of the
    selector, and everything else as it was.  (Distinct bindings can be given one
    slice name: [endpointSliceName_collides].) *)
Theorem reconcileEndpointSelector_refines now range c key nn selector sel bindings endpoints existing ns s s' :
  (∀ m, range m ≡ₚ (map_to_list m).*2) →
  splitNamespacedKey key = Ok nn → getEndpointSelector c nn = Ok selector →
  LabelSelectorAsSelector (xs_Selector selector) = Ok sel →
  listReferencedGatewayBindings now c selector = Ok bindings → bindings ≠ [] →
  buildEndpointSliceEndpoints c selector = Ok endpoints →
  listManagedEndpointSlices c nn = Ok existing →
  (∀ b, b ∈ bindings → Namespace (gw_meta (b_gateway b)) = ns) → NoDup (binding_name <$> bindings) →
  cache_current ns existing s →
  exec handle (reconcileEndpointSelector now range c key) s = (Ok tt, s') →
  (∀ b, b ∈ bindings → slices s' !! mkNN ns (binding_name b) = Some (content (binding_slice selector endpoints b))) ∧
  (∀ es, es ∈ existing → Name (es_meta es) ∉ binding_name <$> bindings →
     slices s' !! slice_key ns es = None) ∧
  (∀ k, (nn_Namespace k = ns → nn_Name k ∉ (binding_name <$> bindings) ++ slice_names existing) →
     slices s' !! k = slices s !! k).
Proof.
  intros Hrange Hkey Hsel Hls Hb Hne Hends Hex Hns Hnd [Hnde Hcur]. unfold reconcileEndpointSelector.
  rewrite Hkey. simpl. rewrite Hsel. unfold evaluateEndpointSelector. rewrite Hls.
  rewrite exec_bind_ok. destruct (exec handle (updateEndpointSelectorStatus _ _ _ _ _) s) as [[[]|e] s0] eqn:E0; [|done].
  apply update_selector_exec in E0. rewrite decide_False by auto. rewrite Hb. simpl.
  rewrite decide_False by (by destruct bindings). rewrite Hends. simpl. rewrite Hex. simpl.
  rewrite exec_bind_ok. destruct (exec handle (sync_existing _ _) s0) as [[rest|e] s1] eqn:E1; [|done].
  apply (sync_existing_exec ns) in E1 as [Hrest Hs1]; [|split; [done|]; intros; rewrite E0; by apply Hcur].
  intros E2. pose proof (map_to_list_range rest (range rest) (Hrange rest)) as Helem.
  assert (Hrestd : ∀ n d, rest !! n = Some d → ∃ b, b ∈ bindings ∧ d = binding_slice selector endpoints b ∧ n = binding_name b).
  { intros n d. rewrite Hrest. case_decide; [done|]. apply desired_slices_elem. }
  apply (create_slices_exec ns) in E2 as [Hin Hout].
  - assert (Hkeep : ∀ k, nn_Namespace k = ns → rest !! nn_Name k = None → slices s' !! k = slices s1 !! k).
    { intros k Hk Hn. apply Hout. intros _ (d & Hname & Hd)%list_elem_of_fmap.
      apply Helem in Hd as [n Hn']. pose proof Hn' as (b & _ & -> & ->)%Hrestd. simpl in Hname.
      unfold binding_name in Hn'. congruence. }
    split_and!.
    + intros b Hbin. pose proof (desired_slices_lookup selector bindings endpoints b Hnd Hbin) as Hd.
      destruct (decide (binding_name b ∈ slice_names existing)) as [Hx|Hx].
      * rewrite Hkeep, Hs1; simpl; [|done|by rewrite Hrest, decide_True].
        rewrite decide_True by done. by rewrite Hd.
      * apply (Hin (binding_slice selector endpoints b)). apply Helem. exists (binding_name b).
        by rewrite Hrest, decide_False.
    + intros es Hes Hn. assert (Hx : Name (es_meta es) ∈ slice_names existing)
        by (by apply (list_elem_of_fmap_2 (λ es, Name (es_meta es)))).
      rewrite Hkeep, Hs1; simpl; [|done|by rewrite Hrest, decide_True].
      rewrite decide_True by done. destruct (desired_slices _ _ _ !! _) as [d|] eqn:Hd; [|done].
      apply desired_slices_elem in Hd as (b & Hb' & _ & Hn'). exfalso. apply Hn. rewrite Hn'.
      by apply list_elem_of_fmap_2.
    + intros k Hk. rewrite Hout, Hs1, E0.
      * rewrite decide_False; [done|]. intros [Hk1 Hk2]. apply (Hk Hk1). set_solver.
      * intros Hkns (d & Hname & Hd)%list_elem_of_fmap. apply Helem in Hd as [n Hn].
        apply Hrestd in Hn as (b & Hb' & -> & ->). apply (Hk Hkns). apply list.elem_of_app. left.
        rewrite Hname. by apply (list_elem_of_fmap_2 binding_name).
  - intros d Hd. apply Helem in Hd as [n Hn]. apply Hrestd in Hn as (b & Hb' & -> & _). by apply Hns.
  - rewrite Hrange. rewrite <-list_fmap_compose.
    rewrite (list_fmap_ext _ fst); [apply NoDup_fst_map_to_list|].
    intros i [n d] Hi. apply list_elem_of_lookup_2, elem_of_map_to_list in Hi.
    apply Hrestd in Hi as (b & _ & -> & ->). done.
Qed.

Lemma delete_slices_exec existing s s' :
  exec handle (delete_slices existing) s = (Ok tt, s') →
  ∀ k, slices s' !! k =
    if decide (k ∈ (λ es, mkNN (Namespace (es_meta es)) (Name (es_meta es))) <$> existing)
    then None else slices s !! k.
Proof.
  revert s. induction existing as [|es existing IH]; intros s; simpl; [by intros [= <-]|].
  set (ke := mkNN (Namespace (es_meta es)) (Name (es_meta es))).
  assert (Hstep : ∀ s1, slices s1 = delete ke (slices s) →
    exec handle (delete_slices existing) s1 = (Ok tt, s') → ∀ k, slices s' !! k =
    if decide (k ∈ ke :: ((λ es, mkNN (Namespace (es_meta es)) (Name (es_meta es))) <$> existing))
    then None else slices s !! k).
  { intros s1 Hs1 Hexec k. rewrite (IH s1 Hexec), Hs1, lookup_delete.
    destruct (decide (k ∈ (λ es, mkNN _ _) <$> existing)) as [Hin|Hout].
    - rewrite decide_True; [done|]. by right.
    - case_decide as E; [subst; rewrite decide_True; [done|by left]|].
      rewrite decide_False; [done|]. by intros [->|?]%list.elem_of_cons. }
  destruct (handle (EndpointSliceDelete _ _) s) as [[[]|e] s1] eqn:Hd.
  - apply ess_delete_ok in Hd. by apply Hstep.
  - destruct (IsNotFound e) eqn:He; [|done]. apply ess_delete_notfound in Hd as [Hs1 Hn]; [|done].
    apply Hstep. by rewrite Hs1, delete_id.
Qed.

(** When the selector is gone, invalid, or
    referenced by no accepted route, a successful reconciliation deletes every
    slice cached as managed for it, and no other. *)
Theorem reconcileEndpointSelector_cleanup now range c key nn existing s s' :
  splitNamespacedKey key = Ok nn → listManagedEndpointSlices c nn = Ok existing →
  (match getEndpointSelector c nn with
   | Err e => IsNotFound e = true
   | Ok selector =>
       match LabelSelectorAsSelector (xs_Selector selector) with
       | Err _ => True
       | Ok _ => listReferencedGatewayBindings now c selector = Ok []
       end
   end) →
  exec handle (reconcileEndpointSelector now range c key) s = (Ok tt, s') →
  ∀ k, slices s' !! k =
    if decide (k ∈ (λ es, mkNN (Namespace (es_meta es)) (Name (es_meta es))) <$> existing)
    then None else slices s !! k.
Proof.
  intros Hkey Hex Hcase. unfold reconcileEndpointSelector, deleteManagedEndpointSlices.
  rewrite Hkey. simpl. rewrite Hex. simpl.
  destruct (getEndpointSelector c nn) as [selector|e]; [|rewrite Hcase; apply delete_slices_exec].
  unfold evaluateEndpointSelector. destruct (LabelSelectorAsSelector _) as [sel|e];
    rewrite exec_bind_ok; destruct (exec handle (updateEndpointSelectorStatus _ _ _ _ _) s) as [[[]|e0] s0] eqn:E0;
    try done; apply update_selector_exec in E0; rewrite <-E0.
  - rewrite decide_False by auto. rewrite Hcase. simpl. apply delete_slices_exec.
  - rewrite decide_True by done. apply delete_slices_exec.
Qed.

End refine.

Section converge.
Context `{API : !ApiMachinery, Laws : !ApiMachineryLaws}.

Lemma sync_existing_same existing desired :
  NoDup (slice_names existing) →
  (∀ es, es ∈ existing → ∃ d, desired !! Name (es_meta es) = Some d ∧ content es = content d) →
  ∃ rest, sync_existing existing desired = Ret (Ok rest) ∧
    ∀ n, rest !! n = if decide (n ∈ slice_names existing) then None else desired !! n.
Proof.
  revert desired. induction existing as [|es existing IH]; intros desired Hnd Hall.
  { exists desired. done. }
  rewrite list.fmap_cons, list.NoDup_cons in Hnd. destruct Hnd as [Hes Hnd].
  destruct (Hall es) as (d & Hd & Hc); [by left|]. simpl. rewrite Hd.
  apply content_eq in Hc as ->. destruct (IH (delete (Name (es_meta es)) desired) Hnd) as (rest & -> & Hrest).
  - intros es' Hes'. rewrite lookup_delete_ne; [apply Hall; by right|]. intros E. apply Hes. rewrite E.
    by apply (list_elem_of_fmap_2 (λ es, Name (es_meta es))).
  - exists rest. split; [done|]. intros n. rewrite Hrest, lookup_delete.
    destruct (decide (n ∈ slice_names existing)) as [Hin|Hout].
    + rewrite decide_True; [done|]. by right.
    + case_decide as E; [subst; rewrite decide_True; [done|by left]|].
      rewrite decide_False; [done|]. by intros [->|?]%list.elem_of_cons.
Qed.

(** When the selector's status is already
    written and the cached slices are the desired ones, reconciling makes no
    request. *)
Theorem reconcileEndpointSelector_converges now range c key nn selector sel bindings endpoints existing :
  range ∅ = [] →
  splitNamespacedKey key = Ok nn → getEndpointSelector c nn = Ok selector →
  LabelSelectorAsSelector (xs_Selector selector) = Ok sel →
  cond_equiv (xs_Conditions selector)
    [condition 0 EndpointSelectorConditionAccepted ConditionTrue EndpointSelectorReasonAccepted
       "XEndpointSelector accepted by clusterip-gw-controller." (Generation (xs_meta selector))] →
  listReferencedGatewayBindings now c selector = Ok bindings → bindings ≠ [] →
  buildEndpointSliceEndpoints c selector = Ok endpoints →
  listManagedEndpointSlices c nn = Ok existing →
  NoDup (binding_name <$> bindings) → NoDup (slice_names existing) →
  (∀ b, b ∈ bindings → binding_name b ∈ slice_names existing) →
  (∀ es, es ∈ existing → ∃ b, b ∈ bindings ∧ Name (es_meta es) = binding_name b ∧
                              content es = content (binding_slice selector endpoints b)) →
  reconcileEndpointSelector now range c key = Ret (Ok tt).
Proof.
  intros Hrange Hkey Hsel Hls Hcond Hb Hne Hends Hex Hnd Hnde Hcover Hmatch.
  unfold reconcileEndpointSelector. rewrite Hkey. simpl. rewrite Hsel.
  unfold evaluateEndpointSelector. rewrite Hls. unfold updateEndpointSelectorStatus.
  assert (endpointSelectorStatusEqual selector
    (mkXEndpointSelector (xs_APIVersion selector) (xs_Kind selector) (xs_meta selector) (xs_Selector selector)
       (mergeConditions [] [condition now EndpointSelectorConditionAccepted ConditionTrue
          EndpointSelectorReasonAccepted "XEndpointSelector accepted by clusterip-gw-controller."
          (Generation (xs_meta selector))])) = true) as ->.
  { apply conditionsEqual_iff. etransitivity; [exact Hcond|]. unfold cond_equiv. symmetry.
    apply Permutation_singleton_r.
    etransitivity; [apply mergeConditions_perm|done]. }
  simpl. rewrite Hb. simpl. rewrite decide_False by (by destruct bindings).
  rewrite Hends. simpl. rewrite Hex. simpl.
  destruct (sync_existing_same existing (desired_slices selector bindings endpoints) Hnde) as (rest & -> & Hrest).
  { intros es (b & Hbin & Hn & Hc)%Hmatch. exists (binding_slice selector endpoints b). split; [|done].
    rewrite Hn. by apply desired_slices_lookup. }
  assert (rest = ∅) as ->; [|by unfold bind_ok; cbn [bind]; rewrite Hrange].
  apply map_empty. intros n. rewrite Hrest. case_decide as Hin; [done|].
  destruct (desired_slices _ _ _ !! n) as [d|] eqn:Hd; [|done].
  apply desired_slices_elem in Hd as (b & Hbin & _ & ->). by apply Hcover in Hbin.
Qed.

End converge.

(** ** Worked examples

    The selector "sel" of namespace default, backing listener "tcp" of Gateway
    "a" through route "r"; one ready pod, one that is not; a stale slice. *)

Definition demo_pod (name ip ready : string) : Pod :=
  mkPod (mkMeta "default" name "uid" 1 None {["app" := "web"]} [] []) "node1" ip
    [mkPodCondition PodReady ready].

Definition demo_pods : list Pod := [demo_pod "w2" "10.0.0.6" "True"; demo_pod "w0" "10.0.0.4" "False";
                                    demo_pod "w1" "10.0.0.5" "True"].

Definition stale_slice : EndpointSlice :=
  let s := desiredEndpointSlice demo_selector (demo_gateway "a") "old" 8080 [] in s.

Definition slice_store (selector : XEndpointSelector) (pods : list Pod) (slices : list EndpointSlice) : Store :=
  mkStore [demo_class] [demo_gateway "a"] [demo_route] [selector] pods slices [] [].

Definition slice_caches : Caches := caches_of (slice_store demo_selector demo_pods [stale_slice]).
Definition demo_endpoints : list Endpoint :=
  [pod_endpoint (demo_pod "w1" "10.0.0.5" "True"); pod_endpoint (demo_pod "w2" "10.0.0.6" "True")].
Definition demo_binding : gatewayBinding := mkBinding (demo_gateway "a") "tcp" 8080.

Definition demo_range (m : gmap string EndpointSlice) : list EndpointSlice := (map_to_list m).*2.

Definition slice_server (slices : list EndpointSlice) : Server :=
  set_slices (set_selectors empty_server {[mkNN "default" "sel" := demo_selector]})
    (list_to_map ((λ es, (slice_key "default" es, es)) <$> slices)).

Lemma endpointSliceName_collides_witness :
  binding_key (mkBinding (demo_gateway "a-b") "c" 1) ≠ binding_key (mkBinding (demo_gateway "a") "b-c" 2) ∧
  size (desired_slices demo_selector
    [mkBinding (demo_gateway "a-b") "c" 1; mkBinding (demo_gateway "a") "b-c" 2] demo_endpoints) = 1%nat.
Proof.
  apply (endpointSliceName_collides (demo_gateway "a-b") (demo_gateway "a")); reflexivity.
Defined.

Lemma buildEndpointSliceEndpoints_spec_witness :
  buildEndpointSliceEndpoints slice_caches demo_selector = Ok demo_endpoints ∧
  sorted_by endpoint_before demo_endpoints.
Proof.
  assert (H : buildEndpointSliceEndpoints slice_caches demo_selector = Ok demo_endpoints)
    by (vm_compute; reflexivity).
  split; [exact H|].
  destruct (buildEndpointSliceEndpoints_spec slice_caches demo_selector demo_endpoints H)
    as (sel & pods & _ & _ & _ & Hs). exact Hs.
Defined.

Lemma buildEndpointSliceEndpoints_order_witness :
  buildEndpointSliceEndpoints slice_caches demo_selector
  = buildEndpointSliceEndpoints (caches_of (slice_store demo_selector (rev demo_pods) [])) demo_selector.
Proof.
  apply (buildEndpointSliceEndpoints_order slice_caches
    (caches_of (slice_store demo_selector (rev demo_pods) [])) demo_selector demo_pods (rev demo_pods)).
  - reflexivity.
  - reflexivity.
  - apply Permutation_rev.
  - apply (bool_decide_unpack _). vm_compute. exact I.
Defined.

Definition slice_run : result unit * Server :=
  exec ref_handle (reconcileEndpointSelector 5 demo_range slice_caches "default/sel") (slice_server [stale_slice]).

Lemma reconcileEndpointSelector_refines_witness :
  ref_slices slice_run.2 !! mkNN "default" "a-tcp"
  = Some (content (binding_slice demo_selector demo_endpoints demo_binding)) ∧
  ref_slices slice_run.2 !! mkNN "default" "a-old" = None.
Proof.
  destruct (reconcileEndpointSelector_refines ref_handle ref_slices 5 demo_range slice_caches "default/sel"
    (mkNN "default" "sel") demo_selector {["app" := "web"]} [demo_binding] demo_endpoints [stale_slice]
    "default" (slice_server [stale_slice]) slice_run.2) as (H1 & H2 & _).
  - reflexivity.
  - vm_compute. reflexivity.
  - vm_compute. reflexivity.
  - reflexivity.
  - vm_compute. reflexivity.
  - discriminate.
  - vm_compute. reflexivity.
  - vm_compute. reflexivity.
  - intros b ->%list_elem_of_singleton. reflexivity.
  - apply NoDup_singleton.
  - split; [apply NoDup_singleton|]. intros es ->%list_elem_of_singleton. split; [reflexivity|].
    vm_compute. reflexivity.
  - apply exec_fst. vm_compute. reflexivity.
  - split.
    + apply (H1 demo_binding). by left.
    + apply (H2 stale_slice); [by left|]. apply (bool_decide_unpack _). vm_compute. exact I.
Defined.

(** Without the route nothing refers to the selector. *)
Definition unreferenced_caches : Caches := caches_of
  (mkStore [demo_class] [demo_gateway "a"] [] [demo_selector] demo_pods [stale_slice] [] []).
Definition cleanup_run : result unit * Server :=
  exec ref_handle (reconcileEndpointSelector 5 demo_range unreferenced_caches "default/sel")
    (slice_server [stale_slice]).

Lemma reconcileEndpointSelector_cleanup_witness :
  ref_slices cleanup_run.2 !! mkNN "default" "a-old" = None.
Proof.
  assert (H := reconcileEndpointSelector_cleanup ref_handle ref_slices 5 demo_range unreferenced_caches
    "default/sel" (mkNN "default" "sel") [stale_slice] (slice_server [stale_slice]) cleanup_run.2).
  rewrite H.
  - vm_compute. reflexivity.
  - vm_compute. reflexivity.
  - vm_compute. reflexivity.
  - vm_compute. reflexivity.
  - apply exec_fst. vm_compute. reflexivity.
Defined.

Definition accepted_selector : XEndpointSelector :=
  mkXEndpointSelector "" "" (demo_meta "default" "sel") (mkLabelSelector {["app" := "web"]} [])
    [condition 3 EndpointSelectorConditionAccepted ConditionTrue EndpointSelectorReasonAccepted
       "XEndpointSelector accepted by clusterip-gw-controller." 1].

Lemma reconcileEndpointSelector_converges_witness :
  reconcileEndpointSelector 9 demo_range
    (caches_of (slice_store accepted_selector demo_pods
       [binding_slice accepted_selector demo_endpoints demo_binding])) "default/sel" = Ret (Ok tt).
Proof.
  apply (reconcileEndpointSelector_converges 9 demo_range _ "default/sel" (mkNN "default" "sel")
    accepted_selector {["app" := "web"]} [demo_binding] demo_endpoints
    [binding_slice accepted_selector demo_endpoints demo_binding]).
  - reflexivity.
  - vm_compute. reflexivity.
  - vm_compute. reflexivity.
  - reflexivity.
  - reflexivity.
  - vm_compute. reflexivity.
  - discriminate.
  - vm_compute. reflexivity.
  - vm_compute. reflexivity.
  - apply NoDup_singleton.
  - apply NoDup_singleton.
  - intros b ->%list_elem_of_singleton. apply (bool_decide_unpack _). vm_compute. exact I.
  - intros es ->%list_elem_of_singleton. exists demo_binding. split; [by left|]. split; reflexivity.
Defined.
