(* ===== verification/Trackers.v ===== *)
(** * internal/agent/state

    The agent's reduced view of Gateways and EndpointSlices: the two change
    trackers, their updates and their snapshots.  Iterating over a Go map visits
    its entries in an arbitrary order, which is an argument of the snapshots. *)

From S2P Require Import Prelude GoNet GoStrings KubeTypes.

(** [types.NamespacedName.String()], of the vendored API machinery. *)
Class TypesPackage := { NamespacedName_String : NamespacedName → string }.

(** Documented: the namespace, a slash and the name. *)
Class TypesPackageLaws `{!TypesPackage} : Prop := {
  NamespacedName_String_spec k : NamespacedName_String k = nn_Namespace k +:+ "/" +:+ nn_Name k }.

(** ** types.go, frontend.go, endpoint.go *)

Record FrontendKey := mkFrontendKey { fk_NamespacedName : NamespacedName; fk_Listener : string }.

#[export] Instance FrontendKey_eq_dec : EqDecision FrontendKey.
Proof. solve_decision. Defined.

#[export] Instance FrontendKey_countable : Countable FrontendKey.
Proof.
  by apply (inj_countable' (λ k, (fk_NamespacedName k, fk_Listener k)) (λ p, mkFrontendKey p.1 p.2)); intros [].
Defined.

Definition FrontendKey_String `{!TypesPackage} (fk : FrontendKey) : string :=
  if decide (fk_Listener fk = "") then NamespacedName_String (fk_NamespacedName fk)
  else NamespacedName_String (fk_NamespacedName fk) +:+ ":" +:+ fk_Listener fk.

(** [Address] is a [net.IP]; [Port] an [int]. *)
Record Frontend := mkFrontend { fr_Address : list Z; fr_Port : Z }.

#[export] Instance Frontend_eq_dec : EqDecision Frontend.
Proof. solve_decision. Defined.

Definition NewFrontend (address : list Z) (port : Z) : Frontend := mkFrontend address port.

(** The reduced endpoint, [state.Endpoint]. *)
Record Backend := mkBackend { be_IP : string; be_Port : Z }.

#[export] Instance Backend_eq_dec : EqDecision Backend.
Proof. solve_decision. Defined.

Definition NewEndpoint (ip : string) (port : Z) : Backend := mkBackend ip port.

(** [net.JoinHostPort] and [strconv.Itoa]. *)
Definition JoinHostPort (host port : string) : string :=
  if has_char 58 host then "[" +:+ host +:+ "]:" +:+ port else host +:+ ":" +:+ port.

Definition Itoa (z : Z) : string := pretty z.

Definition Endpoint_String (info : Backend) : string := JoinHostPort (be_IP info) (Itoa (be_Port info)).

Abbreviation FrontendMap := (gmap FrontendKey Frontend).
Abbreviation EndpointsMap := (gmap FrontendKey (list Backend)).

(** ** gatewaytracker.go *)

Abbreviation GatewayTracker := (gmap NamespacedName FrontendMap).

Definition NewGatewayChangeTracker : GatewayTracker := ∅.

(** The loop over listeners with the names and ports seen. *)
Fixpoint listeners_supported (listeners : list Listener) (names : gset string) (ports : gset Z) : bool :=
  match listeners with
  | [] => true
  | listener :: listeners =>
      if bool_decide (l_Protocol listener ≠ "TCP") || bool_decide (l_Name listener = "")
         || bool_decide (l_Port listener = 0) then false
      else if decide (l_Name listener ∈ names) then false
      else if decide (l_Port listener ∈ ports) then false
      else listeners_supported listeners ({[l_Name listener]} ∪ names) ({[l_Port listener]} ∪ ports)
  end.

Definition gatewaySupported (gateway : Gateway) : bool :=
  let m := gw_meta gateway in
  let listeners := Listeners (gw_spec gateway) in
  if bool_decide (Namespace m = "") || bool_decide (Name m = "") then false
  else if decide (DeletionTimestamp m ≠ None) then false
  else if decide (GatewayClassName (gw_spec gateway) ≠ gatewaymeta_GatewayClassName) then false
  else if bool_decide (length listeners = 0%nat)
          || bool_decide (MaxSupportedGatewayListeners < length listeners)%nat then false
  else if negb (listeners_supported listeners ∅ ∅) then false
  else
    match Addresses (gw_status gateway) with
    | [address] =>
        if match sa_Type address with None => true | Some t => bool_decide (t ≠ IPAddressType) end
           || bool_decide (sa_Value address = "") then false
        else true
    | _ => false
    end.

(** A nil map and an empty one are the same here. *)
Definition gatewayToFrontendMap (gateway : option Gateway) : FrontendMap :=
  match gateway with
  | None => ∅
  | Some gateway =>
      if negb (gatewaySupported gateway) then ∅
      else
        match Addresses (gw_status gateway) with
        | [] => ∅
        | address :: _ =>
            match ParseIP (sa_Value address) with
            | None => ∅
            | Some vip =>
                match To4 vip with
                | None => ∅
                | Some _ =>
                    foldl (λ out listener,
                      let key := mkFrontendKey (meta_key (gw_meta gateway)) (l_Name listener) in
                      <[key := NewFrontend vip (l_Port listener)]> out)
                      ∅ (Listeners (gw_spec gateway))
                end
            end
        end
  end.

Definition GatewayChangeTracker_Update (gct : GatewayTracker) (previous current : option Gateway)
    : GatewayTracker * bool :=
  match (match current with Some g => Some g | None => previous end) with
  | None => (gct, false)
  | Some gateway =>
      let key := meta_key (gw_meta gateway) in
      match current with
      | None => (delete key gct, true)
      | Some current =>
          let m := gatewayToFrontendMap (Some current) in
          if decide (size m = 0%nat) then (delete key gct, true)
          else (<[key := m]> gct, true)
      end
  end.

(** [order] lists the tracked maps, and each map's entries, as visited. *)
Definition GatewayChangeTracker_Snapshot (order : list (list (FrontendKey * Frontend))) : FrontendMap :=
  foldl (λ out frontendPorts,
    foldl (λ out np, <[np.1 := np.2]> out) out frontendPorts) ∅ order.

(** ** endpointslicetracker.go *)

Abbreviation EndpointsTracker := (gmap NamespacedName EndpointSlice).

Definition NewEndpointsChangeTracker : EndpointsTracker := ∅.

Definition EndpointsChangeTracker_Update (ect : EndpointsTracker) (endpointSlice : option EndpointSlice)
    (remove : bool) : EndpointsTracker * bool :=
  match endpointSlice with
  | None => (ect, false)
  | Some es =>
      let key := meta_key (es_meta es) in
      if remove then (delete key ect, true) else (<[key := es]> ect, true)
  end.

Definition frontendKeyForEndpointSlice (endpointSlice : option EndpointSlice) : option FrontendKey :=
  match endpointSlice with
  | None => None
  | Some es =>
      let labels := Labels (es_meta es) in
      if decide (label labels LabelManagedBy ≠ ManagedByValue) then None
      else
        let gatewayName := label labels GatewayNameLabelKey in
        if decide (gatewayName = "") then None
        else
          let namespace := label labels GatewayNamespaceLabelKey in
          let namespace := if decide (namespace = "") then Namespace (es_meta es) else namespace in
          if decide (namespace = "") then None
          else Some (mkFrontendKey (mkNN namespace gatewayName) (label labels GatewayListenerLabelKey))
  end.

(** The addresses of one endpoint that are kept, for one port. *)
Definition endpoint_backends (port : Z) (endpoint : Endpoint) : list Backend :=
  if match ep_Ready endpoint with Some ready => negb ready | None => false end then []
  else
    omap (λ addr,
      match ParseIP addr with
      | None => None
      | Some ip => match To4 ip with
                   | None => None
                   | Some ip4 => Some (NewEndpoint (dotted ip4) port)
                   end
      end) (ep_Addresses endpoint).

(** One round of the loop over [slice.Ports]. *)
Definition port_backends (endpoints : list Endpoint) (port : EndpointPort) : list Backend :=
  match epp_Port port with
  | None => []
  | Some p =>
      if match epp_Protocol port with Some pr => bool_decide (pr ≠ ProtocolTCP) | None => false end then []
      else endpoints ≫= endpoint_backends p
  end.

Definition slice_backends (es : EndpointSlice) : list Backend := es_Ports es ≫= port_backends (es_Endpoints es).

(** [out[key] = append(out[key], e)] for each of the slice's backends. *)
Definition snapshot_slice (out : EndpointsMap) (es : EndpointSlice) : EndpointsMap :=
  match frontendKeyForEndpointSlice (Some es) with
  | None => out
  | Some key =>
      if decide (es_AddressType es ≠ AddressTypeIPv4) then out
      else foldl (λ out e, <[key := default [] (out !! key) ++ [e]]> out) out (slice_backends es)
  end.

Definition EndpointsChangeTracker_Snapshot (order : list EndpointSlice) : EndpointsMap :=
  let out := foldl snapshot_slice ∅ order in
  slices_SortFunc (cmp_on Endpoint_String) <$> out.
