(* ===== verification/TrackerSpec.v ===== *)
(** * Agent state: properties

    The trackers refine "the last reported object of each name"; their
    snapshots do not depend on the iteration order of Go maps; and the agent
    reads back what the controller writes. *)

From S2P Require Import Prelude GoNet GoStrings KubeTypes Trackers.

(** ** Frontends of one Gateway *)

(** What the agent asks of a Gateway. *)
Definition agent_supports (gateway : Gateway) : Prop :=
  let ls := Listeners (gw_spec gateway) in
  Namespace (gw_meta gateway) ≠ "" ∧ Name (gw_meta gateway) ≠ "" ∧
  DeletionTimestamp (gw_meta gateway) = None ∧
  GatewayClassName (gw_spec gateway) = gatewaymeta_GatewayClassName ∧
  (0 < length ls ≤ MaxSupportedGatewayListeners)%nat ∧
  (∀ l, l ∈ ls → l_Protocol l = "TCP" ∧ l_Name l ≠ "" ∧ l_Port l ≠ 0) ∧
  NoDup (l_Name <$> ls) ∧ NoDup (l_Port <$> ls) ∧
  ∃ value, Addresses (gw_status gateway) = [mkStatusAddress (Some IPAddressType) value] ∧ value ≠ "".

Lemma listeners_supported_iff ls names ports :
  listeners_supported ls names ports = true ↔
  (∀ l, l ∈ ls → l_Protocol l = "TCP" ∧ l_Name l ≠ "" ∧ l_Port l ≠ 0) ∧
  NoDup (l_Name <$> ls) ∧ NoDup (l_Port <$> ls) ∧
  (∀ l, l ∈ ls → l_Name l ∉ names ∧ l_Port l ∉ ports).
Proof.
  revert names ports. induction ls as [|l ls IH]; intros names ports; simpl.
  { split; [|done]. intros _. split_and!; try constructor; set_solver. }
  rewrite !list.NoDup_cons.
  destruct (_ || _ || _) eqn:E.
  { split; [done|]. intros (Hall & _). destruct (Hall l) as (? & ? & ?); [by left|].
    rewrite !bool_decide_false in E by auto. done. }
  rewrite !orb_false_iff, !bool_decide_eq_false in E. destruct E as [[E1%dec_stable E2] E3].
  case_decide as Hn.
  { split; [done|]. intros (_ & _ & _ & Hout). by destruct (Hout l) as [? _]; [left|]. }
  case_decide as Hp.
  { split; [done|]. intros (_ & _ & _ & Hout). by destruct (Hout l) as [_ ?]; [left|]. }
  rewrite IH. split.
  - intros (Hall & Hnn & Hnp & Hout). split_and!; try done.
    + intros l' [->|?]%list.elem_of_cons; auto.
    + intros (l' & Heq & Hl')%list_elem_of_fmap. destruct (Hout l' Hl') as [Ho _]. set_solver.
    + intros (l' & Heq & Hl')%list_elem_of_fmap. destruct (Hout l' Hl') as [_ Ho]. set_solver.
    + intros l' [->|?]%list.elem_of_cons; [done|]. destruct (Hout l'); [done|]. set_solver.
  - intros (Hall & [Hn1 Hnn] & [Hp1 Hnp] & Hout). split_and!; try done.
    + intros l' Hl'. apply Hall. by right.
    + intros l' Hl'. destruct (Hout l') as [Ho1 Ho2]; [by right|]. rewrite !not_elem_of_union, !not_elem_of_singleton.
      split; (split; [intros Heq|done]).
      * apply Hn1. rewrite <-Heq. by apply list_elem_of_fmap_2.
      * apply Hp1. rewrite <-Heq. by apply list_elem_of_fmap_2.
Qed.

Lemma gatewaySupported_iff gateway : gatewaySupported gateway = true ↔ agent_supports gateway.
Proof.
  unfold gatewaySupported, agent_supports.
  destruct (_ || _) eqn:E.
  { split; [done|]. intros (H1 & H2 & _). by rewrite !bool_decide_false in E. }
  apply orb_false_iff in E as [E1%bool_decide_eq_false E2%bool_decide_eq_false].
  case_decide as Hd; [naive_solver|]. case_decide as Hc; [naive_solver|].
  destruct (bool_decide (length _ = 0%nat) || _) eqn:E.
  { apply orb_true_iff in E. rewrite !bool_decide_eq_true in E. split; [done|]. intros (_&_&_&_&?&_). lia. }
  apply orb_false_iff in E as [E3%bool_decide_eq_false E4%bool_decide_eq_false].
  pose proof (listeners_supported_iff (Listeners (gw_spec gateway)) ∅ ∅) as Hls.
  destruct (listeners_supported _ _ _); simpl.
  - destruct (proj1 Hls eq_refl) as (H1 & H2 & H3 & _).
    destruct (Addresses (gw_status gateway)) as [|[t v] [|]]; simpl; [naive_solver| |naive_solver].
    transitivity (t = Some IPAddressType ∧ v ≠ "").
    + destruct t as [t|]; simpl; [|naive_solver].
      destruct (decide (t = IPAddressType)) as [->|Ht], (decide (v = "")) as [->|Hv].
      * by rewrite orb_true_r; split; [|intros []].
      * rewrite !bool_decide_false by auto. done.
      * rewrite bool_decide_true by done. split; [done|]. intros [[= ->] _]. done.
      * rewrite bool_decide_true by done. split; [done|]. intros [[= ->] _]. done.
    + split.
      * intros [-> Hv]. split_and!; try done; try lia. eauto.
      * intros (_&_&_&_&_&_&_&_& value & [= -> ->] & ?). done.
  - split; [done|]. intros (_&_&_&_&_&H1&H2&H3&_). apply Hls. split_and!; try done.
Qed.

Lemma frontend_lookup gateway fk f :
  gatewayToFrontendMap (Some gateway) !! fk = Some f ↔
  agent_supports gateway ∧
  ∃ a l, a ∈ Addresses (gw_status gateway) ∧ ParseIP (sa_Value a) = Some (fr_Address f) ∧
    is_Some (To4 (fr_Address f)) ∧ l ∈ Listeners (gw_spec gateway) ∧
    fk = mkFrontendKey (meta_key (gw_meta gateway)) (l_Name l) ∧ fr_Port f = l_Port l.
Proof.
  unfold gatewayToFrontendMap. rewrite <-gatewaySupported_iff.
  destruct (gatewaySupported gateway) eqn:Hs; cbn [negb]; [|rewrite lookup_empty; naive_solver].
  apply gatewaySupported_iff in Hs as (_&_&_&_&_&_&Hnd&_& value & -> & _). simpl.
  assert (Hkeys : NoDup ((λ l, mkFrontendKey (meta_key (gw_meta gateway)) (l_Name l)) <$> Listeners (gw_spec gateway))).
  { rewrite (list_fmap_compose l_Name (mkFrontendKey (meta_key (gw_meta gateway)))).
    apply NoDup_fmap_2; [|done]. by intros n1 n2 [= ->]. }
  destruct (ParseIP value) as [vip|] eqn:Hvip.
  - destruct (To4 vip) as [v4|] eqn:H4.
    + rewrite foldl_insert_lookup by done. rewrite lookup_empty. split.
      * intros [(l & Hl & -> & ->)|[_ ?]]; [|done]. split; [done|].
        exists (mkStatusAddress (Some IPAddressType) value), l. simpl. rewrite H4. split_and!; try done. by left.
      * intros (_ & a & l' & ->%list_elem_of_singleton & Hp & _ & Hl & -> & Hport). left. exists l'.
        split_and!; try done. simpl in Hp. destruct f as [addr port]. simpl in *. unfold NewFrontend. congruence.
    + rewrite lookup_empty. split; [done|].
      intros (_ & a & l & ->%list_elem_of_singleton & Hp & [? H4'] & _). simpl in Hp. congruence.
  - rewrite lookup_empty. split; [done|].
    intros (_ & a & l & ->%list_elem_of_singleton & Hp & _). simpl in Hp. congruence.
Qed.

(** The agent's frontends of a Gateway: one per
    listener, with the listener's port and the published IPv4 address, exactly
    when the Gateway has the supported shape; none otherwise. *)
Theorem gatewayToFrontendMap_spec gateway fk f :
  gatewayToFrontendMap (Some gateway) !! fk = Some f ↔
  agent_supports gateway ∧
  ∃ a l, a ∈ Addresses (gw_status gateway) ∧ ParseIP (sa_Value a) = Some (fr_Address f) ∧
    is_Some (To4 (fr_Address f)) ∧ l ∈ Listeners (gw_spec gateway) ∧
    fk = mkFrontendKey (meta_key (gw_meta gateway)) (l_Name l) ∧ fr_Port f = l_Port l.
Proof. apply frontend_lookup. Qed.

Lemma frontend_key gateway fk f :
  gatewayToFrontendMap (Some gateway) !! fk = Some f → fk_NamespacedName fk = meta_key (gw_meta gateway).
Proof.
  unfold gatewayToFrontendMap. destruct (negb _); [done|].
  destruct (Addresses _) as [|a ?]; [done|]. destruct (ParseIP _) as [vip|]; [|done].
  destruct (To4 vip); [|done]. induction (Listeners (gw_spec gateway)) as [|x xs IH] using rev_ind; [done|].
  rewrite foldl_app. simpl. rewrite lookup_insert. case_decide; [by subst|done].
Qed.

(** ** The Gateway tracker *)

(** A Gateway event: what the informer reported before and after. *)
Record gateway_event := mkGatewayEvent { ev_previous : option Gateway; ev_current : option Gateway }.

(** The specification: the last reported object of each name. *)
Definition latest_step (latest : gmap NamespacedName Gateway) (e : gateway_event)
    : gmap NamespacedName Gateway :=
  match ev_current e, ev_previous e with
  | Some g, _ => <[meta_key (gw_meta g) := g]> latest
  | None, Some g => delete (meta_key (gw_meta g)) latest
  | None, None => latest
  end.

Definition tracker_step (gct : GatewayTracker) (e : gateway_event) : GatewayTracker :=
  (GatewayChangeTracker_Update gct (ev_previous e) (ev_current e)).1.

(** The tracker holds the frontends of the latest objects that have some. *)
Definition tracks (gct : GatewayTracker) (latest : gmap NamespacedName Gateway) : Prop :=
  (∀ k g, latest !! k = Some g → k = meta_key (gw_meta g)) ∧
  ∀ k, gct !! k = g ← latest !! k; let m := gatewayToFrontendMap (Some g) in
                  if decide (size m = 0%nat) then None else Some m.

Lemma tracks_step gct latest e : tracks gct latest → tracks (tracker_step gct e) (latest_step latest e).
Proof.
  intros [Hkeys Ht]. unfold tracker_step, latest_step, GatewayChangeTracker_Update.
  destruct e as [previous [g|]]; simpl.
  - split.
    + intros k g'. rewrite lookup_insert. case_decide; [by intros [= <-]|apply Hkeys].
    + intros k. case_decide as Hsize; simpl; rewrite ?lookup_insert, ?lookup_delete;
        destruct (decide (meta_key (gw_meta g) = k)) as [<-|Hne]; simpl; try apply Ht.
      * by rewrite decide_True.
      * by rewrite decide_False.
  - destruct previous as [p|]; simpl; [|done]. split.
    + intros k g'. rewrite lookup_delete. case_decide; [done|apply Hkeys].
    + intros k. rewrite !lookup_delete. case_decide; [done|apply Ht].
Qed.

Lemma tracks_run es : tracks (foldl tracker_step NewGatewayChangeTracker es) (foldl latest_step ∅ es).
Proof.
  assert (Hgen : ∀ gct latest, tracks gct latest → tracks (foldl tracker_step gct es) (foldl latest_step latest es)).
  { induction es as [|e es IH]; intros; simpl; [done|]. by apply IH, tracks_step. }
  apply Hgen. split; [done|]. intros k. by rewrite !lookup_empty.
Qed.

(** [order] is a way Go may iterate over the tracker and its maps. *)
Definition visits (gct : GatewayTracker) (order : list (list (FrontendKey * Frontend))) : Prop :=
  ∃ ks, ks ≡ₚ map_to_list gct ∧ Forall2 (λ (km : NamespacedName * FrontendMap) l, l ≡ₚ map_to_list km.2) ks order.

Lemma snapshot_concat order :
  GatewayChangeTracker_Snapshot order
  = foldl (λ (out : FrontendMap) np, <[np.1 := np.2]> out) ∅ (concat order).
Proof.
  unfold GatewayChangeTracker_Snapshot. generalize (∅ : FrontendMap).
  induction order as [|l order IH]; intros out; simpl; [done|]. by rewrite IH, foldl_app.
Qed.

Lemma visits_elem gct order fk f :
  visits gct order → (fk, f) ∈ concat order ↔ ∃ k (m : FrontendMap), gct !! k = Some m ∧ m !! fk = Some f.
Proof.
  intros (ks & Hks & Hall). rewrite list_elem_of_In, in_concat. setoid_rewrite <-list_elem_of_In. split.
  - intros (l & Hl & Hf). apply list_elem_of_lookup in Hl as [i Hi].
    destruct (Forall2_lookup_r _ _ _ _ _ Hall Hi) as ([k m] & Hk & Hlm). exists k, m.
    apply list_elem_of_lookup_2 in Hk. rewrite Hks in Hk. apply elem_of_map_to_list in Hk.
    split; [done|]. simpl in Hlm. rewrite Hlm in Hf. by apply elem_of_map_to_list.
  - intros (k & m & Hk & Hm). assert (Hin : (k, m) ∈ ks) by (by rewrite Hks, elem_of_map_to_list).
    apply list_elem_of_lookup in Hin as [i Hi].
    destruct (Forall2_lookup_l _ _ _ _ _ Hall Hi) as (l & Hl & Hlm). exists l.
    split; [by eapply list_elem_of_lookup_2|]. simpl in Hlm. rewrite Hlm. by apply elem_of_map_to_list.
Qed.

#[local] Arguments gatewayToFrontendMap : simpl never.

Lemma gateway_snapshot_lookup es order fk :
  visits (foldl tracker_step NewGatewayChangeTracker es) order →
  GatewayChangeTracker_Snapshot order !! fk
  = g ← foldl latest_step ∅ es !! fk_NamespacedName fk; gatewayToFrontendMap (Some g) !! fk.
Proof.
  intros Hv. destruct (tracks_run es) as [Hkeys Ht].
  set (latest := foldl latest_step ∅ es) in *. set (gct := foldl tracker_step _ es) in *.
  assert (Hin : ∀ fk f, (fk, f) ∈ concat order ↔
    (g ← latest !! fk_NamespacedName fk; gatewayToFrontendMap (Some g) !! fk) = Some f).
  { intros fk' f. rewrite (visits_elem gct) by done. rewrite bind_Some. split.
    - intros (k & m & Hk & Hm). rewrite Ht in Hk. apply bind_Some in Hk as (g & Hg & Hk).
      cbv zeta in Hk. case_decide; [done|]. injection Hk as <-.
      pose proof (frontend_key _ _ _ Hm) as ->. apply Hkeys in Hg as Hk. subst k. eauto.
    - intros (g & Hg & Hm). exists (fk_NamespacedName fk'), (gatewayToFrontendMap (Some g)).
      split; [|done]. rewrite Ht, Hg. simpl. rewrite decide_False; [done|].
      intros Hsize%map_size_empty_inv. rewrite Hsize in Hm. done. }
  rewrite snapshot_concat. apply option_eq. intros f. rewrite foldl_insert_functional; [apply Hin|].
  intros k v v' H1%Hin H2%Hin. congruence.
Qed.

(** C16. After any sequence of Gateway events, a snapshot
    holds exactly the frontends of the last reported objects, in whatever order
    Go iterates over the tracker's maps. *)
Theorem gateway_tracker_refines es order fk :
  visits (foldl tracker_step NewGatewayChangeTracker es) order →
  GatewayChangeTracker_Snapshot order !! fk
  = g ← foldl latest_step ∅ es !! fk_NamespacedName fk; gatewayToFrontendMap (Some g) !! fk.
Proof. apply gateway_snapshot_lookup. Qed.

(** ** The witness of the Gateway tracker's refinement *)

(** One of the orders Go may choose. *)
Definition map_order (gct : GatewayTracker) : list (list (FrontendKey * Frontend)) :=
  (λ km : NamespacedName * FrontendMap, map_to_list km.2) <$> map_to_list gct.

Lemma map_order_visits gct : visits gct (map_order gct).
Proof.
  exists (map_to_list gct). split; [done|]. unfold map_order.
  apply Forall2_fmap_r. apply list.Forall2_same_length_lookup_2; [done|].
  intros i x y Hx Hy. by simplify_eq/=.
Qed.

Definition agent_gateway (address : string) : Gateway :=
  mkGateway (mkMeta "default" "gw" "" 1 None ∅ [] [])
    (mkGatewaySpec gatewaymeta_GatewayClassName
       [mkListener "tcp" 80 "TCP" None; mkListener "tls" 443 "TCP" None] [])
    (mkGatewayStatus [mkStatusAddress (Some IPAddressType) address] [] []).

Definition gateway_events : list gateway_event :=
  [mkGatewayEvent None (Some (agent_gateway "10.0.0.1"));
   mkGatewayEvent (Some (agent_gateway "10.0.0.1")) (Some (agent_gateway "10.0.0.9"))].

Lemma gateway_tracker_refines_witness :
  GatewayChangeTracker_Snapshot (map_order (foldl tracker_step NewGatewayChangeTracker gateway_events))
    !! mkFrontendKey (mkNN "default" "gw") "tls"
  = Some (mkFrontend (v4in6_prefix ++ [10; 0; 0; 9]) 443).
Proof.
  rewrite (gateway_tracker_refines gateway_events) by apply map_order_visits. vm_compute. reflexivity.
Defined.
