(* ===== verification/EndpointsSpec.v ===== *)
(** * The EndpointSlice tracker: properties

    A snapshot holds, per frontend, the ready IPv4 TCP backends of the slices
    last reported for it, in order, whatever the order of Go's maps. *)

From S2P Require Import Prelude GoNet GoStrings KubeTypes Trackers.

(** ** Backends are told apart by their printed form *)

Definition plain_backend (b : Backend) : Prop := has_char 58 (be_IP b) = false.

Lemma Endpoint_String_inj a b :
  plain_backend a → plain_backend b → Endpoint_String a = Endpoint_String b → a = b.
Proof.
  unfold plain_backend, Endpoint_String, JoinHostPort. destruct a as [ipa pa], b as [ipb pb]. simpl. intros Ha Hb.
  rewrite Ha, Hb. intros H. apply (string_cut_inj 58) in H as [-> H]; [|done..].
  unfold Itoa in H. apply (inj pretty) in H. congruence.
Qed.

(** A backend of a slice: a port with a number and protocol TCP (or none), an
    endpoint not known to be unready, an address that is IPv4. *)
Definition slice_offers (es : EndpointSlice) (b : Backend) : Prop :=
  ∃ port p e addr ip ip4,
    port ∈ es_Ports es ∧ epp_Port port = Some p ∧ (∀ pr, epp_Protocol port = Some pr → pr = ProtocolTCP) ∧
    e ∈ es_Endpoints es ∧ ep_Ready e ≠ Some false ∧ addr ∈ ep_Addresses e ∧
    ParseIP addr = Some ip ∧ To4 ip = Some ip4 ∧ b = NewEndpoint (dotted ip4) p.

Lemma slice_backends_iff es b : b ∈ slice_backends es ↔ slice_offers es b.
Proof.
  unfold slice_backends, slice_offers. rewrite list_elem_of_bind. split.
  - intros (port & Hb & Hport). unfold port_backends in Hb. destruct (epp_Port port) as [p|] eqn:Hp; [|by apply elem_of_nil in Hb].
    destruct (match epp_Protocol port with Some _ => _ | None => _ end) eqn:Hpr; [by apply elem_of_nil in Hb|].
    apply list_elem_of_bind in Hb as (e & Hb & He). unfold endpoint_backends in Hb.
    destruct (match ep_Ready e with Some _ => _ | None => _ end) eqn:Hr; [by apply elem_of_nil in Hb|].
    apply list_elem_of_omap in Hb as (addr & Haddr & Hb).
    destruct (ParseIP addr) as [ip|] eqn:Hip; [|done]. destruct (To4 ip) as [ip4|] eqn:H4; [|done]. injection Hb as <-.
    exists port, p, e, addr, ip, ip4. split_and!; try done.
    + intros pr Hpr'. rewrite Hpr' in Hpr. by apply bool_decide_eq_false, dec_stable in Hpr.
    + intros Hready. by rewrite Hready in Hr.
  - intros (port & p & e & addr & ip & ip4 & Hport & Hp & Hpr & He & Hr & Haddr & Hip & H4 & ->).
    exists port. split; [|done]. unfold port_backends. rewrite Hp.
    assert (Hprf : match epp_Protocol port with Some pr => bool_decide (pr ≠ ProtocolTCP) | None => false end = false).
    { destruct (epp_Protocol port) as [pr|]; [|done]. rewrite (Hpr pr eq_refl). done. }
    rewrite Hprf. apply list_elem_of_bind. exists e. split; [|done]. unfold endpoint_backends.
    assert (Hrf : match ep_Ready e with Some ready => negb ready | None => false end = false).
    { by destruct (ep_Ready e) as [[]|]. }
    rewrite Hrf. apply list_elem_of_omap. exists addr. split; [done|]. by rewrite Hip, H4.
Qed.

Lemma slice_backends_plain es : Forall plain_backend (slice_backends es).
Proof.
  apply list.Forall_forall. intros b (? & ? & ? & ? & ? & ? & _ & _ & _ & _ & _ & _ & _ & _ & ->)%slice_backends_iff.
  by apply has_char_dotted.
Qed.

(** ** Snapshots *)

(** The slice contributes to the frontend. *)
Definition slice_for (fk : FrontendKey) (es : EndpointSlice) : Prop :=
  frontendKeyForEndpointSlice (Some es) = Some fk ∧ es_AddressType es = AddressTypeIPv4.

#[export] Instance slice_for_dec fk es : Decision (slice_for fk es).
Proof. unfold slice_for. apply _. Defined.

#[local] Arguments frontendKeyForEndpointSlice : simpl never.

Definition backends_for (fk : FrontendKey) (order : list EndpointSlice) : list Backend :=
  filter (slice_for fk) order ≫= slice_backends.

Lemma append_backends (out : EndpointsMap) key bs fk :
  default [] (foldl (λ (out : EndpointsMap) e, <[key := default [] (out !! key) ++ [e]]> out) out bs !! fk)
  = default [] (out !! fk) ++ (if decide (key = fk) then bs else []) ∧
  (is_Some (foldl (λ (out : EndpointsMap) e, <[key := default [] (out !! key) ++ [e]]> out) out bs !! fk)
   ↔ is_Some (out !! fk) ∨ (key = fk ∧ bs ≠ [])).
Proof.
  induction bs as [|b bs [IH1 IH2]] using rev_ind; simpl.
  { split; [by case_decide; rewrite app_nil_r|]. split; [by left|by intros [?|[_ ?]]]. }
  rewrite foldl_app. simpl. set (out' := foldl _ out bs) in *. rewrite lookup_insert.
  destruct (decide (key = fk)) as [<-|Hne].
  - simpl. rewrite IH1, <-(assoc_L (++)). split; [done|]. split; [|by eexists].
    intros _. right. split; [done|]. by destruct bs.
  - rewrite IH1, IH2. split; [done|]. naive_solver.
Qed.

Lemma snapshot_fold fk order :
  let out := foldl snapshot_slice (∅ : EndpointsMap) order in
  default [] (out !! fk) = backends_for fk order ∧ (is_Some (out !! fk) ↔ backends_for fk order ≠ []).
Proof.
  induction order as [|es order [IH1 IH2]] using rev_ind; simpl.
  { rewrite lookup_empty. split; [done|]. split; [by intros []|by intros []]. }
  rewrite foldl_app. simpl. set (out := foldl snapshot_slice ∅ order) in *.
  unfold backends_for in *. rewrite list.filter_app, bind_app, filter_cons, filter_nil.
  set (old := filter (slice_for fk) order ≫= slice_backends) in *.
  unfold snapshot_slice. destruct (decide (slice_for fk es)) as [[Hkey Htype]|Hno].
  - rewrite Hkey. rewrite decide_False by (by intros []). simpl. rewrite app_nil_r.
    destruct (append_backends out fk (slice_backends es) fk) as [H1 H2]. rewrite decide_True in H1 by done.
    rewrite H1, H2, IH1, IH2. split; [done|]. destruct old, (slice_backends es); naive_solver.
  - simpl. rewrite app_nil_r. destruct (frontendKeyForEndpointSlice (Some es)) as [key|] eqn:Hkey; [|by split].
    case_decide as Htype; [by split|].
    destruct (append_backends out key (slice_backends es) fk) as [H1 H2].
    assert (key ≠ fk) as Hne. { intros ->. apply Hno. by split. }
    rewrite decide_False in H1 by done. rewrite H1, H2, app_nil_r, IH1, IH2. split; [done|]. naive_solver.
Qed.

(** A snapshot, frontend by frontend. *)
Lemma snapshot_lookup order fk :
  EndpointsChangeTracker_Snapshot order !! fk
  = match backends_for fk order with
    | [] => None
    | bs => Some (slices_SortFunc (cmp_on Endpoint_String) bs)
    end.
Proof.
  destruct (snapshot_fold fk order) as [H1 H2]. unfold EndpointsChangeTracker_Snapshot. rewrite lookup_fmap.
  destruct (foldl snapshot_slice ∅ order !! fk) as [bs|] eqn:Hbs; simpl in *.
  - subst bs. destruct (backends_for fk order); [|done]. by destruct (proj1 H2 (mk_is_Some _ _ eq_refl)).
  - by rewrite <-H1.
Qed.

(** ** The tracker *)

(** An EndpointSlice event. *)
Record slice_event := mkSliceEvent { se_slice : option EndpointSlice; se_remove : bool }.

Definition slices_step (ect : EndpointsTracker) (e : slice_event) : EndpointsTracker :=
  (EndpointsChangeTracker_Update ect (se_slice e) (se_remove e)).1.

(** [order] is a way Go may iterate over the tracker's map. *)
Definition slices_visited (ect : EndpointsTracker) (order : list EndpointSlice) : Prop :=
  order ≡ₚ (map_to_list ect).*2.

Lemma slices_visited_elem ect order es :
  slices_visited ect order → es ∈ order ↔ ∃ k, ect !! k = Some es.
Proof.
  intros ->. rewrite list_elem_of_fmap. split.
  - intros ([k x] & -> & Hin%elem_of_map_to_list). by exists k.
  - intros [k Hk]. exists (k, es). by rewrite elem_of_map_to_list.
Qed.

(** Slices are tracked under their own name: the last one reported. *)
Lemma slices_step_lookup ect e k :
  slices_step ect e !! k
  = match se_slice e with
    | Some es => if decide (meta_key (es_meta es) = k) then (if se_remove e then None else Some es) else ect !! k
    | None => ect !! k
    end.
Proof.
  unfold slices_step, EndpointsChangeTracker_Update. destruct e as [[es|] []]; simpl; [| |done..].
  - by rewrite lookup_delete.
  - by rewrite lookup_insert.
Qed.

Lemma snapshot_elem ect order fk b :
  slices_visited ect order →
  b ∈ default [] (EndpointsChangeTracker_Snapshot order !! fk) ↔
  ∃ k es, ect !! k = Some es ∧ slice_for fk es ∧ slice_offers es b.
Proof.
  intros Hv. rewrite snapshot_lookup.
  assert (Hin : b ∈ backends_for fk order ↔ ∃ k es, ect !! k = Some es ∧ slice_for fk es ∧ slice_offers es b).
  { unfold backends_for. rewrite list_elem_of_bind. setoid_rewrite list_elem_of_filter.
    setoid_rewrite slice_backends_iff. setoid_rewrite (slices_visited_elem _ _ _ Hv). naive_solver. }
  rewrite <-Hin. destruct (backends_for fk order) as [|b0 bs]; [done|]. simpl.
  unfold slices_SortFunc. by rewrite elem_of_less_sort.
Qed.

(** The backends a snapshot holds for a frontend
    are exactly the ready IPv4 TCP endpoints of the tracked slices labelled for
    it, in the order of their printed form; and two snapshots of the same
    tracker are equal however Go iterates over its map. *)
Theorem endpoint_tracker_snapshot ect order fk :
  slices_visited ect order →
  (∀ b, b ∈ default [] (EndpointsChangeTracker_Snapshot order !! fk) ↔
        ∃ k es, ect !! k = Some es ∧ slice_for fk es ∧ slice_offers es b) ∧
  (∀ bs, EndpointsChangeTracker_Snapshot order !! fk = Some bs →
     bs ≠ [] ∧ sorted_by (λ x y, str_lt (Endpoint_String x) (Endpoint_String y)) bs) ∧
  ∀ order', slices_visited ect order' →
    EndpointsChangeTracker_Snapshot order' !! fk = EndpointsChangeTracker_Snapshot order !! fk.
Proof.
  intros Hv. split_and!.
  - intros b. by apply snapshot_elem.
  - intros bs. rewrite snapshot_lookup. destruct (backends_for fk order) as [|b0 bs0] eqn:E; [done|]. intros [= <-]. split.
    + intros Hnil. apply (f_equal length) in Hnil. unfold slices_SortFunc in Hnil. by rewrite length_less_sort in Hnil.
    + apply slices_SortFunc_sorted.
  - intros order' Hv'. rewrite !snapshot_lookup.
    assert (Hp : backends_for fk order' ≡ₚ backends_for fk order).
    { unfold backends_for. apply bind_Permutation. by rewrite Hv, Hv'. }
    assert (Hplain : Forall plain_backend (backends_for fk order')).
    { apply list.Forall_forall. intros b (es & Hb & _)%list_elem_of_bind.
      eapply list.Forall_forall; [apply slice_backends_plain|done]. }
    assert (Hsort : slices_SortFunc (cmp_on Endpoint_String) (backends_for fk order')
                    = slices_SortFunc (cmp_on Endpoint_String) (backends_for fk order)).
    { apply less_sort_unique; [apply _| |done]. rewrite list.Forall_forall in Hplain.
      intros x y Hx Hy. rewrite !cmp_on_lt. intros. apply Endpoint_String_inj; [by apply Hplain..|].
      by apply str_lt_antisym. }
    destruct (backends_for fk order') as [|b bs], (backends_for fk order) as [|b' bs']; try done.
    + by apply Permutation_nil_l in Hp.
    + by apply Permutation_nil_r in Hp.
    + by rewrite Hsort.
Qed.

(** ** The witness *)

(** One ready and one unready backend of the Gateway's only listener. *)
Definition tracked_slice : EndpointSlice :=
  mkEndpointSlice
    (mkMeta "default" "gw-tcp" "" 1 None
       {[LabelManagedBy := ManagedByValue; GatewayNameLabelKey := "gw"; GatewayListenerLabelKey := "tcp"]} [] [])
    AddressTypeIPv4 [mkEndpointPort (Some ProtocolTCP) (Some 8080); mkEndpointPort (Some ProtocolTCP) None]
    [mkEndpoint ["10.1.0.7"] (Some true) None None; mkEndpoint ["10.1.0.8"] (Some false) None None;
     mkEndpoint ["10.1.0.5"; "fd00::1"] None None None].

Definition slice_events : list slice_event :=
  [mkSliceEvent None false; mkSliceEvent (Some tracked_slice) true; mkSliceEvent (Some tracked_slice) false].

Lemma endpoint_tracker_snapshot_witness :
  let ect := foldl slices_step NewEndpointsChangeTracker slice_events in
  let out := EndpointsChangeTracker_Snapshot (map_to_list ect).*2 in
  let fk := mkFrontendKey (mkNN "default" "gw") "tcp" in
  out !! fk = Some [NewEndpoint "10.1.0.5" 8080; NewEndpoint "10.1.0.7" 8080] ∧
  ∃ k es, ect !! k = Some es ∧ slice_for fk es ∧ slice_offers es (NewEndpoint "10.1.0.7" 8080).
Proof.
  intros ect out fk.
  assert (H : out !! fk = Some [NewEndpoint "10.1.0.5" 8080; NewEndpoint "10.1.0.7" 8080])
    by (vm_compute; reflexivity).
  split; [exact H|].
  destruct (endpoint_tracker_snapshot ect (map_to_list ect).*2 fk) as (Hin & _); [exact (Permutation_refl _)|].
  apply Hin. unfold out in H. rewrite H. right. by left.
Defined.
