(* ===== verification/Netlink.v ===== *)
(** * internal/agent/nftables/netlink.go

    The ruleset the agent wants, and its translation into one batch of nftables
    operations.  The vendored google/nftables connection is the class
    [nftConn]; its objects keep the fields the source sets. *)

From S2P Require Import Prelude GoNet GoStrings KubeTypes.

(** ** Vendored enumerations, as far as they are used *)

Inductive TableFamily := TableFamilyIPv4.
Inductive ChainHook := ChainHookPrerouting | ChainHookOutput.
Inductive ChainPriority := ChainPriorityNATDest.
Inductive ChainType := ChainTypeNAT.
Inductive ChainPolicy := ChainPolicyAccept.
Inductive PayloadBase := PayloadBaseNetworkHeader | PayloadBaseTransportHeader.
Inductive CmpOp := CmpOpEq.
Inductive MetaKey := MetaKeyL4PROTO.
Inductive VerdictKind := VerdictJump.
Inductive NumgenType := NFT_NG_RANDOM.
Inductive NATType := NATTypeDestNAT.
Inductive SetDatatype := TypeInteger | TypeVerdict.

Definition IPPROTO_TCP : Z := 6.

(** [expr.Any]: the expressions the source builds. *)
Inductive expr :=
| Payload (DestRegister : Z) (Base : PayloadBase) (Offset Len : Z)
| Cmp (Op : CmpOp) (Register : Z) (Data : list Z)
| Meta (Key : MetaKey) (Register : Z)
| Verdict (Kind : VerdictKind) (Chain : string)
| Numgen (Register : Z) (Type_ : NumgenType) (Modulus Offset : Z)
| Lookup (SourceRegister DestRegister : Z) (IsDestRegSet : bool) (SetName : string) (SetID : Z)
| Immediate (Register : Z) (Data : list Z)
| NAT (Type_ : NATType) (Family : TableFamily) (RegAddrMin RegProtoMin : Z).

(** ** Vendored objects *)

Record Table := mkTable { t_Name : string; t_Family : TableFamily }.

Record Chain := mkChain {
  ch_Name : string;
  ch_Table : Table;
  ch_Hooknum : option ChainHook;
  ch_Priority : option ChainPriority;
  ch_Type : option ChainType;
  ch_Policy : option ChainPolicy;
}.

(** [ID] is assigned by [AddSet]. *)
Record NftSet := mkSet {
  set_Table : Table; set_Name : string; set_ID : Z;
  set_KeyType : SetDatatype; set_DataType : SetDatatype; set_IsMap : bool;
}.

Record SetElement := mkElement { el_Key : list Z; el_VerdictData : option expr }.

(** [Chain] is a pointer the source reads out of a map. *)
Record Rule := mkRule' { ru_Table : Table; ru_Chain : option Chain; ru_Exprs : list expr }.

(** ** The ruleset *)

Definition preroutingChainName : string := "prerouting".
Definition outputChainName : string := "output".

Record baseChainSpec := mkBaseChain {
  bc_name : string;
  bc_hook : ChainHook;
  bc_priority : ChainPriority;
  bc_chainType : ChainType;
  bc_policy : ChainPolicy;
}.

Record backendChainSpec := mkBackendChain {
  bk_chainName : string; bk_backendIP : list Z; bk_backendPort : Z }.

Record serviceChainSpec := mkServiceChain {
  sv_serviceKey : string;
  sv_chainName : string;
  sv_dispatchMapName : string;
  sv_clusterIP : list Z;
  sv_servicePort : Z;
  sv_backendChains : list backendChainSpec;
}.

Record rulesetSpec := mkRuleset {
  rs_tableName : string;
  rs_family : TableFamily;
  rs_baseChains : list baseChainSpec;
  rs_serviceChains : list serviceChainSpec;
}.

Definition defaultBaseChains : list baseChainSpec :=
  [mkBaseChain preroutingChainName ChainHookPrerouting ChainPriorityNATDest ChainTypeNAT ChainPolicyAccept;
   mkBaseChain outputChainName ChainHookOutput ChainPriorityNATDest ChainTypeNAT ChainPolicyAccept].

(** A nil address is [None]. *)
Definition copyIPv4 (ip : option (list Z)) : option (list Z) := ip ← ip; To4 ip.

(** ** The connection *)

(** [binaryutil]: big-endian and host-endian encodings. *)
Class BinaryUtil := {
  BigEndian_PutUint16 : Z → list Z;
  NativeEndian_PutUint32 : Z → list Z;
}.

(** Documented: most significant byte first, respectively the host's own byte
    order; both tell the values of their width apart. *)
Class BinaryUtilLaws `{!BinaryUtil} : Prop := {
  BigEndian_PutUint16_spec v : 0 ≤ v < 2 ^ 16 → BigEndian_PutUint16 v = [v / 256; v mod 256];
  NativeEndian_PutUint32_inj v w :
    0 ≤ v < 2 ^ 32 → 0 ≤ w < 2 ^ 32 → NativeEndian_PutUint32 v = NativeEndian_PutUint32 w → v = w;
}.

(** The interface [nftConn] with its factory, and the context of a call.  [S]
    is the world the connection lives in; [New] opens a connection with an
    empty batch, [Flush] sends the batch; [AddSet] may change the set object. *)
Class nftConn (S : Type) := {
  ctx_Err : S → option error * S;
  conn_New : S → result unit * S;
  conn_DelTable : Table → S → S;
  conn_AddTable : Table → S → Table * S;
  conn_AddChain : Chain → S → Chain * S;
  conn_AddSet : NftSet → list SetElement → S → (NftSet * result unit) * S;
  conn_AddRule : Rule → S → S;
  conn_Flush : S → result unit * S;
}.

(** ** Expressions *)

Section exprs.
Context `{BU : !BinaryUtil}.

Definition serviceJumpExprs (service : serviceChainSpec) : list expr :=
  [Payload 1 PayloadBaseNetworkHeader 16 4;
   Cmp CmpOpEq 1 (sv_clusterIP service);
   Meta MetaKeyL4PROTO 1;
   Cmp CmpOpEq 1 [IPPROTO_TCP];
   Payload 1 PayloadBaseTransportHeader 2 2;
   Cmp CmpOpEq 1 (BigEndian_PutUint16 (sv_servicePort service));
   Verdict VerdictJump (sv_chainName service)].

(** [uint32(len(...))]. *)
Definition serviceDispatchExprs (service : serviceChainSpec) (dispatchMap : NftSet) : list expr :=
  [Numgen 1 NFT_NG_RANDOM (Z.of_nat (length (sv_backendChains service)) mod 2 ^ 32) 0;
   Lookup 1 0 true (set_Name dispatchMap) (set_ID dispatchMap)].

Definition serviceDispatchMapElements (service : serviceChainSpec) : list SetElement :=
  imap (λ i backend, mkElement (NativeEndian_PutUint32 (Z.of_nat i mod 2 ^ 32))
                       (Some (Verdict VerdictJump (bk_chainName backend))))
    (sv_backendChains service).

Definition backendDNATExprs (backend : backendChainSpec) : list expr :=
  [Immediate 1 (bk_backendIP backend);
   Immediate 2 (BigEndian_PutUint16 (bk_backendPort backend));
   NAT NATTypeDestNAT TableFamilyIPv4 1 2].

(** ** The batch *)

Context {S : Type} {C : nftConn S}.

Definition base_chain (table : Table) (chainSpec : baseChainSpec) : Chain :=
  mkChain (bc_name chainSpec) table (Some (bc_hook chainSpec)) (Some (bc_priority chainSpec))
    (Some (bc_chainType chainSpec)) (Some (bc_policy chainSpec)).

Definition plain_chain (table : Table) (name : string) : Chain := mkChain name table None None None None.

Definition dispatch_map (table : Table) (name : string) : NftSet :=
  mkSet table name 0 TypeInteger TypeVerdict true.

(** Adding a list of chains, and recording what [AddChain] returns by name. *)
Fixpoint add_chains (chains : list Chain) (m : gmap string Chain) (s : S) : gmap string Chain * S :=
  match chains with
  | [] => (m, s)
  | chain :: chains =>
      let '(chain', s) := conn_AddChain chain s in
      add_chains chains (<[ch_Name chain := chain']> m) s
  end.

(** The maps [serviceChains], [backendChains] and [dispatchMaps]. *)
Record queued := mkQueued {
  q_serviceChains : gmap string Chain;
  q_backendChains : gmap string Chain;
  q_dispatchMaps : gmap string NftSet;
}.

(** The loop that adds every service's chains and map. *)
Fixpoint add_services (table : Table) (services : list serviceChainSpec) (q : queued) (s : S)
    : result queued * S :=
  match services with
  | [] => (Ok q, s)
  | service :: services =>
      let '(chain, s) := conn_AddChain (plain_chain table (sv_chainName service)) s in
      let '(backendChains, s) :=
        add_chains ((λ b, plain_chain table (bk_chainName b)) <$> sv_backendChains service)
          (q_backendChains q) s in
      let '((dispatchMap, r), s) :=
        conn_AddSet (dispatch_map table (sv_dispatchMapName service))
          (serviceDispatchMapElements service) s in
      match r with
      | Err e => (Err (WrapError ("add dispatch map " +:+ sv_dispatchMapName service) e), s)
      | Ok _ =>
          add_services table services
            (mkQueued (<[sv_chainName service := chain]> (q_serviceChains q)) backendChains
               (<[sv_chainName service := dispatchMap]> (q_dispatchMaps q))) s
      end
  end.

Definition add_rules (rules : list Rule) (s : S) : S := foldl (λ s r, conn_AddRule r s) s rules.

(** The rules of one service's chain; reading a missing map entry is a nil
    dereference, [None]. *)
Definition dispatch_rule (table : Table) (q : queued) (service : serviceChainSpec) : option Rule :=
  dispatchMap ← q_dispatchMaps q !! sv_chainName service;
  Some (mkRule' table (q_serviceChains q !! sv_chainName service) (serviceDispatchExprs service dispatchMap)).

Definition jump_rule (table : Table) (chain : option Chain) (service : serviceChainSpec) : Rule :=
  mkRule' table chain (serviceJumpExprs service).

Definition backend_rules (table : Table) (q : queued) (service : serviceChainSpec) : list Rule :=
  (λ b, mkRule' table (q_backendChains q !! bk_chainName b) (backendDNATExprs b)) <$> sv_backendChains service.

(** [None] is a panic; [dispatchMaps] has an entry per service by then. *)
Definition queueRuleset (spec : rulesetSpec) (deleteTable : bool) (s : S) : option (result unit) * S :=
  let table := mkTable (rs_tableName spec) (rs_family spec) in
  let s := if deleteTable then conn_DelTable table s else s in
  let '(table, s) := conn_AddTable table s in
  let '(baseChains, s) := add_chains (base_chain table <$> rs_baseChains spec) ∅ s in
  let services := rs_serviceChains spec in
  match add_services table services (mkQueued ∅ ∅ ∅) s with
  | (Err e, s) => (Some (Err e), s)
  | (Ok q, s) =>
      let s := add_rules (jump_rule table (baseChains !! preroutingChainName) <$> services) s in
      let s := add_rules (jump_rule table (baseChains !! outputChainName) <$> services) s in
      match mapM (dispatch_rule table q) services with
      | None => (None, s)
      | Some rules =>
          let s := add_rules rules s in
          (Some (Ok tt), add_rules (services ≫= backend_rules table q) s)
      end
  end.

(** ** Applying *)

Definition applyOnce (spec : option rulesetSpec) (deleteTable : bool) (s : S) : option (result unit) * S :=
  match spec with
  | None => (Some (Err (ErrorString "ruleset spec must not be nil")), s)
  | Some spec =>
      match ctx_Err s with
      | (Some err, s) => (Some (Err err), s)
      | (None, s) =>
          match conn_New s with
          | (Err err, s) => (Some (Err (WrapError "open nftables conn" err)), s)
          | (Ok _, s) =>
              match queueRuleset spec deleteTable s with
              | (None, s) => (None, s)
              | (Some (Err err), s) => (Some (Err err), s)
              | (Some (Ok _), s) =>
                  match ctx_Err s with
                  | (Some err, s) => (Some (Err err), s)
                  | (None, s) =>
                      match conn_Flush s with
                      | (Err err, s) => (Some (Err (WrapError "flush nftables ruleset" err)), s)
                      | (Ok _, s) => (Some (Ok tt), s)
                      end
                  end
              end
          end
      end
  end.

Definition ENOENT : Z := 2.
Definition ErrNotExist : error := Sentinel "file does not exist".

(** [errors.Is]: an error matches if it or an error it wraps equals the target
    or says so itself; an errno equals another by number, and [ENOENT] says it
    is [os.ErrNotExist]. *)
Definition error_matches (err target : error) : bool :=
  match err, target with
  | Errno n _, Errno m _ => bool_decide (n = m)
  | Errno n _, Sentinel _ => bool_decide (n = ENOENT ∧ target = ErrNotExist)
  | _, _ => bool_decide (err = target)
  end.

Fixpoint errors_Is (err target : error) : bool :=
  error_matches err target ||
  match err with WrapError _ inner => errors_Is inner target | _ => false end.

Definition isTableMissingError (err : error) : bool :=
  errors_Is err ErrNotExist || errors_Is err (Errno ENOENT "no such file or directory").

Definition Apply (spec : option rulesetSpec) (s : S) : option (result unit) * S :=
  match ctx_Err s with
  | (Some err, s) => (Some (Err err), s)
  | (None, s) =>
      match applyOnce spec true s with
      | (Some (Err err), s) =>
          if negb (isTableMissingError err) then (Some (Err err), s) else applyOnce spec false s
      | r => r
      end
  end.

End exprs.
