(* ===== verification/Proxier.v ===== *)
(** * internal/agent/nftables/proxier.go

    From the trackers' snapshots to the desired ruleset, and the state of the
    proxier with the operations on it.  The loop that drives [sync] is in
    [SyncLoop.v]. *)

From S2P Require Import Prelude GoNet GoStrings KubeTypes GoHash Trackers Netlink.

(** ** Names and ports *)

(** The range guard makes the conversion to [uint16] exact. *)
Definition toUint16Port (port : Z) : option Z :=
  if (port <=? 0) || (port >? 65535) then None else Some (port mod 2 ^ 16).

Definition hashedName (prefix in_ : string) : string :=
  prefix +:+ hex_EncodeToString (take 8 (sha256_Sum (bytes_of in_))).

Definition chainNameFor (in_ : string) : string := hashedName "svc_" in_.

(** [serviceChainName[len("svc_"):]]. *)
Definition dispatchMapNameFor (serviceChainName : string) : string :=
  "map_" +:+ String.substring 4 (String.length serviceChainName - 4) serviceChainName.

Definition backendChainNameFor (serviceChainName : string) (index : nat) : string :=
  serviceChainName +:+ "_be" +:+ pretty (Z.of_nat index).

(** ** The desired ruleset *)

(** One round of the loop; the name counts the backends kept so far. *)
Definition backend_step (serviceChainName : string) (backends : list backendChainSpec) (endpoint : Backend)
    : list backendChainSpec :=
  match toUint16Port (be_Port endpoint), copyIPv4 (ParseIP (be_IP endpoint)) with
  | Some backendPort, Some backendIP =>
      backends ++ [mkBackendChain (backendChainNameFor serviceChainName (length backends)) backendIP backendPort]
  | _, _ => backends
  end.

Definition backendChainSpecsForEndpoints (serviceChainName : string) (endpoints : list Backend)
    : list backendChainSpec :=
  foldl (backend_step serviceChainName) [] endpoints.

Section proxier.
Context `{TP : !TypesPackage}.

(** One round of the loop over the sorted keys; a missing map entry reads as a
    nil slice. *)
Definition service_for (frontends : FrontendMap) (endpoints : EndpointsMap) (key : FrontendKey)
    : option serviceChainSpec :=
  frontend ← frontends !! key;
  match toUint16Port (fr_Port frontend), copyIPv4 (Some (fr_Address frontend)) with
  | Some servicePortNumber, Some clusterIP =>
      let serviceKey := FrontendKey_String key in
      let serviceChainName := chainNameFor serviceKey in
      match backendChainSpecsForEndpoints serviceChainName (default [] (endpoints !! key)) with
      | [] => None
      | backends =>
          Some (mkServiceChain serviceKey serviceChainName (dispatchMapNameFor serviceChainName)
                  clusterIP servicePortNumber backends)
      end
  | _, _ => None
  end.

(** [order] is the order in which Go ranges over [frontends]. *)
Definition desiredRuleset (tableName : string) (order : list FrontendKey) (frontends : FrontendMap)
    (endpoints : EndpointsMap) : rulesetSpec :=
  mkRuleset tableName TableFamilyIPv4 defaultBaseChains
    (omap (service_for frontends endpoints) (slices_SortFunc (cmp_on FrontendKey_String) order)).

(** ** The proxier *)

(** Durations and times are in nanoseconds; a zero [lastSync] is [None]. *)
Record Options := mkOptions {
  opt_TableName : string; opt_SyncPeriod : Z; opt_MinSyncPeriod : Z; opt_ApplyRules : bool }.

(** [resyncCh] is a channel of capacity one: whether it holds a token. *)
Record Proxier := mkProxier {
  tableName : string;
  syncPeriod : Z;
  minSyncPeriod : Z;
  applyRules : bool;
  gatewaysSynced : bool;
  endpointSlicesSynced : bool;
  syncPending : bool;
  gatewayTracker : GatewayTracker;
  endpointTracker : EndpointsTracker;
  resyncCh : bool;
  lastSync : option Z;
}.

Definition NewProxier (cfg : Options) : result Proxier :=
  if decide (opt_TableName cfg = "") then Err (ErrorString "nftables table name must not be empty")
  else Ok (mkProxier (opt_TableName cfg) (opt_SyncPeriod cfg) (opt_MinSyncPeriod cfg) (opt_ApplyRules cfg)
             false false false NewGatewayChangeTracker NewEndpointsChangeTracker false None).

Definition Ready (p : Proxier) : bool := gatewaysSynced p && endpointSlicesSynced p.

(** Field updates. *)
Definition set_gatewaysSynced (p : Proxier) : Proxier :=
  mkProxier (tableName p) (syncPeriod p) (minSyncPeriod p) (applyRules p) true (endpointSlicesSynced p)
    (syncPending p) (gatewayTracker p) (endpointTracker p) (resyncCh p) (lastSync p).
Definition set_endpointSlicesSynced (p : Proxier) : Proxier :=
  mkProxier (tableName p) (syncPeriod p) (minSyncPeriod p) (applyRules p) (gatewaysSynced p) true
    (syncPending p) (gatewayTracker p) (endpointTracker p) (resyncCh p) (lastSync p).
Definition set_syncPending (b : bool) (p : Proxier) : Proxier :=
  mkProxier (tableName p) (syncPeriod p) (minSyncPeriod p) (applyRules p) (gatewaysSynced p)
    (endpointSlicesSynced p) b (gatewayTracker p) (endpointTracker p) (resyncCh p) (lastSync p).
Definition set_resyncCh (b : bool) (p : Proxier) : Proxier :=
  mkProxier (tableName p) (syncPeriod p) (minSyncPeriod p) (applyRules p) (gatewaysSynced p)
    (endpointSlicesSynced p) (syncPending p) (gatewayTracker p) (endpointTracker p) b (lastSync p).
Definition set_trackers (g : GatewayTracker) (e : EndpointsTracker) (p : Proxier) : Proxier :=
  mkProxier (tableName p) (syncPeriod p) (minSyncPeriod p) (applyRules p) (gatewaysSynced p)
    (endpointSlicesSynced p) (syncPending p) g e (resyncCh p) (lastSync p).
Definition set_lastSync (t : Z) (p : Proxier) : Proxier :=
  mkProxier (tableName p) (syncPeriod p) (minSyncPeriod p) (applyRules p) (gatewaysSynced p)
    (endpointSlicesSynced p) (syncPending p) (gatewayTracker p) (endpointTracker p) (resyncCh p) (Some t).

(** ** Callbacks

    A callback runs in its caller's goroutine, between other callbacks and the
    loop.  Its atomic steps: a tracker update (under the tracker's lock), a
    flag (under the proxier's lock), and the non-blocking send. *)
Inductive callback_step :=
| UpdateGateways (previous current : option Gateway)
| UpdateEndpoints (endpointSlice : option EndpointSlice) (remove : bool)
| SetGatewaysSynced
| SetEndpointSlicesSynced
| SetPending
| SendResync.

Definition requestSync : list callback_step := [SetPending; SendResync].

Definition OnGatewayAdd (gateway : option Gateway) : list callback_step :=
  UpdateGateways None gateway :: requestSync.
Definition OnGatewayUpdate (oldGateway gateway : option Gateway) : list callback_step :=
  UpdateGateways oldGateway gateway :: requestSync.
Definition OnGatewayDelete (gateway : option Gateway) : list callback_step :=
  UpdateGateways gateway None :: requestSync.
Definition OnGatewaySynced : list callback_step := SetGatewaysSynced :: requestSync.
Definition OnEndpointSliceAdd (endpointSlice : option EndpointSlice) : list callback_step :=
  UpdateEndpoints endpointSlice false :: requestSync.
Definition OnEndpointSliceUpdate (_oldEndpointSlice newEndpointSlice : option EndpointSlice)
    : list callback_step :=
  UpdateEndpoints newEndpointSlice false :: requestSync.
Definition OnEndpointSliceDelete (endpointSlice : option EndpointSlice) : list callback_step :=
  UpdateEndpoints endpointSlice true :: requestSync.
Definition OnEndpointSlicesSynced : list callback_step := SetEndpointSlicesSynced :: requestSync.

Definition run_callback_step (st : callback_step) (p : Proxier) : Proxier :=
  match st with
  | UpdateGateways previous current =>
      set_trackers (GatewayChangeTracker_Update (gatewayTracker p) previous current).1 (endpointTracker p) p
  | UpdateEndpoints es remove =>
      set_trackers (gatewayTracker p) (EndpointsChangeTracker_Update (endpointTracker p) es remove).1 p
  | SetGatewaysSynced => set_gatewaysSynced p
  | SetEndpointSlicesSynced => set_endpointSlicesSynced p
  | SetPending => set_syncPending true p
  | SendResync => set_resyncCh true p
  end.

(** ** [sync]

    The guards, read under the lock at time [now]: whether to go on to the
    snapshots, or the delay to return. *)
Definition sync_guard (now : Z) (p : Proxier) : option Z :=
  if negb (gatewaysSynced p) || negb (endpointSlicesSynced p) then Some 0
  else
    match lastSync p with
    | Some t =>
        let remaining := minSyncPeriod p - (now - t) in
        if (0 <? minSyncPeriod p) && (0 <? remaining) then
          if syncPending p then Some remaining else Some 0
        else None
    | None => None
    end.

(** After a successful application. *)
Definition sync_done (now : Z) (p : Proxier) : Proxier := set_syncPending false (set_lastSync now p).

End proxier.
