(* ===== verification/SyncLoop.v ===== *)
(** * internal/agent/nftables/proxier.go: [SyncLoop], [Sync] and the callbacks

    The loop's goroutine and any number of callbacks run interleaved.  A
    [world] is the shared proxier, where the loop is, what each running
    callback has left to do, the retry timer and the clock; [act] performs one
    atomic step of one of them.  The ticker may fire at any time. *)

From S2P Require Import Prelude GoNet GoStrings KubeTypes Trackers Netlink Proxier.

(** ** The callbacks clients may start *)

Inductive callback :=
| GatewayAdd (g : option Gateway)
| GatewayUpdated (old g : option Gateway)
| GatewayDelete (g : option Gateway)
| GatewaySynced
| EndpointSliceAdd (es : option EndpointSlice)
| EndpointSliceUpdated (old es : option EndpointSlice)
| EndpointSliceDelete (es : option EndpointSlice)
| EndpointSlicesSynced.

Definition callback_steps (cb : callback) : list callback_step :=
  match cb with
  | GatewayAdd g => OnGatewayAdd g
  | GatewayUpdated old g => OnGatewayUpdate old g
  | GatewayDelete g => OnGatewayDelete g
  | GatewaySynced => OnGatewaySynced
  | EndpointSliceAdd es => OnEndpointSliceAdd es
  | EndpointSliceUpdated old es => OnEndpointSliceUpdate old es
  | EndpointSliceDelete es => OnEndpointSliceDelete es
  | EndpointSlicesSynced => OnEndpointSlicesSynced
  end.

(** Whether a step takes the proxier's lock. *)
Definition needs_lock (st : callback_step) : bool :=
  match st with SetGatewaysSynced | SetEndpointSlicesSynced | SetPending => true | _ => false end.

(** ** The loop *)

(** Between [AtLocked] and [AtApply] the loop holds the proxier's lock; the
    snapshots it has taken are kept as the tracker contents they come from.
    [start] is the time the guards were passed. *)
Inductive loop_pc :=
| AtSelect
| AtSync
| AtLocked (start : Z)
| AtEndpoints (start : Z) (g : GatewayTracker)
| AtApply (start : Z) (g : GatewayTracker) (e : EndpointsTracker)
| AtReturn (r : result Z)
| Stopped.

Definition holds_lock (pc : loop_pc) : bool :=
  match pc with AtLocked _ | AtEndpoints _ _ | AtApply _ _ _ => true | _ => false end.

(** The last three fields are history: what was last applied, whether the last
    [sync] failed, and when each successful application started and ended,
    latest first. *)
Record world := mkWorld {
  w_proxier : Proxier;
  w_pc : loop_pc;
  w_callers : list (list callback_step);
  w_retry : option Z;
  w_now : Z;
  w_applied : option (GatewayTracker * EndpointsTracker);
  w_failed : bool;
  w_applies : list (Z * Z);
}.

Definition set_pc (pc : loop_pc) (w : world) : world :=
  mkWorld (w_proxier w) pc (w_callers w) (w_retry w) (w_now w) (w_applied w) (w_failed w) (w_applies w).

(** [scheduleRetry]: a stopped or running timer is set to [delay] from now, at
    least a nanosecond. *)
Definition scheduleRetry (delay : Z) (w : world) : world :=
  mkWorld (w_proxier w) (w_pc w) (w_callers w) (Some (w_now w + if delay <=? 0 then 1 else delay))
    (w_now w) (w_applied w) (w_failed w) (w_applies w).

Definition stopRetry (w : world) : world :=
  mkWorld (w_proxier w) (w_pc w) (w_callers w) None (w_now w) (w_applied w) (w_failed w) (w_applies w).

Inductive action :=
| ACall (cb : callback)          (** a client starts a callback *)
| ARun (i : nat)                 (** callback [i] makes a step *)
| ATime (d : Z)                  (** the clock advances *)
| ADone | ATicker | AResync | ARetry   (** the branches of [select] *)
| ASync                          (** [sync] takes the lock and checks its guards *)
| AGateways | AEndpoints         (** the snapshots *)
| AApplied (ok : bool)           (** the applier answers *)
| AReturn.                       (** the loop handles the result of [sync] *)

(** One step of callback [i]: it must not need a lock the loop holds. *)
Definition run_caller (i : nat) (w : world) : option world :=
  steps ← w_callers w !! i;
  match steps with
  | [] => None
  | st :: rest =>
      if needs_lock st && holds_lock (w_pc w) then None
      else Some (mkWorld (run_callback_step st (w_proxier w)) (w_pc w) (<[i := rest]> (w_callers w))
                   (w_retry w) (w_now w) (w_applied w) (w_failed w) (w_applies w))
  end.

(** A successful application: [lastSync] and [syncPending], then the unlock. *)
Definition applied_ok (start : Z) (g : GatewayTracker) (e : EndpointsTracker) (w : world) : world :=
  mkWorld (sync_done (w_now w) (w_proxier w)) (AtReturn (Ok 0)) (w_callers w) (w_retry w) (w_now w)
    (Some (g, e)) false ((start, w_now w) :: w_applies w).

Definition apply_failed : error := ErrorString "apply failed".

(** With [applyRules] unset there is no applier call, hence no failure. *)
Definition applied_err (w : world) : world :=
  mkWorld (w_proxier w) (AtReturn (Err apply_failed)) (w_callers w) (w_retry w) (w_now w)
    (w_applied w) true (w_applies w).

Definition act (a : action) (w : world) : option world :=
  match a, w_pc w with
  | ACall cb, _ =>
      Some (mkWorld (w_proxier w) (w_pc w) (w_callers w ++ [callback_steps cb]) (w_retry w) (w_now w)
              (w_applied w) (w_failed w) (w_applies w))
  | ARun i, _ => run_caller i w
  | ATime d, _ =>
      if d <? 0 then None
      else Some (mkWorld (w_proxier w) (w_pc w) (w_callers w) (w_retry w) (w_now w + d) (w_applied w)
                   (w_failed w) (w_applies w))
  | ADone, AtSelect => Some (set_pc Stopped (stopRetry w))
  | ATicker, AtSelect => Some (set_pc AtSync w)
  | AResync, AtSelect =>
      if resyncCh (w_proxier w)
      then Some (mkWorld (set_resyncCh false (w_proxier w)) AtSync (w_callers w) (w_retry w) (w_now w)
                   (w_applied w) (w_failed w) (w_applies w))
      else None
  | ARetry, AtSelect =>
      d ← w_retry w; if d <=? w_now w then Some (set_pc AtSync (stopRetry w)) else None
  | ASync, AtSync =>
      match sync_guard (w_now w) (w_proxier w) with
      | Some delay =>
          Some (mkWorld (w_proxier w) (AtReturn (Ok delay)) (w_callers w) (w_retry w) (w_now w)
                  (w_applied w) false (w_applies w))
      | None => Some (set_pc (AtLocked (w_now w)) w)
      end
  | AGateways, AtLocked start => Some (set_pc (AtEndpoints start (gatewayTracker (w_proxier w))) w)
  | AEndpoints, AtEndpoints start g => Some (set_pc (AtApply start g (endpointTracker (w_proxier w))) w)
  | AApplied true, AtApply start g e => Some (applied_ok start g e w)
  | AApplied false, AtApply _ _ _ => if applyRules (w_proxier w) then Some (applied_err w) else None
  | AReturn, AtReturn (Err _) => Some (set_pc AtSelect w)
  | AReturn, AtReturn (Ok delay) =>
      if 0 <? delay then Some (set_pc AtSelect (scheduleRetry delay w))
      else Some (set_pc AtSelect (stopRetry w))
  | _, _ => None
  end.

Fixpoint run (acts : list action) (w : world) : option world :=
  match acts with
  | [] => Some w
  | a :: acts => w ← act a w; run acts w
  end.

(** The loop starts at its [select] with a fresh proxier. *)
Definition start (p : Proxier) (now : Z) : world := mkWorld p AtSelect [] None now None false [].

(** The worlds of an agent created with [cfg]. *)
Inductive reachable (cfg : Options) : world → Prop :=
| reachable_start p now : NewProxier cfg = Ok p → reachable cfg (start p now)
| reachable_act w a w' : reachable cfg w → act a w = Some w' → reachable cfg w'.
