(* ===== verification/SyncLoopSpec.v ===== *)
(** * The agent's sync loop: properties

    No wake-up is lost: whatever the interleaving of callbacks with the loop,
    an agent whose applied ruleset is out of date is about to be told so or has
    a wake-up armed.  Successful applications are at least the minimum sync
    period apart. *)

From S2P Require Import Prelude GoNet GoStrings KubeTypes Trackers Netlink Proxier SyncLoop.

(** ** What running callbacks still owe *)

Definition owes (st : callback_step) (callers : list (list callback_step)) : Prop :=
  Exists (λ steps, st ∈ steps) callers.

(** What is left of a callback: its own step and the request, or a rest of the
    request. *)
Definition callback_shape (steps : list callback_step) : Prop :=
  (∃ st, steps = st :: requestSync ∧ st ≠ SetPending ∧ st ≠ SendResync) ∨
  steps = requestSync ∨ steps = [SendResync] ∨ steps = [].

Lemma callback_steps_shape cb : callback_shape (callback_steps cb).
Proof. left. destruct cb; eexists; (split; [reflexivity|done]). Qed.

Lemma callback_shape_tail st rest : callback_shape (st :: rest) → callback_shape rest.
Proof.
  intros [(st' & [= -> ->] & _)|[[= -> ->]|[[= -> ->]|[=]]]]; unfold callback_shape; auto.
Qed.

(** A step other than the request's own leaves the whole request to do. *)
Lemma callback_shape_request st rest :
  callback_shape (st :: rest) → st ≠ SetPending → st ≠ SendResync → SetPending ∈ rest.
Proof. intros [(st' & [= -> ->] & _)|[[= -> ->]|[[= -> ->]|[=]]]] ??; try done. by left. Qed.

Lemma callback_shape_send rest : callback_shape (SetPending :: rest) → SendResync ∈ rest.
Proof. intros [(st' & [= <- ->] & ? & ?)|[[= ->]|[[=]|[=]]]]; [done|]. by left. Qed.

Lemma owes_rest st i rest callers :
  is_Some (callers !! i) → st ∈ rest → owes st (<[i := rest]> callers).
Proof.
  intros Hi Hst. apply list.Exists_exists. exists rest. split; [|done].
  apply list_elem_of_lookup_2 with i. apply list_lookup_insert_eq. by apply lookup_lt_is_Some.
Qed.

Lemma owes_other st st' i rest callers :
  callers !! i = Some (st' :: rest) → st ≠ st' → owes st callers → owes st (<[i := rest]> callers).
Proof.
  intros Hi Hne (steps & Hin & Hst)%list.Exists_exists. apply list_elem_of_lookup in Hin as [j Hj].
  destruct (decide (i = j)) as [<-|Hij].
  - rewrite Hi in Hj. injection Hj as <-. apply owes_rest; [by eexists|].
    by apply list.elem_of_cons in Hst as [->|].
  - apply list.Exists_exists. exists steps. split; [|done].
    apply list_elem_of_lookup_2 with j. by rewrite list_lookup_insert_ne.
Qed.

Lemma owes_call st steps callers : owes st callers → owes st (callers ++ [steps]).
Proof. intros H. apply list.Exists_app. by left. Qed.

Lemma owes_idle st callers : Forall (λ steps, steps = []) callers → ¬ owes st callers.
Proof.
  intros Hall (steps & Hin & Hst)%list.Exists_exists. rewrite list.Forall_forall in Hall.
  rewrite (Hall _ Hin) in Hst. by apply elem_of_nil in Hst.
Qed.

(** ** The invariant *)

Abbreviation trackers w := (gatewayTracker (w_proxier w), endpointTracker (w_proxier w)).

(** Somebody has sent, or is about to send, on [resyncCh]. *)
Definition woken (w : world) : Prop :=
  resyncCh (w_proxier w) = true ∨ owes SendResync (w_callers w).

(** Where no send is needed: a sync is under way, a retry is armed or about to
    be, or the last attempt failed (the ticker retries those). *)
Definition excused (w : world) : Prop :=
  match w_pc w with
  | AtSelect => w_failed w = true ∨ is_Some (w_retry w)
  | AtReturn (Ok delay) => 0 < delay
  | _ => True
  end.

(** A pending sync of a ready proxier has a wake-up. *)
Definition wake_inv (w : world) : Prop :=
  (Ready (w_proxier w) = true → syncPending (w_proxier w) = true → woken w ∨ excused w) ∧
  ∀ e, w_pc w = AtReturn (Err e) → w_failed w = true.

(** What has not been applied is pending, or will be. *)
Definition stale_inv (w : world) : Prop :=
  (Ready (w_proxier w) = true → w_applied w ≠ Some (trackers w) →
   syncPending (w_proxier w) = true ∨ owes SetPending (w_callers w)) ∧
  match w_pc w with
  | AtEndpoints _ g => g = gatewayTracker (w_proxier w) ∨ owes SetPending (w_callers w)
  | AtApply _ g e => (g, e) = trackers w ∨ owes SetPending (w_callers w)
  | _ => True
  end.

Definition shape_inv (w : world) : Prop := Forall callback_shape (w_callers w).

(** [act] by cases. *)
Ltac act_cases H :=
  unfold act in H;
  repeat match type of H with
  | context [match ?x with _ => _ end] => destruct x eqn:?; simplify_eq/=
  | (_ ← ?x; _) = Some _ => destruct x eqn:?; simplify_eq/=
  end.

Lemma run_caller_inv i w w' :
  run_caller i w = Some w' →
  ∃ st rest, w_callers w !! i = Some (st :: rest) ∧ (needs_lock st = true → holds_lock (w_pc w) = false) ∧
    w' = mkWorld (run_callback_step st (w_proxier w)) (w_pc w) (<[i := rest]> (w_callers w))
           (w_retry w) (w_now w) (w_applied w) (w_failed w) (w_applies w).
Proof.
  unfold run_caller. intros ([|st rest] & Hi & H)%bind_Some; [done|].
  destruct (needs_lock st) eqn:Hl, (holds_lock (w_pc w)) eqn:Hp; simplify_eq/=;
    (exists st, rest; split_and!; [done|by rewrite ?Hl|done]).
Qed.

Lemma shape_act a w w' : shape_inv w → act a w = Some w' → shape_inv w'.
Proof.
  unfold shape_inv. intros Hs Hact.
  destruct a; try (act_cases Hact; done).
  - injection Hact as <-. apply Forall_app_2; [done|]. by apply Forall_singleton, callback_steps_shape.
  - apply run_caller_inv in Hact as (st & rest & Hi & _ & ->).
    apply list.Forall_insert; [done|]. eapply callback_shape_tail, (Forall_lookup_1 _ _ _ _ Hs Hi).
Qed.


(** After a callback's step the send has happened or is still to come. *)
Lemma run_woken i w w' : shape_inv w → run_caller i w = Some w' → woken w'.
Proof.
  intros Hs (st & rest & Hi & _ & ->)%run_caller_inv.
  pose proof (Forall_lookup_1 _ _ _ _ Hs Hi) as Hshape. unfold woken. simpl.
  assert (Hsend : SendResync ∈ rest → owes SendResync (<[i:=rest]> (w_callers w)))
    by (apply owes_rest; by eexists).
  destruct Hshape as [(st' & [= -> ->] & _)|[[= -> ->]|[[= -> ->]|[=]]]].
  - right. apply Hsend. by right; left.
  - right. apply Hsend. by left.
  - by left.
Qed.

(** What the guards say. *)
Lemma sync_guard_some now p d :
  sync_guard now p = Some d →
  (Ready p = false ∧ d = 0) ∨
  (Ready p = true ∧ ∃ t, lastSync p = Some t ∧ 0 < minSyncPeriod p ∧ now < t + minSyncPeriod p ∧
     d = if syncPending p then t + minSyncPeriod p - now else 0).
Proof.
  unfold sync_guard, Ready. rewrite <-negb_andb.
  destruct (_ && _); simpl; [|intros [= <-]; auto]. destruct (lastSync p) as [t|]; [|done].
  destruct (0 <? minSyncPeriod p) eqn:H1; simpl; [|done].
  destruct (0 <? minSyncPeriod p - (now - t)) eqn:H2; [|done].
  intros H. right. split; [done|]. exists t.
  destruct (syncPending p); injection H as <-; (split_and!; [done|lia..|]); lia.
Qed.

Lemma sync_guard_none now p :
  sync_guard now p = None →
  Ready p = true ∧ ∀ t, lastSync p = Some t → 0 < minSyncPeriod p → t + minSyncPeriod p ≤ now.
Proof.
  unfold sync_guard, Ready. rewrite <-negb_andb.
  destruct (_ && _); simpl; [|done]. destruct (lastSync p) as [t|]; [|done].
  destruct (0 <? minSyncPeriod p) eqn:H1; simpl; [|split; [done|lia]].
  destruct (0 <? minSyncPeriod p - (now - t)) eqn:H2; [by destruct (syncPending p)|].
  intros _. split; [done|]. intros t' [= <-] _. lia.
Qed.

#[local] Arguments sync_guard : simpl never.

Lemma wake_act a w w' : shape_inv w → wake_inv w → act a w = Some w' → wake_inv w'.
Proof.
  intros Hs [Hw Hf] Hact. destruct a.
  2: { split; [intros _ _; left; by eapply run_woken|].
       apply run_caller_inv in Hact as (st & rest & _ & _ & ->). exact Hf. }
  all: unfold wake_inv, woken, excused in *; destruct w as [p pc cs rt nw ap fl als]; simpl in *; act_cases Hact.
  all: try (split; [naive_solver eauto using owes_call|naive_solver]).
  - split; [|done]. intros Hr Hp. apply sync_guard_some in Heqo as [[? _]|(_ & t & _ & _ & ? & ->)]; [congruence|].
    rewrite Hp. right. lia.
  - split; [|done]. intros Hr Hp. destruct (Hw Hr Hp); [by left|lia].
Qed.

Lemma stale_act a w w' : shape_inv w → stale_inv w → act a w = Some w' → stale_inv w'.
Proof.
  intros Hs [Hst Hpc] Hact. destruct a.
  2: { apply run_caller_inv in Hact as (st & rest & Hi & Hlock & ->).
       pose proof (Forall_lookup_1 _ _ _ _ Hs Hi) as Hshape.
       assert (Hrest : SetPending ∈ rest → owes SetPending (<[i:=rest]> (w_callers w)))
         by (apply owes_rest; by eexists).
       assert (Hkeep : st ≠ SetPending → owes SetPending (w_callers w) → owes SetPending (<[i:=rest]> (w_callers w)))
         by (intros ?; eapply owes_other; [done|congruence]).
       assert (Hreq : st ≠ SetPending → st ≠ SendResync → owes SetPending (<[i:=rest]> (w_callers w)))
         by (intros; eapply Hrest, callback_shape_request; eauto).
       unfold stale_inv in *; destruct w as [p pc cs rt nw ap fl als]; simpl in *.
       destruct st; simpl in *; split.
       all: try (intros _ _; right; by apply Hreq).
       all: try (intros _ _; by left).
       all: try (destruct pc; try exact I; try (by specialize (Hlock eq_refl)); right; by apply Hreq).
       - intros Hr Hap. destruct (Hst Hr Hap); [by left|right; by apply Hkeep].
       - destruct pc; try exact I; (destruct Hpc; [by left|right; by apply Hkeep]). }
  all: unfold stale_inv in *; destruct w as [p pc cs rt nw ap fl als]; simpl in *; act_cases Hact.
  all: try (split; [exact Hst|first [exact I|exact Hpc|by left]]).
  - injection Hact as <-. simpl. split.
    + intros Hr Hap. destruct (Hst Hr Hap); [by left|right; by apply owes_call].
    + destruct pc; try exact I; (destruct Hpc; [by left|right; by apply owes_call]).
  - split; [exact Hst|]. destruct Hpc as [->|]; [by left|by right].
  - split; [|exact I]. intros _ Hne. destruct Hpc as [Heq|]; [|by right]. by rewrite Heq in Hne.
Qed.

(** Settings never change; recorded times are in the past and at least the
    minimum period apart; a retry is never armed for later than that period. *)
Definition spaced (min : Z) (applies : list (Z * Z)) : Prop :=
  Forall (λ a : Z * Z, a.1 ≤ a.2) applies ∧
  ∀ i later earlier, applies !! i = Some later → applies !! Datatypes.S i = Some earlier → earlier.2 + min ≤ later.1.

Definition time_inv (min : Z) (w : world) : Prop :=
  minSyncPeriod (w_proxier w) = min ∧
  lastSync (w_proxier w) = snd <$> head (w_applies w) ∧
  (∀ t, lastSync (w_proxier w) = Some t → t ≤ w_now w) ∧
  (0 < min → spaced min (w_applies w)) ∧
  (∀ d, w_retry w = Some d → d ≤ w_now w + min) ∧
  match w_pc w with
  | AtLocked start | AtEndpoints start _ | AtApply start _ _ =>
      start ≤ w_now w ∧ (∀ t, lastSync (w_proxier w) = Some t → 0 < min → t + min ≤ start)
  | AtReturn (Ok d) => d ≤ min ∨ d = 0
  | _ => True
  end.

Lemma spaced_cons min a applies :
  spaced min applies → a.1 ≤ a.2 → (∀ b, head applies = Some b → b.2 + min ≤ a.1) → spaced min (a :: applies).
Proof.
  intros [Hall Hs] Ha Hh. split; [by constructor|]. intros [|i] x y Hx Hy; simplify_eq/=; [|by eauto].
  apply Hh. by destruct applies.
Qed.

Lemma run_callback_step_time st p :
  minSyncPeriod (run_callback_step st p) = minSyncPeriod p ∧ lastSync (run_callback_step st p) = lastSync p.
Proof. by destruct st. Qed.

Lemma time_act min a w w' : time_inv min w → act a w = Some w' → time_inv min w'.
Proof.
  intros (Hmin & Hlast & Hle & Hsp & Hretry & Hpc) Hact. destruct a.
  2: { apply run_caller_inv in Hact as (st & rest & _ & _ & ->). unfold time_inv. simpl.
       destruct (run_callback_step_time st (w_proxier w)) as [-> ->]. by split_and!. }
  all: unfold time_inv in *; destruct w as [p pc cs rt nw ap fl als]; simpl in *; act_cases Hact.
  all: try (by split_and!).
  all: try (split_and!; try done; simpl; eauto; lia).
  - injection Hact as <-. by split_and!.
  - split_and!; try done.
    + intros t Ht. specialize (Hle t Ht). lia.
    + intros d0 Hd. specialize (Hretry d0 Hd). lia.
    + destruct pc as [| |s|s g|s g e|[]|]; try done; (split; [lia|by apply Hpc]).
  - split_and!; try done. apply sync_guard_some in Heqo as [[_ ->]|(_ & t & Ht & Hm & Hlt & ->)]; [by right|].
    destruct (syncPending p); [left|by right]. specialize (Hle t Ht). lia.
  - split_and!; try done. apply sync_guard_none in Heqo as [_ Heq]. eauto.
  - by split_and!; try apply Hpc.
  - by split_and!; try apply Hpc.
  - destruct Hpc as [Hstart Hgap]. split_and!; try done; [by intros t [= <-]| |by right].
    intros Hpos. apply spaced_cons; [by apply Hsp|done|]. intros b Hb. apply Hgap; [|done].
    by rewrite Hlast, Hb.
  - split_and!; try done. intros d [= <-]. case_match; lia.
Qed.

(** ** Reachable worlds *)

Lemma NewProxier_fields cfg p :
  NewProxier cfg = Ok p → p = mkProxier (opt_TableName cfg) (opt_SyncPeriod cfg) (opt_MinSyncPeriod cfg)
    (opt_ApplyRules cfg) false false false NewGatewayChangeTracker NewEndpointsChangeTracker false None.
Proof. unfold NewProxier. case_decide; congruence. Qed.

Lemma reachable_inv cfg w :
  reachable cfg w → shape_inv w ∧ wake_inv w ∧ stale_inv w ∧ time_inv (opt_MinSyncPeriod cfg) w.
Proof.
  induction 1 as [p now ->%NewProxier_fields|w a w' _ (Hs & Hw & Hst & Ht) Hact].
  - unfold shape_inv, wake_inv, stale_inv, time_inv, spaced. simpl. split_and!; try done; by constructor.
  - split_and!; eauto using shape_act, wake_act, stale_act, time_act.
Qed.

(** C24. Whatever the interleaving, successful applications
    never overlap and each starts at least the minimum sync period after the
    previous one ended. *)
Theorem sync_applies_spaced cfg w i later earlier :
  reachable cfg w → 0 < opt_MinSyncPeriod cfg →
  w_applies w !! i = Some later → w_applies w !! Datatypes.S i = Some earlier →
  earlier.1 ≤ earlier.2 ∧ earlier.2 + opt_MinSyncPeriod cfg ≤ later.1.
Proof.
  intros (_ & _ & _ & Ht)%reachable_inv Hpos Hl He.
  destruct Ht as (_ & _ & _ & Hsp & _). destruct (Hsp Hpos) as [Hall Hgap]. split; [|by eapply Hgap].
  apply (Forall_lookup_1 _ _ _ _ Hall He).
Qed.

(** ** Catching up

    One round of the loop: some time passes, a branch of [select] is taken, and
    [sync] runs with an applier that succeeds. *)
Inductive wake := Ticker | Resync | Retry.

Definition wake_action (b : wake) : action :=
  match b with Ticker => ATicker | Resync => AResync | Retry => ARetry end.

Definition round (r : Z * wake) (w : world) : option world :=
  w ← run [ATime r.1; wake_action r.2; ASync] w;
  match w_pc w with
  | AtLocked _ => run [AGateways; AEndpoints; AApplied true; AReturn] w
  | _ => act AReturn w
  end.

Fixpoint rounds (rs : list (Z * wake)) (w : world) : option world :=
  match rs with
  | [] => Some w
  | r :: rs => w ← round r w; rounds rs w
  end.

Definition elapsed (rs : list (Z * wake)) : Z := foldr (λ r acc, r.1 + acc) 0 rs.

(** The loop is at its [select] and no callback is running. *)
Definition settled (w : world) : Prop :=
  w_pc w = AtSelect ∧ Forall (λ steps, steps = []) (w_callers w).

Definition up_to_date (w : world) : Prop := w_applied w = Some (trackers w).

(** What a wake-up leaves alone. *)
Definition same_view (w w' : world) : Prop :=
  w_callers w' = w_callers w ∧ w_applied w' = w_applied w ∧ trackers w' = trackers w ∧
  Ready (w_proxier w') = Ready (w_proxier w) ∧
  minSyncPeriod (w_proxier w') = minSyncPeriod (w_proxier w) ∧
  lastSync (w_proxier w') = lastSync (w_proxier w).

Lemma wake_spec dt b w w' :
  run [ATime dt; wake_action b] w = Some w' →
  same_view w w' ∧ w_pc w' = AtSync ∧ w_now w' = w_now w + dt.
Proof.
  destruct w as [p pc cs rt nw ap fl als]. simpl. destruct (dt <? 0); [done|]. simpl.
  intros (w0 & Hact & [= ->])%bind_Some. destruct b; simpl in Hact; act_cases Hact; done.
Qed.

(** What a sync that starts ready ends in. *)
Lemma sync_spec w w1 w' :
  w_pc w = AtSync → Ready (w_proxier w) = true → act ASync w = Some w1 →
  match w_pc w1 with AtLocked _ => run [AGateways; AEndpoints; AApplied true; AReturn] w1 | _ => act AReturn w1 end
    = Some w' →
  w_pc w' = AtSelect ∧ w_callers w' = w_callers w ∧ trackers w' = trackers w ∧ w_now w' = w_now w ∧
  Ready (w_proxier w') = true ∧ minSyncPeriod (w_proxier w') = minSyncPeriod (w_proxier w) ∧
  (up_to_date w' ∨
   (w_applied w' = w_applied w ∧ lastSync (w_proxier w') = lastSync (w_proxier w) ∧
    ∃ t, lastSync (w_proxier w) = Some t ∧ 0 < minSyncPeriod (w_proxier w) ∧
         w_now w < t + minSyncPeriod (w_proxier w))).
Proof.
  destruct w as [p pc cs rt nw ap fl als]. simpl. intros -> Hready.
  destruct (sync_guard nw p) as [d|] eqn:Hg; intros [= <-]; simpl.
  - apply sync_guard_some in Hg as [[? _]|(_ & t & ? & ? & ? & _)]; [congruence|].
    intros Hr. destruct (0 <? d); injection Hr as <-; (split_and!; try done; right; split_and!; [done|done|by exists t]).
  - intros [= <-]. simpl. split_and!; try done. by left.
Qed.

Lemma round_spec dt b w w' :
  settled w → Ready (w_proxier w) = true → round (dt, b) w = Some w' →
  settled w' ∧ Ready (w_proxier w') = true ∧ trackers w' = trackers w ∧ w_now w' = w_now w + dt ∧
  minSyncPeriod (w_proxier w') = minSyncPeriod (w_proxier w) ∧
  (up_to_date w' ∨
   (w_applied w' = w_applied w ∧ lastSync (w_proxier w') = lastSync (w_proxier w) ∧
    ∃ t, lastSync (w_proxier w) = Some t ∧ 0 < minSyncPeriod (w_proxier w) ∧
         w_now w' < t + minSyncPeriod (w_proxier w))).
Proof.
  intros [_ Hidle] Hready (w1 & Hrun & Hr)%bind_Some.
  change (run [ATime (dt, b).1; wake_action (dt, b).2; ASync] w)
    with (w0 ← act (ATime dt) w; w0 ← act (wake_action b) w0; w0 ← act ASync w0; Some w0) in Hrun.
  apply bind_Some in Hrun as (wt & Ht & (w0 & Hb & (w1' & Hs & [= ->])%bind_Some)%bind_Some).
  destruct (wake_spec dt b w w0) as ((Hc & Ha & Htr & Hrd & Hm & Hl) & Hpc & Hnow).
  { simpl in Ht |- *. rewrite Ht. simpl. by rewrite Hb. }
  destruct (sync_spec w0 w1 w' Hpc) as (Hpc' & Hc' & Htr' & Hnow' & Hrd' & Hm' & Hend); [congruence|done|done|].
  split_and!; try congruence.
  - split; [done|]. by rewrite Hc', Hc.
  - rewrite Ha, Hl, Hm in Hend. destruct Hend as [?|(? & ? & t & ? & ? & ?)]; [by left|right].
    split_and!; [done|done|]. exists t. split_and!; try done. lia.
Qed.

Lemma rounds_catch_up rs w w' :
  settled w → Ready (w_proxier w) = true → rounds rs w = Some w' →
  up_to_date w ∨
  (rs ≠ [] ∧ ∀ t, lastSync (w_proxier w) = Some t → 0 < minSyncPeriod (w_proxier w) →
     t + minSyncPeriod (w_proxier w) ≤ w_now w + elapsed rs) →
  up_to_date w' ∧ trackers w' = trackers w.
Proof.
  revert w. induction rs as [|[dt b] rs IH]; intros w Hset Hready Hrun Hcase.
  { injection Hrun as <-. by destruct Hcase as [|[? _]]. }
  simpl in Hrun. apply bind_Some in Hrun as (w1 & Hr & Hrun).
  destruct (round_spec dt b w w1 Hset Hready Hr) as (Hset1 & Hready1 & Htr & Hnow & Hm & Hend).
  destruct (IH w1 Hset1 Hready1 Hrun) as [? Htr']; [|by rewrite Htr', Htr].
  destruct Hend as [Hup|(Ha & Hl & t & Ht & Hpos & Hlt)]; [by left|].
  destruct Hcase as [Hup|[_ Hcond]]; [left; unfold up_to_date in *; congruence|right].
  specialize (Hcond t Ht Hpos). simpl in Hcond. split.
  - intros ->. simpl in Hcond. lia.
  - rewrite Hl, Hm, Hnow. intros t' Ht' _. assert (t' = t) as -> by congruence. lia.
Qed.

(** C5. No update is lost.  Once both informers have synced
    and the running callbacks have returned, if what is applied is out of date
    then the last application failed, a resync token is waiting, or a retry is
    armed at most the minimum sync period ahead; and whichever branches the
    loop's [select] takes, when that period has passed and a round has run
    with a working applier, the applied ruleset is that of the current
    Gateways and EndpointSlices. *)
Theorem sync_loop_catches_up cfg w :
  reachable cfg w → settled w → Ready (w_proxier w) = true → ¬ up_to_date w →
  (w_failed w = true ∨ resyncCh (w_proxier w) = true ∨
   ∃ d, w_retry w = Some d ∧ d ≤ w_now w + opt_MinSyncPeriod cfg) ∧
  ∀ rs w', rounds rs w = Some w' → rs ≠ [] → opt_MinSyncPeriod cfg ≤ elapsed rs →
    up_to_date w' ∧ trackers w' = trackers w.
Proof.
  intros (_ & [Hw _] & [Hst _] & (Hmin & _ & Hle & _ & Hretry & _))%reachable_inv Hset Hready Hstale.
  destruct Hset as [Hpc Hidle]. split.
  - destruct (Hst Hready Hstale) as [Hp|Ho]; [|by apply owes_idle in Ho].
    destruct (Hw Hready Hp) as [[?|Ho]|He]; [by auto|by apply owes_idle in Ho|].
    unfold excused in He. rewrite Hpc in He. destruct He as [?|[d Hd]]; [by auto|]. right; right; eauto.
  - intros rs w' Hrun Hne Hel. apply (rounds_catch_up rs w w'); try done.
    right. split; [done|]. intros t Ht _. specialize (Hle t Ht). lia.
Qed.

(** ** Worked examples: a Gateway that appears right after a sync *)

Lemma reachable_run cfg acts w w' : reachable cfg w → run acts w = Some w' → reachable cfg w'.
Proof.
  revert w. induction acts as [|a acts IH]; intros w Hw; simpl; [by intros [= <-]|].
  intros (w1 & Ha & Hrun)%bind_Some. by eapply IH; [eapply reachable_act|].
Qed.

Definition demo_options : Options := mkOptions "clusterip-gw" 30000 1000 true.

Definition demo_start : world :=
  start (match NewProxier demo_options with Ok p => p | Err _ => mkProxier "" 0 0 false false false false ∅ ∅ false None end) 0.

Definition demo_new_gateway : Gateway :=
  mkGateway (mkMeta "default" "gw" "" 1 None ∅ [] [])
    (mkGatewaySpec gatewaymeta_GatewayClassName [mkListener "tcp" 80 "TCP" None] [])
    (mkGatewayStatus [mkStatusAddress (Some IPAddressType) "10.96.0.1"] [] []).

(** Both informers sync and the empty state is applied; ten time units later a
    Gateway is added, and the loop, woken too early, arms a retry. *)
Definition demo_actions : list action :=
  [ACall GatewaySynced; ARun 0; ARun 0; ACall EndpointSlicesSynced; ARun 0; ARun 1; ARun 1; ARun 1;
   AResync; ASync; AGateways; AEndpoints; AApplied true; AReturn;
   ATime 10; ACall (GatewayAdd (Some demo_new_gateway)); ARun 2; ARun 2; ARun 2; AResync; ASync; AReturn].

Definition demo_world : world := default demo_start (run demo_actions demo_start).

Lemma demo_reachable : reachable demo_options demo_world.
Proof.
  eapply (reachable_run _ demo_actions demo_start); [by apply reachable_start|]. vm_compute. reflexivity.
Qed.

Lemma sync_loop_catches_up_witness :
  w_retry demo_world = Some 1000 ∧ ¬ up_to_date demo_world ∧
  ∃ w', rounds [(5, Ticker); (995, Retry)] demo_world = Some w' ∧ up_to_date w' ∧ trackers w' = trackers demo_world.
Proof.
  assert (Hstale : ¬ up_to_date demo_world).
  { intros H%(f_equal (λ o, size (default (∅, ∅) o).1)). vm_compute in H. discriminate. }
  split; [vm_compute; reflexivity|]. split; [exact Hstale|].
  destruct (rounds [(5, Ticker); (995, Retry)] demo_world) as [w'|] eqn:Hrun; [|vm_compute in Hrun; discriminate].
  exists w'. split; [reflexivity|].
  eapply (sync_loop_catches_up demo_options demo_world); [apply demo_reachable| |reflexivity|exact Hstale|exact Hrun|done|].
  - split; [reflexivity|]. repeat constructor.
  - vm_compute. discriminate.
Defined.

Definition demo_synced : world := default demo_world (rounds [(5, Ticker); (995, Retry)] demo_world).

Lemma sync_applies_spaced_witness :
  w_applies demo_synced = [(1010, 1010); (0, 0)] ∧ 0 + opt_MinSyncPeriod demo_options ≤ 1010.
Proof.
  split; [vm_compute; reflexivity|].
  refine (proj2 (sync_applies_spaced demo_options demo_synced 0 (1010, 1010) (0, 0) _ _ _ _)).
  - eapply (reachable_run _ [ATime 5; ATicker; ASync; AReturn; ATime 995; ARetry; ASync; AGateways; AEndpoints;
      AApplied true; AReturn]); [apply demo_reachable|]. vm_compute. reflexivity.
  - vm_compute. reflexivity.
  - vm_compute. reflexivity.
  - vm_compute. reflexivity.
Defined.
