(* ===== verification/NetlinkSpec.v ===== *)
(** * The nftables batch: properties

    [queueRuleset] queues one self-contained batch; a kernel that applies a
    batch as a whole goes from any state to exactly the wanted table; and a
    packet to a service's address and port is sent to one of its backends.

    The batch semantics ([run_batch]) and the packet semantics ([eval_chain])
    are specifications: they follow the documented behaviour of nftables for
    the operations and expressions the agent uses. *)

From S2P Require Import Prelude GoNet GoStrings KubeTypes Netlink.

(** ** Laws of the connection *)

Inductive nft_op :=
| OpDelTable (t : Table)
| OpAddTable (t : Table)
| OpAddChain (c : Chain)
| OpAddSet (m : NftSet) (elements : list SetElement)
| OpAddRule (r : Rule).

Definition with_id (id : Z) (m : NftSet) : NftSet :=
  mkSet (set_Table m) (set_Name m) id (set_KeyType m) (set_DataType m) (set_IsMap m).

(** Documented behaviour of google/nftables: each method appends a message to
    the connection's batch and returns its argument; [AddSet] assigns an ID. *)
Class nftConnLaws {S} (C : nftConn S) (batch : S → list nft_op) : Prop := {
  conn_New_batch s s' : conn_New s = (Ok tt, s') → batch s' = [];
  conn_DelTable_batch t s : batch (conn_DelTable t s) = batch s ++ [OpDelTable t];
  conn_AddTable_same t s : (conn_AddTable t s).1 = t;
  conn_AddTable_batch t s : batch (conn_AddTable t s).2 = batch s ++ [OpAddTable t];
  conn_AddChain_same c s : (conn_AddChain c s).1 = c;
  conn_AddChain_batch c s : batch (conn_AddChain c s).2 = batch s ++ [OpAddChain c];
  conn_AddSet_batch m els s m' s' :
    conn_AddSet m els s = ((m', Ok tt), s') →
    ∃ id, m' = with_id id m ∧ batch s' = batch s ++ [OpAddSet m' els];
  conn_AddRule_batch r s : batch (conn_AddRule r s) = batch s ++ [OpAddRule r];
  ctx_Err_batch s : batch (ctx_Err s).2 = batch s;
}.

(** ** The batch of a ruleset *)

Section batch.
Context `{BU : !BinaryUtil}.

Definition service_map (table : Table) (id : Z) (service : serviceChainSpec) : NftSet :=
  with_id id (dispatch_map table (sv_dispatchMapName service)).

Definition service_objects (table : Table) (id : Z) (service : serviceChainSpec) : list nft_op :=
  OpAddChain (plain_chain table (sv_chainName service))
  :: ((λ b, OpAddChain (plain_chain table (bk_chainName b))) <$> sv_backendChains service)
  ++ [OpAddSet (service_map table id service) (serviceDispatchMapElements service)].

Definition jump_ops (table : Table) (base : baseChainSpec) (services : list serviceChainSpec) : list nft_op :=
  (λ sv, OpAddRule (jump_rule table (Some (base_chain table base)) sv)) <$> services.

Definition dispatch_op (table : Table) (id : Z) (service : serviceChainSpec) : nft_op :=
  OpAddRule (mkRule' table (Some (plain_chain table (sv_chainName service)))
               (serviceDispatchExprs service (service_map table id service))).

Definition backend_ops (table : Table) (service : serviceChainSpec) : list nft_op :=
  (λ b, OpAddRule (mkRule' table (Some (plain_chain table (bk_chainName b))) (backendDNATExprs b)))
    <$> sv_backendChains service.

(** Everything [queueRuleset] queues for a ruleset with the default base
    chains, given the IDs the maps got. *)
Definition ruleset_batch (spec : rulesetSpec) (deleteTable : bool) (ids : list Z) : list nft_op :=
  let table := mkTable (rs_tableName spec) (rs_family spec) in
  let services := rs_serviceChains spec in
  (if deleteTable then [OpDelTable table] else []) ++ [OpAddTable table]
  ++ (OpAddChain ∘ base_chain table <$> rs_baseChains spec)
  ++ concat (zip_with (service_objects table) ids services)
  ++ (rs_baseChains spec ≫= λ base, jump_ops table base services)
  ++ zip_with (dispatch_op table) ids services
  ++ (services ≫= backend_ops table).

Context {S : Type} {C : nftConn S} (queue : S → list nft_op) `{!nftConnLaws C queue}.

Lemma add_chains_spec chains m s m' s' :
  add_chains chains m s = (m', s') →
  queue s' = queue s ++ (OpAddChain <$> chains) ∧
  m' = foldl (λ m c, <[ch_Name c := c]> m) m chains.
Proof.
  revert m s. induction chains as [|c chains IH]; intros m s; simpl.
  { intros [= <- <-]. by rewrite app_nil_r. }
  pose proof (conn_AddChain_same c s) as Hsame. pose proof (conn_AddChain_batch c s) as Hq.
  destruct (conn_AddChain c s) as [c' s1]. simpl in *. subst c'.
  intros [Hq' ->]%IH. split; [|done]. by rewrite Hq', Hq, <-(assoc_L (++)).
Qed.

Lemma add_rules_queue rules s : queue (add_rules rules s) = queue s ++ (OpAddRule <$> rules).
Proof.
  unfold add_rules. revert s. induction rules as [|r rules IH]; intros s; simpl; [by rewrite app_nil_r|].
  by rewrite IH, conn_AddRule_batch, <-(assoc_L (++)).
Qed.

(** What the first loop records. *)
Definition recorded (table : Table) (services : list serviceChainSpec) (ids : list Z) (q : queued) : Prop :=
  Forall2 (λ sv id,
    q_serviceChains q !! sv_chainName sv = Some (plain_chain table (sv_chainName sv)) ∧
    q_dispatchMaps q !! sv_chainName sv = Some (service_map table id sv) ∧
    ∀ b, b ∈ sv_backendChains sv → q_backendChains q !! bk_chainName b = Some (plain_chain table (bk_chainName b)))
    services ids.

(** Every entry of a chain map is the plain chain of its name. *)
Definition plain (table : Table) (m : gmap string Chain) : Prop :=
  ∀ k c, m !! k = Some c → c = plain_chain table k.

Lemma plain_insert table m k : plain table m → plain table (<[k := plain_chain table k]> m).
Proof. intros Hm k' c. rewrite lookup_insert. case_decide; [by intros [= <-]; subst|apply Hm]. Qed.

Lemma plain_backends table m (backends : list backendChainSpec) :
  plain table m →
  let m' := foldl (λ m c, <[ch_Name c := c]> m) m ((λ b, plain_chain table (bk_chainName b)) <$> backends) in
  plain table m' ∧ (∀ k c, m !! k = Some c → m' !! k = Some c) ∧
  ∀ b, b ∈ backends → m' !! bk_chainName b = Some (plain_chain table (bk_chainName b)).
Proof.
  intros Hm. simpl. induction backends as [|b backends IH] using rev_ind; simpl; [set_solver|].
  rewrite fmap_app, foldl_app. simpl. set (m' := foldl _ m _) in *.
  destruct IH as (Hp & Hold & Hnew). split_and!.
  - by apply plain_insert.
  - intros k c Hk. rewrite lookup_insert. case_decide; [|by apply Hold]. subst. f_equal.
    symmetry. by apply Hm.
  - intros b' [Hb| ->%list_elem_of_singleton]%list.elem_of_app; [|by rewrite lookup_insert_eq].
    rewrite lookup_insert. case_decide as Heq; [by rewrite Heq|by apply Hnew].
Qed.

Lemma add_services_spec table services q s r s' :
  plain table (q_backendChains q) → NoDup (sv_chainName <$> services) →
  add_services table services q s = (r, s') →
  match r with
  | Err e => ∃ sv e', sv ∈ services ∧ e = WrapError ("add dispatch map " +:+ sv_dispatchMapName sv) e'
  | Ok q' => ∃ ids, recorded table services ids q' ∧
      queue s' = queue s ++ concat (zip_with (service_objects table) ids services) ∧
      (∀ k, k ∉ sv_chainName <$> services →
         q_serviceChains q' !! k = q_serviceChains q !! k ∧ q_dispatchMaps q' !! k = q_dispatchMaps q !! k) ∧
      (∀ k c, q_backendChains q !! k = Some c → q_backendChains q' !! k = Some c)
  end.
Proof.
  revert q s. induction services as [|sv services IH]; intros q s Hp Hnd; simpl.
  { intros [= <- <-]. exists []. split_and!; try done; [constructor|by rewrite app_nil_r]. }
  rewrite list.fmap_cons in Hnd. apply list.NoDup_cons in Hnd as [Hfresh Hnd].
  pose proof (conn_AddChain_same (plain_chain table (sv_chainName sv)) s) as Hc.
  pose proof (conn_AddChain_batch (plain_chain table (sv_chainName sv)) s) as Hq1.
  destruct (conn_AddChain _ s) as [chain s1]. simpl in Hc, Hq1. subst chain.
  destruct (add_chains _ _ s1) as [bc s2] eqn:Hbc.
  apply add_chains_spec in Hbc as [Hq2 Hbc]. pose proof (plain_backends table _ (sv_backendChains sv) Hp) as Hpb.
  simpl in Hpb. rewrite <-Hbc in Hpb. destruct Hpb as (Hp' & Hold & Hnew).
  destruct (conn_AddSet _ _ s2) as [[m [[]|e]] s3] eqn:Hset; [|intros [= <- <-]; exists sv, e; split; [by left|done]].
  apply conn_AddSet_batch in Hset as (id & -> & Hq3). intros Hrest.
  apply IH in Hrest; [|done|done]. destruct r as [q'|e].
  - destruct Hrest as (ids & Hrec & Hq & Hkeep & Hkeepb). simpl in Hkeep, Hkeepb.
    destruct (Hkeep (sv_chainName sv) Hfresh) as [Hk1 Hk2]. rewrite lookup_insert_eq in Hk1. rewrite lookup_insert_eq in Hk2.
    exists (id :: ids). split_and!.
    + constructor; [|done]. split_and!; [done|done|]. intros b Hb. by apply Hkeepb, Hnew.
    + rewrite Hq, Hq3, Hq2, Hq1. simpl. rewrite <-!(assoc_L (++)), <-list_fmap_compose. done.
    + intros k [Hne Hk]%not_elem_of_cons.
      destruct (Hkeep k Hk) as [-> ->]. by rewrite !lookup_insert_ne by done.
    + intros k c Hk. by apply Hkeepb, Hold.
  - destruct Hrest as (sv' & e' & Hin & ->). exists sv', e'. split; [by right|done].
Qed.

Lemma dispatch_rules_spec table services ids q :
  recorded table services ids q →
  ∃ rules, mapM (dispatch_rule table q) services = Some rules ∧
           OpAddRule <$> rules = zip_with (dispatch_op table) ids services.
Proof.
  induction 1 as [|sv id services ids (Hc & Hm & _) _ (rules & Hrules & Hops)]; [by exists []|].
  assert (Hd : dispatch_rule table q sv = Some (mkRule' table (q_serviceChains q !! sv_chainName sv)
    (serviceDispatchExprs sv (service_map table id sv)))) by (unfold dispatch_rule; by rewrite Hm).
  cbn [mapM]. rewrite Hd, Hrules. eexists. split; [done|].
  rewrite list.fmap_cons, Hops. simpl. unfold dispatch_op. by rewrite Hc.
Qed.

Lemma backend_rules_spec table services ids q :
  recorded table services ids q →
  OpAddRule <$> (services ≫= backend_rules table q) = services ≫= backend_ops table.
Proof.
  induction 1 as [|sv id services ids (_ & _ & Hb) _ IH]; [done|].
  rewrite !bind_cons, fmap_app, IH. f_equal. unfold backend_rules, backend_ops. rewrite <-list_fmap_compose.
  apply list_fmap_ext. intros i b Hi%list_elem_of_lookup_2. simpl. by rewrite (Hb b Hi).
Qed.

(** The batch [queueRuleset] queues: it never panics, it fails only with an
    error of [AddSet], and otherwise what it has queued is [ruleset_batch]. *)
Lemma queueRuleset_batch spec deleteTable s r s' :
  rs_baseChains spec = defaultBaseChains → NoDup (sv_chainName <$> rs_serviceChains spec) →
  queueRuleset spec deleteTable s = (r, s') →
  match r with
  | None => False
  | Some (Err e) => ∃ sv e', sv ∈ rs_serviceChains spec ∧ e = WrapError ("add dispatch map " +:+ sv_dispatchMapName sv) e'
  | Some (Ok _) => ∃ ids, length ids = length (rs_serviceChains spec) ∧
                    queue s' = queue s ++ ruleset_batch spec deleteTable ids
  end.
Proof.
  intros Hbase Hnd. unfold queueRuleset, ruleset_batch. rewrite Hbase.
  set (table := mkTable _ _). set (s0 := if deleteTable then _ else _).
  assert (Hq0 : queue s0 = queue s ++ if deleteTable then [OpDelTable table] else []).
  { unfold s0. destruct deleteTable; [apply conn_DelTable_batch|by rewrite app_nil_r]. }
  pose proof (conn_AddTable_same table s0) as Hsame. pose proof (conn_AddTable_batch table s0) as Hq1.
  destruct (conn_AddTable table s0) as [table' s1]. simpl in Hsame, Hq1. subst table'.
  destruct (add_chains _ ∅ s1) as [bases s2] eqn:Hb. apply add_chains_spec in Hb as [Hq2 ->].
  destruct (add_services _ _ _ s2) as [[q|e] s3] eqn:Hs.
  - apply add_services_spec in Hs as (ids & Hrec & Hq3 & _); [|by intros ???|done].
    destruct (dispatch_rules_spec _ _ _ _ Hrec) as (rules & -> & Hrules). intros [= <- <-].
    exists ids. split; [symmetry; by eapply Forall2_length|].
    rewrite !add_rules_queue, Hq3, Hq2, Hq1, Hq0, (backend_rules_spec _ _ _ _ Hrec), Hrules.
    rewrite <-!(assoc_L (++)). f_equal. f_equal. f_equal. rewrite <-list_fmap_compose. f_equal. f_equal.
    simpl. rewrite app_nil_r, <-!(assoc_L (++)). unfold jump_ops. by rewrite <-!list_fmap_compose.
  - apply add_services_spec in Hs; [|by intros ???|done]. by intros [= <- <-].
Qed.

End batch.

(** ** Applying a batch

    A table holds chains of rules and maps, and the hooks of its base chains. *)
Record ktable := mkKtable {
  kt_hooks : list (ChainHook * string);
  kt_chains : gmap string (list (list expr));
  kt_maps : gmap string (list SetElement);
}.

Definition empty_table : ktable := mkKtable [] ∅ ∅.

(** The chains and maps an expression refers to exist. *)
Definition expr_refs_ok (kt : ktable) (e : expr) : Prop :=
  match e with
  | Verdict _ c => is_Some (kt_chains kt !! c)
  | Lookup _ _ _ m _ => is_Some (kt_maps kt !! m)
  | _ => True
  end.

#[export] Instance expr_refs_ok_dec kt e : Decision (expr_refs_ok kt e).
Proof. destruct e; apply _. Defined.

Definition element_ok (kt : ktable) (el : SetElement) : Prop :=
  match el_VerdictData el with Some e => expr_refs_ok kt e | None => True end.

#[export] Instance element_ok_dec kt el : Decision (element_ok kt el).
Proof. unfold element_ok. destruct (el_VerdictData el); apply _. Defined.

(** An operation inside a table; [None] when the kernel rejects it. *)
Definition table_op (op : nft_op) (kt : ktable) : option ktable :=
  match op with
  | OpDelTable _ | OpAddTable _ => None
  | OpAddChain c =>
      Some (match kt_chains kt !! ch_Name c with
            | Some _ => kt
            | None => mkKtable (kt_hooks kt ++ match ch_Hooknum c with Some h => [(h, ch_Name c)] | None => [] end)
                        (<[ch_Name c := []]> (kt_chains kt)) (kt_maps kt)
            end)
  | OpAddSet m els =>
      if decide (Forall (element_ok kt) els)
      then Some (mkKtable (kt_hooks kt) (kt_chains kt)
                   (<[set_Name m := default [] (kt_maps kt !! set_Name m) ++ els]> (kt_maps kt)))
      else None
  | OpAddRule r =>
      c ← ru_Chain r;
      rules ← kt_chains kt !! ch_Name c;
      if decide (Forall (expr_refs_ok kt) (ru_Exprs r))
      then Some (mkKtable (kt_hooks kt) (<[ch_Name c := rules ++ [ru_Exprs r]]> (kt_chains kt)) (kt_maps kt))
      else None
  end.

Definition op_table (op : nft_op) : Table :=
  match op with
  | OpDelTable t | OpAddTable t => t
  | OpAddChain c => ch_Table c
  | OpAddSet m _ => set_Table m
  | OpAddRule r => ru_Table r
  end.

(** The kernel's tables by name; deleting a table that is not there fails. *)
Definition run_op (op : nft_op) (ks : gmap string ktable) : option (gmap string ktable) :=
  let name := t_Name (op_table op) in
  match op with
  | OpDelTable _ => _ ← ks !! name; Some (delete name ks)
  | OpAddTable _ => Some (match ks !! name with Some _ => ks | None => <[name := empty_table]> ks end)
  | _ => kt ← ks !! name; kt' ← table_op op kt; Some (<[name := kt']> ks)
  end.

(** A batch takes effect as a whole or not at all. *)
Fixpoint run_batch (ops : list nft_op) (ks : gmap string ktable) : option (gmap string ktable) :=
  match ops with
  | [] => Some ks
  | op :: ops => ks ← run_op op ks; run_batch ops ks
  end.

Fixpoint table_ops (ops : list nft_op) (kt : ktable) : option ktable :=
  match ops with
  | [] => Some kt
  | op :: ops => kt ← table_op op kt; table_ops ops kt
  end.

#[local] Arguments table_op : simpl never.

Lemma table_ops_app ops1 ops2 kt kt1 :
  table_ops ops1 kt = Some kt1 → table_ops (ops1 ++ ops2) kt = table_ops ops2 kt1.
Proof.
  revert kt. induction ops1 as [|op ops1 IH]; intros kt; simpl; [by intros [= ->]|].
  intros (kt' & -> & H)%bind_Some. by apply IH.
Qed.

Lemma run_batch_app ops1 ops2 ks ks1 :
  run_batch ops1 ks = Some ks1 → run_batch (ops1 ++ ops2) ks = run_batch ops2 ks1.
Proof.
  revert ks. induction ops1 as [|op ops1 IH]; intros ks; simpl; [by intros [= ->]|].
  intros (ks' & -> & H)%bind_Some. by apply IH.
Qed.

(** A batch that stays inside one existing table. *)
Lemma run_batch_table ops name kt kt' ks :
  Forall (λ op, t_Name (op_table op) = name) ops → table_ops ops kt = Some kt' →
  run_batch ops (<[name := kt]> ks) = Some (<[name := kt']> ks).
Proof.
  intros Hall. revert kt. induction Hall as [|op ops Hop _ IH]; intros kt; simpl; [by intros [= ->]|].
  intros (kt1 & Hop1 & H)%bind_Some.
  assert (Hrun : run_op op (<[name:=kt]> ks) = kt' ← table_op op kt; Some (<[name:=kt']> (<[name:=kt]> ks))).
  { unfold run_op. destruct op; try done; by rewrite Hop, lookup_insert_eq. }
  rewrite Hrun, Hop1. cbn [mbind option_bind]. rewrite insert_insert_eq. by apply IH.
Qed.

(** ** The phases of the batch *)

(** Chain lookups after adding chains by name; chains that exist are kept. *)
Definition adds_chains (names : list string) (kt kt' : ktable) : Prop :=
  ∀ n, kt_chains kt' !! n
       = if decide (n ∈ names) then Some (default [] (kt_chains kt !! n)) else kt_chains kt !! n.

Lemma add_plain_chains table names kt :
  ∃ kt', table_ops ((λ n, OpAddChain (plain_chain table n)) <$> names) kt = Some kt' ∧
    kt_hooks kt' = kt_hooks kt ∧ kt_maps kt' = kt_maps kt ∧ adds_chains names kt kt'.
Proof.
  revert kt. induction names as [|name names IH]; intros kt.
  { exists kt. by split_and!. }
  set (kt1 := match kt_chains kt !! name with
              | Some _ => kt
              | None => mkKtable (kt_hooks kt ++ []) (<[name := []]> (kt_chains kt)) (kt_maps kt)
              end).
  destruct (IH kt1) as (kt' & Hops & Hh & Hm & Hc). exists kt'. rewrite list.fmap_cons. cbn [table_ops].
  split; [exact Hops|].
  assert (H1 : kt_hooks kt1 = kt_hooks kt ∧ kt_maps kt1 = kt_maps kt ∧
               kt_chains kt1 = <[name := default [] (kt_chains kt !! name)]> (kt_chains kt)).
  { unfold kt1. destruct (kt_chains kt !! name) as [rules|] eqn:Hn; simpl; [by rewrite insert_id|].
    by rewrite app_nil_r. }
  destruct H1 as (Hh1 & Hm1 & Hc1). split_and!; [congruence|congruence|].
  intros n. rewrite (Hc n), Hc1, lookup_insert. destruct (decide (name = n)) as [->|Hne].
  - rewrite (decide_True (P := n ∈ n :: names)) by (by left). by case_decide.
  - destruct (decide (n ∈ names)) as [Hin|Hin].
    + by rewrite decide_True by (by right).
    + rewrite decide_False; [done|]. by intros [?|?]%list.elem_of_cons.
Qed.

Section phases.
Context `{BU : !BinaryUtil}.

(** The names of the chains of one service, and of all. *)
Definition service_names (sv : serviceChainSpec) : list string :=
  sv_chainName sv :: (bk_chainName <$> sv_backendChains sv).

Definition service_chain_names (services : list serviceChainSpec) : list string := services ≫= service_names.

Lemma service_elements_ok sv kt :
  (∀ n, n ∈ service_names sv → is_Some (kt_chains kt !! n)) →
  Forall (element_ok kt) (serviceDispatchMapElements sv).
Proof.
  intros H. apply list.Forall_forall. intros el. unfold serviceDispatchMapElements.
  intros (i & b & -> & Hb)%elem_of_lookup_imap. apply H. right.
  apply list_elem_of_fmap. exists b. split; [done|]. by eapply list_elem_of_lookup_2.
Qed.

(** Adding one service's objects to a table without its map. *)
Lemma service_objects_run table id sv kt :
  kt_maps kt !! sv_dispatchMapName sv = None →
  ∃ kt', table_ops (service_objects table id sv) kt = Some kt' ∧ kt_hooks kt' = kt_hooks kt ∧
    kt_maps kt' = <[sv_dispatchMapName sv := serviceDispatchMapElements sv]> (kt_maps kt) ∧
    adds_chains (service_names sv) kt kt'.
Proof.
  intros Hfresh. destruct (add_plain_chains table (service_names sv) kt) as (kt1 & Hops & Hh & Hm & Hc).
  assert (Hobj : service_objects table id sv
    = ((λ n, OpAddChain (plain_chain table n)) <$> service_names sv)
      ++ [OpAddSet (service_map table id sv) (serviceDispatchMapElements sv)]).
  { unfold service_objects, service_names. by rewrite list.fmap_cons, <-list_fmap_compose. }
  eexists. rewrite Hobj, (table_ops_app _ _ _ _ Hops). cbn [table_ops]. unfold table_op.
  rewrite decide_True.
  - split; [done|]. cbn [kt_hooks kt_maps kt_chains]. rewrite Hm. simpl. rewrite Hfresh. by split_and!.
  - apply service_elements_ok. intros n Hn. rewrite Hc, decide_True by done. by eexists.
Qed.

Lemma services_objects_run table services ids kt :
  length ids = length services → NoDup (sv_dispatchMapName <$> services) →
  (∀ sv, sv ∈ services → kt_maps kt !! sv_dispatchMapName sv = None) →
  ∃ kt', table_ops (concat (zip_with (service_objects table) ids services)) kt = Some kt' ∧
    kt_hooks kt' = kt_hooks kt ∧ adds_chains (service_chain_names services) kt kt' ∧
    (∀ sv, sv ∈ services → kt_maps kt' !! sv_dispatchMapName sv = Some (serviceDispatchMapElements sv)) ∧
    (∀ m, m ∉ sv_dispatchMapName <$> services → kt_maps kt' !! m = kt_maps kt !! m).
Proof.
  revert ids kt. induction services as [|sv services IH]; intros [|id ids] kt Hlen Hnd Hfresh; try done.
  { exists kt. split_and!; try done; set_solver. }
  rewrite list.fmap_cons in Hnd. apply list.NoDup_cons in Hnd as [Hsv Hnd].
  destruct (service_objects_run table id sv kt) as (kt1 & Hops & Hh & Hm & Hc); [apply Hfresh; by left|].
  destruct (IH ids kt1) as (kt' & Hops' & Hh' & Hc' & Hm1 & Hm2); [simpl in Hlen; lia|done| |].
  { intros sv' Hsv'. rewrite Hm, lookup_insert_ne; [apply Hfresh; by right|].
    intros Heq. apply Hsv. rewrite Heq. by apply list_elem_of_fmap_2. }
  exists kt'. cbn [zip_with concat]. rewrite (table_ops_app _ _ _ _ Hops). split_and!; [done|congruence| | |].
  - intros n. rewrite Hc', Hc. unfold service_chain_names. rewrite bind_cons.
    destruct (decide (n ∈ services ≫= service_names)) as [Hin|Hin].
    + rewrite (decide_True (P := n ∈ service_names sv ++ _)) by (apply list.elem_of_app; by right).
      by case_decide.
    + destruct (decide (n ∈ service_names sv)) as [Hin'|Hin'].
      * by rewrite decide_True by (apply list.elem_of_app; by left).
      * rewrite decide_False; [done|]. by intros [?|?]%list.elem_of_app.
  - intros sv' [->|Hin]%list.elem_of_cons; [|by apply Hm1]. rewrite Hm2 by done. by rewrite Hm, lookup_insert_eq.
  - intros m Hne. rewrite list.fmap_cons in Hne. apply not_elem_of_cons in Hne as [Hne Hin].
    rewrite Hm2 by done. by rewrite Hm, lookup_insert_ne.
Qed.

End phases.

(** The rules a list of (chain, rule) pairs adds to a chain. *)
Definition rules_for (n : string) (pairs : list (Chain * list expr)) : list (list expr) :=
  snd <$> filter (λ p, ch_Name p.1 = n) pairs.

Lemma rules_for_app n ps1 ps2 : rules_for n (ps1 ++ ps2) = rules_for n ps1 ++ rules_for n ps2.
Proof. unfold rules_for. by rewrite list.filter_app, fmap_app. Qed.

Lemma rules_for_none n ps : n ∉ (ch_Name ∘ fst) <$> ps → rules_for n ps = [].
Proof.
  intros Hn. unfold rules_for. assert (filter (λ p : Chain * list expr, ch_Name p.1 = n) ps = []) as ->; [|done].
  apply elem_of_nil_inv. intros p [Hp Hin]%list_elem_of_filter. apply Hn. rewrite <-Hp.
  by apply (list_elem_of_fmap_2 (ch_Name ∘ fst)).
Qed.

Lemma rules_for_all c (es : list (list expr)) : rules_for (ch_Name c) (pair c <$> es) = es.
Proof.
  induction es as [|e es IH]; [done|]. unfold rules_for in *.
  rewrite list.fmap_cons, filter_cons_True by done. rewrite list.fmap_cons. f_equal. exact IH.
Qed.

Lemma rules_for_one c e ps :
  NoDup ((ch_Name ∘ fst) <$> ps) → (c, e) ∈ ps → rules_for (ch_Name c) ps = [e].
Proof.
  induction ps as [|[c' e'] ps IH]; [set_solver|]. rewrite list.fmap_cons. intros [Hn Hnd]%list.NoDup_cons.
  change ((c', e') :: ps) with ([(c', e')] ++ ps). rewrite rules_for_app.
  intros [[= <- <-]%list_elem_of_singleton|Hin]%list.elem_of_app.
  - rewrite (rules_for_none _ ps) by done. rewrite app_nil_r. apply (rules_for_all c [e]).
  - rewrite (IH Hnd Hin). rewrite (rules_for_none _ [(c', e')]); [done|]. simpl.
    rewrite list_elem_of_singleton. intros Heq. apply Hn. simpl. rewrite <-Heq.
    by apply (list_elem_of_fmap_2 (ch_Name ∘ fst) ps (c, e)).
Qed.

Lemma expr_refs_ok_dom kt kt' e :
  kt_maps kt' = kt_maps kt → (∀ n, is_Some (kt_chains kt !! n) → is_Some (kt_chains kt' !! n)) →
  expr_refs_ok kt e → expr_refs_ok kt' e.
Proof. intros Hm Hc. destruct e; simpl; rewrite ?Hm; auto. Qed.

Lemma rules_run table pairs kt :
  (∀ p, p ∈ pairs → is_Some (kt_chains kt !! ch_Name p.1) ∧ Forall (expr_refs_ok kt) p.2) →
  ∃ kt', table_ops ((λ p, OpAddRule (mkRule' table (Some p.1) p.2)) <$> pairs) kt = Some kt' ∧
    kt_hooks kt' = kt_hooks kt ∧ kt_maps kt' = kt_maps kt ∧
    ∀ n, kt_chains kt' !! n = (λ old, old ++ rules_for n pairs) <$> kt_chains kt !! n.
Proof.
  revert kt. induction pairs as [|[c es] pairs IH]; intros kt Hok.
  { exists kt. split_and!; try done. intros n. destruct (kt_chains kt !! n); [|done]. simpl. by rewrite app_nil_r. }
  destruct (Hok (c, es)) as [[old Hold] Hrefs]; [by left|]. simpl in Hold, Hrefs.
  set (kt1 := mkKtable (kt_hooks kt) (<[ch_Name c := old ++ [es]]> (kt_chains kt)) (kt_maps kt)).
  destruct (IH kt1) as (kt' & Hops & Hh & Hm & Hc).
  { intros p Hp. destruct (Hok p) as [Hs Hf]; [by right|].
    assert (Hdom : ∀ n, is_Some (kt_chains kt !! n) → is_Some (kt_chains kt1 !! n)).
    { intros n Hn. simpl. rewrite lookup_insert. by case_decide. }
    split; [by apply Hdom|]. eapply list.Forall_impl; [exact Hf|]. intros e. by apply expr_refs_ok_dom. }
  exists kt'. rewrite list.fmap_cons. cbn [table_ops].
  assert (table_op (OpAddRule (mkRule' table (Some (c, es).1) (c, es).2)) kt = Some kt1) as ->.
  { unfold table_op. simpl. rewrite Hold. simpl. by rewrite decide_True. }
  split_and!; [exact Hops|done|done|]. intros n. rewrite (Hc n). simpl.
  change ((c, es) :: pairs) with ([(c, es)] ++ pairs). rewrite rules_for_app, lookup_insert.
  destruct (decide (ch_Name c = n)) as [<-|Hne].
  - change [(c, es)] with (pair c <$> [es]). rewrite (rules_for_all c [es]), Hold. simpl. by rewrite <-(assoc_L (++)).
  - rewrite (rules_for_none n [(c, es)]); [done|]. simpl. rewrite list_elem_of_singleton. by intros ->.
Qed.

(** ** The table a ruleset describes *)

Section table.
Context `{BU : !BinaryUtil}.

(** The names a ruleset uses are distinct. *)
Definition well_named (services : list serviceChainSpec) : Prop :=
  NoDup (preroutingChainName :: outputChainName :: service_chain_names services) ∧
  NoDup (sv_dispatchMapName <$> services).

Record serves (services : list serviceChainSpec) (kt : ktable) : Prop := {
  serves_hooks :
    kt_hooks kt = [(ChainHookPrerouting, preroutingChainName); (ChainHookOutput, outputChainName)];
  serves_base n :
    n ∈ [preroutingChainName; outputChainName] → kt_chains kt !! n = Some (serviceJumpExprs <$> services);
  serves_dispatch sv :
    sv ∈ services → ∃ id, kt_chains kt !! sv_chainName sv =
      Some [serviceDispatchExprs sv (with_id id (dispatch_map (mkTable "" TableFamilyIPv4) (sv_dispatchMapName sv)))];
  serves_map sv :
    sv ∈ services → kt_maps kt !! sv_dispatchMapName sv = Some (serviceDispatchMapElements sv);
  serves_backend sv b :
    sv ∈ services → b ∈ sv_backendChains sv → kt_chains kt !! bk_chainName b = Some [backendDNATExprs b];
  serves_only n :
    is_Some (kt_chains kt !! n) → n ∈ preroutingChainName :: outputChainName :: service_chain_names services;
}.

Definition jump_pairs (table : Table) (services : list serviceChainSpec) : list (Chain * list expr) :=
  defaultBaseChains ≫= λ base, pair (base_chain table base) <$> (serviceJumpExprs <$> services).

Definition dispatch_pair (table : Table) (id : Z) (sv : serviceChainSpec) : Chain * list expr :=
  (plain_chain table (sv_chainName sv), serviceDispatchExprs sv (service_map table id sv)).

Definition backend_pairs (table : Table) (sv : serviceChainSpec) : list (Chain * list expr) :=
  (λ b, (plain_chain table (bk_chainName b), backendDNATExprs b)) <$> sv_backendChains sv.

Definition own_pairs (table : Table) (ids : list Z) (services : list serviceChainSpec) : list (Chain * list expr) :=
  zip_with (dispatch_pair table) ids services ++ (services ≫= backend_pairs table).

Definition rule_op (table : Table) (p : Chain * list expr) : nft_op :=
  OpAddRule (mkRule' table (Some p.1) p.2).

Lemma ruleset_batch_pairs spec deleteTable ids :
  rs_baseChains spec = defaultBaseChains →
  let table := mkTable (rs_tableName spec) (rs_family spec) in
  let services := rs_serviceChains spec in
  ruleset_batch spec deleteTable ids
  = (if deleteTable then [OpDelTable table] else []) ++ [OpAddTable table]
    ++ (OpAddChain ∘ base_chain table <$> defaultBaseChains)
    ++ concat (zip_with (service_objects table) ids services)
    ++ (rule_op table <$> jump_pairs table services ++ own_pairs table ids services).
Proof.
  intros Hbase table services. unfold ruleset_batch. rewrite Hbase. fold table services.
  rewrite fmap_app. do 4 f_equal. f_equal; [|unfold own_pairs; rewrite fmap_app; f_equal].
  - unfold jump_pairs, jump_ops. simpl. rewrite !app_nil_r, fmap_app, <-!list_fmap_compose. done.
  - generalize ids. induction services as [|sv services' IH]; intros [|id ids']; try done.
    cbn [zip_with]. by rewrite list.fmap_cons, IH.
  - clear. induction services as [|sv services' IH]; [done|]. rewrite !bind_cons, fmap_app, IH. f_equal.
    unfold backend_ops, backend_pairs. by rewrite <-list_fmap_compose.
Qed.

Lemma own_names table ids services :
  length ids = length services →
  (ch_Name ∘ fst) <$> own_pairs table ids services ≡ₚ service_chain_names services.
Proof.
  unfold own_pairs, service_chain_names. revert ids.
  induction services as [|sv services IH]; intros [|id ids] Hlen; try done.
  cbn [zip_with]. rewrite !bind_cons. simpl. constructor. injection Hlen as Hlen.
  specialize (IH ids Hlen). rewrite fmap_app in IH |- *. rewrite fmap_app. rewrite (assoc_L (++)).
  rewrite (Permutation_app_comm (_ <$> zip_with _ _ _)), <-(assoc_L (++)), IH.
  apply Permutation_app; [|done]. unfold backend_pairs. by rewrite <-list_fmap_compose.
Qed.

Lemma dispatch_pair_in table ids services sv :
  length ids = length services → sv ∈ services → ∃ id, dispatch_pair table id sv ∈ own_pairs table ids services.
Proof.
  intros Hlen [i Hi]%list_elem_of_lookup. destruct (lookup_lt_is_Some_2 ids i) as [id Hid].
  { rewrite Hlen. by eapply lookup_lt_Some. }
  exists id. apply list.elem_of_app. left. apply list_elem_of_lookup. exists i. by rewrite lookup_zip_with, Hid; simpl; rewrite Hi.
Qed.

Lemma backend_pair_in table ids services sv b :
  sv ∈ services → b ∈ sv_backendChains sv →
  (plain_chain table (bk_chainName b), backendDNATExprs b) ∈ own_pairs table ids services.
Proof.
  intros Hsv Hb. apply list.elem_of_app. right. apply list_elem_of_bind. exists sv. split; [|done].
  by apply (list_elem_of_fmap_2 (λ b, (plain_chain table (bk_chainName b), backendDNATExprs b))).
Qed.

(** Where a rule's chain and references come from. *)
Lemma pairs_cases table ids services p :
  p ∈ jump_pairs table services ++ own_pairs table ids services →
  (ch_Name p.1 ∈ [preroutingChainName; outputChainName] ∧ ∃ sv, sv ∈ services ∧ p.2 = serviceJumpExprs sv) ∨
  (∃ id sv, sv ∈ services ∧ p = dispatch_pair table id sv) ∨
  (∃ sv b, sv ∈ services ∧ b ∈ sv_backendChains sv ∧ p = (plain_chain table (bk_chainName b), backendDNATExprs b)).
Proof.
  intros [Hj|[Hd|Hb]%list.elem_of_app]%list.elem_of_app.
  - left. apply list_elem_of_bind in Hj as (base & (es & -> & (sv & -> & Hsv)%list_elem_of_fmap)%list_elem_of_fmap & Hbase).
    split; [|by exists sv]. simpl. unfold defaultBaseChains in Hbase. set_solver.
  - right; left. apply list_elem_of_lookup in Hd as [i Hi]. apply lookup_zip_with_Some in Hi as (id & sv & -> & _ & Hsv).
    exists id, sv. split; [by eapply list_elem_of_lookup_2|done].
  - right; right. apply list_elem_of_bind in Hb as (sv & (b & -> & Hb)%list_elem_of_fmap & Hsv). by exists sv, b.
Qed.

(** The table after the base chains and the services' objects. *)
Lemma objects_phase table services ids :
  length ids = length services → NoDup (sv_dispatchMapName <$> services) →
  ∃ kt, table_ops ((OpAddChain ∘ base_chain table <$> defaultBaseChains)
                   ++ concat (zip_with (service_objects table) ids services)) empty_table = Some kt ∧
    kt_hooks kt = [(ChainHookPrerouting, preroutingChainName); (ChainHookOutput, outputChainName)] ∧
    (∀ n, kt_chains kt !! n = if decide (n ∈ preroutingChainName :: outputChainName :: service_chain_names services)
                              then Some [] else None) ∧
    (∀ sv, sv ∈ services → kt_maps kt !! sv_dispatchMapName sv = Some (serviceDispatchMapElements sv)).
Proof.
  intros Hlen Hmaps.
  set (kt0 := mkKtable [(ChainHookPrerouting, preroutingChainName); (ChainHookOutput, outputChainName)]
                (<[outputChainName := []]> (<[preroutingChainName := []]> ∅)) ∅).
  assert (Hbase : table_ops (OpAddChain ∘ base_chain table <$> defaultBaseChains) empty_table = Some kt0)
    by reflexivity.
  destruct (services_objects_run table services ids kt0 Hlen Hmaps) as (kt & Hops & Hh & Hc & Hm & _); [done|].
  exists kt. rewrite (table_ops_app _ _ _ _ Hbase). split_and!; [done|done| |done].
  intros n. rewrite (Hc n). simpl. rewrite !lookup_insert, lookup_empty.
  destruct (decide (n ∈ service_chain_names services)) as [Hin|Hin].
  - rewrite (decide_True (P := n ∈ _ :: _)) by (by right; right). by repeat case_decide.
  - case_decide as H1; [subst; rewrite decide_True by (by right; left); done|].
    case_decide as H2; [subst; rewrite decide_True by (by left); done|].
    rewrite decide_False; [done|]. intros [?|[?|?]%list.elem_of_cons]%list.elem_of_cons; congruence.
Qed.

(** Every rule's chain and references exist by the time it is added. *)
Lemma pairs_ok table ids services kt p :
  (∀ n, kt_chains kt !! n = if decide (n ∈ preroutingChainName :: outputChainName :: service_chain_names services)
                            then Some [] else None) →
  (∀ sv, sv ∈ services → kt_maps kt !! sv_dispatchMapName sv = Some (serviceDispatchMapElements sv)) →
  p ∈ jump_pairs table services ++ own_pairs table ids services →
  is_Some (kt_chains kt !! ch_Name p.1) ∧ Forall (expr_refs_ok kt) p.2.
Proof.
  intros Hc Hm Hp.
  assert (Hname : ∀ n, n ∈ preroutingChainName :: outputChainName :: service_chain_names services →
    is_Some (kt_chains kt !! n)) by (intros n Hn; rewrite Hc, decide_True by done; by eexists).
  assert (Hsv : ∀ sv n, sv ∈ services → n ∈ service_names sv → is_Some (kt_chains kt !! n)).
  { intros sv n Hsv Hn. apply Hname. right; right. apply list_elem_of_bind. by exists sv. }
  destruct (pairs_cases _ _ _ _ Hp) as [(Hn & sv & Hin & ->)|[(id & sv & Hin & ->)|(sv & b & Hin & Hb & ->)]].
  - split; [apply Hname; set_solver|]. unfold serviceJumpExprs. repeat constructor. simpl.
    apply (Hsv sv); [done|by left].
  - split; [apply (Hsv sv); [done|by left]|]. simpl. repeat constructor. simpl. rewrite (Hm sv Hin). by eexists.
  - split; [|simpl; unfold backendDNATExprs; by repeat constructor]. apply (Hsv sv); [done|].
    right. by apply (list_elem_of_fmap_2 bk_chainName).
Qed.

(** The base chains get every service's jump, in order. *)
Lemma jump_rules_for table ids services n :
  length ids = length services →
  NoDup (preroutingChainName :: outputChainName :: service_chain_names services) →
  n ∈ [preroutingChainName; outputChainName] →
  rules_for n (jump_pairs table services ++ own_pairs table ids services) = serviceJumpExprs <$> services.
Proof.
  intros Hlen Hnd Hn. rewrite rules_for_app, (rules_for_none n (own_pairs _ _ _)), app_nil_r.
  - unfold jump_pairs. simpl. rewrite app_nil_r, rules_for_app.
    set (pre := base_chain table _). set (out := base_chain table (mkBaseChain outputChainName _ _ _ _)).
    assert (Hother : ∀ c : Chain, ch_Name c ≠ n → rules_for n (pair c <$> (serviceJumpExprs <$> services)) = []).
    { intros c Hne. apply rules_for_none. rewrite <-list_fmap_compose. intros (es & -> & _)%list_elem_of_fmap. done. }
    apply list.elem_of_cons in Hn as [->|Hn]; [|apply list_elem_of_singleton in Hn as ->].
    + rewrite (Hother out) by done. rewrite app_nil_r. apply (rules_for_all pre).
    + rewrite (Hother pre) by done. apply (rules_for_all out).
  - rewrite own_names by done.
    apply list.NoDup_cons in Hnd as [H1 [H2 _]%list.NoDup_cons].
    apply list.elem_of_cons in Hn as [->|Hn]; [set_solver|apply list_elem_of_singleton in Hn as ->; done].
Qed.

(** A service's own chains get their one rule. *)
Lemma own_rules_for table ids services c es :
  length ids = length services →
  NoDup (preroutingChainName :: outputChainName :: service_chain_names services) →
  (c, es) ∈ own_pairs table ids services →
  rules_for (ch_Name c) (jump_pairs table services ++ own_pairs table ids services) = [es].
Proof.
  intros Hlen Hnd Hin. pose proof (own_names table ids services Hlen) as Hnames.
  apply list.NoDup_cons in Hnd as [H1 [H2 Hnd]%list.NoDup_cons].
  rewrite rules_for_app, (rules_for_none _ (jump_pairs _ _)).
  - apply rules_for_one; [by rewrite Hnames|done].
  - assert (Hc : ch_Name c ∈ service_chain_names services).
    { rewrite <-Hnames. by apply (list_elem_of_fmap_2 (ch_Name ∘ fst) _ (c, es)). }
    intros (p & Hp & Hpin)%list_elem_of_fmap. unfold jump_pairs in Hpin.
    apply list_elem_of_bind in Hpin as (base & (e & -> & _)%list_elem_of_fmap & Hbase). simpl in Hp.
    unfold defaultBaseChains in Hbase. rewrite Hp in Hc. set_solver.
Qed.

Lemma batch_table (spec : rulesetSpec) (ids : list Z) (op : nft_op) :
  let table := mkTable (rs_tableName spec) (rs_family spec) in
  op ∈ (OpAddChain ∘ base_chain table <$> defaultBaseChains)
       ++ concat (zip_with (service_objects table) ids (rs_serviceChains spec))
       ++ (rule_op table <$> jump_pairs table (rs_serviceChains spec) ++ own_pairs table ids (rs_serviceChains spec)) →
  op_table op = table.
Proof.
  intros table [(b & -> & _)%list_elem_of_fmap|[Hop|(p & -> & _)%list_elem_of_fmap]%list.elem_of_app]%list.elem_of_app;
    [done| |done].
  rewrite list_elem_of_In, in_concat in Hop. destruct Hop as (l & Hl%list_elem_of_In & Hop%list_elem_of_In).
  apply list_elem_of_lookup in Hl as [i Hi]. apply lookup_zip_with_Some in Hi as (id & sv & -> & _ & _).
  unfold service_objects in Hop.
  apply list.elem_of_cons in Hop as [->|[(b & -> & _)%list_elem_of_fmap| ->%list_elem_of_singleton]%list.elem_of_app]; done.
Qed.

(** The batch of a well-named ruleset is accepted, and replaces the table by
    one that serves exactly the ruleset's services; no other table changes. *)
Lemma ruleset_batch_serves spec (deleteTable : bool) ids (ks : gmap string ktable) :
  rs_baseChains spec = defaultBaseChains → well_named (rs_serviceChains spec) →
  length ids = length (rs_serviceChains spec) →
  (if deleteTable then is_Some (ks !! rs_tableName spec) else ks !! rs_tableName spec = None) →
  ∃ kt, run_batch (ruleset_batch spec deleteTable ids) ks = Some (<[rs_tableName spec := kt]> ks) ∧
        serves (rs_serviceChains spec) kt.
Proof.
  intros Hbase [Hnames Hmaps] Hlen Hks. set (services := rs_serviceChains spec) in *.
  rewrite ruleset_batch_pairs by done. set (table := mkTable _ _).
  destruct (objects_phase table services ids Hlen Hmaps) as (kt1 & Hops1 & Hh1 & Hc1 & Hm1).
  destruct (rules_run table (jump_pairs table services ++ own_pairs table ids services) kt1)
    as (kt & Hops & Hh & Hm & Hc).
  { intros p. by apply pairs_ok. }
  exists kt. split.
  - rewrite (assoc_L (++)), (run_batch_app _ _ ks (<[rs_tableName spec := empty_table]> ks)).
    + apply run_batch_table.
      * apply list.Forall_forall. intros op Hop. by rewrite (batch_table spec ids).
      * rewrite (assoc_L (++)), (table_ops_app _ _ _ _ Hops1). exact Hops.
    + destruct deleteTable; simpl; unfold run_op; simpl; [|by rewrite Hks].
      destruct Hks as [old ->]. simpl. by rewrite lookup_delete_eq, insert_delete_eq.
  - assert (Hown : ∀ c es, (c, es) ∈ own_pairs table ids services → kt_chains kt !! ch_Name c = Some [es]).
    { intros c es Hin. rewrite Hc, (own_rules_for table ids services c es) by done. rewrite Hc1, decide_True; [done|].
      right; right. rewrite <-(own_names table ids services Hlen). by apply (list_elem_of_fmap_2 (ch_Name ∘ fst) _ (c, es)). }
    constructor.
    + congruence.
    + intros n Hn. rewrite Hc, jump_rules_for by done. rewrite Hc1, decide_True by set_solver. done.
    + intros sv Hsv. destruct (dispatch_pair_in table ids services sv Hlen Hsv) as [id Hin]. exists id.
      exact (Hown _ _ Hin).
    + intros sv Hsv. rewrite Hm. by apply Hm1.
    + intros sv b Hsv Hb. exact (Hown _ _ (backend_pair_in table ids services sv b Hsv Hb)).
    + intros n [rules Hn]. rewrite Hc, Hc1 in Hn. by case_decide.
Qed.

Lemma well_named_services services : well_named services → NoDup (sv_chainName <$> services).
Proof.
  intros [[_ [_ Hnd]%list.NoDup_cons]%list.NoDup_cons _]. unfold service_chain_names in Hnd.
  induction services as [|sv services IH]; [constructor|]. rewrite bind_cons in Hnd.
  apply list.NoDup_app in Hnd as (_ & Hdis & Hnd). rewrite list.fmap_cons. constructor; [|by apply IH].
  intros (sv' & Heq & Hin)%list_elem_of_fmap. apply (Hdis (sv_chainName sv)); [by left|].
  apply list_elem_of_bind. exists sv'. split; [rewrite Heq; by left|done].
Qed.

(** A batch that starts by deleting the table is only accepted if it exists. *)
Lemma deleted_table_exists spec ids (ks ks' : gmap string ktable) :
  run_batch (ruleset_batch spec true ids) ks = Some ks' → is_Some (ks !! rs_tableName spec).
Proof.
  unfold ruleset_batch. simpl. destruct (ks !! rs_tableName spec); [by eexists|done].
Qed.

End table.
