(* ===== verification/ApplySpec.v ===== *)
(** * Applying rulesets: properties

    [Apply] either leaves the kernel as it was and reports an error, or
    replaces the agent's table - creating it when it was missing - by one that
    serves exactly the ruleset. *)

From S2P Require Import Prelude GoNet GoStrings KubeTypes Netlink NetlinkSpec.

(** What is documented of the kernel behind a connection: only [Flush] changes
    its tables; a batch takes effect as a whole or not at all; an error that is
    [ENOENT] means that the batch refers to something that does not exist, and
    comes from [Flush] only. *)
Class NftKernel {S} (C : nftConn S) (batch : S → list nft_op) (kernel : S → gmap string ktable) : Prop := {
  kernel_ctx s : kernel (ctx_Err s).2 = kernel s;
  kernel_New s : kernel (conn_New s).2 = kernel s;
  kernel_DelTable t s : kernel (conn_DelTable t s) = kernel s;
  kernel_AddTable t s : kernel (conn_AddTable t s).2 = kernel s;
  kernel_AddChain c s : kernel (conn_AddChain c s).2 = kernel s;
  kernel_AddSet m els s : kernel (conn_AddSet m els s).2 = kernel s;
  kernel_AddRule r s : kernel (conn_AddRule r s) = kernel s;
  flush_ok s s' : conn_Flush s = (Ok tt, s') → run_batch (batch s) (kernel s) = Some (kernel s');
  flush_err s e s' : conn_Flush s = (Err e, s') → kernel s' = kernel s;
  flush_missing s e s' :
    conn_Flush s = (Err e, s') → isTableMissingError e = true → run_batch (batch s) (kernel s) = None;
  ctx_not_missing s e : (ctx_Err s).1 = Some e → isTableMissingError e = false;
  New_not_missing s e : (conn_New s).1 = Err e → isTableMissingError e = false;
  AddSet_not_missing m els s e : (conn_AddSet m els s).1.2 = Err e → isTableMissingError e = false;
}.

(** A wrapped error is recognised when the wrapped one is. *)
Lemma isTableMissingError_wrap p e : isTableMissingError (WrapError p e) = isTableMissingError e.
Proof. unfold isTableMissingError. by destruct e. Qed.

Section apply.
Context `{BU : !BinaryUtil} {S : Type} {C : nftConn S}.
Context (batch : S → list nft_op) `{!nftConnLaws C batch}.
Context (kernel : S → gmap string ktable) `{!NftKernel C batch kernel}.

Lemma kernel_add_chains chains m s : kernel (add_chains chains m s).2 = kernel s.
Proof.
  revert m s. induction chains as [|c chains IH]; intros m s; simpl; [done|].
  pose proof (kernel_AddChain c s). destruct (conn_AddChain c s) as [c' s1]. simpl in *. by rewrite IH.
Qed.

Lemma kernel_add_rules rules s : kernel (add_rules rules s) = kernel s.
Proof.
  unfold add_rules. revert s. induction rules as [|r rules IH]; intros s; simpl; [done|].
  by rewrite IH, kernel_AddRule.
Qed.

Lemma kernel_add_services table services q s :
  kernel (add_services table services q s).2 = kernel s ∧
  ∀ e, (add_services table services q s).1 = Err e → isTableMissingError e = false.
Proof.
  revert q s. induction services as [|sv services IH]; intros q s; simpl; [done|].
  pose proof (kernel_AddChain (plain_chain table (sv_chainName sv)) s).
  destruct (conn_AddChain _ s) as [c s1]. simpl in *.
  pose proof (kernel_add_chains ((λ b, plain_chain table (bk_chainName b)) <$> sv_backendChains sv)
    (q_backendChains q) s1).
  destruct (add_chains _ _ s1) as [bc s2]. simpl in *.
  pose proof (kernel_AddSet (dispatch_map table (sv_dispatchMapName sv)) (serviceDispatchMapElements sv) s2).
  pose proof (AddSet_not_missing (dispatch_map table (sv_dispatchMapName sv)) (serviceDispatchMapElements sv) s2) as Hm.
  destruct (conn_AddSet _ _ s2) as [[m [[]|e]] s3]; simpl in *.
  - destruct (IH (mkQueued (<[sv_chainName sv:=c]> (q_serviceChains q)) bc
      (<[sv_chainName sv:=m]> (q_dispatchMaps q))) s3) as [Hk He]. split; [congruence|done].
  - split; [congruence|]. intros e' [= <-]. rewrite isTableMissingError_wrap. by apply Hm.
Qed.

Lemma queueRuleset_kernel spec deleteTable s :
  kernel (queueRuleset spec deleteTable s).2 = kernel s ∧
  ∀ e, (queueRuleset spec deleteTable s).1 = Some (Err e) → isTableMissingError e = false.
Proof.
  unfold queueRuleset. set (table := mkTable _ _). set (s0 := if deleteTable then _ else _).
  assert (Hk0 : kernel s0 = kernel s) by (unfold s0; destruct deleteTable; [apply kernel_DelTable|done]).
  pose proof (kernel_AddTable table s0). destruct (conn_AddTable table s0) as [table' s1]. simpl in *.
  pose proof (kernel_add_chains (base_chain table' <$> rs_baseChains spec) ∅ s1).
  destruct (add_chains _ ∅ s1) as [bases s2]. simpl in *.
  destruct (kernel_add_services table' (rs_serviceChains spec) (mkQueued ∅ ∅ ∅) s2) as [Hk He].
  destruct (add_services _ _ _ s2) as [[q|e] s3]; simpl in *.
  - destruct (mapM _ _); simpl; rewrite ?kernel_add_rules; (split; [congruence|done]).
  - split; [congruence|]. intros e' [= <-]. by apply He.
Qed.

(** One attempt. *)
Lemma applyOnce_spec (spec : rulesetSpec) (deleteTable : bool) (s : S) :
  rs_baseChains spec = defaultBaseChains → well_named (rs_serviceChains spec) →
  (if deleteTable then True else kernel s !! rs_tableName spec = None) →
  match applyOnce (Some spec) deleteTable s with
  | (Some (Ok _), s') => ∃ kt, kernel s' = <[rs_tableName spec := kt]> (kernel s) ∧ serves (rs_serviceChains spec) kt
  | (Some (Err e), s') => kernel s' = kernel s ∧
      (isTableMissingError e = true → kernel s !! rs_tableName spec = None)
  | (None, _) => False
  end.
Proof.
  intros Hbase Hwn Hdel. unfold applyOnce.
  pose proof (kernel_ctx s) as Hk1. pose proof (ctx_not_missing s) as Hm1.
  destruct (ctx_Err s) as [[e|] s1]; simpl in *; [split; [done|]; rewrite Hm1 by done; done|].
  pose proof (kernel_New s1) as Hk2. pose proof (New_not_missing s1) as Hm2. pose proof (conn_New_batch s1) as Hb.
  destruct (conn_New s1) as [[[]|e] s2]; simpl in *.
  2: { split; [congruence|]. rewrite isTableMissingError_wrap, Hm2; done. }
  specialize (Hb s2 eq_refl).
  destruct (queueRuleset_kernel spec deleteTable s2) as [Hk3 Hm3].
  destruct (queueRuleset spec deleteTable s2) as [[[[]|e]|] s3] eqn:Hq; simpl in *.
  3: by apply (queueRuleset_batch batch) in Hq; [|done|by apply well_named_services].
  2: { split; [congruence|]. rewrite Hm3; done. }
  apply (queueRuleset_batch batch) in Hq as (ids & Hlen & Hq); [|done|by apply well_named_services].
  rewrite Hb in Hq. simpl in Hq.
  pose proof (kernel_ctx s3) as Hk4. pose proof (ctx_not_missing s3) as Hm4. pose proof (ctx_Err_batch s3) as Hb4.
  destruct (ctx_Err s3) as [[e|] s4]; simpl in *; [split; [congruence|]; rewrite Hm4 by done; done|].
  assert (Hkernel : kernel s4 = kernel s) by congruence. assert (Hbatch : batch s4 = ruleset_batch spec deleteTable ids) by congruence.
  destruct (conn_Flush s4) as [[[]|e] s5] eqn:Hflush.
  - apply flush_ok in Hflush. rewrite Hkernel, Hbatch in Hflush.
    assert (Hpre : if deleteTable then is_Some (kernel s !! rs_tableName spec) else kernel s !! rs_tableName spec = None).
    { destruct deleteTable; [|done]. by eapply deleted_table_exists. }
    destruct (ruleset_batch_serves spec deleteTable ids (kernel s) Hbase Hwn Hlen Hpre) as (kt & Hrun & Hserves).
    exists kt. split; [congruence|done].
  - split; [by rewrite (flush_err _ _ _ Hflush)|]. rewrite isTableMissingError_wrap. intros Hmiss.
    apply (flush_missing _ _ _ Hflush) in Hmiss. rewrite Hkernel, Hbatch in Hmiss.
    destruct deleteTable; [|done]. destruct (kernel s !! rs_tableName spec) as [old|] eqn:Hold; [|done].
    destruct (ruleset_batch_serves spec true ids (kernel s) Hbase Hwn Hlen) as (kt & Hrun & _); [by rewrite Hold|congruence].
Qed.

#[local] Arguments applyOnce : simpl never.

Lemma Apply_spec spec s :
  rs_baseChains spec = defaultBaseChains → well_named (rs_serviceChains spec) →
  match Apply (Some spec) s with
  | (Some (Ok _), s') => ∃ kt, kernel s' = <[rs_tableName spec := kt]> (kernel s) ∧ serves (rs_serviceChains spec) kt
  | (Some (Err _), s') => kernel s' = kernel s
  | (None, _) => False
  end.
Proof.
  intros Hbase Hwn. unfold Apply. pose proof (kernel_ctx s) as Hk. destruct (ctx_Err s) as [[e|] s1]; simpl in Hk; [done|].
  pose proof (applyOnce_spec spec true s1 Hbase Hwn I) as H1.
  destruct (applyOnce (Some spec) true s1) as [[[[]|e]|] s2]; [|destruct H1 as [Hk2 Hmiss]|done].
  - by rewrite <-Hk.
  - destruct (isTableMissingError e) eqn:He; simpl; [|congruence].
    pose proof (applyOnce_spec spec false s2 Hbase Hwn) as H2. rewrite Hk2, Hk in H2.
    specialize (H2 ltac:(rewrite <-Hk; by apply Hmiss)).
    destruct (applyOnce (Some spec) false s2) as [[[[]|e']|] s3]; [exact H2|exact (proj1 H2)|exact H2].
Qed.

(** C18. Applying a ruleset that has the agent's two base
    chains and distinct chain and map names never panics.  On success the
    agent's table serves exactly the ruleset - whether or not the table existed
    before, since a missing one is created by the second attempt - and no other
    table has changed; on failure nothing has changed. *)
Theorem Apply_replaces_table spec s :
  rs_baseChains spec = defaultBaseChains → well_named (rs_serviceChains spec) →
  match Apply (Some spec) s with
  | (Some (Ok _), s') => ∃ kt, kernel s' = <[rs_tableName spec := kt]> (kernel s) ∧ serves (rs_serviceChains spec) kt
  | (Some (Err _), s') => kernel s' = kernel s
  | (None, _) => False
  end.
Proof. apply Apply_spec. Qed.

End apply.
