(* ===== verification/Packets.v ===== *)
(** * What the table does to a packet

    A specification: how nftables evaluates, on a packet's IPv4 destination,
    protocol and destination port, the expressions the agent uses.  A rule's
    expressions run in order until one does not match; a jump evaluates another
    chain and comes back; a destination NAT ends the evaluation. *)

From S2P Require Import Prelude GoNet GoStrings KubeTypes Netlink NetlinkSpec.

Record packet := mkPacket { pk_daddr : list Z; pk_l4proto : Z; pk_dport : Z }.

(** What a rule does: nothing (more), jump to a chain, or rewrite the destination. *)
Inductive rule_effect :=
| Nothing
| JumpTo (chain : string)
| Translate (ip port : list Z).

Section packets.
Context `{BU : !BinaryUtil}.

Definition reg (regs : gmap Z (list Z)) (r : Z) : list Z := default [] (regs !! r).

(** A field of the packet, by header, offset and length. *)
Definition payload (pkt : packet) (base : PayloadBase) (offset len : Z) : option (list Z) :=
  match base with
  | PayloadBaseNetworkHeader => if decide (offset = 16 ∧ len = 4) then Some (pk_daddr pkt) else None
  | PayloadBaseTransportHeader =>
      if decide (offset = 2 ∧ len = 2) then Some (BigEndian_PutUint16 (pk_dport pkt)) else None
  end.

(** [rnd] is the random number the packet draws. *)
Fixpoint run_exprs (maps : gmap string (list SetElement)) (pkt : packet) (rnd : Z)
    (exprs : list expr) (regs : gmap Z (list Z)) : rule_effect :=
  match exprs with
  | [] => Nothing
  | e :: exprs =>
      match e with
      | Payload d base offset len =>
          match payload pkt base offset len with
          | Some data => run_exprs maps pkt rnd exprs (<[d := data]> regs)
          | None => Nothing
          end
      | Cmp CmpOpEq r data => if decide (reg regs r = data) then run_exprs maps pkt rnd exprs regs else Nothing
      | Meta MetaKeyL4PROTO r => run_exprs maps pkt rnd exprs (<[r := [pk_l4proto pkt]]> regs)
      | Verdict VerdictJump c => JumpTo c
      | Numgen r NFT_NG_RANDOM modulus offset =>
          run_exprs maps pkt rnd exprs (<[r := NativeEndian_PutUint32 (offset + rnd mod modulus)]> regs)
      | Lookup src _ true m _ =>
          match list_find (λ el, el_Key el = reg regs src) (default [] (maps !! m)) with
          | Some (_, mkElement _ (Some (Verdict VerdictJump c))) => JumpTo c
          | _ => Nothing
          end
      | Lookup _ _ false _ _ => Nothing
      | Immediate r data => run_exprs maps pkt rnd exprs (<[r := data]> regs)
      | NAT NATTypeDestNAT TableFamilyIPv4 ra rp => Translate (reg regs ra) (reg regs rp)
      end
  end.

(** Evaluating a chain; [fuel] bounds the depth of jumps. *)
Fixpoint eval_chain (fuel : nat) (kt : ktable) (pkt : packet) (rnd : Z) (name : string) : option (list Z * list Z) :=
  match fuel with
  | O => None
  | S fuel =>
      (fix go (rules : list (list expr)) : option (list Z * list Z) :=
         match rules with
         | [] => None
         | rule :: rules =>
             match run_exprs (kt_maps kt) pkt rnd rule ∅ with
             | Nothing => go rules
             | JumpTo c => match eval_chain fuel kt pkt rnd c with Some t => Some t | None => go rules end
             | Translate ip port => Some (ip, port)
             end
         end) (default [] (kt_chains kt !! name))
  end.

(** ** What the services ask for *)

Definition service_matches (pkt : packet) (sv : serviceChainSpec) : Prop :=
  pk_daddr pkt = sv_clusterIP sv ∧ pk_l4proto pkt = IPPROTO_TCP ∧ pk_dport pkt = sv_servicePort sv.

#[export] Instance service_matches_dec pkt sv : Decision (service_matches pkt sv).
Proof. unfold service_matches. apply _. Defined.

(** The first matching service, and the backend the random number picks. *)
Definition chosen_backend (services : list serviceChainSpec) (pkt : packet) (rnd : Z) : option backendChainSpec :=
  '(_, sv) ← list_find (service_matches pkt) services;
  sv_backendChains sv !! Z.to_nat (rnd mod Z.of_nat (length (sv_backendChains sv))).

Definition service_ok (sv : serviceChainSpec) : Prop :=
  0 < sv_servicePort sv < 2 ^ 16 ∧ (0 < Z.of_nat (length (sv_backendChains sv)) < 2 ^ 32).

Lemma chosen_backend_is_Some services pkt rnd :
  Forall service_ok services →
  is_Some (chosen_backend services pkt rnd) ↔ ∃ sv, sv ∈ services ∧ service_matches pkt sv.
Proof.
  intros Hok. unfold chosen_backend. destruct (list_find _ services) as [[i sv]|] eqn:Hf; simpl.
  - apply list_find_Some in Hf as (Hi & Hm & _). apply list_elem_of_lookup_2 in Hi. split; [by exists sv|]. intros _.
    rewrite list.Forall_forall in Hok. destruct (Hok sv Hi) as [_ [Hlen _]].
    apply lookup_lt_is_Some_2.  apply Nat2Z.inj_lt. rewrite Z2Nat.id.
    + by apply Z.mod_pos_bound.
    + by apply Z.mod_pos_bound.
  - apply list_find_None in Hf. split; [by intros []|]. intros (sv & Hi & Hm).
    rewrite list.Forall_forall in Hf. by destruct (Hf sv Hi).
Qed.

(** Each backend of the first matching service is picked by its index. *)
Lemma chosen_backend_every services pkt i sv b :
  Forall service_ok services → list_find (service_matches pkt) services = Some (i, sv) → b ∈ sv_backendChains sv →
  ∃ rnd, 0 ≤ rnd < 2 ^ 32 ∧ chosen_backend services pkt rnd = Some b.
Proof.
  intros Hok Hf [j Hj]%list_elem_of_lookup. pose proof Hf as (Hi & _)%list_find_Some.
  rewrite list.Forall_forall in Hok. destruct (Hok sv) as [_ Hlen]; [by eapply list_elem_of_lookup_2|].
  pose proof (lookup_lt_Some _ _ _ Hj) as Hlt. exists (Z.of_nat j). split; [lia|].
  unfold chosen_backend. rewrite Hf. simpl. by rewrite Z.mod_small, Nat2Z.id by lia.
Qed.

Lemma reg_same regs r d : reg (<[r := d]> regs) r = d.
Proof. unfold reg. by rewrite lookup_insert_eq. Qed.

Lemma reg_other regs r r' d : r ≠ r' → reg (<[r := d]> regs) r' = reg regs r'.
Proof. intros. unfold reg. by rewrite lookup_insert_ne. Qed.

#[local] Arguments reg : simpl never.

Context `{!BinaryUtilLaws}.

Lemma BigEndian_inj v w :
  0 ≤ v < 2 ^ 16 → 0 ≤ w < 2 ^ 16 → BigEndian_PutUint16 v = BigEndian_PutUint16 w → v = w.
Proof.
  intros Hv Hw. rewrite !BigEndian_PutUint16_spec by done. intros [= H1 H2].
  rewrite (Z.div_mod v 256), (Z.div_mod w 256) by done. congruence.
Qed.

(** A jump rule fires exactly on the service's packets. *)
Lemma jump_rule_fires maps pkt rnd sv :
  0 ≤ pk_dport pkt < 2 ^ 16 → service_ok sv →
  run_exprs maps pkt rnd (serviceJumpExprs sv) ∅
  = if decide (service_matches pkt sv) then JumpTo (sv_chainName sv) else Nothing.
Proof.
  intros Hport [Hsv _]. unfold service_matches, serviceJumpExprs.
  cbn [run_exprs payload]. rewrite !(decide_True (P := _ ∧ _)) by done. rewrite !reg_same.
  case_decide as H1; [|rewrite decide_False; [done|tauto]].
  case_decide as H2; [|rewrite decide_False; [done|intros (_ & Heq & _); by rewrite Heq in H2]].
  case_decide as H3.
  - apply BigEndian_inj in H3; [|done|lia]. rewrite decide_True; [done|]. split_and!; congruence.
  - rewrite decide_False; [done|]. intros (_ & _ & Heq). by rewrite Heq in H3.
Qed.

(** The dispatch rule jumps to the chain of the backend picked. *)
Lemma dispatch_rule_picks maps pkt rnd sv m :
  maps !! set_Name m = Some (serviceDispatchMapElements sv) → service_ok sv →
  ∃ b, sv_backendChains sv !! Z.to_nat (rnd mod Z.of_nat (length (sv_backendChains sv))) = Some b ∧
       run_exprs maps pkt rnd (serviceDispatchExprs sv m) ∅ = JumpTo (bk_chainName b).
Proof.
  intros Hm [_ Hlen]. set (n := Z.of_nat (length (sv_backendChains sv))) in *.
  assert (Hr : 0 ≤ rnd mod n < n) by (apply Z.mod_pos_bound; lia).
  destruct (lookup_lt_is_Some_2 (sv_backendChains sv) (Z.to_nat (rnd mod n))) as [b Hb]; [lia|].
  exists b. split; [done|]. unfold serviceDispatchExprs. cbn [run_exprs]. rewrite Hm, Z.add_0_l, reg_same. cbn [default from_option id].
  fold n. rewrite (Z.mod_small n) by lia.
  assert (Hfind : list_find (λ el, el_Key el = NativeEndian_PutUint32 (rnd mod n)) (serviceDispatchMapElements sv)
    = Some (Z.to_nat (rnd mod n), mkElement (NativeEndian_PutUint32 (rnd mod n)) (Some (Verdict VerdictJump (bk_chainName b))))).
  { apply list_find_Some. unfold serviceDispatchMapElements. split_and!.
    - rewrite list_lookup_imap, Hb. simpl. by rewrite Z2Nat.id, Z.mod_small by lia.
    - done.
    - intros i el Hi Hlt. rewrite list_lookup_imap in Hi. destruct (sv_backendChains sv !! i); [|done].
      injection Hi as <-. simpl. rewrite Z.mod_small by lia. intros Heq%NativeEndian_PutUint32_inj; lia. }
  by rewrite Hfind.
Qed.

Lemma backend_rule_translates maps pkt rnd b :
  run_exprs maps pkt rnd (backendDNATExprs b) ∅
  = Translate (bk_backendIP b) (BigEndian_PutUint16 (bk_backendPort b)).
Proof. unfold backendDNATExprs. cbn [run_exprs]. by rewrite reg_same, reg_other, reg_same. Qed.

Lemma eval_service services kt fuel pkt rnd sv :
  serves services kt → sv ∈ services → service_ok sv →
  ∃ b, sv_backendChains sv !! Z.to_nat (rnd mod Z.of_nat (length (sv_backendChains sv))) = Some b ∧
       eval_chain (S (S fuel)) kt pkt rnd (sv_chainName sv)
       = Some (bk_backendIP b, BigEndian_PutUint16 (bk_backendPort b)).
Proof.
  intros Hs Hsv Hok. destruct (serves_dispatch _ _ Hs sv Hsv) as [sid Hchain].
  set (m := with_id sid _) in Hchain.
  destruct (dispatch_rule_picks (kt_maps kt) pkt rnd sv m) as (b & Hb & Hrun); [by apply (serves_map _ _ Hs)|done|].
  exists b. split; [done|]. cbn [eval_chain]. rewrite Hchain. cbn [default from_option id]. rewrite Hrun.
  rewrite (serves_backend _ _ Hs sv b Hsv); [|by eapply list_elem_of_lookup_2].
  cbn [default from_option id]. by rewrite backend_rule_translates.
Qed.

Lemma eval_base_chain services kt fuel pkt rnd n :
  serves services kt → Forall service_ok services →
  n ∈ [preroutingChainName; outputChainName] → 0 ≤ pk_dport pkt < 2 ^ 16 → (3 ≤ fuel)%nat →
  eval_chain fuel kt pkt rnd n
  = (λ b, (bk_backendIP b, BigEndian_PutUint16 (bk_backendPort b))) <$> chosen_backend services pkt rnd.
Proof.
  intros Hs Hok Hn Hport Hfuel. destruct fuel as [|[|[|fuel]]]; try lia. cbn [eval_chain].
  rewrite (serves_base _ _ Hs n Hn). cbn [default from_option id]. unfold chosen_backend.
  assert (Hin : ∀ sv, sv ∈ services → sv ∈ services) by done. revert Hin Hok.
  generalize services at 1 3 4 5. intros todo Hin Hok.
  induction Hok as [|sv todo Hsv Hok IH]; [done|].
  cbn [fmap list_fmap list_find]. rewrite (jump_rule_fires _ _ _ sv Hport Hsv).
  case_decide as Hm.
  - destruct (eval_service services kt fuel pkt rnd sv Hs) as (b & Hb & He); [apply Hin; by left|done|].
    cbn [eval_chain] in He. rewrite He. simpl. by rewrite Hb.
  - rewrite IH by (intros; apply Hin; by right). by destruct (list_find _ todo) as [[]|].
Qed.

(** C19. In a table that serves a ruleset whose services have
    ports other than 0 and between 1 and 2^32 - 1 backends, a packet that
    traverses either base chain has its destination rewritten exactly when it is
    a TCP packet to some service's virtual IP and port; it then goes to the
    backend that the random number picks among those of the first such service
    of the ruleset, each of which is picked by some number, and nowhere else. *)
Theorem packets_reach_backends services kt fuel pkt rnd n :
  serves services kt → Forall service_ok services →
  n ∈ [preroutingChainName; outputChainName] → 0 ≤ pk_dport pkt < 2 ^ 16 → (3 ≤ fuel)%nat →
  eval_chain fuel kt pkt rnd n
  = (λ b, (bk_backendIP b, BigEndian_PutUint16 (bk_backendPort b))) <$> chosen_backend services pkt rnd ∧
  (is_Some (eval_chain fuel kt pkt rnd n) ↔ ∃ sv, sv ∈ services ∧ service_matches pkt sv) ∧
  ∀ i sv b, list_find (service_matches pkt) services = Some (i, sv) → b ∈ sv_backendChains sv →
    ∃ rnd, 0 ≤ rnd < 2 ^ 32 ∧
      eval_chain fuel kt pkt rnd n = Some (bk_backendIP b, BigEndian_PutUint16 (bk_backendPort b)).
Proof.
  intros Hs Hok Hn Hport Hfuel. pose proof (λ rnd, eval_base_chain services kt fuel pkt rnd n Hs Hok Hn Hport Hfuel) as He.
  split_and!; [done| |].
  - rewrite He, fmap_is_Some. by apply chosen_backend_is_Some.
  - intros i sv b Hf Hb. destruct (chosen_backend_every _ pkt i sv b Hok Hf Hb) as (r & Hr & Hc).
    exists r. split; [done|]. by rewrite He, Hc.
Qed.

End packets.
