(* ===== verification/ProxierSpec.v ===== *)
(** * The desired ruleset: properties

    The ruleset has one service per frontend with a usable address and port and
    at least one usable backend, in the order of the frontends' names whatever
    the order of Go's maps; its names are distinct; and once applied, it sends
    the frontends' traffic to their backends. *)

From S2P Require Import Prelude GoNet GoStrings KubeTypes GoHash Trackers Netlink Proxier NetlinkSpec ApplySpec Packets.

(** ** Names *)

Lemma string_app_inj_len a a' b b' :
  String.length a = String.length a' → a +:+ b = a' +:+ b' → a = a' ∧ b = b'.
Proof.
  revert a'. induction a as [|c a IH]; intros [|c' a'] Hlen; try done.
  rewrite !string_app_cons. intros [= -> H]. injection Hlen as Hlen. destruct (IH a' Hlen H) as [-> ->]. done.
Qed.

Lemma length_hashedName p s : String.length (hashedName p s) = (String.length p + 16)%nat.
Proof.
  unfold hashedName. rewrite string_length_app, length_hex, length_take, length_sha256. lia.
Qed.

Lemma length_chainName s : String.length (chainNameFor s) = 20%nat.
Proof. apply length_hashedName. Qed.

Lemma dispatchMapNameFor_chain s :
  dispatchMapNameFor (chainNameFor s) = "map_" +:+ hex_EncodeToString (take 8 (sha256_Sum (bytes_of s))).
Proof.
  unfold dispatchMapNameFor. rewrite length_chainName. unfold chainNameFor, hashedName.
  set (x := hex_EncodeToString _). assert (Hx : String.length x = 16%nat).
  { unfold x. rewrite length_hex, length_take, length_sha256. done. }
  clearbody x.
  change (20 - 4)%nat with 16%nat.
  assert (Hsub : String.substring 4 16 ("svc_" +:+ x) = String.substring 0 16 x) by reflexivity.
  pose proof (substring_all x) as Hs. rewrite Hx in Hs. by rewrite Hsub, Hs.
Qed.

Lemma dispatchMapNameFor_inj s s' :
  dispatchMapNameFor (chainNameFor s) = dispatchMapNameFor (chainNameFor s') → chainNameFor s = chainNameFor s'.
Proof.
  rewrite !dispatchMapNameFor_chain. unfold chainNameFor, hashedName.
  intros [_ H]%string_app_inj_len; [|done]. by f_equal.
Qed.

Lemma backendChainNameFor_inj s s' i j :
  backendChainNameFor (chainNameFor s) i = backendChainNameFor (chainNameFor s') j →
  chainNameFor s = chainNameFor s' ∧ i = j.
Proof.
  unfold backendChainNameFor. intros [-> H]%string_app_inj_len; [|by rewrite !length_chainName].
  split; [done|]. apply string_app_inj_len in H as [_ H]; [|done]. apply (inj pretty) in H. lia.
Qed.

Lemma backendChainNameFor_longer s i : (20 < String.length (backendChainNameFor (chainNameFor s) i))%nat.
Proof. unfold backendChainNameFor. rewrite !string_length_app, length_chainName. simpl. lia. Qed.

(** ** Backends *)

(** The address and port an endpoint is reached at, if it is usable. *)
Definition target (e : Backend) : option (list Z * Z) :=
  port ← toUint16Port (be_Port e);
  ip ← copyIPv4 (ParseIP (be_IP e));
  Some (ip, port).

Definition targets (endpoints : list Backend) : list (list Z * Z) := omap target endpoints.

Lemma backendChainSpecs_targets name endpoints :
  backendChainSpecsForEndpoints name endpoints
  = imap (λ i t, mkBackendChain (backendChainNameFor name i) t.1 t.2) (targets endpoints).
Proof.
  unfold backendChainSpecsForEndpoints. induction endpoints as [|e endpoints IH] using rev_ind; [done|].
  rewrite foldl_app. unfold targets in *. rewrite omap_app, imap_app. simpl. rewrite IH. unfold backend_step, target.
  destruct (toUint16Port (be_Port e)) as [port|]; simpl; [|by rewrite app_nil_r].
  destruct (copyIPv4 (ParseIP (be_IP e))) as [ip|]; simpl; [|by rewrite app_nil_r].
  by rewrite length_imap, Nat.add_0_r.
Qed.

Lemma length_targets endpoints : (length (targets endpoints) ≤ length endpoints)%nat.
Proof.
  unfold targets. induction endpoints as [|e endpoints IH]; [done|].
  unfold omap in *. simpl. destruct (target e); simpl; lia.
Qed.

Lemma toUint16Port_spec port p : toUint16Port port = Some p ↔ p = port ∧ 0 < port < 2 ^ 16.
Proof.
  unfold toUint16Port. destruct (_ || _) eqn:E.
  - apply orb_true_iff in E. split; [done|]. lia.
  - apply orb_false_iff in E. rewrite Z.mod_small by lia. split; [intros [= <-]; lia|]. by intros [-> _].
Qed.

Section ruleset.
Context `{TP : !TypesPackage}.

(** ** One service *)

(** What a frontend asks for: its address, its port, and the targets. *)
Definition forwards (frontends : FrontendMap) (endpoints : EndpointsMap) (key : FrontendKey)
    (vip : list Z) (port : Z) (ts : list (list Z * Z)) : Prop :=
  ∃ f, frontends !! key = Some f ∧ To4 (fr_Address f) = Some vip ∧ fr_Port f = port ∧ 0 < port < 2 ^ 16 ∧
       ts = targets (default [] (endpoints !! key)) ∧ ts ≠ [].

Lemma service_for_spec frontends endpoints key sv :
  service_for frontends endpoints key = Some sv ↔
  ∃ vip port ts, forwards frontends endpoints key vip port ts ∧
    sv = mkServiceChain (FrontendKey_String key) (chainNameFor (FrontendKey_String key))
           (dispatchMapNameFor (chainNameFor (FrontendKey_String key))) vip port
           (imap (λ i t, mkBackendChain (backendChainNameFor (chainNameFor (FrontendKey_String key)) i) t.1 t.2) ts).
Proof.
  unfold service_for, forwards. destruct (frontends !! key) as [f|]; simpl; [|naive_solver].
  rewrite backendChainSpecs_targets. remember (targets (default [] (endpoints !! key))) as ts0 eqn:Hts.
  destruct (toUint16Port (fr_Port f)) as [port|] eqn:Hport.
  - apply toUint16Port_spec in Hport as [-> Hport]. destruct (To4 (fr_Address f)) as [vip|] eqn:Hvip; [|naive_solver].
    destruct ts0 as [|t ts']; cbn [imap].
    + split; [done|]. by intros (? & ? & ? & (? & _ & _ & _ & _ & -> & ?) & _).
    + split.
      * intros [= <-]. exists vip, (fr_Port f), (t :: ts'). split; [by exists f|done].
      * intros (? & ? & ? & (? & [= <-] & Hv & <- & _ & -> & _) & ->). rewrite Hvip in Hv. injection Hv as <-.
        done.
  - split; [done|]. intros (? & port & ? & (? & [= <-] & _ & Heq & Hp & _) & _).
    assert (toUint16Port (fr_Port f) = Some port) by (apply toUint16Port_spec; lia). congruence.
Qed.

Lemma service_for_chain frontends endpoints key sv :
  service_for frontends endpoints key = Some sv → sv_chainName sv = chainNameFor (FrontendKey_String key).
Proof. intros (vip & port & ts & _ & ->)%service_for_spec. done. Qed.

Lemma service_for_frontend frontends endpoints key sv :
  service_for frontends endpoints key = Some sv → is_Some (frontends !! key).
Proof. unfold service_for. destruct (frontends !! key); [by eexists|done]. Qed.

(** ** The ruleset *)

(** [order] enumerates the frontends; their chain names do not collide. *)
Definition enumerates (order : list FrontendKey) (frontends : FrontendMap) : Prop :=
  order ≡ₚ (map_to_list frontends).*1.

Definition no_collision (frontends : FrontendMap) : Prop :=
  ∀ k1 k2, is_Some (frontends !! k1) → is_Some (frontends !! k2) →
    chainNameFor (FrontendKey_String k1) = chainNameFor (FrontendKey_String k2) → k1 = k2.

Lemma enumerates_elem order frontends key :
  enumerates order frontends → key ∈ order ↔ is_Some (frontends !! key).
Proof.
  intros ->. rewrite list_elem_of_fmap. split.
  - intros ([k f] & -> & Hin%elem_of_map_to_list). by exists f.
  - intros [f Hf]. exists (key, f). by rewrite elem_of_map_to_list.
Qed.

Lemma enumerates_NoDup order frontends : enumerates order frontends → NoDup order.
Proof. intros ->. apply NoDup_fst_map_to_list. Qed.

Definition ruleset_services (order : list FrontendKey) (frontends : FrontendMap) (endpoints : EndpointsMap)
    : list serviceChainSpec :=
  omap (service_for frontends endpoints) (slices_SortFunc (cmp_on FrontendKey_String) order).

Lemma ruleset_services_elem order frontends endpoints sv :
  enumerates order frontends →
  sv ∈ ruleset_services order frontends endpoints ↔ ∃ key, service_for frontends endpoints key = Some sv.
Proof.
  intros Hen. unfold ruleset_services. rewrite list_elem_of_omap. split.
  - intros (key & _ & H). eauto.
  - intros [key H]. exists key. split; [|done]. unfold slices_SortFunc. rewrite elem_of_less_sort.
    apply (enumerates_elem _ _ _ Hen). by eapply service_for_frontend.
Qed.

(** Distinct frontends have distinct service chains. *)
Lemma ruleset_services_distinct order frontends endpoints :
  enumerates order frontends → no_collision frontends →
  NoDup (sv_chainName <$> ruleset_services order frontends endpoints).
Proof.
  intros Hen Hnc. unfold ruleset_services, slices_SortFunc.
  set (keys := less_sort _ order).
  assert (Hnd : NoDup keys) by (unfold keys; rewrite less_sort_perm; by eapply enumerates_NoDup).
  clearbody keys. induction Hnd as [|key keys Hkey Hnd IH]; [constructor|]. simpl.
  destruct (service_for frontends endpoints key) as [sv|] eqn:Hsv; [|done].
  rewrite list.fmap_cons. constructor; [|done].
  intros (sv' & Heq & (key' & Hin & Hsv')%list_elem_of_omap)%list_elem_of_fmap.
  assert (key = key') as <-; [|done]. apply Hnc.
  - by eapply service_for_frontend.
  - by eapply service_for_frontend.
  - by rewrite <-(service_for_chain _ _ _ _ Hsv), <-(service_for_chain _ _ _ _ Hsv').
Qed.

(** Every name of a service starts with its chain's name. *)
Lemma service_names_prefix frontends endpoints key sv n :
  service_for frontends endpoints key = Some sv → n ∈ service_names sv →
  ∃ rest, n = chainNameFor (FrontendKey_String key) +:+ rest.
Proof.
  intros (vip & port & ts & _ & ->)%service_for_spec [->|(b & -> & Hb)%list_elem_of_fmap]%list.elem_of_cons.
  - exists "". simpl. symmetry. apply string_app_nil.
  - simpl in Hb. apply elem_of_lookup_imap in Hb as (i & t & -> & _). simpl. unfold backendChainNameFor. eauto.
Qed.

Lemma service_names_NoDup frontends endpoints key sv :
  service_for frontends endpoints key = Some sv → NoDup (service_names sv).
Proof.
  intros (vip & port & ts & _ & ->)%service_for_spec. unfold service_names. simpl. constructor.
  - intros (b & Heq & (i & t & -> & _)%elem_of_lookup_imap)%list_elem_of_fmap. simpl in Heq.
    pose proof (backendChainNameFor_longer (FrontendKey_String key) i) as Hlen.
    rewrite <-Heq, length_chainName in Hlen. lia.
  - apply NoDup_alt. intros i j n Hi Hj. rewrite !list_lookup_fmap, !list_lookup_imap in Hi, Hj.
    destruct (ts !! i); [|done]. destruct (ts !! j); [|done]. apply (inj Some) in Hi. apply (inj Some) in Hj.
    rewrite <-Hi in Hj. by apply backendChainNameFor_inj in Hj as [_ ->].
Qed.

(** The desired ruleset's names are distinct. *)
Lemma ruleset_well_named order frontends endpoints :
  enumerates order frontends → no_collision frontends →
  well_named (ruleset_services order frontends endpoints).
Proof.
  intros Hen Hnc. pose proof (ruleset_services_distinct order frontends endpoints Hen Hnc) as Hnd.
  assert (Hlong : ∀ n, n ∈ service_chain_names (ruleset_services order frontends endpoints) → (20 ≤ String.length n)%nat).
  { intros n (sv & Hn & (key & Hsv)%ruleset_services_elem)%list_elem_of_bind; [|done].
    destruct (service_names_prefix _ _ _ _ _ Hsv Hn) as [rest ->]. rewrite string_length_app, length_chainName. lia. }
  split.
  - constructor; [|constructor].
    + intros [?|Hin%Hlong]%list.elem_of_cons; [done|]. simpl in Hin. lia.
    + intros Hin%Hlong. simpl in Hin. lia.
    + apply NoDup_bind; [| |by eapply NoDup_fmap_1].
      * intros sv1 sv2 n H1 H2 Hn1 Hn2.
        apply ruleset_services_elem in H1 as [k1 H1]; [|done]. apply ruleset_services_elem in H2 as [k2 H2]; [|done].
        destruct (service_names_prefix _ _ _ _ _ H1 Hn1) as [r1 ->].
        destruct (service_names_prefix _ _ _ _ _ H2 Hn2) as [r2 Heq].
        apply string_app_inj_len in Heq as [Heq _]; [|by rewrite !length_chainName].
        assert (k1 = k2) as <-; [|congruence].
        by apply Hnc; [eapply service_for_frontend..|].
      * intros sv [key Hsv]%ruleset_services_elem; [|done]. by eapply service_names_NoDup.
  - assert (Hmap : sv_dispatchMapName <$> ruleset_services order frontends endpoints
      = dispatchMapNameFor <$> (sv_chainName <$> ruleset_services order frontends endpoints)).
    { rewrite <-list_fmap_compose. apply list_fmap_ext. intros i sv Hi%list_elem_of_lookup_2.
      apply ruleset_services_elem in Hi as [key Hsv]; [|done].
      apply service_for_spec in Hsv as (? & ? & ? & _ & ->). done. }
    rewrite Hmap. apply NoDup_fmap_2_strong; [|done].
    intros n1 n2 (sv1 & -> & H1)%list_elem_of_fmap (sv2 & -> & H2)%list_elem_of_fmap.
    apply ruleset_services_elem in H1 as [k1 H1]; [|done]. apply ruleset_services_elem in H2 as [k2 H2]; [|done].
    rewrite (service_for_chain _ _ _ _ H1), (service_for_chain _ _ _ _ H2). apply dispatchMapNameFor_inj.
Qed.

(** The desired ruleset has exactly one service per
    frontend that has an IPv4 address, a port between 1 and 65535 and at least
    one usable backend, with those backends in order; and it does not depend on
    the order in which Go ranges over the frontends. *)
Theorem desiredRuleset_spec name order frontends endpoints :
  enumerates order frontends →
  (∀ sv, sv ∈ rs_serviceChains (desiredRuleset name order frontends endpoints) ↔
     ∃ key vip port ts, forwards frontends endpoints key vip port ts ∧
       sv_serviceKey sv = FrontendKey_String key ∧ sv_clusterIP sv = vip ∧ sv_servicePort sv = port ∧
       sv_chainName sv = chainNameFor (FrontendKey_String key) ∧
       sv_dispatchMapName sv = dispatchMapNameFor (sv_chainName sv) ∧
       sv_backendChains sv = imap (λ i t, mkBackendChain (backendChainNameFor (sv_chainName sv) i) t.1 t.2) ts) ∧
  ∀ order', enumerates order' frontends →
    (∀ k1 k2, k1 ∈ order → k2 ∈ order → FrontendKey_String k1 = FrontendKey_String k2 → k1 = k2) →
    desiredRuleset name order' frontends endpoints = desiredRuleset name order frontends endpoints.
Proof.
  intros Hen. split.
  - intros sv. simpl. fold (ruleset_services order frontends endpoints).
    rewrite ruleset_services_elem by done. setoid_rewrite service_for_spec. split.
    + intros (key & vip & port & ts & Hf & ->). by exists key, vip, port, ts.
    + intros (key & vip & port & ts & Hf & H1 & H2 & H3 & H4 & H5 & H6). exists key, vip, port, ts. split; [done|].
      destruct sv. simpl in *. subst. done.
  - intros order' Hen' Hinj. unfold desiredRuleset. do 2 f_equal. unfold slices_SortFunc.
    apply less_sort_unique; [apply _| |by rewrite Hen, Hen'].
    intros x y Hx Hy. rewrite !cmp_on_lt. intros Hxy Hyx.
    assert (Hin : ∀ k, k ∈ order' → k ∈ order) by (intros k; by rewrite Hen, Hen').
    apply Hinj; [by apply Hin..|]. by apply str_lt_antisym.
Qed.

(** ** Traffic *)

Lemma ruleset_services_ok order frontends endpoints :
  enumerates order frontends →
  (∀ key es, endpoints !! key = Some es → Z.of_nat (length es) < 2 ^ 32) →
  Forall service_ok (ruleset_services order frontends endpoints).
Proof.
  intros Hen Hsmall. apply list.Forall_forall. intros sv [key Hsv]%ruleset_services_elem; [|done].
  apply service_for_spec in Hsv as (vip & port & ts & (f & _ & _ & _ & Hport & Hts & Hne) & ->).
  split; simpl; [done|]. rewrite length_imap. split; [destruct ts; [done|simpl; lia]|].
  assert (Hle : (length ts ≤ length (default [] (endpoints !! key)))%nat).
  { rewrite Hts. apply length_targets. }
  destruct (endpoints !! key) as [es|] eqn:Hes; simpl in Hle; [specialize (Hsmall _ _ Hes); lia|lia].
Qed.

(** The frontend a packet is for. *)
Definition packet_for (frontends : FrontendMap) (endpoints : EndpointsMap) (pkt : packet)
    (key : FrontendKey) (ts : list (list Z * Z)) : Prop :=
  pk_l4proto pkt = IPPROTO_TCP ∧ forwards frontends endpoints key (pk_daddr pkt) (pk_dport pkt) ts.

(** The backend picked is a target of the frontend the packet is for. *)
Lemma chosen_backend_for order frontends endpoints pkt rnd b :
  enumerates order frontends →
  chosen_backend (ruleset_services order frontends endpoints) pkt rnd = Some b →
  ∃ key ts, packet_for frontends endpoints pkt key ts ∧
    ts !! Z.to_nat (rnd mod Z.of_nat (length ts)) = Some (bk_backendIP b, bk_backendPort b).
Proof.
  intros Hen. unfold chosen_backend. intros ([i sv] & (Hi & (Hd & Hp & Hport) & _)%list_find_Some & Hb)%bind_Some.
  apply list_elem_of_lookup_2, ruleset_services_elem in Hi as [key Hsv]; [|done].
  apply service_for_spec in Hsv as (vip & port & ts & Hf & ->). simpl in *. subst vip port.
  exists key, ts. split; [done|]. rewrite length_imap, list_lookup_imap in Hb.
  destruct (ts !! _) as [[ip port]|]; [|done]. simpl in Hb. injection Hb as <-. done.
Qed.

Lemma chosen_backend_some order frontends endpoints pkt rnd key ts :
  enumerates order frontends → packet_for frontends endpoints pkt key ts →
  is_Some (chosen_backend (ruleset_services order frontends endpoints) pkt rnd).
Proof.
  intros Hen [Hproto Hf]. unfold chosen_backend.
  destruct (list_find (service_matches pkt) (ruleset_services order frontends endpoints)) as [[i sv]|] eqn:Hfind.
  - apply list_find_Some in Hfind as (Hi & _ & _). simpl.
    apply list_elem_of_lookup_2, ruleset_services_elem in Hi as [key' Hsv]; [|done].
    apply service_for_spec in Hsv as (vip & port & ts' & (f & _ & _ & _ & _ & _ & Hne) & ->). simpl.
    apply lookup_lt_is_Some. rewrite length_imap.
    assert (0 ≤ rnd mod Z.of_nat (length ts') < Z.of_nat (length ts'))
      by (apply Z.mod_pos_bound; destruct ts'; [done|simpl; lia]). lia.
  - apply list_find_None in Hfind. rewrite list.Forall_forall in Hfind.
    destruct (service_for frontends endpoints key) as [sv|] eqn:Hsv.
    + exfalso. apply (Hfind sv); [apply ruleset_services_elem; eauto|].
      apply service_for_spec in Hsv as (vip & port & ts' & (f & Hf1 & Hv1 & Hp1 & _) & ->).
      destruct Hf as (f2 & Hf2 & Hv2 & Hp2 & _). unfold service_matches. simpl.
      rewrite Hf1 in Hf2. injection Hf2 as <-. split_and!; [congruence|done|congruence].
    + exfalso. assert (∃ sv, service_for frontends endpoints key = Some sv) as [sv' Hsv']; [|congruence].
      eexists. apply service_for_spec. eauto.
Qed.

End ruleset.

Section traffic.
Context `{TP : !TypesPackage, BU : !BinaryUtil, BL : !BinaryUtilLaws}.
Context {S : Type} {C : nftConn S}.
Context (batch : S → list nft_op) `{!nftConnLaws C batch}.
Context (kernel : S → gmap string ktable) `{!NftKernel C batch kernel}.

(** Applying the desired ruleset: what the table then does to a packet is what
    [chosen_backend] says. *)
Lemma apply_desired name order frontends endpoints s :
  enumerates order frontends → no_collision frontends →
  (∀ key es, endpoints !! key = Some es → Z.of_nat (length es) < 2 ^ 32) →
  match Apply (Some (desiredRuleset name order frontends endpoints)) s with
  | (Some (Ok _), s') => ∃ kt, kernel s' = <[name := kt]> (kernel s) ∧
      ∀ fuel pkt rnd n, n ∈ [preroutingChainName; outputChainName] → 0 ≤ pk_dport pkt < 2 ^ 16 → (3 ≤ fuel)%nat →
        eval_chain fuel kt pkt rnd n
        = (λ b, (bk_backendIP b, BigEndian_PutUint16 (bk_backendPort b)))
            <$> chosen_backend (ruleset_services order frontends endpoints) pkt rnd
  | (Some (Err _), s') => kernel s' = kernel s
  | (None, _) => False
  end.
Proof.
  intros Hen Hnc Hsmall. set (spec := desiredRuleset _ _ _ _).
  pose proof (Apply_spec batch kernel spec s eq_refl (ruleset_well_named _ _ endpoints Hen Hnc)) as HA.
  destruct (Apply (Some spec) s) as [[[[]|e]|] s']; [|exact HA..].
  destruct HA as (kt & Hk & Hserves). exists kt. split; [exact Hk|]. intros fuel pkt rnd n Hn Hport Hfuel.
  exact (eval_base_chain _ kt fuel pkt rnd n Hserves (ruleset_services_ok _ _ _ Hen Hsmall) Hn Hport Hfuel).
Qed.

(** C4. The whole path from the trackers' snapshots to the
    wire.  When the hashes in the chain names do not collide and no frontend has
    2^32 endpoints, then after the desired ruleset has been applied a packet that traverses
    one of the base chains is redirected exactly when it is a TCP packet to the
    address and port of a frontend with usable backends, and then to one of the
    backends of that frontend; applying never panics, and a failure changes
    nothing. *)
Theorem proxier_forwards name order frontends endpoints s :
  enumerates order frontends → no_collision frontends →
  (∀ key es, endpoints !! key = Some es → Z.of_nat (length es) < 2 ^ 32) →
  match Apply (Some (desiredRuleset name order frontends endpoints)) s with
  | (Some (Ok _), s') => ∃ kt, kernel s' = <[name := kt]> (kernel s) ∧
      ∀ fuel pkt rnd n, n ∈ [preroutingChainName; outputChainName] → 0 ≤ pk_dport pkt < 2 ^ 16 → (3 ≤ fuel)%nat →
        match eval_chain fuel kt pkt rnd n with
        | Some (ip, port) => ∃ key ts t, packet_for frontends endpoints pkt key ts ∧ t ∈ ts ∧
            ip = t.1 ∧ port = BigEndian_PutUint16 t.2
        | None => ¬ ∃ key ts, packet_for frontends endpoints pkt key ts
        end
  | (Some (Err _), s') => kernel s' = kernel s
  | (None, _) => False
  end.
Proof.
  intros Hen Hnc Hsmall. pose proof (apply_desired name order frontends endpoints s Hen Hnc Hsmall) as HA.
  destruct (Apply _ s) as [[[[]|e]|] s']; [|exact HA..].
  destruct HA as (kt & Hk & Hev). exists kt. split; [exact Hk|]. intros fuel pkt rnd n Hn Hport Hfuel.
  rewrite (Hev fuel pkt rnd n Hn Hport Hfuel).
  destruct (chosen_backend _ pkt rnd) as [b|] eqn:Hb; simpl.
  - destruct (chosen_backend_for _ _ _ _ _ _ Hen Hb) as (key & ts & Hfor & Hts).
    exists key, ts, (bk_backendIP b, bk_backendPort b). split_and!; [done|by eapply list_elem_of_lookup_2|done..].
  - intros (key & ts & Hfor). destruct (chosen_backend_some _ _ _ pkt rnd key ts Hen Hfor) as [b' Hb']. congruence.
Qed.

End traffic.
