(* ===== verification/ReferenceNft.v ===== *)
(** * Concrete instances for the agent's interfaces

    An nftables connection over an in-memory kernel, the byte encodings of a
    little-endian host and the name format of the API machinery, with the
    proofs that they satisfy the laws; and the worked examples of the agent's
    properties. *)

From S2P Require Import Prelude GoNet GoStrings KubeTypes GoHash Trackers Netlink Proxier NetlinkSpec ApplySpec Packets ProxierSpec.

#[export] Instance ref_types : TypesPackage := {|
  NamespacedName_String k := nn_Namespace k +:+ "/" +:+ nn_Name k |}.

#[export] Instance ref_types_laws : TypesPackageLaws.
Proof. by constructor. Qed.

#[export] Instance ref_binary : BinaryUtil := {|
  BigEndian_PutUint16 v := [v / 256; v mod 256];
  NativeEndian_PutUint32 v := [v mod 256; (v / 2 ^ 8) mod 256; (v / 2 ^ 16) mod 256; (v / 2 ^ 24) mod 256];
|}.

#[export] Instance ref_binary_laws : BinaryUtilLaws.
Proof.
  constructor; [done|]. intros v w Hv Hw. simpl. intros [= H1 H2 H3 H4].
  change (Z.pow_pos 2 8) with 256 in *. change (Z.pow_pos 2 16) with 65536 in *.
  change (Z.pow_pos 2 24) with 16777216 in *. Z.to_euclidean_division_equations; lia.
Qed.

(** ** The connection *)

Record nft_world := mkNftWorld {
  nw_batch : list nft_op; nw_kernel : gmap string ktable; nw_next : Z }.

Definition nw_queue (op : nft_op) (s : nft_world) : nft_world :=
  mkNftWorld (nw_batch s ++ [op]) (nw_kernel s) (nw_next s).

Definition no_such_file : error := Errno ENOENT "no such file or directory".

#[export] Instance ref_conn : nftConn nft_world := {|
  ctx_Err s := (None, s);
  conn_New s := (Ok tt, mkNftWorld [] (nw_kernel s) (nw_next s));
  conn_DelTable t s := nw_queue (OpDelTable t) s;
  conn_AddTable t s := (t, nw_queue (OpAddTable t) s);
  conn_AddChain c s := (c, nw_queue (OpAddChain c) s);
  conn_AddSet m els s :=
    let m' := with_id (nw_next s) m in
    ((m', Ok tt), mkNftWorld (nw_batch s ++ [OpAddSet m' els]) (nw_kernel s) (nw_next s + 1));
  conn_AddRule r s := nw_queue (OpAddRule r) s;
  conn_Flush s :=
    match run_batch (nw_batch s) (nw_kernel s) with
    | Some k => (Ok tt, mkNftWorld [] k (nw_next s))
    | None => (Err no_such_file, s)
    end;
|}.

#[export] Instance ref_conn_laws : nftConnLaws ref_conn nw_batch.
Proof. constructor; intros; simplify_eq/=; eauto. Qed.

#[export] Instance ref_kernel : NftKernel ref_conn nw_batch nw_kernel.
Proof.
  constructor; intros; simpl in *; try done; by destruct (run_batch _ _) eqn:?; simplify_eq/=.
Qed.

(** ** Worked examples: one Gateway with two listeners, one of them served *)

Definition web_key : FrontendKey := mkFrontendKey (mkNN "default" "gw") "web".
Definition tls_key : FrontendKey := mkFrontendKey (mkNN "default" "gw") "tls".

Definition demo_vip : list Z := [10; 96; 0; 1].

Definition demo_frontends : FrontendMap :=
  <[web_key := mkFrontend (v4in6_prefix ++ demo_vip) 80]>
    {[tls_key := mkFrontend (v4in6_prefix ++ demo_vip) 443]}.

Definition demo_backends : EndpointsMap :=
  {[web_key := [mkBackend "10.0.0.7" 8080; mkBackend "10.0.0.8" 8080]]}.

Definition demo_order : list FrontendKey := (map_to_list demo_frontends).*1.

Definition demo_ruleset : rulesetSpec := desiredRuleset "clusterip-gw" demo_order demo_frontends demo_backends.

Definition demo_kernel (tables : gmap string ktable) : nft_world := mkNftWorld [] tables 1.

Lemma demo_keys key : is_Some (demo_frontends !! key) → key = web_key ∨ key = tls_key.
Proof.
  unfold demo_frontends. rewrite lookup_insert_is_Some, lookup_singleton_is_Some. intros [->|[_ ->]]; auto.
Qed.

Lemma demo_enumerates : enumerates demo_order demo_frontends.
Proof. unfold enumerates. reflexivity. Qed.

Lemma demo_no_collision : no_collision demo_frontends.
Proof.
  assert (Hne : chainNameFor (FrontendKey_String web_key) ≠ chainNameFor (FrontendKey_String tls_key))
    by (vm_compute; discriminate).
  intros k1 k2 [->| ->]%demo_keys [->| ->]%demo_keys; congruence.
Qed.

Lemma demo_small key es : demo_backends !! key = Some es → Z.of_nat (length es) < 2 ^ 32.
Proof. unfold demo_backends. by intros [_ <-]%lookup_singleton_Some. Qed.

Lemma desiredRuleset_spec_witness :
  sv_servicePort <$> rs_serviceChains demo_ruleset = [80] ∧
  desiredRuleset "clusterip-gw" [tls_key; web_key] demo_frontends demo_backends = demo_ruleset.
Proof.
  split; [vm_compute; reflexivity|].
  refine (proj2 (desiredRuleset_spec "clusterip-gw" demo_order demo_frontends demo_backends _) [tls_key; web_key] _ _).
  - exact demo_enumerates.
  - unfold enumerates. assert ((map_to_list demo_frontends).*1 = demo_order) as -> by reflexivity.
    assert (demo_order = [web_key; tls_key]) as -> by (vm_compute; reflexivity). apply perm_swap.
  - intros k1 k2 [->| ->]%(λ H, demo_keys _ (proj1 (enumerates_elem demo_order _ _ demo_enumerates) H))
      [->| ->]%(λ H, demo_keys _ (proj1 (enumerates_elem demo_order _ _ demo_enumerates) H)); vm_compute; congruence.
Defined.

(** Applying it where the table does not exist: the second attempt creates it. *)
Definition demo_applied : gmap string ktable :=
  nw_kernel (Apply (Some demo_ruleset) (demo_kernel ∅)).2.

Definition demo_packet (port : Z) : packet := mkPacket demo_vip IPPROTO_TCP port.

Lemma demo_well_named : well_named (rs_serviceChains demo_ruleset).
Proof. exact (ruleset_well_named _ _ demo_backends demo_enumerates demo_no_collision). Qed.

Lemma demo_base : rs_baseChains demo_ruleset = defaultBaseChains.
Proof. reflexivity. Qed.

Lemma demo_services_ok : Forall service_ok (rs_serviceChains demo_ruleset).
Proof.
  change (rs_serviceChains demo_ruleset) with (ruleset_services demo_order demo_frontends demo_backends).
  exact (ruleset_services_ok demo_order demo_frontends demo_backends demo_enumerates demo_small).
Qed.

Lemma demo_one_service : length [1] = length (rs_serviceChains demo_ruleset).
Proof. vm_compute. reflexivity. Qed.

Lemma demo_serves : ∃ kt, serves (rs_serviceChains demo_ruleset) kt.
Proof.
  pose proof (λ H, ruleset_batch_serves demo_ruleset false [1] ∅ demo_base demo_well_named demo_one_service H) as Hs.
  specialize (Hs (lookup_empty _)). destruct Hs as (kt & _ & Hkt). by exists kt.
Qed.

Lemma Apply_replaces_table_witness :
  ∃ kt, demo_applied = <["clusterip-gw" := kt]> ∅ ∧ serves (rs_serviceChains demo_ruleset) kt.
Proof.
  pose proof (Apply_replaces_table nw_batch nw_kernel demo_ruleset (demo_kernel ∅) demo_base demo_well_named) as H.
  assert (Hok : (Apply (Some demo_ruleset) (demo_kernel ∅)).1 = Some (Ok tt)) by (vm_compute; reflexivity).
  unfold demo_applied. destruct (Apply (Some demo_ruleset) (demo_kernel ∅)) as [[[[]|e]|] s'];
    simpl in Hok; [exact H|discriminate|discriminate].
Defined.

Lemma packets_reach_backends_witness :
  ∃ kt, serves (rs_serviceChains demo_ruleset) kt ∧
    eval_chain 3 kt (demo_packet 80) 7 "output" = Some ([10; 0; 0; 8], [31; 144]).
Proof.
  pose proof demo_serves as Hs.
  destruct Hs as [kt Hkt]. exists kt. split; [exact Hkt|].
  destruct (packets_reach_backends (rs_serviceChains demo_ruleset) kt 3 (demo_packet 80) 7 "output" Hkt) as (-> & _).
  - exact demo_services_ok.
  - right. left.
  - simpl. lia.
  - lia.
  - vm_compute. reflexivity.
Defined.

#[local] Arguments eval_chain : simpl never.

Lemma proxier_forwards_witness :
  ∃ kt, demo_applied = <["clusterip-gw" := kt]> ∅ ∧
    ∃ key ts t, packet_for demo_frontends demo_backends (demo_packet 80) key ts ∧ t ∈ ts ∧ t.1 = [10; 0; 0; 8].
Proof.
  pose proof (proxier_forwards nw_batch nw_kernel "clusterip-gw" demo_order demo_frontends demo_backends (demo_kernel ∅)
    demo_enumerates demo_no_collision demo_small) as H.
  assert (Hok : (Apply (Some demo_ruleset) (demo_kernel ∅)).1 = Some (Ok tt)) by (vm_compute; reflexivity).
  assert (Hev : (λ r, fst <$> (kt ← demo_applied !! "clusterip-gw"; eval_chain 3 kt r 7 "prerouting")) (demo_packet 80)
    = Some [10; 0; 0; 8]) by (vm_compute; reflexivity).
  change (desiredRuleset _ _ _ _) with demo_ruleset in H. unfold demo_applied in *.
  destruct (Apply (Some demo_ruleset) (demo_kernel ∅)) as [[[[]|e]|] s']; simpl in Hok; [|discriminate|discriminate].
  destruct H as (kt & Hk & H). exists kt. split; [exact Hk|]. simpl in Hev. rewrite Hk, lookup_insert_eq in Hev. simpl in Hev.
  specialize (H 3%nat (demo_packet 80) 7 "prerouting" ltac:(left) ltac:(simpl; lia) ltac:(lia)).
  destruct (eval_chain 3 kt (demo_packet 80) 7 "prerouting") as [[ip port]|]; [|discriminate].
  injection Hev as ->. destruct H as (key & ts & t & Hfor & Hin & -> & _). by exists key, ts, t.
Defined.
