(* ===== verification/SystemSpec.v ===== *)
(** * Controller and agent together

    The two programs share no memory: the agent reads, from the API server, the
    Gateways and EndpointSlices the controller wrote.  What the one writes the
    other reads back, and a serving pod behind an accepted Gateway's listener
    ends up among the targets of that listener's address and port. *)

From S2P Require Import Prelude GoNet GoStrings KubeTypes Api Indexers Status Ipam Reference IpamSpec.
From S2P Require Import Listeners Selector Route RouteSpec Gateway GatewayProps Slices SliceSpec.
From S2P Require Import Trackers TrackerSpec EndpointsSpec GoHash Netlink Proxier NetlinkSpec ApplySpec Packets ProxierSpec.

(** ** What the agent reads of a slice *)

Lemma slice_offers_content es es' b : content es = content es' → slice_offers es b ↔ slice_offers es' b.
Proof. unfold content, slice_offers. by intros [= _ _ _ -> ->]. Qed.

Section slices.
Context `{API : !ApiMachinery}.

Definition listener_key (gateway : Gateway) (l : string) : FrontendKey :=
  mkFrontendKey (meta_key (gw_meta gateway)) l.

(** [es] is a slice the controller wrote for the listener, whatever the server
    keeps in the rest of its metadata. *)
Definition written_for (selector : XEndpointSelector) (gateway : Gateway) (l : string) (port : Z)
    (eps : list Endpoint) (es : EndpointSlice) : Prop :=
  content es = content (desiredEndpointSlice selector gateway l port eps).

Lemma written_key selector gateway l port eps es :
  Namespace (gw_meta gateway) ≠ "" → Name (gw_meta gateway) ≠ "" →
  written_for selector gateway l port eps es →
  frontendKeyForEndpointSlice (Some es) = Some (listener_key gateway l).
Proof.
  intros Hns Hname [= Hlabels _ _ _ _]. unfold frontendKeyForEndpointSlice. rewrite Hlabels. clear Hlabels.
  set (labels := <[LabelManagedBy := _]> _).
  assert (label labels LabelManagedBy = ManagedByValue ∧ label labels GatewayNameLabelKey = Name (gw_meta gateway) ∧
          label labels GatewayNamespaceLabelKey = Namespace (gw_meta gateway) ∧
          label labels GatewayListenerLabelKey = l) as (-> & -> & -> & ->).
  { unfold label, labels. split_and!; rewrite ?lookup_insert_eq; [done|..];
      repeat (rewrite lookup_insert_ne by done); by rewrite lookup_insert_eq. }
  by rewrite !decide_False by (rewrite ?decide_False by done; auto).
Qed.

Lemma written_offers c selector gateway l port eps sel pods es b :
  LabelSelectorAsSelector (xs_Selector selector) = Ok sel → pods_List c (Namespace (xs_meta selector)) = Ok pods →
  buildEndpointSliceEndpoints c selector = Ok eps →
  written_for selector gateway l port eps es →
  slice_offers es b ↔
  ∃ pod ip, pod ∈ pods ∧ Selector_Matches sel (Labels (pod_meta pod)) = true ∧ pod_serves pod ∧
    ParseIPv4 (PodIP pod) = Some ip ∧ b = NewEndpoint (dotted ip) port.
Proof.
  intros Hsel Hpods (sel' & pods' & Hsel' & Hpods' & Heps & _)%build_spec Hes.
  rewrite (slice_offers_content _ _ _ Hes).
  assert (sel' = sel) as -> by congruence. assert (pods' = pods) as -> by congruence.
  unfold slice_offers, desiredEndpointSlice, ParseIPv4. cbn [es_Ports es_Endpoints]. setoid_rewrite Heps. split.
  - intros (p & n & e & addr & ip & ip4 & ->%list_elem_of_singleton & [= <-] & _ & He & _ & Haddr & Hip & H4 & ->).
    destruct He as (pod & Hin & Hm & Hs & ->). simpl in Haddr. apply list_elem_of_singleton in Haddr as ->.
    exists pod, ip4. rewrite Hip. by split_and!.
  - intros (pod & ip4 & Hin & Hm & Hs & (ip & Hip & H4)%bind_Some & ->).
    eexists (mkEndpointPort (Some ProtocolTCP) (Some port)), port, (pod_endpoint pod), (PodIP pod), ip, ip4.
    split_and!; [by left|done|by intros ? [= <-]|by exists pod|done|by left|done..].
Qed.

(** C21. The agent reads back from an EndpointSlice
    what the controller wrote in it: the Gateway and the listener, and as
    backends exactly the IPv4 addresses of the serving pods the selector matches,
    at the backend port. *)
Theorem slice_roundtrip c selector gateway l port eps sel pods es :
  Namespace (gw_meta gateway) ≠ "" → Name (gw_meta gateway) ≠ "" →
  LabelSelectorAsSelector (xs_Selector selector) = Ok sel → pods_List c (Namespace (xs_meta selector)) = Ok pods →
  buildEndpointSliceEndpoints c selector = Ok eps →
  written_for selector gateway l port eps es →
  frontendKeyForEndpointSlice (Some es) = Some (mkFrontendKey (meta_key (gw_meta gateway)) l) ∧
  ∀ b, b ∈ slice_backends es ↔
    ∃ pod ip, pod ∈ pods ∧ Selector_Matches sel (Labels (pod_meta pod)) = true ∧ pod_serves pod ∧
      ParseIPv4 (PodIP pod) = Some ip ∧ b = NewEndpoint (dotted ip) port.
Proof.
  intros Hns Hname Hsel Hpods Heps Hes. split; [by eapply written_key|].
  intros b. rewrite slice_backends_iff. by eapply written_offers.
Qed.

End slices.

(** ** What the agent reads of a Gateway *)

Section gateways.
Context `{API : !ApiMachinery} `{Laws : !ApiMachineryLaws}.

(** A Gateway that shows an address the controller gave it. *)
Definition publishes (gateway : Gateway) (vip : list Z) : Prop :=
  Namespace (gw_meta gateway) ≠ "" ∧ Name (gw_meta gateway) ≠ "" ∧ DeletionTimestamp (gw_meta gateway) = None ∧
  GatewayClassName (gw_spec gateway) = gatewaymeta_GatewayClassName ∧ gateway_listeners_ok gateway ∧
  wf4 vip ∧ Addresses (gw_status gateway) = [mkStatusAddress (Some IPAddressType) (dotted vip)].

Lemma publishes_supported gateway vip : publishes gateway vip → agent_supports gateway.
Proof.
  intros (Hns & Hname & Hdel & Hcls & (Hlen & Hnames & Hports & Hls) & Hvip & Ha).
  unfold agent_supports. split_and!; try done; try lia.
  - intros l Hl. destruct (Hls l Hl) as (? & ? & ? & _). done.
  - exists (dotted vip). split; [done|by apply dotted_nonempty].
Qed.

Lemma publishes_frontends gateway vip fk f :
  publishes gateway vip →
  gatewayToFrontendMap (Some gateway) !! fk = Some f ↔
  ∃ l, l ∈ Listeners (gw_spec gateway) ∧ fk = listener_key gateway (l_Name l) ∧
    f = mkFrontend (v4in6_prefix ++ vip) (l_Port l).
Proof.
  intros Hp. pose proof (publishes_supported _ _ Hp) as Hsup. destruct Hp as (_ & _ & _ & _ & _ & Hvip & Ha).
  rewrite frontend_lookup, Ha. split.
  - intros (_ & a & l & ->%list_elem_of_singleton & Hp & _ & Hl & -> & Hport). exists l. split; [done|]. split; [done|].
    simpl in Hp. rewrite ParseIP_dotted in Hp by done. destruct f as [addr port]. simpl in *. congruence.
  - intros (l & Hl & -> & ->). split; [done|].
    eexists _, l. split; [by left|]. simpl. rewrite ParseIP_dotted by done.
    split_and!; [done|eexists; by apply To4_v4in6|done..].
Qed.

Context {S : Type} (handle : ∀ r : request, S → response r * S) (owner : S → gmap string (option IPParentReference)).
Context `{Srv : !IPAddressServer handle owner}.

Lemma reconcile_publishes now c key gateway s ns o a vip :
  getGateway c key = Ok gateway → Namespace (gw_meta gateway) ≠ "" → Name (gw_meta gateway) ≠ "" →
  GatewayUpdateStatus ns o ∈ trace handle (reconcileGateway now c key) s →
  a ∈ Addresses (gw_status o) → sa_Value a = dotted vip → wf4 vip →
  publishes o vip ∧ gw_meta o = gw_meta gateway ∧ gw_spec o = gw_spec gateway.
Proof.
  intros Hg Hns Hname Hin Ha Hval Hvip.
  destruct (published_inv handle owner now c key gateway s ns o a Hg Hin Ha)
    as (cls & routes & s1 & v & s2 & Hcls & Hdel & Hv & _ & -> & -> & _).
  simpl in Hval. subst v. destruct (evaluateGateway_checks _ _ _ _ _ Hv) as (_ & Hok & _).
  unfold publishes. simpl. rewrite decide_True by (by apply dotted_nonempty). by split_and!.
Qed.

(** Whatever address the controller publishes for
    a Gateway, the agent serves: from the object written it reads exactly one
    frontend per listener, at that address and the listener's port. *)
Theorem accepted_gateway_supported now c key gateway s ns o a vip fk f :
  getGateway c key = Ok gateway → Namespace (gw_meta gateway) ≠ "" → Name (gw_meta gateway) ≠ "" →
  GatewayUpdateStatus ns o ∈ trace handle (reconcileGateway now c key) s →
  a ∈ Addresses (gw_status o) → sa_Value a = dotted vip → wf4 vip →
  gatewayToFrontendMap (Some o) !! fk = Some f ↔
  ∃ l, l ∈ Listeners (gw_spec gateway) ∧ fk = mkFrontendKey (meta_key (gw_meta gateway)) (l_Name l) ∧
    f = mkFrontend (v4in6_prefix ++ vip) (l_Port l).
Proof.
  intros Hg Hns Hname Hin Ha Hval Hvip.
  destruct (reconcile_publishes now c key gateway s ns o a vip) as (Hp & Hmeta & Hspec); [done..|].
  rewrite (publishes_frontends _ _ _ _ Hp). unfold listener_key. by rewrite Hmeta, Hspec.
Qed.

End gateways.

(** ** From pods to targets *)

Section reachable.
Context `{API : !ApiMachinery}.

(** The address and port of a serving pod the selector matches. *)
Definition pod_target (sel : Api.Selector) (pods : list Pod) (port : Z) (t : list Z * Z) : Prop :=
  t.2 = port ∧ ∃ pod, pod ∈ pods ∧ Selector_Matches sel (Labels (pod_meta pod)) = true ∧ pod_serves pod ∧
    ParseIPv4 (PodIP pod) = Some t.1.

Lemma targets_elem bs t : t ∈ targets bs ↔ ∃ b, b ∈ bs ∧ target b = Some t.
Proof. unfold targets. apply list_elem_of_omap. Qed.

Lemma target_dotted ip port t :
  wf4 ip → 0 < port < 2 ^ 16 → target (NewEndpoint (dotted ip) port) = Some t ↔ t = (ip, port).
Proof.
  intros Hip Hport. unfold target, NewEndpoint. simpl.
  assert (toUint16Port port = Some port) as -> by (by apply toUint16Port_spec). simpl.
  unfold copyIPv4. rewrite ParseIP_dotted by done. cbn [mbind option_bind]. rewrite To4_v4in6 by done. simpl. naive_solver.
Qed.

(** The agent last saw the Gateway as the controller published it, and the only
    slice it tracks for the listener [l] is the one the controller wrote for the
    selector, whose pods are [pods]. *)
Record deployed (c : Caches) (gateway : Gateway) (vip : list Z) (l : Listener) (selector : XEndpointSelector)
    (sel : Api.Selector) (pods : list Pod) (port : Z) (gevents : list gateway_event)
    (gorder : list (list (FrontendKey * Frontend))) (ect : EndpointsTracker) (sorder : list EndpointSlice) : Prop := {
  dp_publishes : publishes gateway vip;
  dp_listener : l ∈ Listeners (gw_spec gateway);
  dp_lport : 0 < l_Port l < 2 ^ 16;
  dp_port : 0 < port < 2 ^ 16;
  dp_selector : LabelSelectorAsSelector (xs_Selector selector) = Ok sel;
  dp_pods : pods_List c (Namespace (xs_meta selector)) = Ok pods;
  dp_latest : foldl latest_step ∅ gevents !! meta_key (gw_meta gateway) = Some gateway;
  dp_gorder : visits (foldl tracker_step NewGatewayChangeTracker gevents) gorder;
  dp_sorder : slices_visited ect sorder;
  dp_slice : ∃ k es eps, buildEndpointSliceEndpoints c selector = Ok eps ∧ ect !! k = Some es ∧
    written_for selector gateway (l_Name l) port eps es ∧
    ∀ k' es', ect !! k' = Some es' → slice_for (listener_key gateway (l_Name l)) es' → es' = es;
}.

Lemma deployed_targets c gateway vip l selector sel pods port gevents gorder ect sorder t :
  deployed c gateway vip l selector sel pods port gevents gorder ect sorder →
  t ∈ targets (default [] (EndpointsChangeTracker_Snapshot sorder !! listener_key gateway (l_Name l))) ↔
  pod_target sel pods port t.
Proof.
  intros [(Hns & Hname & _) _ _ Hport Hsel Hpods _ _ Hsv (k & es & eps & Heps & Hk & Hes & Honly)].
  rewrite targets_elem. setoid_rewrite (snapshot_elem ect sorder _ _ Hsv). split.
  - intros (b & (k' & es' & Hk' & Hfor & Hb) & Ht). rewrite (Honly _ _ Hk' Hfor) in Hb.
    apply (written_offers c selector gateway (l_Name l) port eps sel pods es) in Hb
      as (pod & ip & Hin & Hm & Hs & Hip & ->); [|done..].
    apply target_dotted in Ht as ->; [|by eapply ParseIPv4_wf4|done]. split; [done|]. by exists pod.
  - destruct t as [ip n]. intros (Hn & pod & Hin & Hm & Hs & Hip). simpl in *. subst n.
    exists (NewEndpoint (dotted ip) port). split.
    + exists k, es. split_and!; [done| |].
      * split; [by eapply written_key|]. by injection Hes.
      * eapply written_offers; [done..|]. by exists pod, ip.
    + apply target_dotted; [by eapply ParseIPv4_wf4|done..].
Qed.

(** As soon as there is a serving pod, the snapshots send the published address
    and the listener's port exactly to the serving pods. *)
Lemma deployed_forwards c gateway vip l selector sel pods port gevents gorder ect sorder :
  deployed c gateway vip l selector sel pods port gevents gorder ect sorder →
  (∃ t, pod_target sel pods port t) →
  ∃ ts, forwards (GatewayChangeTracker_Snapshot gorder) (EndpointsChangeTracker_Snapshot sorder)
          (listener_key gateway (l_Name l)) vip (l_Port l) ts ∧
        ∀ t, t ∈ ts ↔ pod_target sel pods port t.
Proof.
  intros Hdep Hsome. pose proof (λ t, deployed_targets _ _ _ _ _ _ _ _ _ _ _ _ t Hdep) as Hts.
  destruct Hdep as [Hpub Hl Hlport _ _ _ Hlatest Hv _ _]. pose proof Hpub as (_ & _ & _ & _ & _ & Hvip & _).
  eexists. split; [|exact Hts].
  exists (mkFrontend (v4in6_prefix ++ vip) (l_Port l)). split_and!; try done; try lia.
  - rewrite (gateway_snapshot_lookup gevents) by done. simpl. rewrite Hlatest. simpl.
    apply (publishes_frontends gateway vip); [done|]. by exists l.
  - by apply To4_v4in6.
  - destruct Hsome as [t Ht%Hts]. intros Hnil. rewrite Hnil in Ht. by apply elem_of_nil in Ht.
Qed.

(** No other Gateway the agent tracks shows the address. *)
Definition sole_holder (gateway : Gateway) (vip : list Z) (gevents : list gateway_event) : Prop :=
  ∀ key g a ip, foldl latest_step ∅ gevents !! key = Some g → key ≠ meta_key (gw_meta gateway) →
    a ∈ Addresses (gw_status g) → ParseIP (sa_Value a) = Some ip → To4 ip ≠ Some vip.

(** Then its listener's frontend is the only one for the address and port. *)
Lemma deployed_sole c gateway vip l selector sel pods port gevents gorder ect sorder key ts :
  deployed c gateway vip l selector sel pods port gevents gorder ect sorder → sole_holder gateway vip gevents →
  forwards (GatewayChangeTracker_Snapshot gorder) (EndpointsChangeTracker_Snapshot sorder) key vip (l_Port l) ts →
  key = listener_key gateway (l_Name l).
Proof.
  intros [Hpub Hl _ _ _ _ Hlatest Hv _ _] Hsole (f & Hf & Hvip & Hport & _).
  rewrite (gateway_snapshot_lookup gevents) in Hf by done. apply bind_Some in Hf as (g & Hg & Hf).
  destruct (decide (fk_NamespacedName key = meta_key (gw_meta gateway))) as [Hk|Hk].
  - rewrite Hk, Hlatest in Hg. injection Hg as <-.
    apply (publishes_frontends gateway vip) in Hf as (l' & Hl' & -> & ->); [|done]. simpl in Hport.
    destruct Hpub as (_ & _ & _ & _ & (_ & _ & Hports & _) & _). f_equal. f_equal.
    apply list_elem_of_lookup in Hl as [i Hi]. apply list_elem_of_lookup in Hl' as [i' Hi'].
    assert (i' = i) as ->; [|congruence].
    by eapply (NoDup_lookup _ _ _ (l_Port l) Hports); rewrite list_lookup_fmap, ?Hi, ?Hi'; simpl; [rewrite Hport|].
  - exfalso. apply frontend_lookup in Hf as (_ & a & l' & Ha & Hp & _).
    by apply (Hsole _ _ _ _ Hg Hk Ha Hp).
Qed.

End reachable.

(** ** Worked examples *)

Definition web_selector : Api.Selector := {["app" := "web"]}.
Definition web_slice : EndpointSlice := desiredEndpointSlice demo_selector (demo_gateway "a") "tcp" 8080 demo_endpoints.

Lemma web_selector_ok : LabelSelectorAsSelector (xs_Selector demo_selector) = Ok web_selector.
Proof. vm_compute. reflexivity. Qed.

Lemma web_pods_ok : pods_List slice_caches (Namespace (xs_meta demo_selector)) = Ok demo_pods.
Proof. vm_compute. reflexivity. Qed.

Lemma web_endpoints_ok : buildEndpointSliceEndpoints slice_caches demo_selector = Ok demo_endpoints.
Proof. vm_compute. reflexivity. Qed.

Lemma slice_roundtrip_witness :
  slice_backends web_slice = [NewEndpoint "10.0.0.5" 8080; NewEndpoint "10.0.0.6" 8080] ∧
  ∃ pod ip, pod ∈ demo_pods ∧ pod_serves pod ∧ ParseIPv4 (PodIP pod) = Some ip ∧
    NewEndpoint "10.0.0.5" 8080 = NewEndpoint (dotted ip) 8080.
Proof.
  assert (Hb : slice_backends web_slice = [NewEndpoint "10.0.0.5" 8080; NewEndpoint "10.0.0.6" 8080])
    by (vm_compute; reflexivity).
  split; [exact Hb|].
  destruct (slice_roundtrip slice_caches demo_selector (demo_gateway "a") "tcp" 8080 demo_endpoints web_selector
    demo_pods web_slice) as [_ H]; [discriminate|discriminate|exact web_selector_ok|exact web_pods_ok
    |exact web_endpoints_ok|reflexivity|].
  destruct (proj1 (H (NewEndpoint "10.0.0.5" 8080))) as (pod & ip & Hin & _ & Hs & Hip & Heq).
  - rewrite Hb. left.
  - exists pod, ip. split; [exact Hin|]. split; [exact Hs|]. split; [exact Hip|exact Heq].
Defined.

Lemma accepted_gateway_supported_witness :
  ∃ o, gatewayToFrontendMap (Some o) !! mkFrontendKey (mkNN "default" "a") "tcp"
       = Some (mkFrontend (v4in6_prefix ++ [10; 96; 0; 1]) 80).
Proof.
  destruct (published_in served_trace "10.96.0.1" []) as (ns & o & a & Hin & Ha & Hval).
  { apply (bool_decide_unpack _). vm_compute. exact I. }
  exists o.
  apply (accepted_gateway_supported ref_handle ref_owner 7 served_caches "default/a" served_gateway
    empty_server ns o a [10; 96; 0; 1]); [vm_compute; reflexivity|discriminate|discriminate|exact Hin|exact Ha| | |].
  - rewrite Hval. vm_compute. reflexivity.
  - apply wf4_intro; unfold byte_wf; lia.
  - eexists. split; [left|]. split; reflexivity.
Defined.

(** The Gateway the agent sees, and its events. *)
Definition shown_gateway : Gateway :=
  with_status served_gateway
    (mkGatewayStatus [mkStatusAddress (Some IPAddressType) (dotted [10; 96; 0; 1])] [] []).

Lemma shown_publishes : publishes shown_gateway [10; 96; 0; 1].
Proof.
  split_and!; try done; [exact demo_listeners_ok|apply wf4_intro; unfold byte_wf; lia].
Qed.

Definition shown_events : list gateway_event := [mkGatewayEvent None (Some shown_gateway)].
Definition shown_slices : EndpointsTracker := {[meta_key (es_meta web_slice) := web_slice]}.

Definition shown_orders : list (list (FrontendKey * Frontend)) :=
  map_order (foldl tracker_step NewGatewayChangeTracker shown_events).

Lemma shown_deployed :
  deployed slice_caches shown_gateway [10; 96; 0; 1] (demo_listener "tcp" 80) demo_selector web_selector demo_pods 8080
    shown_events shown_orders shown_slices (map_to_list shown_slices).*2.
Proof.
  split; [exact shown_publishes|left|simpl; lia|lia|exact web_selector_ok|exact web_pods_ok|reflexivity
    |apply map_order_visits|exact (Permutation_refl _)|].
  exists (meta_key (es_meta web_slice)), web_slice, demo_endpoints.
  split_and!; [exact web_endpoints_ok|apply lookup_singleton_eq|reflexivity|].
  intros k' es' Hk' _. unfold shown_slices in Hk'. apply lookup_singleton_Some in Hk' as [_ <-]. reflexivity.
Qed.

Lemma shown_pod : pod_target web_selector demo_pods 8080 ([10; 0; 0; 5], 8080).
Proof.
  split; [reflexivity|]. exists (demo_pod "w1" "10.0.0.5" "True"). split_and!.
  - right. right. left.
  - vm_compute. reflexivity.
  - split_and!; [discriminate|discriminate|reflexivity| |].
    + eexists. split; reflexivity.
    + eexists. vm_compute. reflexivity.
  - vm_compute. reflexivity.
Qed.

Lemma shown_sole : sole_holder shown_gateway [10; 96; 0; 1] shown_events.
Proof.
  intros key g a ip Hg Hk. exfalso. apply Hk. unfold shown_events in Hg. cbn [foldl latest_step ev_current] in Hg.
  by apply lookup_insert_Some in Hg as [[<- _]|[_ Hg]].
Qed.
