(* ===== verification/EndToEnd.v ===== *)
(** * From a pod to a packet

    The controller's writes, the agent's snapshots, the batch and the packets
    together: once applied, a listener's published address and port lead to
    exactly the serving pods its route's selector matches. *)

From S2P Require Import Prelude GoNet KubeTypes Api Reference IpamSpec RouteSpec GatewayProps SliceSpec.
From S2P Require Import Trackers TrackerSpec EndpointsSpec GoHash Netlink Proxier NetlinkSpec ApplySpec Packets.
From S2P Require Import ProxierSpec ReferenceNft SystemSpec.

Section end_to_end.
Context `{API : !ApiMachinery} `{TP : !TypesPackage, BU : !BinaryUtil, BL : !BinaryUtilLaws}.
Context {S : Type} {C : nftConn S}.
Context (batch : S → list nft_op) `{!nftConnLaws C batch}.
Context (kernel : S → gmap string ktable) `{!NftKernel C batch kernel}.

(** The backend of a packet for which there is one frontend only. *)
Lemma chosen_backend_sole order frontends endpoints pkt rnd key ts :
  enumerates order frontends → packet_for frontends endpoints pkt key ts →
  (∀ key' ts', packet_for frontends endpoints pkt key' ts' → key' = key) →
  ∃ b, chosen_backend (ruleset_services order frontends endpoints) pkt rnd = Some b ∧
    ts !! Z.to_nat (rnd mod Z.of_nat (length ts)) = Some (bk_backendIP b, bk_backendPort b).
Proof.
  intros Hen Hfor Hsole. destruct (chosen_backend_some _ _ _ pkt rnd key ts Hen Hfor) as [b Hb].
  exists b. split; [done|]. apply chosen_backend_for in Hb as (key' & ts' & Hfor' & Hts); [|done].
  pose proof (Hsole _ _ Hfor') as ->. destruct Hfor as (_ & f & _ & _ & _ & _ & -> & _).
  destruct Hfor' as (_ & f' & _ & _ & _ & _ & -> & _). done.
Qed.

(** C1. End to end: the agent last saw a Gateway as the
    controller published it, tracks the slice the controller wrote for one of
    its listeners, and no other Gateway shows the address.  If the hashes in
    the chain names do not collide and no listener has 2^32 endpoints, then once
    the ruleset of
    its snapshots has been applied, every TCP packet to the published address
    and the listener's port is sent to a serving pod the selector matches, at
    the backend port; and every such pod is reached by some packet. *)
Theorem packets_reach_pods name order c gateway vip l selector sel pods port gevents gorder ect sorder s s' :
  let frontends := GatewayChangeTracker_Snapshot gorder in
  let endpoints := EndpointsChangeTracker_Snapshot sorder in
  deployed c gateway vip l selector sel pods port gevents gorder ect sorder →
  sole_holder gateway vip gevents → (∃ t, pod_target sel pods port t) →
  enumerates order frontends → no_collision frontends →
  (∀ key es, endpoints !! key = Some es → Z.of_nat (length es) < 2 ^ 32) →
  Apply (Some (desiredRuleset name order frontends endpoints)) s = (Some (Ok tt), s') →
  ∃ kt, kernel s' !! name = Some kt ∧
    ∀ fuel n, n ∈ [preroutingChainName; outputChainName] → (3 ≤ fuel)%nat →
      let pkt := mkPacket vip IPPROTO_TCP (l_Port l) in
      (∀ rnd, ∃ ip, eval_chain fuel kt pkt rnd n = Some (ip, BigEndian_PutUint16 port) ∧
                    pod_target sel pods port (ip, port)) ∧
      (∀ ip, pod_target sel pods port (ip, port) →
         ∃ rnd, 0 ≤ rnd < 2 ^ 32 ∧ eval_chain fuel kt pkt rnd n = Some (ip, BigEndian_PutUint16 port)).
Proof.
  intros frontends endpoints Hdep Hsole Hsome Hen Hnc Hsmall Happly.
  pose proof (apply_desired batch kernel name order frontends endpoints s Hen Hnc Hsmall) as HA. rewrite Happly in HA.
  destruct HA as (kt & Hk & Hev). exists kt. split; [rewrite Hk; apply lookup_insert_eq|]. intros fuel n Hn Hfuel pkt.
  destruct (deployed_forwards _ _ _ _ _ _ _ _ _ _ _ _ Hdep Hsome) as (ts & Hf & Hts).
  pose proof (dp_lport _ _ _ _ _ _ _ _ _ _ _ _ Hdep) as Hlport.
  assert (Hfor : packet_for frontends endpoints pkt (listener_key gateway (l_Name l)) ts) by (split; [done|exact Hf]).
  assert (Hone : ∀ rnd, ∃ t, t ∈ ts ∧ ts !! Z.to_nat (rnd mod Z.of_nat (length ts)) = Some t ∧
    eval_chain fuel kt pkt rnd n = Some (t.1, BigEndian_PutUint16 t.2)).
  { intros rnd. destruct (chosen_backend_sole order frontends endpoints pkt rnd _ ts Hen Hfor) as (b & Hb & Hi).
    { intros key' ts' [_ Hf']. by eapply (deployed_sole c gateway vip l). }
    exists (bk_backendIP b, bk_backendPort b). split; [by eapply list_elem_of_lookup_2|]. split; [done|].
    rewrite (Hev fuel pkt rnd n Hn); [by rewrite Hb|simpl; lia|done]. }
  split.
  - intros rnd. destruct (Hone rnd) as ([ip p] & Ht & _ & Hchain). apply Hts in Ht as [Hp Ht]. simpl in Hp. subst p.
    exists ip. done.
  - intros ip Hip%Hts. apply list_elem_of_lookup in Hip as [i Hi].
    assert (Hlt : (i < length ts)%nat) by (by eapply lookup_lt_Some).
    assert (Hlen : Z.of_nat (length ts) < 2 ^ 32).
    { destruct Hf as (f & _ & _ & _ & _ & -> & _). clear -Hsmall.
      pose proof (length_targets (default [] (endpoints !! listener_key gateway (l_Name l)))) as Hle.
      unfold endpoints in *. destruct (EndpointsChangeTracker_Snapshot sorder !! _) as [es|] eqn:He; simpl in *; [|lia].
      specialize (Hsmall _ _ He). lia. }
    exists (Z.of_nat i). split; [lia|]. destruct (Hone (Z.of_nat i)) as (t & _ & Hi' & Hchain).
    rewrite Z.mod_small, Nat2Z.id, Hi in Hi' by lia. by injection Hi' as <-.
Qed.

End end_to_end.

(** ** Worked example: one Gateway, one listener, the serving pods of [slice_caches] *)

Definition shown_frontends : FrontendMap := GatewayChangeTracker_Snapshot shown_orders.
Definition shown_endpoints : EndpointsMap := EndpointsChangeTracker_Snapshot (map_to_list shown_slices).*2.
Definition shown_ruleset : rulesetSpec :=
  desiredRuleset "clusterip-gw" (map_to_list shown_frontends).*1 shown_frontends shown_endpoints.

Lemma shown_keys : (map_to_list shown_frontends).*1 = [mkFrontendKey (mkNN "default" "a") "tcp"].
Proof. vm_compute. reflexivity. Qed.

Lemma shown_no_collision : no_collision shown_frontends.
Proof.
  assert (Hkey : ∀ k, is_Some (shown_frontends !! k) → k = mkFrontendKey (mkNN "default" "a") "tcp").
  { intros k [f Hf]. apply elem_of_map_to_list in Hf. apply (list_elem_of_fmap_2 fst) in Hf.
    rewrite shown_keys in Hf. by apply list_elem_of_singleton in Hf. }
  intros k1 k2 ->%Hkey ->%Hkey. done.
Qed.

Lemma shown_small key es : shown_endpoints !! key = Some es → Z.of_nat (length es) < 2 ^ 32.
Proof.
  intros Hes. assert (Hl : Forall (λ kes, (length kes.2 ≤ 2)%nat) (map_to_list shown_endpoints)).
  { apply (bool_decide_unpack _). vm_compute. exact I. }
  apply elem_of_map_to_list in Hes. rewrite list.Forall_forall in Hl. apply Hl in Hes. simpl in Hes. lia.
Qed.

Lemma packets_reach_pods_witness :
  ∃ kt, nw_kernel (Apply (Some shown_ruleset) (demo_kernel ∅)).2 !! "clusterip-gw" = Some kt ∧
    ∃ rnd, eval_chain 3 kt (mkPacket [10; 96; 0; 1] IPPROTO_TCP 80) rnd "prerouting" = Some ([10; 0; 0; 5], [31; 144]).
Proof.
  destruct (packets_reach_pods nw_batch nw_kernel "clusterip-gw" (map_to_list shown_frontends).*1 slice_caches
    shown_gateway [10; 96; 0; 1] (demo_listener "tcp" 80) demo_selector web_selector demo_pods 8080 shown_events
    shown_orders shown_slices (map_to_list shown_slices).*2 (demo_kernel ∅) (Apply (Some shown_ruleset) (demo_kernel ∅)).2)
    as (kt & Hk & Hp).
  - exact shown_deployed.
  - exact shown_sole.
  - eexists. exact shown_pod.
  - exact (Permutation_refl _).
  - exact shown_no_collision.
  - exact shown_small.
  - assert (Hok : (Apply (Some shown_ruleset) (demo_kernel ∅)).1 = Some (Ok tt)) by (vm_compute; reflexivity).
    change (desiredRuleset _ _ _ _) with shown_ruleset. rewrite (surjective_pairing (Apply _ _)), Hok. reflexivity.
  - exists kt. split; [exact Hk|].
    destruct (Hp 3%nat "prerouting" ltac:(left) ltac:(lia)) as [_ Hall].
    destruct (Hall [10; 0; 0; 5] shown_pod) as (rnd & _ & Hrnd). exists rnd. exact Hrnd.
Defined.
