(* ===== verification/Workqueue.v ===== *)
(** * client-go's work queues

    The interface of [workqueue.TypedRateLimitingInterface[string]], whose code
    is vendored, and its documented behaviour: a key added several times before
    it is taken is taken once, a key is not taken again while it is being
    processed, adding it meanwhile keeps it for later, and a key added with a
    rate limit is added after a delay. *)

From S2P Require Import Prelude.

Class WorkQueue (Q : Type) := {
  (** [workqueue.NewTypedRateLimitingQueueWithConfig], by the queue's name. *)
  q_New : string → Q;
  q_Add : string → Q → Q;
  (** [Get()]: the key and [shutdown]; [None] while it blocks. *)
  q_Get : Q → option (string * bool * Q);
  q_Done : string → Q → Q;
  q_AddRateLimited : string → Q → Q;
  q_Forget : string → Q → Q;
  q_ShutDown : Q → Q;
  (** The queue's own timer adds the rate-limited keys that are due. *)
  q_Tick : Q → Q;
}.

(** What a client can tell of a queue. *)
Record queue_view := mkView {
  waiting : gset string;      (** added and not yet taken *)
  processing : gset string;   (** taken and not yet done *)
  delayed : gset string;      (** to be added after a delay *)
  stopping : bool;            (** [ShutDown] was called *)
}.

Class WorkQueueLaws {Q : Type} `{!WorkQueue Q} (view : Q → queue_view) : Prop := {
  q_New_view name : view (q_New name) = mkView ∅ ∅ ∅ false;
  q_Add_view k q : let v := view q in
    view (q_Add k q) = mkView (if stopping v then waiting v else {[k]} ∪ waiting v)
                         (processing v) (delayed v) (stopping v);
  q_Get_key k q q' : let v := view q in
    q_Get q = Some (k, false, q') →
    k ∈ waiting v ∧ k ∉ processing v ∧
    view q' = mkView (waiting v ∖ {[k]}) ({[k]} ∪ processing v) (delayed v) (stopping v);
  q_Get_shutdown k q q' : q_Get q = Some (k, true, q') → stopping (view q) = true ∧ view q' = view q;
  q_Get_blocks q : q_Get q = None → waiting (view q) ⊆ processing (view q);
  q_Done_view k q : let v := view q in
    view (q_Done k q) = mkView (waiting v) (processing v ∖ {[k]}) (delayed v) (stopping v);
  q_AddRateLimited_view k q : let v := view q in
    view (q_AddRateLimited k q)
    = mkView (waiting v) (processing v) (if stopping v then delayed v else {[k]} ∪ delayed v) (stopping v);
  q_Forget_view k q : view (q_Forget k q) = view q;
  q_ShutDown_view q : let v := view q in
    view (q_ShutDown q) = mkView (waiting v) (processing v) (delayed v) true;
  q_Tick_view q : let v := view q in let v' := view (q_Tick q) in
    waiting v ⊆ waiting v' ∧ waiting v ∪ delayed v ⊆ waiting v' ∪ delayed v' ∧
    processing v' = processing v ∧ stopping v' = stopping v;
}.

(** ** An executable instance *)

(** The keys in order, those being processed, the delayed ones. *)
Record ref_queue := mkQueue {
  rq_keys : list string; rq_processing : list string; rq_delayed : list string; rq_stop : bool }.

Definition rq_add (k : string) (ks : list string) : list string := if decide (k ∈ ks) then ks else ks ++ [k].

(** The first key that is not being processed. *)
Definition rq_next (q : ref_queue) : option string :=
  head (filter (λ k, k ∉ rq_processing q) (rq_keys q)).

#[export] Instance ref_workqueue : WorkQueue ref_queue := {|
  q_New _ := mkQueue [] [] [] false;
  q_Add k q := if rq_stop q then q
               else mkQueue (rq_add k (rq_keys q)) (rq_processing q) (rq_delayed q) (rq_stop q);
  q_Get q :=
    match rq_next q with
    | Some k => Some (k, false, mkQueue (filter (λ k', k' ≠ k) (rq_keys q)) (k :: rq_processing q) (rq_delayed q) (rq_stop q))
    | None => if rq_stop q then Some ("", true, q) else None
    end;
  q_Done k q := mkQueue (rq_keys q) (filter (λ k', k' ≠ k) (rq_processing q)) (rq_delayed q) (rq_stop q);
  q_AddRateLimited k q :=
    if rq_stop q then q else mkQueue (rq_keys q) (rq_processing q) (rq_add k (rq_delayed q)) (rq_stop q);
  q_Forget _ q := q;
  q_ShutDown q := mkQueue (rq_keys q) (rq_processing q) (rq_delayed q) true;
  q_Tick q := if rq_stop q then q
              else mkQueue (foldr rq_add (rq_keys q) (rq_delayed q)) (rq_processing q) [] (rq_stop q);
|}.

Definition ref_view (q : ref_queue) : queue_view :=
  mkView (list_to_set (rq_keys q)) (list_to_set (rq_processing q)) (list_to_set (rq_delayed q)) (rq_stop q).

Lemma rq_add_set k ks : list_to_set (C := gset string) (rq_add k ks) = {[k]} ∪ list_to_set ks.
Proof. unfold rq_add. case_decide; set_solver. Qed.

Lemma rq_remove_set k ks : list_to_set (C := gset string) (filter (λ k', k' ≠ k) ks) = list_to_set ks ∖ {[k]}.
Proof.
  apply set_eq. intros x. rewrite elem_of_difference, elem_of_singleton, !elem_of_list_to_set, list_elem_of_filter.
  naive_solver.
Qed.

#[export] Instance ref_workqueue_laws : WorkQueueLaws ref_view.
Proof.
  constructor; intros *; unfold ref_view; simpl.
  - done.
  - destruct (rq_stop q) eqn:E; simpl; [by rewrite E|]. by rewrite rq_add_set.
  - destruct (rq_next q) as [k'|] eqn:Hn; [|by destruct (rq_stop q)]. intros [= <- <-]. simpl.
    unfold rq_next in Hn. apply head_Some_elem_of, list_elem_of_filter in Hn as [Hnp Hk].
    rewrite rq_remove_set. split_and!; [set_solver..|done].
  - destruct (rq_next q); [done|]. destruct (rq_stop q) eqn:E; [|done]. intros [= <- <-]. by rewrite E.
  - destruct (rq_next q) eqn:Hn; [done|]. destruct (rq_stop q); [done|]. intros _ k.
    rewrite !elem_of_list_to_set. intros Hk. destruct (decide (k ∈ rq_processing q)) as [|Hnp]; [done|].
    assert (Hin : k ∈ filter (λ k, k ∉ rq_processing q) (rq_keys q)) by (by apply list_elem_of_filter).
    unfold rq_next in Hn. destruct (filter _ _); [by apply elem_of_nil in Hin|done].
  - by rewrite rq_remove_set.
  - destruct (rq_stop q) eqn:E; simpl; [by rewrite E|]. by rewrite rq_add_set.
  - done.
  - done.
  - destruct (rq_stop q) eqn:E; simpl; [by rewrite E|].
    assert (H : list_to_set (C := gset string) (foldr rq_add (rq_keys q) (rq_delayed q))
                = list_to_set (rq_delayed q) ∪ list_to_set (rq_keys q)).
    { induction (rq_delayed q) as [|k ks IH]; simpl; [set_solver|]. rewrite rq_add_set, IH. set_solver. }
    rewrite H. split_and!; [set_solver..|done|done].
Qed.
