(* ===== verification/Handlers.v ===== *)
(** * internal/controller/handlers.go

    The informers' event handlers and the functions that turn an object into
    keys on the work queues.  A handler runs after the informer's store has
    taken the event in, so it reads the caches after it.  [None] is a panic: an
    object of an unexpected type. *)

From S2P Require Import Prelude KubeTypes Api Indexers Workqueue.

(** The controller's four queues. *)
Record Queues (Q : Type) := mkQueues {
  gatewayClassQueue : Q; gatewayQueue : Q; routeQueue : Q; endpointSelectorQueue : Q }.
Arguments mkQueues {_}. Arguments gatewayClassQueue {_}. Arguments gatewayQueue {_}.
Arguments routeQueue {_}. Arguments endpointSelectorQueue {_}.

Section handlers.
Context `{API : !ApiMachinery} {Q : Type} `{WQ : !WorkQueue Q}.
Implicit Types (qs : Queues Q) (c : Caches) (key : NamespacedName).

Definition gatewayClassQueue_Add (k : string) qs : Queues Q :=
  mkQueues (q_Add k (gatewayClassQueue qs)) (gatewayQueue qs) (routeQueue qs) (endpointSelectorQueue qs).
Definition gatewayQueue_Add (k : string) qs : Queues Q :=
  mkQueues (gatewayClassQueue qs) (q_Add k (gatewayQueue qs)) (routeQueue qs) (endpointSelectorQueue qs).
Definition routeQueue_Add (k : string) qs : Queues Q :=
  mkQueues (gatewayClassQueue qs) (gatewayQueue qs) (q_Add k (routeQueue qs)) (endpointSelectorQueue qs).
Definition endpointSelectorQueue_Add (k : string) qs : Queues Q :=
  mkQueues (gatewayClassQueue qs) (gatewayQueue qs) (routeQueue qs) (q_Add k (endpointSelectorQueue qs)).

(** ** Keys *)

Definition enqueueGatewayNamespacedName key qs : Queues Q :=
  if bool_decide (nn_Namespace key = "") || bool_decide (nn_Name key = "") then qs
  else gatewayQueue_Add (namespacedKey key) qs.

Definition enqueueRouteNamespacedName key qs : Queues Q :=
  if bool_decide (nn_Namespace key = "") || bool_decide (nn_Name key = "") then qs
  else routeQueue_Add (namespacedKey key) qs.

Definition enqueueEndpointSelectorNamespacedName key qs : Queues Q :=
  if bool_decide (nn_Namespace key = "") || bool_decide (nn_Name key = "") then qs
  else endpointSelectorQueue_Add (namespacedKey key) qs.

Definition enqueueGatewayParentsForRoute (route : TCPRoute) qs : Queues Q :=
  foldl (λ qs k, gatewayQueue_Add k qs) qs (routeGatewayParentKeys route).

Definition enqueueEndpointSelectorsForRoute (route : TCPRoute) qs : Queues Q :=
  foldl (λ qs k, endpointSelectorQueue_Add k qs) qs (routeBackendEndpointSelectorKeys route).

(** ** Related objects; an indexer error is logged *)

Definition route_key (route : TCPRoute) : NamespacedName := meta_key (rt_meta route).

(** The loop of [enqueueRoutesForGateway]. *)
Fixpoint enqueue_routes (items : list object) qs : option (Queues Q) :=
  match items with
  | [] => Some qs
  | item :: items =>
      route ← routeFromObject item;
      enqueue_routes items
        (enqueueEndpointSelectorsForRoute route (enqueueRouteNamespacedName (route_key route) qs))
  end.

Definition enqueueRoutesForGateway c key qs : option (Queues Q) :=
  match route_ByGateway c (namespacedKey key) with
  | Err _ => Some qs
  | Ok items => enqueue_routes items qs
  end.

(** The loop of [enqueueGatewaysForClass]. *)
Fixpoint enqueue_gateways c (items : list Gateway) qs : option (Queues Q) :=
  match items with
  | [] => Some qs
  | gateway :: items =>
      let key := meta_key (gw_meta gateway) in
      qs ← enqueueRoutesForGateway c key (enqueueGatewayNamespacedName key qs);
      enqueue_gateways c items qs
  end.

Definition enqueueGatewaysForClass c (className : string) qs : option (Queues Q) :=
  match gateway_ByClass c className with
  | Err _ => Some qs
  | Ok items => enqueue_gateways c items qs
  end.

Definition enqueueSelectorAndRelatedRoutes c (obj : object) qs : option (Queues Q) :=
  selector ← endpointSelectorFromObject obj;
  let key := unstructured_key selector in
  let qs := enqueueEndpointSelectorNamespacedName key qs in
  match route_ByBackendEndpointSelector c (namespacedKey key) with
  | Err _ => Some qs
  | Ok items =>
      Some (foldl (λ qs route,
              enqueueGatewayParentsForRoute route (enqueueRouteNamespacedName (route_key route) qs)) qs items)
  end.

Definition enqueueEndpointSelectorsForPodObject c (obj : object) qs : option (Queues Q) :=
  pod ← podFromObject obj;
  if decide (Namespace (pod_meta pod) = "") then Some qs
  else
    match endpointSelector_ByNamespace c (Namespace (pod_meta pod)) with
    | Err _ => Some qs
    | Ok items =>
        Some (foldl (λ qs selector, enqueueEndpointSelectorNamespacedName (unstructured_key selector) qs) qs items)
    end.

Definition enqueueEndpointSelectorForEndpointSliceObject (obj : object) qs : option (Queues Q) :=
  endpointSlice ← endpointSliceFromObject obj;
  let k := endpointSelectorKeyForEndpointSlice endpointSlice in
  Some (if decide (k ≠ "") then endpointSelectorQueue_Add k qs else qs).

Definition enqueueGatewayForIPAddressObject (obj : object) qs : option (Queues Q) :=
  ipAddress ← ipAddressFromObject obj;
  let k := gatewayKeyForIPAddress ipAddress in
  Some (if decide (k ≠ "") then gatewayQueue_Add k qs else qs).

(** ** Registration *)

(** What an informer reports. *)
Inductive notification :=
| AddFunc (obj : object)
| UpdateFunc (oldObj newObj : object)
| DeleteFunc (obj : object).

(** The informers, by the resource they watch. *)
Inductive informer :=
| gatewayClassInformer | gatewayInformer | routeInformer | endpointSelectorInformer
| podInformer | endpointSliceInformer | ipAddressInformer | serviceCIDRInformer.

(** The object most handlers look at. *)
Definition reported (n : notification) : object :=
  match n with AddFunc obj | UpdateFunc _ obj | DeleteFunc obj => obj end.

Definition on_gatewayClass c (obj : object) qs : option (Queues Q) :=
  gatewayClass ← gatewayClassFromObject obj;
  enqueueGatewaysForClass c (Name (gc_meta gatewayClass)) (gatewayClassQueue_Add (Name (gc_meta gatewayClass)) qs).

Definition on_gateway c (obj : object) qs : option (Queues Q) :=
  gateway ← gatewayFromObject obj;
  let key := meta_key (gw_meta gateway) in
  enqueueRoutesForGateway c key (enqueueGatewayNamespacedName key qs).

Definition on_route (obj : object) qs : option (Queues Q) :=
  route ← routeFromObject obj;
  Some (enqueueEndpointSelectorsForRoute route
         (enqueueGatewayParentsForRoute route (enqueueRouteNamespacedName (route_key route) qs))).

Definition on_old_route (obj : object) qs : option (Queues Q) :=
  oldRoute ← routeFromObject obj;
  Some (enqueueEndpointSelectorsForRoute oldRoute (enqueueGatewayParentsForRoute oldRoute qs)).

Definition registerHandlers (i : informer) c (n : notification) qs : option (Queues Q) :=
  match i with
  | gatewayClassInformer => on_gatewayClass c (reported n) qs
  | gatewayInformer => on_gateway c (reported n) qs
  | routeInformer =>
      match n with
      | UpdateFunc oldObj newObj => qs ← on_old_route oldObj qs; on_route newObj qs
      | AddFunc obj | DeleteFunc obj => on_route obj qs
      end
  | endpointSelectorInformer => enqueueSelectorAndRelatedRoutes c (reported n) qs
  | podInformer => enqueueEndpointSelectorsForPodObject c (reported n) qs
  | endpointSliceInformer => enqueueEndpointSelectorForEndpointSliceObject (reported n) qs
  | ipAddressInformer => enqueueGatewayForIPAddressObject (reported n) qs
  | serviceCIDRInformer => enqueueGatewaysForClass c gatewaymeta_GatewayClassName qs
  end.

End handlers.
