(* ===== verification/Workers.v ===== *)
(** * internal/controller/controller.go and workers.go

    The controller object, its construction and its start, and the workers'
    loops.  A worker takes a key from its queue, reconciles it and reports the
    outcome to the queue; event handlers, the queues' timers and the other
    workers run in between.  A [world] is the shared state with what each worker
    is doing; [controller_step] performs one atomic step. *)

From S2P Require Import Prelude KubeTypes Api Indexers Ipam Gateway Route Slices Workqueue Handlers.

Definition gatewayClassQueueName : string := "clusterip-gw-controller-gatewayclass".
Definition gatewayQueueName : string := "clusterip-gw-controller-gateway".
Definition routeQueueName : string := "clusterip-gw-controller-tcproute".
Definition endpointSelectorQueueName : string := "clusterip-gw-controller-endpointselector".

(** Group, version and resource of the selectors the dynamic client reads. *)
Definition endpointSelectorGVR : string * string * string :=
  (endpointSelectorAPIGroup, endpointSelectorVersion, "xendpointselectors").

Section workers.
Context `{API : !ApiMachinery} {Q : Type} `{WQ : !WorkQueue Q}.

(** The informers' stores, the queues and [ready]. *)
Record Controller := mkController { ctl_caches : Caches; ctl_queues : Queues Q; ctl_ready : bool }.

(** The index functions registered with an informer, by name. *)
Definition controller_indexers (i : informer) : list (string * (object → option (list string))) :=
  match i with
  | gatewayInformer => [(gatewayByClassIndex, indexGatewayByClass)]
  | routeInformer =>
      [(routeByGatewayIndex, indexRouteByGateway);
       (routeByBackendEndpointSelectorIndex, indexRouteByBackendEndpointSelector)]
  | endpointSliceInformer => [(endpointSliceByEndpointSelectorIndex, indexEndpointSliceByEndpointSelector)]
  | ipAddressInformer => [(ipAddressByGatewayIndex, indexIPAddressByGateway)]
  | _ => []
  end.

(** Registering the index functions with an informer may fail. *)
Definition New (addIndexers : informer → list (string * (object → option (list string))) → result unit)
    (caches : Caches) : result Controller :=
  let wrap (prefix : string) (i : informer) :=
    match addIndexers i (controller_indexers i) with Err err => Err (WrapError prefix err) | Ok u => Ok u end in
  let! _ := wrap "add gateway indexers" gatewayInformer in
  let! _ := wrap "add route indexers" routeInformer in
  let! _ := wrap "add endpointslice indexers" endpointSliceInformer in
  let! _ := wrap "add ipaddress indexers" ipAddressInformer in
  Ok (mkController caches
        (mkQueues (q_New gatewayClassQueueName) (q_New gatewayQueueName) (q_New routeQueueName)
           (q_New endpointSelectorQueueName)) false).

Definition Controller_Ready (c : Controller) : bool := ctl_ready c.

(** ** Workers *)

(** Which worker a goroutine is; two of them run the Gateways. *)
Inductive worker :=
| runGatewayClassWorker | runGatewayWorker | runRouteWorker | runEndpointSelectorWorker.

#[export] Instance worker_eq_dec : EqDecision worker.
Proof. solve_decision. Defined.

(** Where a worker is in [processNext...]; [Taken]: [Get] has returned a key,
    [Reconciled]: the reconciler has, [Exited]: [Get] reported a shutdown. *)
Inductive worker_pc :=
| AtGet
| Taken (key : string)
| Reconciled (key : string) (err : result unit)
| Exited.

Definition queue_of (wk : worker) (qs : Queues Q) : Q :=
  match wk with
  | runGatewayClassWorker => gatewayClassQueue qs
  | runGatewayWorker => gatewayQueue qs
  | runRouteWorker => routeQueue qs
  | runEndpointSelectorWorker => endpointSelectorQueue qs
  end.

Definition set_queue (wk : worker) (q : Q) (qs : Queues Q) : Queues Q :=
  match wk with
  | runGatewayClassWorker => mkQueues q (gatewayQueue qs) (routeQueue qs) (endpointSelectorQueue qs)
  | runGatewayWorker => mkQueues (gatewayClassQueue qs) q (routeQueue qs) (endpointSelectorQueue qs)
  | runRouteWorker => mkQueues (gatewayClassQueue qs) (gatewayQueue qs) q (endpointSelectorQueue qs)
  | runEndpointSelectorWorker => mkQueues (gatewayClassQueue qs) (gatewayQueue qs) (routeQueue qs) q
  end.

(** The reconciler a worker calls, at time [now]; [range] is the order in which
    Go visits the map of desired slices. *)
Definition reconcile (wk : worker) (now : Z) (range : gmap string EndpointSlice → list EndpointSlice)
    (c : Caches) (key : string) : prog (result unit) :=
  match wk with
  | runGatewayClassWorker => reconcileGatewayClass now c key
  | runGatewayWorker => reconcileGateway now c key
  | runRouteWorker => reconcileRoute now c key
  | runEndpointSelectorWorker => reconcileEndpointSelector now range c key
  end.

(** [processNext...] in three steps: [Get]; the reconciler; and
    [AddRateLimited] on an error or [Forget] otherwise, then the deferred
    [Done]. *)
Definition processNext_get (q : Q) : option (worker_pc * Q) :=
  match q_Get q with
  | None => None
  | Some (key, shutdown, q) => Some (if shutdown then Exited else Taken key, q)
  end.

Definition processNext_finish (key : string) (err : result unit) (q : Q) : Q :=
  q_Done key (match err with Err _ => q_AddRateLimited key q | Ok _ => q_Forget key q end).

(** ** The running controller *)

(** [Run] starts these once the caches have synced. *)
Definition started_workers : list worker :=
  [runGatewayClassWorker; runGatewayWorker; runGatewayWorker; runRouteWorker; runEndpointSelectorWorker].

Definition no_cache_sync : error := ErrorString "timed out waiting for informer cache sync".

(** The deferred calls of [Run]. *)
Definition shut_down_queues (qs : Queues Q) : Queues Q :=
  mkQueues (q_ShutDown (gatewayClassQueue qs)) (q_ShutDown (gatewayQueue qs))
    (q_ShutDown (routeQueue qs)) (q_ShutDown (endpointSelectorQueue qs)).

Definition set_queues (qs : Queues Q) (c : Controller) : Controller := mkController (ctl_caches c) qs (ctl_ready c).

(** [Run] up to the wait for the end: wait for the caches, then [ready] and the
    workers; without the caches it returns, and the deferred calls run. *)
Definition Run (synced : bool) (c : Controller) : Controller * result (list (worker * worker_pc)) :=
  if negb synced then (set_queues (shut_down_queues (ctl_queues c)) c, Err no_cache_sync)
  else (mkController (ctl_caches c) (ctl_queues c) true, Ok ((λ wk, (wk, AtGet)) <$> started_workers)).

Context {S : Type} (handle : ∀ r : request, S → response r * S).

Record world := mkWorld {
  w_ctl : Controller; w_workers : list (worker * worker_pc); w_server : S }.

Definition w_queue (wk : worker) (w : world) : Q := queue_of wk (ctl_queues (w_ctl w)).

(** One worker's step on its queue. *)
Definition set_worker (i : nat) (wk : worker) (pc : worker_pc) (q : Q) (w : world) : world :=
  mkWorld (set_queues (set_queue wk q (ctl_queues (w_ctl w))) (w_ctl w)) (<[i := (wk, pc)]> (w_workers w)) (w_server w).

Inductive action :=
| AEvent (i : informer) (caches : Caches) (n : notification)  (** an informer takes an event in and reports it *)
| ATick (wk : worker)                                          (** a queue's timer *)
| AServer (s : S)                                              (** others write to the API server *)
| AGet (i : nat)
| AReconcile (i : nat) (now : Z) (range : gmap string EndpointSlice → list EndpointSlice)
| AFinish (i : nat)
| AShutDown.                                                   (** [Run] returns *)

Definition controller_step (a : action) (w : world) : option world :=
  match a with
  | AEvent i caches n =>
      qs ← registerHandlers i caches n (ctl_queues (w_ctl w));
      Some (mkWorld (mkController caches qs (ctl_ready (w_ctl w))) (w_workers w) (w_server w))
  | ATick wk =>
      Some (mkWorld (set_queues (set_queue wk (q_Tick (w_queue wk w)) (ctl_queues (w_ctl w))) (w_ctl w))
              (w_workers w) (w_server w))
  | AServer s => Some (mkWorld (w_ctl w) (w_workers w) s)
  | AGet i =>
      match w_workers w !! i with
      | Some (wk, AtGet) =>
          match processNext_get (w_queue wk w) with
          | Some (pc, q) => Some (set_worker i wk pc q w)
          | None => None
          end
      | _ => None
      end
  | AReconcile i now range =>
      match w_workers w !! i with
      | Some (wk, Taken key) =>
          let '(err, s) := exec handle (reconcile wk now range (ctl_caches (w_ctl w)) key) (w_server w) in
          Some (mkWorld (w_ctl w) (<[i := (wk, Reconciled key err)]> (w_workers w)) s)
      | _ => None
      end
  | AFinish i =>
      match w_workers w !! i with
      | Some (wk, Reconciled key err) =>
          Some (set_worker i wk AtGet (processNext_finish key err (w_queue wk w)) w)
      | _ => None
      end
  | AShutDown =>
      Some (mkWorld (set_queues (shut_down_queues (ctl_queues (w_ctl w))) (w_ctl w)) (w_workers w) (w_server w))
  end.

Fixpoint run_controller (tr : list action) (w : world) : option world :=
  match tr with
  | [] => Some w
  | a :: tr => w' ← controller_step a w; run_controller tr w'
  end.

(** The controller has been built and started on server state [s]. *)
Definition started (w : world) : Prop :=
  ∃ addIndexers caches c s, New addIndexers caches = Ok c ∧
    ∃ c' workers, Run true c = (c', Ok workers) ∧ w = mkWorld c' workers s.

End workers.
