(* ===== verification/HandlersSpec.v ===== *)
(** * Event handlers: properties

    Which keys an event puts on which queue.  That this is enough is the subject
    of [WakeupSpec]. *)

From S2P Require Import Prelude KubeTypes Api Indexers Workqueue Handlers Workers.

Section handlers.
Context `{API : !ApiMachinery} {Q : Type} `{WQ : !WorkQueue Q} (view : Q → queue_view).
Context `{Laws : !WorkQueueLaws view}.
Implicit Types (qs : Queues Q) (P : worker → string → Prop).

(** ** Adding keys *)

(** [v'] is [v] with the keys of [P] added, unless it is shutting down. *)
Definition grown (P : string → Prop) (v v' : queue_view) : Prop :=
  processing v' = processing v ∧ delayed v' = delayed v ∧ stopping v' = stopping v ∧
  ∀ k, k ∈ waiting v' ↔ k ∈ waiting v ∨ (stopping v = false ∧ P k).

Definition enqueues qs P qs' : Prop := ∀ wk, grown (P wk) (view (queue_of wk qs)) (view (queue_of wk qs')).

Lemma grown_none (P : string → Prop) v : (∀ k, ¬ P k) → grown P v v.
Proof. intros HP. split_and!; try done. intros k. specialize (HP k). naive_solver. Qed.

Lemma enqueues_none qs P : (∀ wk k, ¬ P wk k) → enqueues qs P qs.
Proof. intros HP wk. apply grown_none, HP. Qed.

Lemma enqueues_trans qs P qs1 P' qs2 :
  enqueues qs P qs1 → enqueues qs1 P' qs2 → enqueues qs (λ wk k, P wk k ∨ P' wk k) qs2.
Proof.
  intros H1 H2 wk. destruct (H1 wk) as (Hp1 & Hd1 & Hs1 & Hw1), (H2 wk) as (Hp2 & Hd2 & Hs2 & Hw2).
  unfold grown. rewrite Hp2, Hd2, Hs2. split_and!; try done. intros k. rewrite Hw2, Hw1, Hs1. naive_solver.
Qed.

Lemma enqueues_iff qs P P' qs' : (∀ wk k, P wk k ↔ P' wk k) → enqueues qs P qs' → enqueues qs P' qs'.
Proof.
  intros HP H wk. destruct (H wk) as (Hp & Hd & Hs & Hw). split_and!; try done. intros k. rewrite Hw.
  specialize (HP wk k). naive_solver.
Qed.

Lemma enqueues_fold {X} (f : Queues Q → X → Queues Q) (P : X → worker → string → Prop) xs qs :
  (∀ qs x, enqueues qs (P x) (f qs x)) → enqueues qs (λ wk k, ∃ x, x ∈ xs ∧ P x wk k) (foldl f qs xs).
Proof.
  intros Hf. revert qs. induction xs as [|x xs IH]; intros qs; simpl.
  { apply enqueues_none. intros wk k (x & Hx & _). by apply elem_of_nil in Hx. }
  eapply enqueues_iff; [|eapply enqueues_trans; [apply Hf|apply IH]]. intros wk k. simpl.
  setoid_rewrite list.elem_of_cons. naive_solver.
Qed.

(** The [Add] of one queue. *)
Definition add (wk : worker) (k : string) qs : Queues Q := set_queue wk (q_Add k (queue_of wk qs)) qs.

Lemma enqueues_add wk k qs : enqueues qs (λ wk' k', wk' = wk ∧ k' = k) (add wk k qs).
Proof.
  intros wk'. unfold add. destruct (decide (wk' = wk)) as [->|Hne].
  - assert (queue_of wk (set_queue wk (q_Add k (queue_of wk qs)) qs) = q_Add k (queue_of wk qs)) as -> by by destruct wk.
    unfold grown. pose proof (q_Add_view k (queue_of wk qs)) as ->. simpl. split_and!; try done. intros k'.
    destruct (stopping (view (queue_of wk qs))); set_solver.
  - assert (queue_of wk' (set_queue wk (q_Add k (queue_of wk qs)) qs) = queue_of wk' qs) as -> by by destruct wk, wk'.
    apply grown_none. naive_solver.
Qed.

Definition named (key : NamespacedName) : Prop := nn_Namespace key ≠ "" ∧ nn_Name key ≠ "".

Lemma enqueues_named wk key qs :
  enqueues qs (λ wk' k, wk' = wk ∧ named key ∧ k = namespacedKey key)
    (if bool_decide (nn_Namespace key = "") || bool_decide (nn_Name key = "") then qs
     else add wk (namespacedKey key) qs).
Proof.
  unfold named. destruct (_ || _) eqn:E.
  - apply orb_true_iff in E. rewrite !bool_decide_eq_true in E. apply enqueues_none. naive_solver.
  - apply orb_false_iff in E. rewrite !bool_decide_eq_false in E.
    eapply enqueues_iff; [|apply enqueues_add]. naive_solver.
Qed.

(** ** What each function adds *)

Definition route_parents (route : TCPRoute) (wk : worker) (k : string) : Prop :=
  wk = runGatewayWorker ∧ k ∈ routeGatewayParentKeys route.
Definition route_selectors (route : TCPRoute) (wk : worker) (k : string) : Prop :=
  wk = runEndpointSelectorWorker ∧ k ∈ routeBackendEndpointSelectorKeys route.
Definition key_for (wk0 : worker) (key : NamespacedName) (wk : worker) (k : string) : Prop :=
  wk = wk0 ∧ named key ∧ k = namespacedKey key.

(** A route the index lists for a Gateway. *)
Definition routes_of (c : Caches) (key : NamespacedName) (route : TCPRoute) : Prop :=
  ∃ items item, route_ByGateway c (namespacedKey key) = Ok items ∧ item ∈ items ∧ routeFromObject item = Some route.

(** What depends on a Gateway: its routes and their selectors. *)
Definition gateway_routes (c : Caches) (key : NamespacedName) (wk : worker) (k : string) : Prop :=
  ∃ route, routes_of c key route ∧ (key_for runRouteWorker (route_key route) wk k ∨ route_selectors route wk k).

Definition gateways_of (c : Caches) (className : string) (gateway : Gateway) : Prop :=
  ∃ items, gateway_ByClass c className = Ok items ∧ gateway ∈ items.

Lemma enqueues_parents route qs : enqueues qs (route_parents route) (enqueueGatewayParentsForRoute route qs).
Proof.
  unfold enqueueGatewayParentsForRoute. eapply enqueues_iff; [|apply enqueues_fold; intros qs' k; apply (enqueues_add runGatewayWorker)].
  unfold route_parents. intros wk k. naive_solver.
Qed.

Lemma enqueues_selectors route qs : enqueues qs (route_selectors route) (enqueueEndpointSelectorsForRoute route qs).
Proof.
  unfold enqueueEndpointSelectorsForRoute.
  eapply enqueues_iff; [|apply enqueues_fold; intros qs' k; apply (enqueues_add runEndpointSelectorWorker)].
  unfold route_selectors. intros wk k. naive_solver.
Qed.

Lemma enqueues_routes items qs qs' :
  enqueue_routes items qs = Some qs' →
  enqueues qs (λ wk k, ∃ item route, item ∈ items ∧ routeFromObject item = Some route ∧
    (key_for runRouteWorker (route_key route) wk k ∨ route_selectors route wk k)) qs'.
Proof.
  revert qs. induction items as [|item items IH]; intros qs; simpl.
  { intros [= <-]. apply enqueues_none. intros wk k (x & ? & Hx & _). by apply elem_of_nil in Hx. }
  destruct (routeFromObject item) as [route|] eqn:Hr; [|done]. simpl. intros H%IH.
  eapply enqueues_iff; [|eapply enqueues_trans; [eapply enqueues_trans;
    [apply (enqueues_named runRouteWorker)|apply enqueues_selectors]|exact H]].
  intros wk k. simpl. split.
  - intros [H'|(item' & route' & Hin & H')]; [exists item, route|exists item', route']; unfold key_for; set_solver.
  - intros (item' & route' & [->|Hin]%list.elem_of_cons & Hr' & H'); [left|right].
    + rewrite Hr in Hr'. by injection Hr' as <-.
    + by exists item', route'.
Qed.

Lemma enqueues_gateway_routes c key qs qs' :
  enqueueRoutesForGateway c key qs = Some qs' → enqueues qs (gateway_routes c key) qs'.
Proof.
  unfold enqueueRoutesForGateway. destruct (route_ByGateway c (namespacedKey key)) as [items|e] eqn:Hi.
  - intros H%enqueues_routes. eapply enqueues_iff; [|exact H]. intros wk k. unfold gateway_routes, routes_of. split.
    + intros (item & route & Hin & Hr & H'). exists route. split; [|done]. by exists items, item.
    + intros (route & (items' & item & Hi' & Hin & Hr) & H'). rewrite Hi in Hi'. injection Hi' as <-. by exists item, route.
  - intros [= <-]. apply enqueues_none. intros wk k (route & (items & item & Hi' & _) & _). congruence.
Qed.

(** A Gateway, its routes and their selectors. *)
Definition gateway_and_routes (c : Caches) (gateway : Gateway) (wk : worker) (k : string) : Prop :=
  let key := meta_key (gw_meta gateway) in key_for runGatewayWorker key wk k ∨ gateway_routes c key wk k.

Lemma enqueues_gateway c gateway qs qs' :
  enqueueRoutesForGateway c (meta_key (gw_meta gateway))
    (enqueueGatewayNamespacedName (meta_key (gw_meta gateway)) qs) = Some qs' →
  enqueues qs (gateway_and_routes c gateway) qs'.
Proof.
  intros H%enqueues_gateway_routes. eapply enqueues_trans; [apply (enqueues_named runGatewayWorker)|exact H].
Qed.

Lemma enqueues_class c className qs qs' :
  enqueueGatewaysForClass c className qs = Some qs' →
  enqueues qs (λ wk k, ∃ gateway, gateways_of c className gateway ∧ gateway_and_routes c gateway wk k) qs'.
Proof.
  unfold enqueueGatewaysForClass, gateways_of. destruct (gateway_ByClass c className) as [items|e] eqn:Hi.
  - intros H. assert (Hg : enqueues qs (λ wk k, ∃ gateway, gateway ∈ items ∧ gateway_and_routes c gateway wk k) qs').
    { clear Hi. revert qs H. induction items as [|g items IH]; intros qs; simpl.
      - intros [= <-]. apply enqueues_none. intros wk k (x & Hx & _). by apply elem_of_nil in Hx.
      - intros (qs1 & H1 & H2)%bind_Some. eapply enqueues_iff;
          [|eapply enqueues_trans; [by apply enqueues_gateway|by apply IH]].
        intros wk k. simpl. setoid_rewrite list.elem_of_cons. naive_solver. }
    eapply enqueues_iff; [|exact Hg]. intros wk k. naive_solver.
  - intros [= <-]. apply enqueues_none. naive_solver.
Qed.

(** ** What each event wakes *)

Definition route_and_refs (route : TCPRoute) (wk : worker) (k : string) : Prop :=
  key_for runRouteWorker (route_key route) wk k ∨ route_parents route wk k ∨ route_selectors route wk k.

(** The keys an event is reported to, by informer. *)
Inductive woken (c : Caches) (n : notification) : informer → worker → string → Prop :=
| woken_class gc :
    gatewayClassFromObject (reported n) = Some gc →
    woken c n gatewayClassInformer runGatewayClassWorker (Name (gc_meta gc))
| woken_class_gateway gc gateway wk k :
    gatewayClassFromObject (reported n) = Some gc → gateways_of c (Name (gc_meta gc)) gateway →
    gateway_and_routes c gateway wk k → woken c n gatewayClassInformer wk k
| woken_gateway gateway wk k :
    gatewayFromObject (reported n) = Some gateway → gateway_and_routes c gateway wk k →
    woken c n gatewayInformer wk k
| woken_route route wk k :
    routeFromObject (reported n) = Some route → route_and_refs route wk k → woken c n routeInformer wk k
| woken_old_route oldObj newObj route wk k :
    n = UpdateFunc oldObj newObj → routeFromObject oldObj = Some route →
    route_parents route wk k ∨ route_selectors route wk k → woken c n routeInformer wk k
| woken_selector selector wk k :
    endpointSelectorFromObject (reported n) = Some selector →
    key_for runEndpointSelectorWorker (unstructured_key selector) wk k → woken c n endpointSelectorInformer wk k
| woken_selector_route selector items route wk k :
    endpointSelectorFromObject (reported n) = Some selector →
    route_ByBackendEndpointSelector c (namespacedKey (unstructured_key selector)) = Ok items → route ∈ items →
    key_for runRouteWorker (route_key route) wk k ∨ route_parents route wk k → woken c n endpointSelectorInformer wk k
| woken_pod pod items selector wk k :
    podFromObject (reported n) = Some pod → Namespace (pod_meta pod) ≠ "" →
    endpointSelector_ByNamespace c (Namespace (pod_meta pod)) = Ok items → selector ∈ items →
    key_for runEndpointSelectorWorker (unstructured_key selector) wk k → woken c n podInformer wk k
| woken_slice es :
    endpointSliceFromObject (reported n) = Some es → endpointSelectorKeyForEndpointSlice es ≠ "" →
    woken c n endpointSliceInformer runEndpointSelectorWorker (endpointSelectorKeyForEndpointSlice es)
| woken_ip ip :
    ipAddressFromObject (reported n) = Some ip → gatewayKeyForIPAddress ip ≠ "" →
    woken c n ipAddressInformer runGatewayWorker (gatewayKeyForIPAddress ip)
| woken_cidr gateway wk k :
    gateways_of c gatewaymeta_GatewayClassName gateway → gateway_and_routes c gateway wk k →
    woken c n serviceCIDRInformer wk k.

Lemma on_route_enqueues obj qs qs' :
  on_route obj qs = Some qs' →
  ∃ route, routeFromObject obj = Some route ∧ enqueues qs (route_and_refs route) qs'.
Proof.
  intros (route & Hr & [= <-])%bind_Some. exists route. split; [done|].
  eapply enqueues_iff; [|eapply enqueues_trans; [eapply enqueues_trans;
    [apply (enqueues_named runRouteWorker)|apply enqueues_parents]|apply enqueues_selectors]].
  intros wk k. simpl. unfold route_and_refs, key_for. tauto.
Qed.

Lemma class_grows c n qs qs' :
  on_gatewayClass c (reported n) qs = Some qs' → enqueues qs (woken c n gatewayClassInformer) qs'.
Proof.
  intros (gc & Hgc & H%enqueues_class)%bind_Some.
  eapply enqueues_iff; [|eapply enqueues_trans; [apply (enqueues_add runGatewayClassWorker)|exact H]].
  intros wk k. simpl. split.
  - intros [[-> ->]|(g & Hg & H')]; [by apply woken_class|by eapply woken_class_gateway].
  - inversion 1; simplify_eq; [by left|right; eauto].
Qed.

(** An added or deleted route. *)
Lemma route_grows c n qs qs' :
  (∀ o o', n ≠ UpdateFunc o o') → on_route (reported n) qs = Some qs' → enqueues qs (woken c n routeInformer) qs'.
Proof.
  intros Hn (route & Hr & H)%on_route_enqueues. eapply enqueues_iff; [|exact H]. intros wk k. split.
  - by eapply woken_route.
  - inversion 1 as [| | |? ? ? Hr'|? ? ? ? ? ->| | | | | |]; subst; [congruence|by edestruct Hn].
Qed.

Lemma route_update_grows c oldObj newObj qs qs1 qs' :
  on_old_route oldObj qs = Some qs1 → on_route newObj qs1 = Some qs' →
  enqueues qs (woken c (UpdateFunc oldObj newObj) routeInformer) qs'.
Proof.
  intros (old & Hold & [= <-])%bind_Some (route & Hr & H)%on_route_enqueues.
  eapply enqueues_iff; [|eapply enqueues_trans; [eapply enqueues_trans;
    [apply enqueues_parents|apply enqueues_selectors]|exact H]]. intros wk k. simpl. split.
  - intros [H'|H']; [by eapply woken_old_route|by eapply woken_route].
  - inversion 1; simplify_eq/=; auto.
Qed.

Lemma selector_grows c n qs qs' :
  enqueueSelectorAndRelatedRoutes c (reported n) qs = Some qs' → enqueues qs (woken c n endpointSelectorInformer) qs'.
Proof.
  intros (sel & Hsel & H)%bind_Some. cbv zeta in H.
  set (qs1 := enqueueEndpointSelectorNamespacedName (unstructured_key sel) qs) in H.
  assert (H1 : enqueues qs (key_for runEndpointSelectorWorker (unstructured_key sel)) qs1)
    by apply (enqueues_named runEndpointSelectorWorker).
  destruct (route_ByBackendEndpointSelector c _) as [items|e] eqn:Hi; injection H as <-.
  - eapply enqueues_iff; [|eapply enqueues_trans; [exact H1|apply enqueues_fold; intros qs2 route;
      eapply enqueues_trans; [apply (enqueues_named runRouteWorker)|apply enqueues_parents]]].
    intros wk k. simpl. split.
    + intros [H'|(route & Hin & H')]; [by eapply woken_selector|by eapply woken_selector_route].
    + inversion 1; simplify_eq; [by left|right]. assert (items0 = items) as -> by congruence. by exists route.
  - eapply enqueues_iff; [|exact H1]. intros wk k. split; [by eapply woken_selector|].
    inversion 1; simplify_eq; [done|congruence].
Qed.

Lemma pod_grows c n qs qs' :
  enqueueEndpointSelectorsForPodObject c (reported n) qs = Some qs' → enqueues qs (woken c n podInformer) qs'.
Proof.
  intros (pod & Hpod & H)%bind_Some. case_decide as Hns.
  { injection H as <-. apply enqueues_none. intros wk k. by inversion 1; simplify_eq. }
  destruct (endpointSelector_ByNamespace c _) as [items|e] eqn:Hi; injection H as <-.
  - eapply enqueues_iff; [|apply enqueues_fold; intros qs2 selector; apply (enqueues_named runEndpointSelectorWorker)].
    intros wk k. simpl. split.
    + intros (sel & Hin & H'). by eapply woken_pod.
    + inversion 1; simplify_eq. assert (items0 = items) as -> by congruence. by exists selector.
  - apply enqueues_none. intros wk k. inversion 1; simplify_eq; congruence.
Qed.

(** The events that concern at most one key. *)
Lemma one_key_grows wk0 k0 (P : worker → string → Prop) qs :
  (∀ wk k, P wk k ↔ k0 ≠ "" ∧ wk = wk0 ∧ k = k0) →
  enqueues qs P (if decide (k0 ≠ "") then add wk0 k0 qs else qs).
Proof.
  intros HP. case_decide as Hk.
  - eapply enqueues_iff; [|apply (enqueues_add wk0)]. intros wk k. rewrite HP. tauto.
  - apply enqueues_none. intros wk k. rewrite HP. tauto.
Qed.

Lemma handlers_grow i c n qs qs' : registerHandlers i c n qs = Some qs' → enqueues qs (woken c n i) qs'.
Proof.
  destruct i; cbn [registerHandlers].
  - apply class_grows.
  - intros (g & Hg & H%enqueues_gateway)%bind_Some. eapply enqueues_iff; [|exact H]. intros wk k. split.
    + by eapply woken_gateway.
    + inversion 1; by simplify_eq.
  - destruct n as [obj|oldObj newObj|obj]; [by apply (route_grows c (AddFunc obj))| |by apply (route_grows c (DeleteFunc obj))].
    intros (qs1 & Hold & Hnew)%bind_Some. by eapply route_update_grows.
  - apply selector_grows.
  - apply pod_grows.
  - intros (es & Hes & H)%bind_Some. injection H as <-. apply (one_key_grows runEndpointSelectorWorker). intros wk k. split.
    + inversion 1; by simplify_eq.
    + intros (Hk & -> & ->). by apply woken_slice.
  - intros (ip & Hip & H)%bind_Some. injection H as <-. apply (one_key_grows runGatewayWorker). intros wk k. split.
    + inversion 1; by simplify_eq.
    + intros (Hk & -> & ->). by apply woken_ip.
  - intros H%enqueues_class. eapply enqueues_iff; [|exact H]. intros wk k. split.
    + intros (g & Hg & H'). by eapply woken_cidr.
    + inversion 1; simplify_eq; eauto.
Qed.

(** An event adds to the queues exactly the
    keys of the objects it is documented to concern: the object itself, and
    what refers to it or is referred to by it, on the queue of its resource. *)
Theorem handlers_enqueue i c n qs qs' wk k :
  registerHandlers i c n qs = Some qs' → stopping (view (queue_of wk qs)) = false →
  k ∈ waiting (view (queue_of wk qs')) ↔ k ∈ waiting (view (queue_of wk qs)) ∨ woken c n i wk k.
Proof. intros H Hs. destruct (handlers_grow _ _ _ _ _ H wk) as (_ & _ & _ & Hw). rewrite Hw. naive_solver. Qed.

End handlers.
