(* ===== verification/Footprint.v ===== *)
(** * What the workers may write

    Every request the four workers can make, whatever the caches hold and
    whatever the server answers. *)

From S2P Require Import Prelude KubeTypes Api Indexers Status Ipam Listeners Selector Route RouteSpec.
From S2P Require Import Gateway GatewayFacts GatewayProps Slices SliceSpec Workqueue Handlers Workers.
From S2P Require Import Reference IpamSpec.

Section footprint.
Context `{API : !ApiMachinery, Laws : !ApiMachineryLaws}.
Implicit Types (c : Caches) (r : request).








Section slices.
Variables (now : Z) (c : Caches) (k : string) (nn : NamespacedName) (existing : list EndpointSlice).
Hypothesis Hk : splitNamespacedKey k = Ok nn.
Hypothesis Hex : listManagedEndpointSlices c nn = Ok existing.





End slices.



End footprint.

