(* ===== verification/WakeupSpec.v ===== *)
(** * No wake-up is missed

    A reconcile reads the informers' caches.  An event changes only what the
    caches hold for the objects it reports; when its handler does not add a
    Gateway's key to the queue, reconciling that Gateway after the event does
    the same as before it.  (A freed IPAddress is the exception:
    [freed_address_missed].) *)

From S2P Require Import Prelude KubeTypes Api Indexers Status Ipam Listeners Selector Route RouteSpec Gateway.
From S2P Require Import GatewayProps Slices SliceSpec Workqueue Handlers Workers HandlersSpec Reference IpamSpec.

Section wakeups.
Context `{API : !ApiMachinery}.

(** ** Events and caches *)

(** The objects an event reports. *)
Definition objs (n : notification) : list object :=
  match n with AddFunc obj | DeleteFunc obj => [obj] | UpdateFunc oldObj newObj => [oldObj; newObj] end.

(** What informers promise: an event of one resource changes only what the
    lookups return at the keys, and under the index keys, of the objects it
    reports.  The objects of an update have the same key. *)
Record cache_step (i : informer) (n : notification) (c c' : Caches) : Prop := {
  cs_classes name :
    (i = gatewayClassInformer → ∀ gc, gatewayClassFromObject (reported n) = Some gc → Name (gc_meta gc) ≠ name) →
    gatewayClasses_Get c' name = gatewayClasses_Get c name;
  cs_gateways ns name :
    (i = gatewayInformer → ∀ g, gatewayFromObject (reported n) = Some g → meta_key (gw_meta g) ≠ mkNN ns name) →
    gateways_Get c' ns name = gateways_Get c ns name;
  cs_routes k :
    (i = routeInformer → ∀ o r, o ∈ objs n → routeFromObject o = Some r → k ∉ routeGatewayParentKeys r) →
    route_ByGateway c' k = route_ByGateway c k;
  cs_selectors k :
    (i = endpointSelectorInformer → ∀ s, endpointSelectorFromObject (reported n) = Some s →
       namespacedKey (unstructured_key s) ≠ k) →
    endpointSelector_GetByKey c' k = endpointSelector_GetByKey c k;
  cs_ips : i ≠ ipAddressInformer →
    ipAddresses_List c' = ipAddresses_List c ∧ ∀ k, ipAddress_ByGateway c' k = ipAddress_ByGateway c k;
  cs_cidrs : i ≠ serviceCIDRInformer → serviceCIDRs_List c' = serviceCIDRs_List c;
}.

(** A reported selector has a namespace and a name. *)
Definition selector_named (n : notification) : Prop :=
  ∀ s, endpointSelectorFromObject (reported n) = Some s →
    named (unstructured_key s) ∧ no_slash (nn_Namespace (unstructured_key s)).

(** The lookups of one cache agree with each other. *)
Record cache_consistent (c : Caches) : Prop := {
  cc_gateway ns name g :
    gateways_Get c ns name = Ok g → meta_key (gw_meta g) = mkNN ns name ∧ gateways_of c (GatewayClassName (gw_spec g)) g;
  cc_route k items r :
    route_ByGateway c k = Ok items → OTCPRoute r ∈ items →
    k ∈ routeGatewayParentKeys r ∧ no_slash (Namespace (rt_meta r)) ∧
    ∀ bk, bk ∈ routeBackendEndpointSelectorKeys r →
      ∃ items', route_ByBackendEndpointSelector c bk = Ok items' ∧ r ∈ items';
}.

(** ** What the evaluation reads *)

Section ext.
Context (now : Z) (c c' : Caches).

Lemma evaluate_backend_ext route ev :
  (∀ key, nn_Namespace key = Namespace (rt_meta route) →
     (named key → namespacedKey key ∈ routeBackendEndpointSelectorKeys route) →
     endpointSelector_GetByKey c' (namespacedKey key) = endpointSelector_GetByKey c (namespacedKey key)) →
  evaluate_backend c' route ev = evaluate_backend c route ev.
Proof.
  intros Hsel. unfold evaluate_backend. destruct (Rules route) as [|rule [|]] eqn:Hrules; try done.
  destruct (BackendRefs rule) as [|backend [|]] eqn:Hrefs; try done.
  destruct (_ || _) eqn:Hkind; [done|]. destruct (decide (_ ≠ Namespace (rt_meta route))) as [|Hns]; [done|]. destruct (br_Port backend); [|done].
  set (key := mkNN _ _). assert (getEndpointSelector c' key = getEndpointSelector c key) as ->; [|done].
  unfold getEndpointSelector. rewrite Hsel; [done|..].
  - simpl. by apply dec_stable in Hns.
  - intros [Hns' Hname]. apply backend_keys_collect. exists rule, backend.
    split; [rewrite Hrules; by left|]. split; [rewrite Hrefs; by left|]. split; [|done].
    apply orb_false_iff in Hkind as [Hg%bool_decide_eq_false Hk%bool_decide_eq_false].
    apply dec_stable in Hg, Hk. unfold isEndpointSelectorBackendRef.
    destruct (br_Group backend) as [g|]; simpl in Hg; [|done]. subst g. rewrite decide_False by done.
    rewrite Hk, !bool_decide_false by auto. simpl. unfold key in *. simpl in *. by rewrite !bool_decide_true.
Qed.

(** The routes' selectors are all the evaluation reads. *)
Lemma evaluateGateway_ext gateway cls routes :
  (∀ route ev, route ∈ routes → evaluate_backend c' route ev = evaluate_backend c route ev) →
  evaluateGateway now c' gateway cls routes = evaluateGateway now c gateway cls routes.
Proof.
  intros Hb. unfold evaluateGateway. destruct cls as [gc|]; [|done]. case_decide; [done|].
  destruct (negb _); [done|]. case_decide; [done|].
  assert (Hl : ∀ st l, evaluate_listener now c' gateway (Some gc) routes st l
                       = evaluate_listener now c gateway (Some gc) routes st l).
  { intros st l. unfold evaluate_listener.
    destruct (attachedRoutesForListener gateway l routes) as [|route [|]] eqn:Ha; try done.
    assert (Hin : route ∈ routes).
    { assert (H' : route ∈ attachedRoutesForListener gateway l routes) by (rewrite Ha; by left).
      by apply elem_of_attached in H' as [? _]. }
    unfold evaluateRoute. by rewrite Hb. }
  assert (∀ ls st, foldl (evaluate_listener now c' gateway (Some gc) routes) st ls
                   = foldl (evaluate_listener now c gateway (Some gc) routes) st ls) as ->; [|done].
  induction ls as [|l ls IH]; intros st; simpl; [done|]. by rewrite Hl, IH.
Qed.

End ext.

(** ** A Gateway that is not woken *)

Section gateway.
Context (now : Z) (i : informer) (n : notification) (c c' : Caches) (k : string).
Context (Hstep : cache_step i n c c') (Hcons : cache_consistent c') (Hnamed : selector_named n).
Context (Hasleep : ¬ woken c' n i runGatewayWorker k).

Lemma asleep_gateway : getGateway c' k = getGateway c k.
Proof.
  unfold getGateway. destruct (splitNamespacedKey k) as [nn|e] eqn:Hk; [|done]. simpl.
  apply splitNamespacedKey_ok in Hk as (-> & Hns & Hname & _). apply (cs_gateways _ _ _ _ Hstep).
  intros -> g Hg Hkey. apply Hasleep. apply (woken_gateway _ _ g); [done|]. left.
  rewrite Hkey. by destruct nn.
Qed.

(** What the caches after the event say of the Gateway. *)
Lemma asleep_found gateway :
  getGateway c' k = Ok gateway →
  named (meta_key (gw_meta gateway)) ∧ k = namespacedKey (meta_key (gw_meta gateway)) ∧
  gateways_of c' (GatewayClassName (gw_spec gateway)) gateway.
Proof.
  unfold getGateway. destruct (splitNamespacedKey k) as [nn|e] eqn:Hk; [|done]. simpl. intros Hg.
  apply splitNamespacedKey_ok in Hk as (-> & Hns & Hname & _).
  apply (cc_gateway _ Hcons) in Hg as [Hkey Hof]. rewrite Hkey. by destruct nn.
Qed.

Lemma asleep_class gateway :
  getGateway c' k = Ok gateway → GatewayClassName (gw_spec gateway) = gatewaymeta_GatewayClassName →
  getGatewayClass c' = getGatewayClass c ∧ i ≠ serviceCIDRInformer.
Proof.
  intros (Hn & Hk & Hof)%asleep_found Hcls. rewrite Hcls in Hof. split.
  - unfold getGatewayClass. rewrite (cs_classes _ _ _ _ Hstep); [done|]. intros -> gc Hgc Hname.
    apply Hasleep. apply (woken_class_gateway _ _ gc gateway); [done|by rewrite Hname|by left].
  - intros ->. apply Hasleep. apply (woken_cidr _ _ gateway); [done|by left].
Qed.

Lemma asleep_routes : route_ByGateway c' k = route_ByGateway c k.
Proof.
  apply (cs_routes _ _ _ _ Hstep). intros -> o r Ho Hr Hk. apply Hasleep.
  assert (Hnew : reported n = o → woken c' n routeInformer runGatewayWorker k).
  { intros <-. apply (woken_route _ _ r); [done|]. right. by left. }
  destruct n as [obj|oldObj newObj|obj]; simpl in Ho.
  - apply list_elem_of_singleton in Ho as ->. by apply Hnew.
  - apply list.elem_of_cons in Ho as [->|Ho].
    + apply (woken_old_route _ _ oldObj newObj r); [done..|]. by left.
    + apply list_elem_of_singleton in Ho as ->. by apply Hnew.
  - apply list_elem_of_singleton in Ho as ->. by apply Hnew.
Qed.

Lemma asleep_selectors items route ev :
  route_ByGateway c' k = Ok items → OTCPRoute route ∈ items →
  evaluate_backend c' route ev = evaluate_backend c route ev.
Proof.
  intros Hi Hin. destruct (cc_route _ Hcons _ _ _ Hi Hin) as (Hk & Hslash & Hback).
  apply evaluate_backend_ext. intros key Hns Hkeys. apply (cs_selectors _ _ _ _ Hstep). intros -> s Hs Heq.
  destruct (Hnamed s Hs) as [Hn Hs']. apply namespacedKey_inj in Heq; [|done|by rewrite Hns]. subst key.
  destruct (Hback _ (Hkeys Hn)) as (items' & Hi' & Hin'). apply Hasleep.
  apply (woken_selector_route _ _ s items' route); [done..|]. by right.
Qed.

Lemma asleep_reconcile : i ≠ ipAddressInformer → reconcileGateway now c' k = reconcileGateway now c k.
Proof.
  intros Hip. pose proof asleep_gateway as Hg. destruct (cs_ips _ _ _ _ Hstep Hip) as [Htaken Howned].
  unfold reconcileGateway. rewrite <-Hg. destruct (getGateway c' k) as [gateway|e] eqn:Hgw; [|done].
  assert (Ho : ∀ key, listOwnedGatewayIPAddresses c' key = listOwnedGatewayIPAddresses c key).
  { intros key. unfold listOwnedGatewayIPAddresses. by rewrite Howned. }
  assert (Hrel : releaseGatewayIPAddresses c' gateway = releaseGatewayIPAddresses c gateway).
  { unfold releaseGatewayIPAddresses. by rewrite Ho. }
  assert (Hclean : cleanupGatewayResources c' gateway = cleanupGatewayResources c gateway).
  { unfold cleanupGatewayResources. by rewrite Hrel. }
  unfold gatewayPreviouslyManaged. rewrite Hclean, Ho.
  case_decide as Hcls; [done|]. case_decide as Hdel; [done|].
  destruct (asleep_class gateway Hgw) as [Hc Hcidr]; [done|]. rewrite Hc.
  assert (Hv : ensureGatewayVIP c' gateway = ensureGatewayVIP c gateway).
  { unfold ensureGatewayVIP, listIPv4ServiceCIDRs, listTakenIPs. by rewrite Ho, Htaken, (cs_cidrs _ _ _ _ Hstep Hcidr). }
  rewrite Hv, Hrel. destruct (asleep_found gateway Hgw) as (_ & Hk & _).
  unfold listRoutesForGateway. rewrite <-Hk, asleep_routes.
  destruct (route_ByGateway c k) as [items|e] eqn:Hitems; simpl; [|done].
  rewrite <-asleep_routes in Hitems.
  assert (∀ cls routes, (∀ r, r ∈ routes → OTCPRoute r ∈ items) →
    evaluateGateway now c' gateway cls routes = evaluateGateway now c gateway cls routes) as Hev.
  { intros cls routes Hsub. apply evaluateGateway_ext. intros route ev Hin.
    eapply asleep_selectors; [exact Hitems|by apply Hsub]. }
  destruct (getGatewayClass c) as [cls|e]; simpl; [|done]. rewrite Hev; [done|].
  intros r (item & Hin & Hr)%list_elem_of_omap. destruct item; try done. by injection Hr as <-.
Qed.

End gateway.

(** C7. No wake-up of a Gateway is missed: after any event but one
    of an IPAddress, a Gateway whose key the handler has not put on the queue is
    reconciled exactly as before the event. *)
Theorem gateway_wakeups {Q} `{!WorkQueue Q} (view : Q → queue_view) `{!WorkQueueLaws view}
    now i n c c' k (qs qs' : Queues Q) :
  cache_step i n c c' → cache_consistent c' → selector_named n → i ≠ ipAddressInformer →
  registerHandlers i c' n qs = Some qs' → stopping (view (gatewayQueue qs)) = false →
  k ∉ waiting (view (gatewayQueue qs')) →
  reconcileGateway now c' k = reconcileGateway now c k.
Proof.
  intros Hstep Hcons Hnamed Hip Hh Hstop Hk. eapply asleep_reconcile; [done..| |done].
  intros Hw. apply Hk. destruct (handlers_grow view _ _ _ _ _ Hh runGatewayWorker) as (_ & _ & _ & Hg).
  apply Hg. by right.
Qed.

End wakeups.

(** ** In-memory caches *)

Lemma find_or_ok {A} what (p : A → bool) l x : find_or what p l = Ok x → x ∈ l ∧ p x = true.
Proof.
  unfold find_or. destruct (filter _ l) as [|y ys] eqn:E; [done|]. intros [= <-].
  assert (H : y ∈ filter (λ x, p x = true) l) by (rewrite E; by left). apply list_elem_of_filter in H as [? ?]. done.
Qed.

Lemma by_index_elem {A} (inj : A → object) index objs key x :
  (∃ items, by_index inj index objs key = Ok items ∧ x ∈ items) ↔ x ∈ objs ∧ key ∈ default [] (index (inj x)).
Proof.
  unfold by_index. split.
  - intros (items & [= <-] & [Hk%bool_decide_eq_true Hin]%list_elem_of_filter). done.
  - intros [Hin Hk]. eexists. split; [done|]. apply list_elem_of_filter. by rewrite bool_decide_eq_true.
Qed.

(** The in-memory caches agree with themselves. *)
Lemma caches_of_consistent st :
  (∀ r, r ∈ st_routes st → no_slash (Namespace (rt_meta r))) → cache_consistent (caches_of st).
Proof.
  intros Hslash. constructor; simpl.
  - intros ns name g [Hin Hat]%find_or_ok. apply bool_decide_eq_true in Hat as [<- <-]. split; [done|].
    apply by_index_elem. split; [done|]. by left.
  - intros k items r Hi Hin.
    destruct (proj1 (by_index_elem id indexRouteByGateway (map OTCPRoute (st_routes st)) k (OTCPRoute r)))
      as [Hr Hk]; [by exists items|].
    apply list_elem_of_fmap in Hr as (r' & [= <-] & Hr). split; [done|]. split; [by apply Hslash|].
    intros bk Hbk. by apply by_index_elem.
Qed.

(** A route appears: what changes is what its keys index. *)
Lemma route_added_step st st' r :
  st_classes st' = st_classes st → st_gateways st' = st_gateways st → st_selectors st' = st_selectors st →
  st_ips st' = st_ips st → st_cidrs st' = st_cidrs st → st_routes st' = st_routes st ++ [r] →
  cache_step routeInformer (AddFunc (OTCPRoute r)) (caches_of st) (caches_of st').
Proof.
  intros Hc Hg Hs Hi Hcidr Hr. constructor; simpl; rewrite ?Hc, ?Hg, ?Hs, ?Hi, ?Hcidr, ?Hr; try done.
  intros k Hk. unfold by_index. f_equal. rewrite map_app, list.filter_app. simpl.
  rewrite filter_cons, filter_nil, bool_decide_false, decide_False, app_nil_r; [done|done|].
  by apply (Hk eq_refl (OTCPRoute r) r); [left|].
Qed.

(** ** Worked examples *)

(** A route of another Gateway appears. *)
Definition other_route : TCPRoute :=
  mkTCPRoute (demo_meta "default" "other") [mkParentRef None None None "b" None None] [] [].

Definition with_route (st : Store) (r : TCPRoute) : Store :=
  mkStore (st_classes st) (st_gateways st) (st_routes st ++ [r]) (st_selectors st) (st_pods st) (st_slices st)
    (st_ips st) (st_cidrs st).

Definition quiet_queues : Queues ref_queue := mkQueues (q_New "") (q_New "") (q_New "") (q_New "").

Definition demo_store : Store := route_store (demo_gateway "a") demo_route.

(** A route of Gateway "b" wakes "b" and not "a". *)
Lemma handlers_enqueue_witness :
  ∃ qs', registerHandlers routeInformer (caches_of demo_store) (AddFunc (OTCPRoute other_route)) quiet_queues = Some qs' ∧
    "default/b" ∈ waiting (ref_view (gatewayQueue qs')) ∧
    ¬ woken (caches_of demo_store) (AddFunc (OTCPRoute other_route)) routeInformer runGatewayWorker "default/a".
Proof.
  eexists. split; [reflexivity|].
  pose proof (λ k, handlers_enqueue ref_view routeInformer (caches_of demo_store) (AddFunc (OTCPRoute other_route))
    quiet_queues _ runGatewayWorker k eq_refl eq_refl) as H. split.
  - apply (proj2 (H "default/b")). right. apply (woken_route _ _ other_route); [reflexivity|]. right. left.
    split; [reflexivity|]. apply (bool_decide_unpack _). vm_compute. exact I.
  - intros Hw. pose proof (proj2 (H "default/a") (or_intror Hw)) as Hk. revert Hk.
    apply (bool_decide_unpack _). vm_compute. exact I.
Defined.

Lemma gateway_wakeups_witness :
  reconcileGateway 0 (caches_of (with_route demo_store other_route)) "default/a"
  = reconcileGateway 0 (caches_of demo_store) "default/a".
Proof.
  eapply (gateway_wakeups ref_view 0 routeInformer (AddFunc (OTCPRoute other_route)) (caches_of demo_store)
    (caches_of (with_route demo_store other_route)) "default/a" quiet_queues).
  - apply route_added_step; reflexivity.
  - apply caches_of_consistent. intros r [->|[->|[]%elem_of_nil]%list.elem_of_cons]%list.elem_of_cons; reflexivity.
  - intros s. discriminate.
  - discriminate.
  - reflexivity.
  - reflexivity.
  - apply (bool_decide_unpack _). vm_compute. exact I.
Defined.

(** ** A wake-up that is missed

    The route reconciler counts the routes attached to a listener, but a new
    route wakes the other routes only through a change of the Gateway's status.
    A Gateway rejected for its [spec.addresses] shows no counts, so nothing of
    its status changes. *)

Definition addressed_gateway : Gateway :=
  let g := with_finalizers (demo_gateway "a") [controllerFinalizer] in
  mkGateway (gw_meta g)
    (mkGatewaySpec (GatewayClassName (gw_spec g)) (Listeners (gw_spec g)) [mkStatusAddress (Some IPAddressType) "10.96.0.3"])
    (gw_status g).

(** Its status, and that of its only route, have been written. *)
Definition rejected_gateway : Gateway :=
  with_status addressed_gateway
    (evaluated_status 5 addressed_gateway
       (evaluateGateway 5 (caches_of demo_store) addressed_gateway (Some demo_class) [demo_route])).

Definition settled_route : TCPRoute :=
  let c := caches_of (route_store addressed_gateway demo_route) in
  match desired_parents 5 c demo_route [demo_parent] with
  | Ok ps => with_parents demo_route (mergeRouteParents [] ps)
  | Err _ => demo_route
  end.

(** The statuses a program writes for a route. *)
Definition route_writes {A} (p : prog A) : list TCPRoute :=
  match p with Call (TCPRouteUpdateStatus _ o) _ => [o] | _ => [] end.

(** A second route on the same listener, for another backend. *)
Definition rival_route : TCPRoute :=
  mkTCPRoute (demo_meta "default" "rival") (ParentRefs demo_route)
    [mkRule [mkBackendRef (Some endpointSelectorAPIGroup) None "other" None (Some 8080)]] [].

Definition settled_store : Store :=
  mkStore [demo_class] [rejected_gateway] [settled_route] [accepted_selector] []
    [desiredEndpointSlice accepted_selector rejected_gateway "tcp" 8080 []] [] [demo_cidr "10.96.0.0/29"].

(** The store with the second route as [r]. *)
Definition joined_caches (r : TCPRoute) : Caches := caches_of (with_route settled_store r).

Definition written_rival : TCPRoute :=
  default rival_route (head (route_writes (reconcileRoute 7 (joined_caches rival_route) "default/rival"))).

(** A route's Accepted conditions, parent by parent. *)
Definition accepted_statuses (r : TCPRoute) : list ConditionStatus :=
  Parents r ≫= λ ps, c_Status <$> filter (λ d, c_Type d = TypeAccepted) (rps_Conditions ps).

(** The keys an event puts on empty queues: classes, Gateways, routes, selectors. *)
Definition awake (c : Caches) (i : informer) (n : notification) : option (list (list string)) :=
  qs ← registerHandlers i c n quiet_queues;
  Some (rq_keys <$> [gatewayClassQueue qs; gatewayQueue qs; routeQueue qs; endpointSelectorQueue qs]).

(** No request is left to make. *)
Definition settled (now : Z) (c : Caches) (wk : worker) (k : string) : Prop :=
  reconcile wk now (λ m, (map_to_list m).*2) c k = Ret (Ok tt).

#[local] Ltac settle := apply finished_ret; vm_compute; reflexivity.

(** What both events of the second route wake. *)
Definition rival_wakes : list (list string) := [[]; ["default/a"]; ["default/rival"]; ["default/other"]].

(** C28. A Gateway, its route and the route's selector are
    settled, and the route is accepted. A second route attaches to the same
    listener: its event wakes that route, the Gateway and the second route's
    selector; of these only the second route writes, its own status, refused; the
    event of that write wakes the same three, and none has anything left to do.
    No further event comes, yet reconciling the first route would withdraw its
    acceptance: it keeps a stale status until the periodic resync. *)
Theorem route_wakeup_missed :
  let c := caches_of settled_store in
  let c1 := joined_caches rival_route in
  let c2 := joined_caches written_rival in
  let added := AddFunc (OTCPRoute rival_route) in
  let updated := UpdateFunc (OTCPRoute rival_route) (OTCPRoute written_rival) in
  (settled 7 c runGatewayWorker "default/a" ∧ settled 7 c runRouteWorker "default/r" ∧
   settled 7 c runEndpointSelectorWorker "default/sel" ∧ accepted_statuses settled_route = ["True"]) ∧
  (cache_step routeInformer added c c1 ∧ awake c1 routeInformer added = Some rival_wakes ∧
   settled 8 c1 runGatewayWorker "default/a" ∧ settled 8 c1 runEndpointSelectorWorker "default/other" ∧
   accepted_statuses written_rival = ["False"]) ∧
  (awake c2 routeInformer updated = Some rival_wakes ∧
   settled 9 c2 runGatewayWorker "default/a" ∧ settled 9 c2 runRouteWorker "default/rival" ∧
   settled 9 c2 runEndpointSelectorWorker "default/other") ∧
  accepted_statuses <$> route_writes (reconcileRoute 9 c2 "default/r") = [["False"]].
Proof.
  assert (Hstep : cache_step routeInformer (AddFunc (OTCPRoute rival_route)) (caches_of settled_store)
    (joined_caches rival_route)) by (apply route_added_step; reflexivity).
  split; [split_and!; [settle..|vm_compute; reflexivity]|].
  split; [split; [exact Hstep|split_and!; [vm_compute; reflexivity|settle..|vm_compute; reflexivity]]|].
  split; [split_and!; [vm_compute; reflexivity|settle..]|vm_compute; reflexivity].
Qed.

(** ** A freed address

    An allocation that fails is reported in the Gateway's status and is not an
    error of the reconcile, so the queue does not retry it. *)

(** Both allocatable addresses of the range belong to Gateway "b". *)
Definition starved_store (gateway : Gateway) (ips : list IPAddress) : Store :=
  mkStore [demo_class] [gateway] [demo_route] [accepted_selector] [] [] ips [demo_cidr "10.96.0.0/30"].

Definition taken_ips : list IPAddress := [demo_ip "b" "10.96.0.1"; demo_ip "b" "10.96.0.2"].

Definition starved_gateway : Gateway :=
  let c := caches_of (starved_store served_gateway taken_ips) in
  with_status served_gateway
    (evaluated_status 5 served_gateway
       (with_vip 5 served_gateway
          (evaluateGateway 5 c served_gateway (Some demo_class) [demo_route]) (Err all_allocated))).

Definition claims {A} (p : prog A) : list string :=
  match p with Call (IPAddressCreate o) _ => [Name (ip_meta o)] | _ => [] end.

(** C31. Gateway "a" is settled without an address.  One of the addresses is freed:
    the event wakes the Gateway that held it, not "a", whose reconcile would now
    claim it. *)
Theorem freed_address_missed :
  let c := caches_of (starved_store starved_gateway taken_ips) in
  let c' := caches_of (starved_store starved_gateway [demo_ip "b" "10.96.0.1"]) in
  settled 7 c runGatewayWorker "default/a" ∧
  awake c' ipAddressInformer (DeleteFunc (OIPAddress (demo_ip "b" "10.96.0.2"))) = Some [[]; ["default/b"]; []; []] ∧
  claims (reconcileGateway 7 c' "default/a") = ["10.96.0.2"].
Proof. split; [settle|split; vm_compute; reflexivity]. Qed.
