(* ===== verification/SelectorWakeup.v ===== *)
(** * No wake-up of a selector is missed

    The same as [WakeupSpec] for XEndpointSelectors, with the two exceptions:
    a route that comes to share a Gateway with one of the selector's, and an
    EndpointSlice of the selector whose labels no longer say so. *)

From S2P Require Import Prelude KubeTypes Api Indexers Status Ipam Listeners Selector Route RouteSpec Gateway.
From S2P Require Import GatewayProps Slices SliceSpec Workqueue Handlers Workers HandlersSpec WakeupSpec Reference IpamSpec.
From S2P Require Import Trackers.

Section wakeups.
Context `{API : !ApiMachinery}.

(** What informers promise of the lookups that only the selectors' worker uses. *)
Record selector_step (i : informer) (n : notification) (c c' : Caches) : Prop := {
  ss_step : cache_step i n c c';
  ss_backends k :
    (i = routeInformer → ∀ o r, o ∈ objs n → routeFromObject o = Some r → k ∉ routeBackendEndpointSelectorKeys r) →
    route_ByBackendEndpointSelector c' k = route_ByBackendEndpointSelector c k;
  ss_pods ns :
    (i = podInformer → ∀ pod, podFromObject (reported n) = Some pod → Namespace (pod_meta pod) ≠ ns) →
    pods_List c' ns = pods_List c ns;
  ss_slices k :
    (i = endpointSliceInformer → ∀ o es, o ∈ objs n → endpointSliceFromObject o = Some es →
       endpointSelectorKeyForEndpointSlice es ≠ k) →
    endpointSlice_ByEndpointSelector c' k = endpointSlice_ByEndpointSelector c k;
}.

(** The lookups agree with each other. *)
Record selectors_consistent (c : Caches) : Prop := {
  sc_base : cache_consistent c;
  sc_selector k u selector :
    endpointSelector_GetByKey c k = Ok (Some u) → endpointSelectorFromUnstructured u = Ok selector →
    unstructured_key u = meta_key (xs_meta selector) ∧ no_slash (Namespace (xs_meta selector)) ∧
    namespacedKey (unstructured_key u) = k ∧
    ∃ items, endpointSelector_ByNamespace c (Namespace (xs_meta selector)) = Ok items ∧ u ∈ items;
  sc_route k items r :
    route_ByBackendEndpointSelector c k = Ok items → r ∈ items →
    k ∈ routeBackendEndpointSelectorKeys r ∧ no_slash (Namespace (rt_meta r)) ∧
    ∀ pk, pk ∈ routeGatewayParentKeys r → ∃ items', route_ByGateway c pk = Ok items' ∧ OTCPRoute r ∈ items';
}.

(** No route of the event shares a Gateway with a route of the selector. *)
Definition routes_apart (i : informer) (n : notification) (c : Caches) (k : string) : Prop :=
  i = routeInformer → ∀ o r items r', o ∈ objs n → routeFromObject o = Some r →
    route_ByBackendEndpointSelector c k = Ok items → r' ∈ items →
    ∀ pk, pk ∈ routeGatewayParentKeys r → pk ∉ routeGatewayParentKeys r'.

(** A slice of the selector [k] is still its own after the event. *)
Definition slice_kept (n : notification) (k : string) : Prop :=
  ∀ o es, o ∈ objs n → endpointSliceFromObject o = Some es → endpointSelectorKeyForEndpointSlice es = k →
    ∃ es', endpointSliceFromObject (reported n) = Some es' ∧ endpointSelectorKeyForEndpointSlice es' = k.

(** ** What a binding reads *)

Section ext.
Context (now : Z) (c c' : Caches).

(** The Gateway a parent reference names. *)
Definition parent_gateway (route : TCPRoute) (parent : ParentReference) (c : Caches) : result Gateway :=
  gateways_Get c (non_empty_or (Namespace (rt_meta route)) (pr_Namespace parent)) (pr_Name parent).

Lemma binding_loop_ext route port parents :
  (∀ parent, parent ∈ parents → isGatewayParentRef parent = true →
     parent_gateway route parent c' = parent_gateway route parent c ∧
     ∀ g, parent_gateway route parent c' = Ok g → GatewayClassName (gw_spec g) = gatewaymeta_GatewayClassName →
       getGatewayClass c' = getGatewayClass c ∧
       route_ByGateway c' (namespacedKey (meta_key (gw_meta g))) = route_ByGateway c (namespacedKey (meta_key (gw_meta g)))) →
  (∀ ev, evaluate_backend c' route ev = evaluate_backend c route ev) →
  binding_loop now c' route port parents = binding_loop now c route port parents.
Proof.
  intros Hp Hb. induction parents as [|parent parents IH]; [done|].
  assert (IH' : binding_loop now c' route port parents = binding_loop now c route port parents)
    by (apply IH; intros p Hin; apply Hp; by right).
  simpl. destruct (isGatewayParentRef parent) eqn:Hk; simpl; [|done].
  destruct (Hp parent) as [Hg Hcls]; [by left|done|]. unfold parent_gateway in *. rewrite <-Hg.
  destruct (gateways_Get c' _ _) as [gateway|e] eqn:Hget; [|by rewrite IH'].
  destruct (decide (_ ≠ gatewaymeta_GatewayClassName)) as [|Hours]; [done|]. apply dec_stable in Hours.
  destruct (Hcls gateway eq_refl Hours) as [-> Hr]. unfold listRoutesForGateway. rewrite Hr.
  destruct (getGatewayClass c) as [cls|e]; simpl; [|done].
  destruct (route_ByGateway c _) as [items|e]; simpl; [|done].
  unfold evaluateRoute. rewrite Hb. by rewrite IH'.
Qed.

End ext.

(** ** A route of a sleeper

    When an event does not wake [k], which every Gateway of [route] would wake,
    the Gateways of [route] are as they were. *)

Section parents.
Context (i : informer) (n : notification) (c c' : Caches) (wk : worker) (k : string) (route : TCPRoute).
Context (Hcs : cache_step i n c c') (Hcons : cache_consistent c') (Hasleep : ¬ woken c' n i wk k).
Context (Hwakes : ∀ key, namespacedKey key ∈ routeGatewayParentKeys route → gateway_routes c' key wk k).
Context (Hapart : i = routeInformer → ∀ o r, o ∈ objs n → routeFromObject o = Some r →
                  ∀ pk, pk ∈ routeGatewayParentKeys r → pk ∉ routeGatewayParentKeys route).

Lemma asleep_parent parent :
  parent ∈ ParentRefs route → isGatewayParentRef parent = true →
  parent_gateway route parent c' = parent_gateway route parent c ∧
  ∀ g, parent_gateway route parent c' = Ok g → GatewayClassName (gw_spec g) = gatewaymeta_GatewayClassName →
    getGatewayClass c' = getGatewayClass c ∧
    route_ByGateway c' (namespacedKey (meta_key (gw_meta g))) = route_ByGateway c (namespacedKey (meta_key (gw_meta g))).
Proof.
  intros Hp Hkind.
  set (key := mkNN (non_empty_or (Namespace (rt_meta route)) (pr_Namespace parent)) (pr_Name parent)).
  assert (Hpk : namespacedKey key ∈ routeGatewayParentKeys route).
  { apply elem_of_routeGatewayParentKeys. by exists parent. }
  split.
  - apply (cs_gateways _ _ _ _ Hcs). intros -> g Hg Hkey. apply Hasleep.
    apply (woken_gateway _ _ g); [done|]. right. rewrite Hkey. by apply Hwakes.
  - intros g Hg Hours. apply (cc_gateway _ Hcons) in Hg as [Hkey Hof].
    rewrite Hours in Hof. rewrite Hkey. split.
    + unfold getGatewayClass. rewrite (cs_classes _ _ _ _ Hcs); [done|]. intros -> gc Hgc Hname. apply Hasleep.
      apply (woken_class_gateway _ _ gc g); [done|by rewrite Hname|]. right. rewrite Hkey. by apply Hwakes.
    + apply (cs_routes _ _ _ _ Hcs). intros Hi o r Ho Hr Hin. by apply (Hapart Hi o r Ho Hr _ Hin).
Qed.

End parents.

(** ** A selector that is not woken *)

Section selector.
Context (now : Z) (i : informer) (n : notification) (c c' : Caches) (nn : NamespacedName).
Let k : string := namespacedKey nn.
Context (Hnn : named nn) (Hslash : no_slash (nn_Namespace nn)).
Context (Hstep : selector_step i n c c') (Hcons : selectors_consistent c') (Hnamed : selector_named n).
Context (Hapart : routes_apart i n c' k) (Hkept : slice_kept n k).
Context (Hasleep : ¬ woken c' n i runEndpointSelectorWorker k).
Let Hcs : cache_step i n c c' := ss_step _ _ _ _ Hstep.

Lemma asleep_selector_object key :
  no_slash (nn_Namespace key) → (named key → namespacedKey key = k) →
  endpointSelector_GetByKey c' (namespacedKey key) = endpointSelector_GetByKey c (namespacedKey key).
Proof.
  intros Hsl Hkey. apply (cs_selectors _ _ _ _ Hcs). intros -> s Hs Heq. destruct (Hnamed s Hs) as [Hn Hs'].
  apply namespacedKey_inj in Heq; [|done|done]. subst key. apply Hasleep. rewrite <-(Hkey Hn).
  by apply (woken_selector _ _ s).
Qed.

Lemma asleep_getEndpointSelector : getEndpointSelector c' nn = getEndpointSelector c nn.
Proof. unfold getEndpointSelector. by rewrite asleep_selector_object. Qed.

(** A reported route would wake the selectors it refers to. *)
Lemma asleep_backends : route_ByBackendEndpointSelector c' k = route_ByBackendEndpointSelector c k.
Proof.
  apply (ss_backends _ _ _ _ Hstep). intros -> o r Ho Hr Hk. apply Hasleep.
  assert (Hnew : reported n = o → woken c' n routeInformer runEndpointSelectorWorker k).
  { intros <-. apply (woken_route _ _ r); [done|]. right. by right. }
  destruct n as [obj|oldObj newObj|obj]; simpl in Ho.
  - apply list_elem_of_singleton in Ho as ->. by apply Hnew.
  - apply list.elem_of_cons in Ho as [->|Ho].
    + apply (woken_old_route _ _ oldObj newObj r); [done..|]. by right.
    + apply list_elem_of_singleton in Ho as ->. by apply Hnew.
  - apply list_elem_of_singleton in Ho as ->. by apply Hnew.
Qed.

Lemma asleep_slices : listManagedEndpointSlices c' nn = listManagedEndpointSlices c nn.
Proof.
  apply (ss_slices _ _ _ _ Hstep). intros -> o es Ho Hes Hkey. apply Hasleep.
  destruct (Hkept o es Ho Hes Hkey) as (es' & Hes' & Heq).
  rewrite <-Heq. apply woken_slice; [done|]. rewrite Heq. unfold k, namespacedKey. intros Hempty.
  destruct Hnn as [Hns _]. by destruct (nn_Namespace nn).
Qed.

Lemma asleep_key selector u :
  endpointSelector_GetByKey c' k = Ok (Some u) → endpointSelectorFromUnstructured u = Ok selector →
  unstructured_key u = nn ∧ meta_key (xs_meta selector) = nn.
Proof.
  intros Hu Hsel. destruct (sc_selector _ Hcons _ _ _ Hu Hsel) as (Hkey & Hsl & Hk & _).
  apply namespacedKey_inj in Hk; [by rewrite <-Hkey|by rewrite Hkey|done].
Qed.

(** A pod of the selector's namespace would wake it. *)
Lemma asleep_pods selector :
  getEndpointSelector c' nn = Ok selector →
  meta_key (xs_meta selector) = nn ∧
  pods_List c' (Namespace (xs_meta selector)) = pods_List c (Namespace (xs_meta selector)).
Proof.
  unfold getEndpointSelector. intros ([u|] & Hu & Hsel)%result_bind_ok; [|done].
  destruct (asleep_key _ _ Hu Hsel) as [Hun Hmeta]. split; [done|].
  destruct (sc_selector _ Hcons _ _ _ Hu Hsel) as (_ & _ & _ & items & Hitems & Hin).
  apply (ss_pods _ _ _ _ Hstep). intros -> pod Hpod Hns. apply Hasleep.
  apply (woken_pod _ _ pod items u); [done| |by rewrite Hns|done|].
  - rewrite Hns. change (nn_Namespace (meta_key (xs_meta selector)) ≠ ""). rewrite Hmeta. apply Hnn.
  - rewrite Hun. by split.
Qed.

(** What wakes the Gateways of the selector's routes wakes the selector. *)
Section route.
Context (items : list TCPRoute) (route : TCPRoute).
Context (Hitems : route_ByBackendEndpointSelector c' k = Ok items) (Hroute : route ∈ items).

Lemma gateway_wakes key :
  namespacedKey key ∈ routeGatewayParentKeys route → gateway_routes c' key runEndpointSelectorWorker k.
Proof.
  intros Hkey. destruct (sc_route _ Hcons _ _ _ Hitems Hroute) as (Hk & _ & Hp).
  destruct (Hp _ Hkey) as (items' & Hi' & Hin'). exists route. split; [|by right].
  by exists items', (OTCPRoute route).
Qed.

Lemma asleep_binding selector :
  meta_key (xs_meta selector) = nn →
  gatewayBindingForRoute now c' selector route = gatewayBindingForRoute now c selector route.
Proof.
  intros Hmeta. unfold gatewayBindingForRoute. destruct (Rules route) as [|rule [|]] eqn:Hrules; try done.
  destruct (BackendRefs rule) as [|backend [|]] eqn:Hrefs; try done.
  destruct (negb _); [done|]. destruct (_ || _) eqn:Hof; [done|]. destruct (br_Port backend) as [port|]; [|done].
  apply orb_false_iff in Hof as [Hbn%bool_decide_eq_false Hbm%bool_decide_eq_false]. apply dec_stable in Hbn, Hbm.
  destruct (sc_route _ Hcons _ _ _ Hitems Hroute) as (_ & Hsl & _).
  apply binding_loop_ext.
  { apply (asleep_parent i n c c' runEndpointSelectorWorker k route Hcs (sc_base _ Hcons) Hasleep gateway_wakes).
    intros Hi o r Ho Hr pk Hpk. by apply (Hapart Hi o r items route Ho Hr Hitems Hroute _ Hpk). } intros ev. apply evaluate_backend_ext. intros key Hns Hkeys.
  apply asleep_selector_object; [by rewrite Hns|]. intros Hn.
  destruct (proj1 (proj2 (backend_keys_collect route) _) (Hkeys Hn)) as (rule' & backend' & Hr' & Hb' & _ & ->).
  rewrite Hrules in Hr'. apply list_elem_of_singleton in Hr' as ->.
  rewrite Hrefs in Hb'. apply list_elem_of_singleton in Hb' as ->.
  unfold backend_key, k. f_equal. rewrite <-Hmeta. unfold meta_key. by rewrite Hbn, Hbm.
Qed.

End route.

Lemma collect_bindings_ext selector rs seen bindings :
  (∀ r, r ∈ rs → gatewayBindingForRoute now c' selector r = gatewayBindingForRoute now c selector r) →
  collect_bindings now c' selector rs seen bindings = collect_bindings now c selector rs seen bindings.
Proof.
  revert seen bindings. induction rs as [|r rs IH]; intros seen bindings Hrs; [done|]. simpl.
  rewrite (Hrs r) by by left. destruct (gatewayBindingForRoute now c selector r) as [[b|]|e]; simpl; [|apply IH; set_solver|done].
  case_decide; apply IH; set_solver.
Qed.

Lemma asleep_bindings selector :
  meta_key (xs_meta selector) = nn →
  listReferencedGatewayBindings now c' selector = listReferencedGatewayBindings now c selector.
Proof.
  intros Hmeta. unfold listReferencedGatewayBindings. rewrite Hmeta. fold k. rewrite <-asleep_backends.
  destruct (route_ByBackendEndpointSelector c' k) as [items|e] eqn:Hitems; simpl; [|done].
  rewrite collect_bindings_ext; [done|]. intros r Hr. by eapply asleep_binding.
Qed.

Lemma asleep_reconcile_selector range :
  reconcileEndpointSelector now range c' k = reconcileEndpointSelector now range c k.
Proof.
  unfold reconcileEndpointSelector. destruct (splitNamespacedKey k) as [nn'|e] eqn:Hk; [|done]. simpl.
  assert (nn' = nn) as ->.
  { apply splitNamespacedKey_ok in Hk as (Hk & _ & _ & Hs & _). by apply namespacedKey_inj in Hk. }
  rewrite <-asleep_getEndpointSelector. unfold deleteManagedEndpointSlices. rewrite asleep_slices.
  destruct (getEndpointSelector c' nn) as [selector|e] eqn:Hsel; [|done].
  destruct (asleep_pods _ Hsel) as [Hmeta Hpods]. unfold buildEndpointSliceEndpoints.
  by rewrite Hpods, asleep_bindings.
Qed.

End selector.

(** C8. No wake-up of a selector is missed: after any event whose
    routes share no Gateway with the selector's, and which is no update that takes
    from one of the selector's slices the labels that name the selector, a
    selector whose key the handler has not put on the queue is reconciled exactly
    as before the event. *)
Theorem selector_wakeups {Q} `{!WorkQueue Q} (view : Q → queue_view) `{!WorkQueueLaws view}
    now range i n c c' nn (qs qs' : Queues Q) :
  let k := namespacedKey nn in
  named nn → no_slash (nn_Namespace nn) →
  selector_step i n c c' → selectors_consistent c' → selector_named n →
  routes_apart i n c' k → slice_kept n k →
  registerHandlers i c' n qs = Some qs' → stopping (view (endpointSelectorQueue qs)) = false →
  k ∉ waiting (view (endpointSelectorQueue qs')) →
  reconcileEndpointSelector now range c' k = reconcileEndpointSelector now range c k.
Proof.
  intros k Hnn Hsl Hstep Hcons Hnamed Hapart Hkept Hh Hstop Hk. eapply asleep_reconcile_selector; [done..|].
  intros Hw. apply Hk. destruct (handlers_grow view _ _ _ _ _ Hh runEndpointSelectorWorker) as (_ & _ & _ & Hg).
  apply Hg. by right.
Qed.

End wakeups.

(** ** In-memory caches *)

Lemma caches_of_selectors_consistent st :
  (∀ r, r ∈ st_routes st → no_slash (Namespace (rt_meta r))) →
  (∀ s, s ∈ st_selectors st → no_slash (Namespace (xs_meta s))) →
  selectors_consistent (caches_of st).
Proof.
  intros Hr Hs. constructor; [by apply caches_of_consistent|..]; simpl.
  - intros k u selector [= Hu] [= <-]. assert (Hin : u ∈ filter (λ s, namespacedKey (meta_key (xs_meta s)) = k) (st_selectors st)).
    { destruct (filter _ _); [done|]. injection Hu as ->. by left. }
    apply list_elem_of_filter in Hin as [Hk Hin]. split_and!; [done|by apply Hs|done|].
    eexists. split; [done|]. by apply list_elem_of_filter.
  - intros k items r Hi Hin.
    destruct (proj1 (by_index_elem OTCPRoute indexRouteByBackendEndpointSelector (st_routes st) k r)) as [Hr' Hk];
      [by exists items|]. split; [done|]. split; [by apply Hr|].
    intros pk Hpk. apply by_index_elem. split; [|done]. by apply list_elem_of_fmap_2.
Qed.

(** ** Worked example: a pod of another namespace *)

Definition with_pod (st : Store) (pod : Pod) : Store :=
  mkStore (st_classes st) (st_gateways st) (st_routes st) (st_selectors st) (st_pods st ++ [pod]) (st_slices st)
    (st_ips st) (st_cidrs st).

Lemma pod_added_step st pod :
  selector_step podInformer (AddFunc (OPod pod)) (caches_of st) (caches_of (with_pod st pod)).
Proof.
  constructor; [by constructor|done| |done]. intros ns Hns. simpl. rewrite list.filter_app, filter_cons, filter_nil.
  rewrite decide_False, app_nil_r; [done|]. by apply (Hns eq_refl pod).
Qed.

Definition selector_store : Store :=
  slice_store accepted_selector demo_pods [binding_slice accepted_selector demo_endpoints demo_binding].

Definition foreign_pod : Pod :=
  mkPod (mkMeta "kube-system" "dns" "uid" 1 None {["app" := "web"]} [] []) "node1" "10.0.0.9" [].

Lemma selector_wakeups_witness :
  reconcileEndpointSelector 9 demo_range (caches_of (with_pod selector_store foreign_pod)) "default/sel"
  = reconcileEndpointSelector 9 demo_range (caches_of selector_store) "default/sel".
Proof.
  eapply (selector_wakeups ref_view 9 demo_range podInformer (AddFunc (OPod foreign_pod)) (caches_of selector_store)
    (caches_of (with_pod selector_store foreign_pod)) (mkNN "default" "sel") quiet_queues).
  - split; discriminate.
  - reflexivity.
  - apply pod_added_step.
  - apply caches_of_selectors_consistent.
    + intros r ->%list_elem_of_singleton. reflexivity.
    + intros r ->%list_elem_of_singleton. reflexivity.
  - intros s. discriminate.
  - discriminate.
  - intros o es ->%list_elem_of_singleton. discriminate.
  - reflexivity.
  - reflexivity.
  - apply (bool_decide_unpack _). vm_compute. exact I.
Defined.

(** ** A slice that loses its labels

    The handler of a slice's update looks at the new object only. *)

Definition wanted_slice : EndpointSlice := binding_slice accepted_selector demo_endpoints demo_binding.

Definition stripped_slice : EndpointSlice :=
  let m := es_meta wanted_slice in
  mkEndpointSlice
    (mkMeta (Namespace m) (Name m) (UID m) (Generation m) (DeletionTimestamp m) ∅ (Finalizers m) (OwnerReferences m))
    (es_AddressType wanted_slice) (es_Ports wanted_slice) (es_Endpoints wanted_slice).

(** Reconciling the selector against a server that holds [es]. *)
Definition reconciled (c : Caches) (es : EndpointSlice) : result unit * Server :=
  exec ref_handle (reconcileEndpointSelector 9 demo_range c "default/sel") (slice_server [es]).

(** C30. A selector is settled with its slice in place; then
    someone removes the slice's labels.  The event wakes nobody, and the agents,
    for which the slice belonged to a frontend, no longer read it.  When the selector is reconciled at last, its slice
    is missing from the index, so it is created again, which fails as the name is
    taken, and leaves the server's slices as they were: a retry fails again. *)
Theorem slice_wakeup_missed :
  let c := caches_of selector_store in
  let c' := caches_of (slice_store accepted_selector demo_pods [stripped_slice]) in
  settled 9 c runEndpointSelectorWorker "default/sel" ∧
  awake c' endpointSliceInformer (UpdateFunc (OEndpointSlice wanted_slice) (OEndpointSlice stripped_slice))
    = Some [[]; []; []; []] ∧
  (is_Some (frontendKeyForEndpointSlice (Some wanted_slice)) ∧ frontendKeyForEndpointSlice (Some stripped_slice) = None) ∧
  (match (reconciled c' stripped_slice).1 with Err e => IsAlreadyExists e | Ok _ => false end) = true ∧
  map_to_list (srv_slices (reconciled c' stripped_slice).2) = [(mkNN "default" "a-tcp", stripped_slice)].
Proof. 
  split; [apply finished_ret; vm_compute; reflexivity|]. split; [vm_compute; reflexivity|].
  split; [split; [by eexists|reflexivity]|]. split; vm_compute; reflexivity.
Qed.
