(* ===== verification/RouteWakeup.v ===== *)
(** * No wake-up of a route is missed

    The same as [SelectorWakeup] for TCPRoutes, with the exception that
    [route_wakeup_missed] shows: another route of one of its Gateways. *)

From S2P Require Import Prelude KubeTypes Api Indexers Status Ipam Listeners Selector Route RouteSpec Gateway.
From S2P Require Import Workqueue Handlers Workers HandlersSpec WakeupSpec SelectorWakeup Reference IpamSpec SliceSpec.

Section wakeups.
Context `{API : !ApiMachinery}.

(** What informers promise of the routes' own lookup. *)
Record route_step (i : informer) (n : notification) (c c' : Caches) : Prop := {
  rs_step : cache_step i n c c';
  rs_routes ns name :
    (i = routeInformer → ∀ r, routeFromObject (reported n) = Some r → route_key r ≠ mkNN ns name) →
    routes_Get c' ns name = routes_Get c ns name;
}.

(** The lookups agree with each other. *)
Record routes_consistent (c : Caches) : Prop := {
  rc_base : cache_consistent c;
  rc_route ns name r :
    routes_Get c ns name = Ok r →
    route_key r = mkNN ns name ∧
    (∀ pk, pk ∈ routeGatewayParentKeys r → ∃ items, route_ByGateway c pk = Ok items ∧ OTCPRoute r ∈ items) ∧
    (∀ bk, bk ∈ routeBackendEndpointSelectorKeys r →
       ∃ items, route_ByBackendEndpointSelector c bk = Ok items ∧ r ∈ items);
}.

(** No route of the event shares a Gateway with the route of [nn]. *)
Definition route_alone (i : informer) (n : notification) (c : Caches) (nn : NamespacedName) : Prop :=
  i = routeInformer → ∀ route o r, routes_Get c (nn_Namespace nn) (nn_Name nn) = Ok route →
    o ∈ objs n → routeFromObject o = Some r →
    ∀ pk, pk ∈ routeGatewayParentKeys r → pk ∉ routeGatewayParentKeys route.

Section route.
Context (now : Z) (i : informer) (n : notification) (c c' : Caches) (nn : NamespacedName).
Let k : string := namespacedKey nn.
Context (Hnn : named nn) (Hslash : no_slash (nn_Namespace nn)).
Context (Hstep : route_step i n c c') (Hcons : routes_consistent c') (Hnamed : selector_named n).
Context (Halone : route_alone i n c' nn) (Hasleep : ¬ woken c' n i runRouteWorker k).

Lemma asleep_route_object :
  routes_Get c' (nn_Namespace nn) (nn_Name nn) = routes_Get c (nn_Namespace nn) (nn_Name nn).
Proof.
  apply (rs_routes _ _ _ _ Hstep). intros -> r Hr Hkey. apply Hasleep. apply (woken_route _ _ r); [done|].
  left. rewrite Hkey. by destruct nn.
Qed.

Section found.
Context (route : TCPRoute) (Hroute : routes_Get c' (nn_Namespace nn) (nn_Name nn) = Ok route).

Lemma asleep_route_backend ev : evaluate_backend c' route ev = evaluate_backend c route ev.
Proof.
  destruct (rc_route _ Hcons _ _ _ Hroute) as (Hkey & _ & Hback).
  apply evaluate_backend_ext. intros key Hns Hkeys. apply (cs_selectors _ _ _ _ (rs_step _ _ _ _ Hstep)).
  intros -> s Hs Heq. destruct (Hnamed s Hs) as [Hn Hs'].
  assert (no_slash (nn_Namespace key)).
  { rewrite Hns. change (no_slash (nn_Namespace (route_key route))). by rewrite Hkey. }
  apply namespacedKey_inj in Heq as <-; [|done|done].
  destruct (Hback _ (Hkeys Hn)) as (items & Hi & Hin). apply Hasleep.
  apply (woken_selector_route _ _ s items route); [done..|]. left. rewrite Hkey. by destruct nn.
Qed.

Lemma asleep_route_parent parent :
  parent ∈ ParentRefs route → desired_parent now c' route parent = desired_parent now c route parent.
Proof.
  intros Hp. unfold desired_parent. destruct (isGatewayParentRef parent) eqn:Hkind; [|done]. simpl.
  destruct (rc_route _ Hcons _ _ _ Hroute) as (Hkey & Hpar & _).
  destruct (asleep_parent i n c c' runRouteWorker k route (rs_step _ _ _ _ Hstep) (rc_base _ Hcons) Hasleep)
    with (parent := parent) as [Hg Hcls]; [| |done|done|].
  { intros key (items & Hi & Hin)%Hpar. exists route. split; [by exists items, (OTCPRoute route)|].
    left. rewrite Hkey. by destruct nn. }
  { intros Hi o r. by apply Halone. }
  unfold parent_gateway in *. rewrite <-Hg. destruct (gateways_Get c' _ _) as [gateway|e]; [|done].
  destruct (decide (_ ≠ gatewaymeta_GatewayClassName)) as [|Hours]; [done|]. apply dec_stable in Hours.
  destruct (Hcls gateway eq_refl Hours) as [-> Hr]. unfold listRoutesForGateway. rewrite Hr.
  destruct (getGatewayClass c) as [cls|e]; simpl; [|done].
  destruct (route_ByGateway c _) as [items|e]; simpl; [|done].
  unfold evaluateRoute. by rewrite asleep_route_backend.
Qed.

Lemma asleep_route_parents parents :
  (∀ parent, parent ∈ parents → parent ∈ ParentRefs route) →
  desired_parents now c' route parents = desired_parents now c route parents.
Proof.
  induction parents as [|parent parents IH]; intros Hin; [done|]. simpl.
  rewrite asleep_route_parent by (apply Hin; by left). rewrite IH; [done|]. intros p Hp. apply Hin. by right.
Qed.

End found.

Lemma asleep_reconcile_route : reconcileRoute now c' k = reconcileRoute now c k.
Proof.
  unfold reconcileRoute, getRoute. destruct (splitNamespacedKey k) as [nn'|e] eqn:Hk; [|done]. simpl.
  assert (nn' = nn) as ->.
  { apply splitNamespacedKey_ok in Hk as (Hk & _ & _ & Hs & _). by apply namespacedKey_inj in Hk. }
  rewrite <-asleep_route_object.
  destruct (routes_Get c' _ _) as [route|e] eqn:Hroute; [|done].
  by rewrite (asleep_route_parents route Hroute).
Qed.

End route.

(** C9. No wake-up of a route is missed: after any event but one of a
    route that shares a Gateway with it, a route whose key the handler has not
    put on the queue is reconciled exactly as before the event. *)
Theorem route_wakeups {Q} `{!WorkQueue Q} (view : Q → queue_view) `{!WorkQueueLaws view}
    now i n c c' nn (qs qs' : Queues Q) :
  let k := namespacedKey nn in
  named nn → no_slash (nn_Namespace nn) →
  route_step i n c c' → routes_consistent c' → selector_named n → route_alone i n c' nn →
  registerHandlers i c' n qs = Some qs' → stopping (view (routeQueue qs)) = false →
  k ∉ waiting (view (routeQueue qs')) →
  reconcileRoute now c' k = reconcileRoute now c k.
Proof.
  intros k Hnn Hsl Hstep Hcons Hnamed Halone Hh Hstop Hk. eapply asleep_reconcile_route; [done..|].
  intros Hw. apply Hk. destruct (handlers_grow view _ _ _ _ _ Hh runRouteWorker) as (_ & _ & _ & Hg).
  apply Hg. by right.
Qed.

End wakeups.

(** ** The in-memory caches *)

Lemma caches_of_routes_consistent st :
  (∀ r, r ∈ st_routes st → no_slash (Namespace (rt_meta r))) → routes_consistent (caches_of st).
Proof.
  intros Hslash. constructor; [by apply caches_of_consistent|]. simpl.
  intros ns name r [Hin Hat]%find_or_ok. apply bool_decide_eq_true in Hat as [<- <-]. split; [done|]. split.
  - intros pk Hpk. apply by_index_elem. split; [by apply list_elem_of_fmap_2|done].
  - intros bk Hbk. by apply by_index_elem.
Qed.

(** A route appears: every other route is still found. *)
Lemma route_added st r : route_step routeInformer (AddFunc (OTCPRoute r)) (caches_of st) (caches_of (with_route st r)).
Proof.
  constructor; [by apply route_added_step|]. intros ns name Hother. simpl. unfold find_or.
  rewrite list.filter_app, filter_cons, filter_nil, decide_False, app_nil_r; [done|].
  intros Hat%bool_decide_eq_true. apply (Hother eq_refl r eq_refl). by destruct Hat as [<- <-].
Qed.

(** ** Worked example: a route of another Gateway *)

Lemma route_wakeups_witness :
  reconcileRoute 9 (caches_of (with_route selector_store other_route)) "default/r"
  = reconcileRoute 9 (caches_of selector_store) "default/r".
Proof.
  eapply (route_wakeups ref_view 9 routeInformer (AddFunc (OTCPRoute other_route)) (caches_of selector_store)
    (caches_of (with_route selector_store other_route)) (mkNN "default" "r") quiet_queues).
  - split; discriminate.
  - reflexivity.
  - apply route_added.
  - apply caches_of_routes_consistent.
    intros r [->|[->|[]%elem_of_nil]%list.elem_of_cons]%list.elem_of_cons; reflexivity.
  - intros s. discriminate.
  - intros _ route o r Hr ->%list_elem_of_singleton [= <-] pk ->%list_elem_of_singleton.
    injection Hr as <-. apply (bool_decide_unpack _). vm_compute. exact I.
  - reflexivity.
  - reflexivity.
  - apply (bool_decide_unpack _). vm_compute. exact I.
Defined.
