(* ===== verification/Settle.v ===== *)
(** * A Gateway gets its address

    What repeated reconciles achieve on a server where no other client
    interferes and requests succeed, when the caches have caught up before each:
    after two reconciles an accepted Gateway carries the finalizer, holds
    exactly one reservation and shows its address, and nothing is left to do. *)

From S2P Require Import Prelude GoNet GoStrings KubeTypes Api Indexers Status Ipam IpamSpec.
From S2P Require Import Listeners Selector Route RouteSpec Gateway GatewayFacts GatewayProps Reference WakeupSpec.

(** The lookups the evaluation of a Gateway reads, besides the Gateway. *)
Definition same_inputs `{!ApiMachinery} (c c' : Caches) : Prop :=
  gatewayClasses_Get c' gatewaymeta_GatewayClassName = gatewayClasses_Get c gatewaymeta_GatewayClassName ∧
  (∀ k, route_ByGateway c' k = route_ByGateway c k) ∧
  (∀ k, endpointSelector_GetByKey c' k = endpointSelector_GetByKey c k) ∧
  serviceCIDRs_List c' = serviceCIDRs_List c.

#[export] Instance same_inputs_preorder `{!ApiMachinery} : PreOrder same_inputs.
Proof. split; [done|]. intros c1 c2 c3 (H1 & H2 & H3 & H4) (G1 & G2 & G3 & G4). unfold same_inputs. split_and!; congruence. Qed.

(** What a stored object keeps of the one it was created from. *)
Definition stored_ip (o o' : IPAddress) : Prop :=
  Name (ip_meta o') = Name (ip_meta o) ∧ Labels (ip_meta o') = Labels (ip_meta o) ∧ ip_ParentRef o' = ip_ParentRef o.

(** The server and the informers, as Kubernetes documents them, when requests
    that are admissible succeed: an update of a Gateway leaves its status alone,
    an update of its status changes nothing else, and [caches s] are informers
    that have caught up with [s]. *)
Class CalmServer `{!ApiMachinery} {S : Type} (handle : ∀ r : request, S → response r * S)
    (gateways : S → gmap NamespacedName Gateway) (ips : S → gmap string IPAddress) (caches : S → Caches) : Prop := {
  calm_get ns n s g : gateways s !! mkNN ns n = Some g → handle (GatewayGet ns n) s = (Ok g, s);
  calm_update ns o s g : gateways s !! mkNN ns (Name (gw_meta o)) = Some g → DeletionTimestamp (gw_meta g) = None →
    ∃ s', handle (GatewayUpdate ns o) s = (Ok tt, s') ∧ ips s' = ips s ∧
      gateways s' = <[mkNN ns (Name (gw_meta o)) := mkGateway (gw_meta o) (gw_spec o) (gw_status g)]> (gateways s) ∧
      same_inputs (caches s) (caches s');
  calm_update_status ns o s g : gateways s !! mkNN ns (Name (gw_meta o)) = Some g →
    ∃ s', handle (GatewayUpdateStatus ns o) s = (Ok tt, s') ∧ ips s' = ips s ∧
      gateways s' = <[mkNN ns (Name (gw_meta o)) := mkGateway (gw_meta g) (gw_spec g) (gw_status o)]> (gateways s) ∧
      same_inputs (caches s) (caches s');
  calm_create o s : Name (ip_meta o) ≠ "" → ips s !! Name (ip_meta o) = None →
    ∃ s' o', handle (IPAddressCreate o) s = (Ok tt, s') ∧ stored_ip o o' ∧
      ips s' = <[Name (ip_meta o) := o']> (ips s) ∧ gateways s' = gateways s ∧ same_inputs (caches s) (caches s');
  calm_delete n s : is_Some (ips s !! n) →
    ∃ s', handle (IPAddressDelete n) s = (Ok tt, s') ∧ ips s' = delete n (ips s) ∧ gateways s' = gateways s ∧
      same_inputs (caches s) (caches s');
  calm_ip_name s n ip : ips s !! n = Some ip → Name (ip_meta ip) = n ∧ n ≠ "";
  calm_gateways_Get s ns n g : gateways_Get (caches s) ns n = Ok g ↔ gateways s !! mkNN ns n = Some g;
  calm_ipAddresses s : ∃ items, ipAddresses_List (caches s) = Ok items ∧
    ∀ n, is_Some (ips s !! n) ↔ ∃ ip, Some ip ∈ items ∧ Name (ip_meta ip) = n;
  calm_ByGateway s k : ∃ items, ipAddress_ByGateway (caches s) k = Ok items ∧ NoDup items ∧
    ∀ ip, OIPAddress ip ∈ items ↔
      ips s !! Name (ip_meta ip) = Some ip ∧ ∃ ks, indexIPAddressByGateway (OIPAddress ip) = Some ks ∧ k ∈ ks;
}.

(** ** The evaluation reads nothing else *)

Section inputs.
Context `{API : !ApiMachinery}.
Implicit Types (c : Caches).

Lemma inputs_class c c' : same_inputs c c' → getGatewayClass c' = getGatewayClass c.
Proof. intros (H & _). unfold getGatewayClass. by rewrite H. Qed.

Lemma inputs_routes c c' key : same_inputs c c' → listRoutesForGateway c' key = listRoutesForGateway c key.
Proof. intros (_ & H & _). unfold listRoutesForGateway. by rewrite H. Qed.

Lemma inputs_cidrs c c' : same_inputs c c' → listIPv4ServiceCIDRs c' = listIPv4ServiceCIDRs c.
Proof. intros (_ & _ & _ & H). unfold listIPv4ServiceCIDRs. by rewrite H. Qed.

Lemma inputs_evaluate now c c' gateway cls routes :
  same_inputs c c' → evaluateGateway now c' gateway cls routes = evaluateGateway now c gateway cls routes.
Proof.
  intros (_ & _ & Hsel & _). apply evaluateGateway_ext. intros route ev _.
  apply evaluate_backend_ext. intros key _ _. apply Hsel.
Qed.

Lemma inputs_final now c c' gateway cls routes r :
  same_inputs c c' → final_evaluation now c' gateway cls routes r = final_evaluation now c gateway cls routes r.
Proof. intros H. unfold final_evaluation. by rewrite (inputs_evaluate now c c'). Qed.

End inputs.

Section settle.
Context `{API : !ApiMachinery, Laws : !ApiMachineryLaws}.
Context {S : Type} (handle : ∀ r : request, S → response r * S).
Context (gateways : S → gmap NamespacedName Gateway) (ips : S → gmap string IPAddress) (caches : S → Caches).
Context `{Calm : !CalmServer handle gateways ips caches}.

(** ** Reservations *)

(** [ip] is on the server and reserved for the Gateway. *)
Definition owns (s : S) (nn : NamespacedName) (ip : IPAddress) : Prop :=
  ips s !! Name (ip_meta ip) = Some ip ∧ gatewayKeyForIPAddress ip = namespacedKey nn.

Lemma owns_name s nn ip ip' : owns s nn ip → owns s nn ip' → ip_name_key ip = ip_name_key ip' → ip = ip'.
Proof. unfold ip_name_key. intros [H _] [H' _] E. rewrite E in H. congruence. Qed.

Lemma namespacedKey_nonempty nn : namespacedKey nn ≠ "".
Proof. unfold namespacedKey. by destruct (nn_Namespace nn). Qed.

Lemma owned_cached s nn :
  ∃ owned, listOwnedGatewayIPAddresses (caches s) nn = Ok owned ∧ NoDup (ip_name_key <$> owned) ∧
    ∀ ip, ip ∈ owned ↔ owns s nn ip.
Proof.
  destruct (calm_ByGateway s (namespacedKey nn)) as (items & Hi & Hnd & Hin).
  assert (Hiff : ∀ ip, ips s !! Name (ip_meta ip) = Some ip ∧
    (∃ ks, indexIPAddressByGateway (OIPAddress ip) = Some ks ∧ namespacedKey nn ∈ ks) ↔ owns s nn ip).
  { intros ip. unfold owns. simpl. split; intros [Hip H]; (split; [done|]).
    - destruct H as (ks & [= <-] & H). case_decide; [by apply elem_of_nil in H|].
      by apply list_elem_of_singleton in H.
    - eexists. split; [done|]. rewrite H, decide_False by apply namespacedKey_nonempty. by left. }
  destruct (listOwnedGatewayIPAddresses (caches s) nn) as [owned|e] eqn:Ho;
    [|unfold listOwnedGatewayIPAddresses in Ho; by rewrite Hi in Ho].
  assert (Helem : ∀ ip, ip ∈ owned ↔ owns s nn ip).
  { intros ip. rewrite (elem_of_owned _ _ _ ip Ho), <-Hiff, <-Hin. split.
    - intros (items' & Hi' & H & _). congruence.
    - intros H. exists items. split_and!; [done..|]. apply Hin, Hiff in H as [_ Hk].
      unfold gatewayKeyForIPAddress in Hk. case_decide as Hl; [by destruct (namespacedKey_nonempty nn)|done]. }
  exists owned. split_and!; [done| |done]. apply NoDup_fmap_2_strong.
  { intros x y Hx%Helem Hy%Helem. by eapply owns_name. }
  unfold listOwnedGatewayIPAddresses in Ho. rewrite Hi in Ho. injection Ho as <-.
  apply NoDup_omap; [|done]. intros x y ip Hx Hy. destruct x, y; try done. repeat case_decide; congruence.
Qed.

(** Deleting reservations that exist. *)
Lemma delete_calm xs s :
  NoDup (ip_name_key <$> xs) → (∀ ip, ip ∈ xs → is_Some (ips s !! ip_name_key ip)) →
  ∃ s', exec handle (delete_ips xs) s = (Ok tt, s') ∧ gateways s' = gateways s ∧ same_inputs (caches s) (caches s') ∧
    ∀ n, ips s' !! n = if decide (n ∈ ip_name_key <$> xs) then None else ips s !! n.
Proof.
  revert s. induction xs as [|ip xs IH]; intros s Hnd Hex.
  { exists s. split_and!; [done..|]. intros n. rewrite decide_False; [done|]. apply not_elem_of_nil. }
  rewrite list.fmap_cons in *. apply list.NoDup_cons in Hnd as [Hip Hnd].
  destruct (calm_delete (ip_name_key ip) s (Hex ip ltac:(left))) as (s1 & Hh & Hips1 & Hg1 & Hin1).
  destruct (IH s1 Hnd) as (s' & He & Hg & Hin & Hips').
  { intros x Hx. rewrite Hips1, lookup_delete_ne; [by apply Hex; right|].
    intros E. apply Hip. rewrite E. by apply list_elem_of_fmap_2. }
  exists s'. split_and!; [|congruence|by etransitivity|].
  - simpl. change (Name (ip_meta ip)) with (ip_name_key ip). by rewrite Hh.
  - intros n. rewrite Hips', Hips1. destruct (decide (n = ip_name_key ip)) as [->|Hne].
    + rewrite lookup_delete_eq. repeat case_decide; set_solver.
    + rewrite lookup_delete_ne by done. repeat case_decide; set_solver.
Qed.

(** An address the Gateway can have: one it owns, or a free one. *)
Definition available (s : S) (nn : NamespacedName) : Prop :=
  (∃ ip, owns s nn ip) ∨
  ∃ cidrs bs, listIPv4ServiceCIDRs (caches s) = Ok cidrs ∧ bs ∈ cidrs ≫= allocatable ∧ ips s !! dotted bs = None.

(** The Gateway's only reservation is [v]; the others' are as in [s]. *)
Record holds_only (s : S) (nn : NamespacedName) (v : string) (s' : S) : Prop := {
  ho_owned : ∃ ip, owns s' nn ip ∧ Name (ip_meta ip) = v;
  ho_only ip : owns s' nn ip → Name (ip_meta ip) = v;
  ho_others n : n ≠ v → (∀ ip, owns s nn ip → Name (ip_meta ip) ≠ n) → ips s' !! n = ips s !! n;
  ho_fresh : ips s !! v = None ∨ ∃ ip, owns s nn ip ∧ Name (ip_meta ip) = v;
}.

Lemma allocatable_named c cidrs bs : listIPv4ServiceCIDRs c = Ok cidrs → bs ∈ cidrs ≫= allocatable → dotted bs ≠ "".
Proof.
  intros Hc%listIPv4ServiceCIDRs_masked (p & Hbs & Hp)%list_elem_of_bind. rewrite list.Forall_forall in Hc.
  apply Hc in Hp as [Hp _]. apply elem_of_allocatable in Hbs as [Hwf _]; [|done]. by apply dotted_nonempty.
Qed.

Lemma claim_calm gateway bs bss s :
  Namespace (gw_meta gateway) ≠ "" → Name (gw_meta gateway) ≠ "" → dotted bs ≠ "" → ips s !! dotted bs = None →
  (∀ ip, ¬ owns s (gateway_key gateway) ip) →
  ∃ s', exec handle (try_claims gateway (bs :: bss)) s = (Ok (dotted bs), s') ∧ gateways s' = gateways s ∧
    same_inputs (caches s) (caches s') ∧ holds_only s (gateway_key gateway) (dotted bs) s'.
Proof.
  intros Hns Hname Hbs Hfree Hnone.
  destruct (calm_create (vip_claim gateway (Addr4 bs)) s Hbs Hfree) as (s' & o & Hh & (Hon & Hol & Hor) & Hips & Hg & Hin).
  exists s'. split; [simpl; by rewrite Hh|]. split_and!; [done..|].
  change (Name (ip_meta (vip_claim gateway (Addr4 bs)))) with (dotted bs) in *.
  assert (Ho : owns s' (gateway_key gateway) o).
  { split; [by rewrite Hips, Hon, lookup_insert_eq|]. unfold gatewayKeyForIPAddress. rewrite Hol, Hor. simpl.
    rewrite decide_False by (intros H; apply H; done). by rewrite !bool_decide_false by auto. }
  assert (Hself : ∀ ip, owns s' (gateway_key gateway) ip → Name (ip_meta ip) = dotted bs).
  { intros ip [Hip Hk]. rewrite Hips in Hip. apply lookup_insert_Some in Hip as [[-> _]|[_ Hip]]; [done|].
    by destruct (Hnone ip). }
  split; [by exists o|done|intros n Hne _; by rewrite Hips, lookup_insert_ne|by left].
Qed.

Lemma ensureGatewayVIP_calm gateway s :
  Namespace (gw_meta gateway) ≠ "" → Name (gw_meta gateway) ≠ "" → available s (gateway_key gateway) →
  ∃ v s', exec handle (ensureGatewayVIP (caches s) gateway) s = (Ok v, s') ∧ gateways s' = gateways s ∧
    same_inputs (caches s) (caches s') ∧ holds_only s (gateway_key gateway) v s'.
Proof.
  intros Hns Hname Havail. destruct (owned_cached s (gateway_key gateway)) as (owned & Ho & Hnd & Helem).
  destruct (decide (owned = [])) as [->|Hne].
  - assert (Hnone : ∀ ip, ¬ owns s (gateway_key gateway) ip) by (intros ip Hip%Helem; by apply elem_of_nil in Hip).
    destruct Havail as [[ip Hip]|(cidrs & bs & Hc & Hbs & Hfree)]; [by destruct (Hnone ip)|].
    destruct (calm_ipAddresses s) as (items & Hitems & Htaken).
    destruct (listTakenIPs (caches s)) as [taken|e] eqn:Ht; [|unfold listTakenIPs in Ht; by rewrite Hitems in Ht].
    assert (Hmem : ∀ n, n ∈ taken ↔ is_Some (ips s !! n)).
    { intros n. rewrite (elem_of_listTakenIPs _ _ _ Ht), Htaken. rewrite Hitems. naive_solver. }
    destruct (attempts_complete taken _ bs Hbs) as (b & Hb & _); [rewrite Hmem, Hfree; by intros [? ?]|].
    assert (Heq : ensureGatewayVIP (caches s) gateway ≡ try_claims gateway (attempts taken (cidrs ≫= allocatable))).
    { apply ensureGatewayVIP_fresh; [done..| |done]. intros ->. by apply elem_of_nil in Hbs. }
    destruct (attempts taken _) as [|b0 bss] eqn:Hatt; [by apply elem_of_nil in Hb|].
    assert (Hb0 : b0 ∈ attempts taken (cidrs ≫= allocatable)) by (rewrite Hatt; by left).
    apply attempts_elem in Hb0 as [Hb0' Hb0]. rewrite Hmem in Hb0.
    destruct (claim_calm gateway b0 bss s Hns Hname) as (s' & He & Hrest);
      [by eapply allocatable_named|by apply eq_None_not_Some|done|].
    exists (dotted b0), s'. split; [|done]. by destruct (prog_eq_exec _ _ handle s Heq) as [-> _].
  - unfold ensureGatewayVIP. rewrite Ho. simpl. unfold slices_SortFunc.
    pose proof (less_sort_perm (λ x y, cmp_on ip_name_key x y <? 0) owned) as Hp.
    destruct (less_sort _ owned) as [|first others]; [by apply Permutation_nil in Hp|].
    rewrite <-Hp in Hnd. csimpl in Hnd. apply list.NoDup_cons in Hnd as [Hfirst Hnd].
    assert (Hall : ∀ ip, owns s (gateway_key gateway) ip ↔ ip = first ∨ ip ∈ others).
    { intros ip. by rewrite <-Helem, <-Hp, list.elem_of_cons. }
    destruct (delete_calm others s Hnd) as (s' & He & Hg & Hin & Hips).
    { intros ip Hip. exists ip. apply (proj2 (Hall ip)). by right. }
    exists (Name (ip_meta first)), s'. rewrite exec_bind_ok, He. split_and!; [done..|].
    assert (Hf : owns s (gateway_key gateway) first) by (apply Hall; by left).
    split.
    + exists first. split; [|done]. destruct Hf as [Hf Hk]. split; [|done]. by rewrite Hips, decide_False.
    + intros ip [Hip Hk]. rewrite Hips in Hip. case_decide as Hin'; [done|].
      assert (owns s (gateway_key gateway) ip) as [->|Hoth]%Hall by done; [done|].
      destruct Hin'. by apply (list_elem_of_fmap_2 ip_name_key).
    + intros n Hne' Hno. rewrite Hips, decide_False; [done|]. intros (ip & -> & Hip)%list_elem_of_fmap.
      apply (Hno ip); [apply Hall; by right|done].
    + right. by exists first.
Qed.

(** ** Reconciles *)

(** The Gateway of key [nn] is accepted whatever the time, and there is an
    address for it. *)
Record servable (s : S) (nn : NamespacedName) (gateway : Gateway) : Prop := {
  sv_stored : gateways s !! nn = Some gateway;
  sv_key : meta_key (gw_meta gateway) = nn;
  sv_named : splitNamespacedKey (namespacedKey nn) = Ok nn;
  sv_class : GatewayClassName (gw_spec gateway) = gatewaymeta_GatewayClassName;
  sv_live : DeletionTimestamp (gw_meta gateway) = None;
  sv_valid : ∃ cls routes, getGatewayClass (caches s) = Ok cls ∧
    listRoutesForGateway (caches s) nn = Ok routes ∧ ∀ now, ge_valid (evaluateGateway now (caches s) gateway cls routes) = true;
  sv_conditions : NoDup (types (Conditions (gw_status gateway)));
  sv_available : available s nn;
}.

(** The Gateway shows [v], its only reservation, and a later evaluation would
    write the same status. *)
Record shows (s : S) (nn : NamespacedName) (v : string) : Prop := {
  sh_owned : ∃ ip, owns s nn ip ∧ Name (ip_meta ip) = v;
  sh_only ip : owns s nn ip → Name (ip_meta ip) = v;
  sh_gateway : ∃ gateway, servable s nn gateway ∧ has_finalizer gateway = true ∧
    (sa_Value <$> Addresses (gw_status gateway)) = [v] ∧
    ∀ now cls routes, getGatewayClass (caches s) = Ok cls → listRoutesForGateway (caches s) nn = Ok routes →
      updateGatewayStatus now gateway (final_evaluation now (caches s) gateway cls routes (Ok v)) = Ret (Ok tt);
}.

Lemma servable_named s nn gateway :
  servable s nn gateway → gateway_key gateway = nn ∧ Namespace (gw_meta gateway) ≠ "" ∧ Name (gw_meta gateway) ≠ "" ∧
  getGateway (caches s) (namespacedKey nn) = Ok gateway.
Proof.
  intros Hs. pose proof (sv_key _ _ _ Hs) as Hk. pose proof (sv_named _ _ _ Hs) as Hn.
  unfold getGateway. rewrite Hn. simpl. rewrite calm_gateways_Get.
  apply splitNamespacedKey_ok in Hn as (_ & Hns & Hname & _). pose proof (sv_stored _ _ _ Hs) as Hst.
  subst nn. by split_and!.
Qed.

(** A reconcile of a servable Gateway that has the finalizer. *)
Lemma servable_unfold s nn gateway now cls routes :
  servable s nn gateway → has_finalizer gateway = true →
  getGatewayClass (caches s) = Ok cls → listRoutesForGateway (caches s) nn = Ok routes →
  reconcileGateway now (caches s) (namespacedKey nn) ≡
  let* r := ensureGatewayVIP (caches s) gateway in
  updateGatewayStatus now gateway (final_evaluation now (caches s) gateway cls routes r).
Proof.
  intros Hs Hfin Hcls Hroutes. destruct (servable_named _ _ _ Hs) as (Hk & _ & _ & Hget).
  rewrite (reconcileGateway_unfold now _ _ gateway Hget (sv_class _ _ _ Hs) (sv_live _ _ _ Hs)).
  unfold ensureGatewayFinalizer. rewrite Hfin. simpl. rewrite Hk, Hcls, Hroutes. simpl.
  destruct (sv_valid _ _ _ Hs) as (cls' & routes' & Hcls' & Hroutes' & Hv).
  assert (cls' = cls) as -> by congruence. assert (routes' = routes) as -> by congruence. by rewrite Hv.
Qed.

Lemma shows_quiet s nn v now : shows s nn v → reconcileGateway now (caches s) (namespacedKey nn) ≡ Ret (Ok tt).
Proof.
  intros [(ip & Hip & Hv) Honly (gateway & Hs & Hfin & _ & Hq)].
  destruct (servable_named _ _ _ Hs) as (Hk & _ & _ & _).
  destruct (sv_valid _ _ _ Hs) as (cls & routes & Hcls & Hroutes & _).
  rewrite (servable_unfold s nn gateway now cls routes) by done.
  destruct (owned_cached s nn) as (owned & Ho & Hnd & Helem).
  assert (owned ≡ₚ [ip]) as Hperm.
  { apply NoDup_Permutation; [by eapply NoDup_fmap_1|apply NoDup_singleton|]. intros ip'.
    rewrite Helem, list_elem_of_singleton. split; [|by intros ->]. intros Hip'.
    eapply owns_name; [done..|]. unfold ip_name_key. by rewrite (Honly _ Hip'). }
  apply Permutation_singleton_r in Hperm as ->.
  unfold ensureGatewayVIP. rewrite Hk, Ho. simpl. rewrite Hv, (Hq now cls routes) by done. done.
Qed.

(** The evaluation reads neither the finalizers nor the status. *)
Lemma evaluate_finalizers now c gateway fs st cls routes :
  evaluateGateway now c (with_status (with_finalizers gateway fs) st) cls routes = evaluateGateway now c gateway cls routes.
Proof. reflexivity. Qed.

(** The Gateway as it is after a write of its finalizers or its status. *)
Lemma servable_written s s' nn gateway fs st :
  servable s nn gateway → same_inputs (caches s) (caches s') →
  gateways s' !! nn = Some (with_status (with_finalizers gateway fs) st) → NoDup (types (Conditions st)) →
  available s' nn → servable s' nn (with_status (with_finalizers gateway fs) st).
Proof.
  intros [_ Hk Hn Hc Hl (cls & routes & Hcls & Hroutes & Hv) _ _] Hin Hg Hnd Hav. split; try done.
  exists cls, routes. rewrite (inputs_class _ _ Hin), (inputs_routes _ _ _ Hin). split_and!; [done..|].
  intros now. by rewrite (inputs_evaluate _ _ _ _ _ _ Hin), evaluate_finalizers.
Qed.

(** What a reconcile may have changed when it made the Gateway show [v]. *)
Definition only_gateway (s : S) (nn : NamespacedName) (v : string) (s' : S) : Prop :=
  (∀ nn', nn' ≠ nn → gateways s' !! nn' = gateways s !! nn') ∧
  (gw_spec <$> gateways s' !! nn) = gw_spec <$> gateways s !! nn ∧
  (∀ n, n ≠ v → (∀ ip, owns s nn ip → Name (ip_meta ip) ≠ n) → ips s' !! n = ips s !! n) ∧
  (ips s !! v = None ∨ ∃ ip, owns s nn ip ∧ Name (ip_meta ip) = v).

Lemma with_same gateway : with_status (with_finalizers gateway (Finalizers (gw_meta gateway))) (gw_status gateway) = gateway.
Proof. by destruct gateway as [[] ? ?]. Qed.

Lemma addresses_equal_values v xs :
  gatewayAddressesEqual xs [mkStatusAddress (Some IPAddressType) v] = true → (sa_Value <$> xs) = [v].
Proof.
  destruct xs as [|x [|]]; simpl; [done| |]; repeat case_decide; try done. intros _. by f_equal.
Qed.

(** The status write of an evaluation that selected [v]: whether it is made or
    not needed, the status then shows [v] and every later one is not needed. *)
Lemma update_calm now c gateway cls routes v s nn :
  gateways s !! nn = Some gateway → gateway_key gateway = nn → NoDup (types (Conditions (gw_status gateway))) →
  v ≠ "" → ge_selectedVIP (final_evaluation now c gateway cls routes (Ok v)) = v →
  ∃ st s', exec handle (updateGatewayStatus now gateway (final_evaluation now c gateway cls routes (Ok v))) s = (Ok tt, s') ∧
    ips s' = ips s ∧ gateways s' = <[nn := with_status gateway st]> (gateways s) ∧ same_inputs (caches s) (caches s') ∧
    NoDup (types (Conditions st)) ∧ (sa_Value <$> Addresses st) = [v] ∧
    ∀ now', updateGatewayStatus now' (with_status gateway st)
              (final_evaluation now' c (with_status gateway st) cls routes (Ok v)) = Ret (Ok tt).
Proof.
  intros Hst Hk Hnd Hvne Hvip. set (ev := final_evaluation now c gateway cls routes (Ok v)) in *.
  assert (Haddr : Addresses (evaluated_status now gateway ev) = [mkStatusAddress (Some IPAddressType) v])
    by (simpl; by rewrite Hvip, decide_True).
  unfold updateGatewayStatus at 1. destruct (gatewayStatusEqual gateway _) eqn:Heq.
  - exists (gw_status gateway), s. assert (with_status gateway (gw_status gateway) = gateway) as -> by by destruct gateway.
    split_and!; [done|done|by rewrite insert_id|done|done| |].
    + apply addresses_equal_values. rewrite <-Haddr. unfold gatewayStatusEqual in Heq.
      by apply andb_true_iff in Heq as [[_ Ha]%andb_true_iff _].
    + intros now'. unfold updateGatewayStatus. erewrite kept_status_equal; [done|done| |exact Heq].
      pose proof (final_evaluation_now now now' c gateway (gw_status gateway) cls routes (Ok v)) as Hf.
      by destruct gateway.
  - destruct (calm_update_status (Namespace (gw_meta gateway)) (with_status gateway (evaluated_status now gateway ev)) s gateway)
      as (s' & Hh & Hips & Hg & Hin).
    { change (mkNN _ _) with (gateway_key gateway). by rewrite Hk. }
    change (mkNN _ _) with (gateway_key gateway) in Hg. rewrite Hk in Hg.
    exists (evaluated_status now gateway ev), s'. split_and!; [|done|done|done| | |].
    + simpl. by rewrite Hh.
    + by apply mergeConditions_NoDup.
    + by rewrite Haddr.
    + intros now'. unfold updateGatewayStatus. rewrite written_status_equal; [done|done|apply final_evaluation_now].
Qed.

(** With the finalizer in place, one reconcile is enough. *)
Lemma reconcile_serves s nn gateway now :
  servable s nn gateway → has_finalizer gateway = true →
  ∃ v s', exec handle (reconcileGateway now (caches s) (namespacedKey nn)) s = (Ok tt, s') ∧
    shows s' nn v ∧ only_gateway s nn v s'.
Proof.
  intros Hs Hfin. destruct (servable_named _ _ _ Hs) as (Hk & Hns & Hname & _).
  destruct (sv_valid _ _ _ Hs) as (cls & routes & Hcls & Hroutes & Hv).
  pose proof (servable_unfold s nn gateway now cls routes Hs Hfin Hcls Hroutes) as Hunf.
  destruct (ensureGatewayVIP_calm gateway s Hns Hname) as (v & s1 & He & Hg1 & Hin1 & Hho);
    [rewrite Hk; apply (sv_available _ _ _ Hs)|]. rewrite Hk in Hho.
  destruct (prog_eq_exec _ _ handle s Hunf) as [-> _]. rewrite exec_bind, He. clear Hunf.
  pose proof Hho as [(ip & Hip & Hipv) Honly Hothers Hfresh].
  destruct (update_calm now (caches s) gateway cls routes v s1 nn) as (st & s' & Hu & Hips & Hg & Hin & Hnd & Ha & Hq);
    [by rewrite Hg1; apply (sv_stored _ _ _ Hs)|done|apply (sv_conditions _ _ _ Hs)| | |].
  { destruct Hip as [Hip _]. apply calm_ip_name in Hip as [_ ?]. congruence. }
  { unfold final_evaluation. by rewrite Hv. }
  exists v, s'. assert (Hall : same_inputs (caches s) (caches s')) by by etransitivity.
  assert (Howns : ∀ ip, owns s' nn ip ↔ owns s1 nn ip) by (intros ip'; unfold owns; by rewrite Hips).
  assert (Hfs : with_status gateway st = with_status (with_finalizers gateway (Finalizers (gw_meta gateway))) st)
    by by destruct gateway as [[] ? ?].
  split; [exact Hu|]. split; [split|split_and!].
  - exists ip. by rewrite Howns.
  - intros ip'. rewrite Howns. apply Honly.
  - exists (with_status gateway st). split_and!; [|done|done|].
    + rewrite Hfs. apply (servable_written s); [done|done| |done|left; exists ip; by rewrite Howns].
      rewrite <-Hfs, Hg. apply lookup_insert_eq.
    + intros now' cls' routes'. rewrite (inputs_class _ _ Hall), (inputs_routes _ _ _ Hall), Hcls, Hroutes.
      intros [= <-] [= <-]. by rewrite (inputs_final _ _ _ _ _ _ _ Hall).
  - intros nn' Hne. by rewrite Hg, lookup_insert_ne, Hg1.
  - rewrite Hg, lookup_insert_eq, (sv_stored _ _ _ Hs). done.
  - intros n Hne Hno. rewrite Hips. by apply Hothers.
  - exact Hfresh.
Qed.

Lemma available_same s s' nn :
  ips s' = ips s → same_inputs (caches s) (caches s') → available s nn → available s' nn.
Proof.
  intros Hips Hin [[ip Hip]|(cidrs & bs & Hc & Hbs & Hfree)]; [left|right].
  - exists ip. unfold owns. by rewrite Hips.
  - exists cidrs, bs. by rewrite Hips, (inputs_cidrs _ _ Hin).
Qed.

(** Without it, a reconcile adds the finalizer and nothing else. *)
Lemma reconcile_adds_finalizer s nn gateway now :
  servable s nn gateway → has_finalizer gateway = false →
  let updated := with_finalizers gateway (Finalizers (gw_meta gateway) ++ [controllerFinalizer]) in
  ∃ s', exec handle (reconcileGateway now (caches s) (namespacedKey nn)) s = (Ok tt, s') ∧
    ips s' = ips s ∧ gateways s' = <[nn := updated]> (gateways s) ∧ servable s' nn updated ∧ has_finalizer updated = true.
Proof.
  intros Hs Hfin updated. destruct (servable_named _ _ _ Hs) as (Hk & Hns & Hname & Hget).
  assert (Hst : gateways s !! mkNN (Namespace (gw_meta gateway)) (Name (gw_meta gateway)) = Some gateway).
  { change (mkNN _ _) with (gateway_key gateway). rewrite Hk. apply (sv_stored _ _ _ Hs). }
  destruct (calm_update (Namespace (gw_meta updated)) updated s gateway Hst (sv_live _ _ _ Hs))
    as (s' & Hh & Hips & Hg & Hin).
  change (mkNN (Namespace (gw_meta updated)) (Name (gw_meta updated))) with (gateway_key gateway) in Hg.
  rewrite Hk in Hg. change (mkGateway _ _ _) with updated in Hg.
  assert (Hupd : updated = with_status updated (gw_status gateway)) by done.
  exists s'. split_and!; [|done|done| |].
  - destruct (prog_eq_exec _ _ handle s
      (reconcileGateway_unfold now _ _ gateway Hget (sv_class _ _ _ Hs) (sv_live _ _ _ Hs))) as [-> _].
    rewrite exec_bind_ok. unfold ensureGatewayFinalizer. rewrite Hfin. simpl. rewrite (calm_get _ _ _ _ Hst), Hfin.
    rewrite exec_bind_ok. cbn [exec perform].
    change (handle (GatewayUpdate _ _) s) with (handle (GatewayUpdate (Namespace (gw_meta updated)) updated) s).
    by rewrite Hh.
  - rewrite Hupd. apply (servable_written s); [done|done|by rewrite Hg, lookup_insert_eq|apply (sv_conditions _ _ _ Hs)|].
    apply (available_same s); [done|done|apply (sv_available _ _ _ Hs)].
  - unfold has_finalizer. apply bool_decide_eq_true. simpl. apply list.elem_of_app. right. by left.
Qed.

(** C2. On a calm server - admissible requests succeed, no
    other client or worker writes, and the caches have caught up before each
    reconcile - an accepted Gateway for which an address is available gets one:
    after two reconciles, at any times, it carries the finalizer and shows an
    address that is its only reservation, and a further reconcile makes no
    request.  Nothing else has changed on the server: not its spec, no other
    Gateway, no reservation that was not its own; the address was its own or
    free.  (With other workers at work see [withdrawn_address_shared] and
    [concurrent_vips_distinct].) *)
Theorem gateway_settles s nn gateway now1 now2 :
  servable s nn gateway →
  ∃ s1 s2 v,
    exec handle (reconcileGateway now1 (caches s) (namespacedKey nn)) s = (Ok tt, s1) ∧
    exec handle (reconcileGateway now2 (caches s1) (namespacedKey nn)) s1 = (Ok tt, s2) ∧
    shows s2 nn v ∧ only_gateway s nn v s2 ∧
    ∀ now3, reconcileGateway now3 (caches s2) (namespacedKey nn) ≡ Ret (Ok tt).
Proof.
  intros Hs. destruct (has_finalizer gateway) eqn:Hfin.
  - destruct (reconcile_serves s nn gateway now1 Hs Hfin) as (v & s1 & He & Hshows & Hsame).
    exists s1, s1, v. split; [done|]. split; [|split_and!; [done..|intros; by eapply shows_quiet]].
    by destruct (prog_eq_exec _ _ handle s1 (shows_quiet s1 nn v now2 Hshows)) as [-> _].
  - destruct (reconcile_adds_finalizer s nn gateway now1 Hs Hfin) as (s1 & He1 & Hips & Hg & Hs1 & Hfin1).
    destruct (reconcile_serves s1 nn _ now2 Hs1 Hfin1) as (v & s2 & He2 & Hshows & Hothers & Hspec & Hips2 & Hv).
    exists s1, s2, v. split; [done|]. split; [done|]. split; [done|]. split; [|intros; by eapply shows_quiet].
    unfold only_gateway, owns in *. rewrite Hips in *. split_and!; [|rewrite Hspec, Hg, lookup_insert_eq|done|done].
    + intros nn' Hne. by rewrite Hothers, Hg, lookup_insert_ne.
    + by rewrite (sv_stored _ _ _ Hs).
Qed.

End settle.

(** ** Worked example: a calm server over a fixed rest of the store *)

(** An IPAddress without what its name says. *)
Record calm_server := mkCalm {
  cm_base : Store; cm_gateways : gmap NamespacedName Gateway; cm_ips : gmap string (gmap string string * option IPParentReference) }.

Definition calm_ip (n : string) (x : gmap string string * option IPParentReference) : IPAddress :=
  mkIPAddress (mkMeta "" n "" 0 None x.1 [] []) x.2.

Definition calm_ips (s : calm_server) : gmap string IPAddress :=
  map_imap (λ n x, if decide (n = "") then None else Some (calm_ip n x)) (cm_ips s).

Definition set_gateway (s : calm_server) (k : NamespacedName) (g : Gateway) : calm_server :=
  mkCalm (cm_base s) (<[k := g]> (cm_gateways s)) (cm_ips s).

Definition calm_handle (r : request) (s : calm_server) : response r * calm_server :=
  match r return response r * calm_server with
  | GatewayGet ns n =>
      match cm_gateways s !! mkNN ns n with Some g => (Ok g, s) | None => (Err (not_found "gateway"), s) end
  | GatewayUpdate ns o =>
      match cm_gateways s !! mkNN ns (Name (gw_meta o)) with
      | Some g => (Ok tt, set_gateway s (mkNN ns (Name (gw_meta o))) (mkGateway (gw_meta o) (gw_spec o) (gw_status g)))
      | None => (Err (not_found "gateway"), s)
      end
  | GatewayUpdateStatus ns o =>
      match cm_gateways s !! mkNN ns (Name (gw_meta o)) with
      | Some g => (Ok tt, set_gateway s (mkNN ns (Name (gw_meta o))) (mkGateway (gw_meta g) (gw_spec g) (gw_status o)))
      | None => (Err (not_found "gateway"), s)
      end
  | IPAddressCreate o =>
      match calm_ips s !! Name (ip_meta o) with
      | Some _ => (Err (exists_error "ipaddress"), s)
      | None => (Ok tt, mkCalm (cm_base s) (cm_gateways s)
                          (<[Name (ip_meta o) := (Labels (ip_meta o), ip_ParentRef o)]> (cm_ips s)))
      end
  | IPAddressDelete n =>
      match calm_ips s !! n with
      | Some _ => (Ok tt, mkCalm (cm_base s) (cm_gateways s) (delete n (cm_ips s)))
      | None => (Err (not_found "ipaddress"), s)
      end
  | GatewayClassUpdateStatus _ | TCPRouteUpdateStatus _ _ | EndpointSelectorUpdateStatus _ _
  | EndpointSliceCreate _ _ | EndpointSliceUpdate _ _ | EndpointSliceDelete _ _ => (Ok tt, s)
  end.

Definition calm_caches (s : calm_server) : Caches :=
  let c := caches_of (cm_base s) in
  let stored := (map_to_list (calm_ips s)).*2 in
  mkCaches (gatewayClasses_Get c)
    (λ ns n, match cm_gateways s !! mkNN ns n with Some g => Ok g | None => Err (not_found "gateway") end)
    (routes_Get c) (pods_List c) (Ok (Some <$> stored)) (serviceCIDRs_List c) (endpointSelector_GetByKey c)
    (gateway_ByClass c) (route_ByGateway c) (route_ByBackendEndpointSelector c)
    (by_index id indexIPAddressByGateway (OIPAddress <$> stored))
    (endpointSlice_ByEndpointSelector c) (endpointSelector_ByNamespace c).

Lemma calm_ips_lookup s n : calm_ips s !! n = x ← cm_ips s !! n; if decide (n = "") then None else Some (calm_ip n x).
Proof. apply map_lookup_imap. Qed.

Lemma calm_stored s ip : ip ∈ (map_to_list (calm_ips s)).*2 ↔ calm_ips s !! Name (ip_meta ip) = Some ip.
Proof.
  rewrite list_elem_of_fmap. split.
  - intros ([n ip'] & -> & H%elem_of_map_to_list). simpl. rewrite calm_ips_lookup in H.
    apply bind_Some in H as (x & Hx & H). case_decide as Hn; [done|]. injection H as <-. simpl.
    rewrite calm_ips_lookup, Hx. simpl. by rewrite decide_False.
  - intros H. exists (Name (ip_meta ip), ip). split; [done|]. by apply elem_of_map_to_list.
Qed.

#[export] Instance calm_server_laws : CalmServer calm_handle cm_gateways calm_ips calm_caches.
Proof.
  constructor; simpl.
  - intros ns n s g Hg. by rewrite Hg.
  - intros ns o s g Hg _. rewrite Hg. by eexists.
  - intros ns o s g Hg. rewrite Hg. by eexists.
  - intros o s Hn Hnone. rewrite Hnone. eexists _, (calm_ip (Name (ip_meta o)) (Labels (ip_meta o), ip_ParentRef o)).
    split_and!; [done|done| |done|done]. apply map_eq. intros n. rewrite lookup_insert, !calm_ips_lookup. simpl.
    rewrite lookup_insert. destruct (decide (Name (ip_meta o) = n)) as [<-|]; simpl; [by rewrite decide_False|done].
  - intros n s [ip Hip]. rewrite Hip. eexists. split_and!; [done| |done|done].
    apply map_eq. intros n'. rewrite lookup_delete, !calm_ips_lookup. simpl. rewrite lookup_delete. by destruct (decide (n = n')).
  - intros s n ip. rewrite calm_ips_lookup. intros (x & _ & H)%bind_Some. case_decide; [done|]. by injection H as <-.
  - intros s ns n g. destruct (cm_gateways s !! mkNN ns n); split; congruence.
  - intros s. eexists. split; [done|]. intros n. split.
    + intros [ip Hip]. pose proof Hip as H. rewrite calm_ips_lookup in H. apply bind_Some in H as (x & _ & H).
      case_decide; [done|]. injection H as <-. exists (calm_ip n x). split; [|done].
      apply list_elem_of_fmap. eexists. split; [done|]. by apply calm_stored.
    + intros (ip & Hin & <-). apply list_elem_of_fmap in Hin as (ip' & [= <-] & Hin%calm_stored). by eexists.
  - intros s k. eexists. split; [done|]. split.
    + apply list.NoDup_filter, (NoDup_fmap_2_strong OIPAddress); [congruence|].
      apply (NoDup_fmap_1 (λ ip, Name (ip_meta ip))). rewrite <-list_fmap_compose.
      assert (((λ x, Name (ip_meta x.2)) <$> map_to_list (calm_ips s)) = (map_to_list (calm_ips s)).*1) as Heq.
      { apply list_fmap_ext. intros i [n ip] Hi%list_elem_of_lookup_2%elem_of_map_to_list. simpl.
        rewrite calm_ips_lookup in Hi. apply bind_Some in Hi as (x & _ & Hi). case_decide; [done|]. by injection Hi as <-. }
      change (NoDup ((λ x, Name (ip_meta x.2)) <$> map_to_list (calm_ips s))). rewrite Heq. apply NoDup_fst_map_to_list.
    + intros ip. rewrite list_elem_of_filter, bool_decide_eq_true, (list_elem_of_fmap OIPAddress). split.
      * intros [Hk (ip' & [= <-] & Hip%calm_stored)]. split; [done|]. eexists. by split.
      * intros [Hip (ks & [= <-] & Hk)]. split; [done|]. exists ip. split; [done|]. by apply calm_stored.
Qed.

(** Gateway "a" of [route_store], with neither finalizer nor reservation; an
    address of its range is taken. *)
Definition calm_start : calm_server :=
  mkCalm (route_store (demo_gateway "a") demo_route) {[mkNN "default" "a" := demo_gateway "a"]}
    {["10.96.0.1" := (∅, None)]}.

Lemma calm_servable : servable cm_gateways calm_ips calm_caches calm_start (mkNN "default" "a") (demo_gateway "a").
Proof.
  split; [apply lookup_singleton_eq|reflexivity|vm_compute; reflexivity|reflexivity|reflexivity| |constructor|].
  - exists (Some demo_class), [demo_route]. split; [vm_compute; reflexivity|]. split; [vm_compute; reflexivity|].
    intros now. destruct (evaluateGateway_now now 0 (calm_caches calm_start) (demo_gateway "a") (Some demo_class) [demo_route])
      as (_ & _ & _ & _ & _ & _ & -> & _). vm_compute. reflexivity.
  - right. destruct (listIPv4ServiceCIDRs (calm_caches calm_start)) as [cidrs|e] eqn:E; [|vm_compute in E; discriminate].
    exists cidrs, [10; 96; 0; 2]. split; [reflexivity|]. vm_compute in E. injection E as <-. split.
    + apply (bool_decide_unpack _). vm_compute. exact I.
    + vm_compute. reflexivity.
Qed.

Lemma gateway_settles_witness :
  ∃ s1 s2 v, (exec calm_handle (reconcileGateway 1 (calm_caches calm_start) "default/a") calm_start).2 = s1 ∧
    (exec calm_handle (reconcileGateway 2 (calm_caches s1) "default/a") s1).2 = s2 ∧
    shows cm_gateways calm_ips calm_caches s2 (mkNN "default" "a") v.
Proof.
  destruct (gateway_settles calm_handle cm_gateways calm_ips calm_caches calm_start (mkNN "default" "a")
    (demo_gateway "a") 1 2 calm_servable) as (s1 & s2 & v & H1 & H2 & Hs & _).
  exists s1, s2, v. split; [exact (f_equal snd H1)|]. split; [exact (f_equal snd H2)|exact Hs].
Defined.

Example calm_shows :
  let s1 := (exec calm_handle (reconcileGateway 1 (calm_caches calm_start) "default/a") calm_start).2 in
  let s2 := (exec calm_handle (reconcileGateway 2 (calm_caches s1) "default/a") s1).2 in
  (λ g, sa_Value <$> Addresses (gw_status g)) <$> cm_gateways s2 !! mkNN "default" "a" = Some ["10.96.0.2"].
Proof. vm_compute. reflexivity. Qed.

(** ** An address shown by two Gateways

    A Gateway that stops being accepted is released before its status is
    written, so there is a time at which its address is free while it still
    shows it. *)

Definition losing_gateway : Gateway :=
  with_status (with_finalizers (demo_gateway "a") [controllerFinalizer])
    (mkGatewayStatus [mkStatusAddress (Some IPAddressType) "10.96.0.1"] [] []).

Definition waiting_gateway : Gateway := with_finalizers (demo_gateway "b") [controllerFinalizer].

(** The route of Gateway "b"; "a" has lost its own. *)
Definition waiting_route : TCPRoute :=
  mkTCPRoute (demo_meta "default" "r") [mkParentRef None None None "b" None None] (Rules demo_route) [].

Definition losing_start : calm_server :=
  mkCalm (route_store waiting_gateway waiting_route)
    {[mkNN "default" "a" := losing_gateway; mkNN "default" "b" := waiting_gateway]}
    {["10.96.0.1" := (Labels (ip_meta (demo_ip "a" "10.96.0.1")), ip_ParentRef (demo_ip "a" "10.96.0.1"))]}.

Definition shown (s : calm_server) (name : string) : option (list string) :=
  (λ g, sa_Value <$> Addresses (gw_status g)) <$> cm_gateways s !! mkNN "default" name.

(** C29. Gateway "a" shows its address and is no longer
    accepted.  Its worker has made the first request of the reconcile, which
    releases the address; the other Gateway worker then reconciles "b", which
    gets that address and shows it while "a" still does.  Only the first
    worker's next request, the status write, would withdraw it. *)
Theorem withdrawn_address_shared :
  let p := reconcileGateway 5 (calm_caches losing_start) "default/a" in
  let s1 := (serve calm_handle p losing_start).2 in
  let r := exec calm_handle (reconcileGateway 6 (calm_caches s1) "default/b") s1 in
  (map_to_list (cm_ips losing_start)).*1 = ["10.96.0.1"] ∧ (map_to_list (cm_ips s1)).*1 = [] ∧
  r.1 = Ok tt ∧ shown r.2 "a" = Some ["10.96.0.1"] ∧ shown r.2 "b" = Some ["10.96.0.1"] ∧
  shown (exec calm_handle (serve calm_handle p losing_start).1 r.2).2 "a" = Some [].
Proof. split_and!; vm_compute; reflexivity. Qed.
