(* ===== verification/WorkersSpec.v ===== *)
(** * Workers and queues: properties

    However events, timers, API writes and workers interleave: two workers never
    hold the same key, and a key once owed a reconcile stays owed one until it
    has been reconciled without an error. *)

From S2P Require Import Prelude KubeTypes Api Indexers RouteSpec Workqueue Handlers Workers HandlersSpec.
From S2P Require Import Reference IpamSpec.

Section workers.
Context `{API : !ApiMachinery} {Q : Type} `{WQ : !WorkQueue Q} (view : Q → queue_view).
Context `{Laws : !WorkQueueLaws view}.
Context {S : Type} (handle : ∀ r : request, S → response r * S).

Abbreviation world := (@world _ Q S).
Implicit Types (w : world) (tr : list (@action _ S)).

(** A worker's queue as a client sees it. *)
Definition qv (wk : worker) (w : world) : queue_view := view (w_queue wk w).

Lemma queue_of_set wk wk' q (qs : Queues Q) :
  queue_of wk' (set_queue wk q qs) = if decide (wk' = wk) then q else queue_of wk' qs.
Proof. by destruct wk, wk'. Qed.

(** ** Taking and finishing keys *)

Definition holding (pc : worker_pc) : option string :=
  match pc with Taken k | Reconciled k _ => Some k | AtGet | Exited => None end.

Definition held_by (wk : worker) (x : worker * worker_pc) : option string :=
  if decide (x.1 = wk) then holding x.2 else None.

Definition held (wk : worker) (ws : list (worker * worker_pc)) : list string := omap (held_by wk) ws.

Lemma held_split wk ws i x :
  ws !! i = Some x → held wk ws ≡ₚ option_list (held_by wk x) ++ held wk (take i ws ++ drop (Datatypes.S i) ws).
Proof.
  intros Hi. unfold held. rewrite <-(take_drop_middle ws i x Hi) at 1. rewrite !omap_app. cbn [omap list_omap].
  destruct (held_by wk x); simpl; [|done]. by rewrite Permutation_middle.
Qed.

Lemma held_insert wk ws i x y :
  ws !! i = Some x →
  held wk (<[i := y]> ws) ≡ₚ option_list (held_by wk y) ++ held wk (take i ws ++ drop (Datatypes.S i) ws).
Proof.
  intros Hi. assert (Hlt : (i < length ws)%nat) by (by eapply lookup_lt_Some).
  rewrite (held_split wk (<[i := y]> ws) i y) by (by apply list_lookup_insert_eq).
  by rewrite take_insert_ge, drop_insert_lt by lia.
Qed.

Lemma queue_set_worker wk' i wk pc q w :
  w_queue wk' (set_worker i wk pc q w) = if decide (wk' = wk) then q else w_queue wk' w.
Proof. apply queue_of_set. Qed.

Lemma act_get i w w' :
  controller_step handle (AGet i) w = Some w' →
  ∃ wk k (shutdown : bool) q, w_workers w !! i = Some (wk, AtGet) ∧ q_Get (w_queue wk w) = Some (k, shutdown, q) ∧
    w' = set_worker i wk (if shutdown then Exited else Taken k) q w.
Proof.
  simpl. destruct (w_workers w !! i) as [[wk []]|] eqn:Hi; try done. unfold processNext_get.
  destruct (q_Get (w_queue wk w)) as [[[k shutdown] q]|] eqn:Hg; [|done]. intros [= <-].
  by exists wk, k, shutdown, q.
Qed.

Lemma act_reconcile i now range w w' :
  controller_step handle (AReconcile i now range) w = Some w' →
  ∃ wk k err s, w_workers w !! i = Some (wk, Taken k) ∧
    exec handle (reconcile wk now range (ctl_caches (w_ctl w)) k) (w_server w) = (err, s) ∧
    w' = mkWorld (w_ctl w) (<[i := (wk, Reconciled k err)]> (w_workers w)) s.
Proof.
  simpl. destruct (w_workers w !! i) as [[wk []]|] eqn:Hi; try done.
  destruct (exec handle _ _) as [err s] eqn:He. intros [= <-]. by exists wk, key, err, s.
Qed.

Lemma act_finish i w w' :
  controller_step handle (AFinish i) w = Some w' →
  ∃ wk k err, w_workers w !! i = Some (wk, Reconciled k err) ∧
    w' = set_worker i wk AtGet (processNext_finish k err (w_queue wk w)) w.
Proof.
  simpl. destruct (w_workers w !! i) as [[wk []]|] eqn:Hi; try done. intros [= <-]. by exists wk, key, err.
Qed.

Lemma finish_view k err (q : Q) :
  let v := view q in
  view (processNext_finish k err q)
  = mkView (waiting v) (processing v ∖ {[k]})
      (match err with Err _ => if stopping v then delayed v else {[k]} ∪ delayed v | Ok _ => delayed v end) (stopping v).
Proof.
  unfold processNext_finish. simpl. rewrite q_Done_view. destruct err; [rewrite q_Forget_view|rewrite q_AddRateLimited_view]; done.
Qed.

(** ** No two workers on one key *)

(** What a queue counts as being processed is what its workers hold. *)
Definition exclusive (w : world) : Prop :=
  ∀ wk, processing (qv wk w) = list_to_set (held wk (w_workers w)) ∧ NoDup (held wk (w_workers w)).

Lemma exclusive_same w w' :
  w_workers w' = w_workers w → (∀ wk, processing (qv wk w') = processing (qv wk w)) → exclusive w → exclusive w'.
Proof. intros Hw Hp He wk. rewrite Hw, Hp. apply He. Qed.

Lemma exclusive_act a w w' : controller_step handle a w = Some w' → exclusive w → exclusive w'.
Proof.
  destruct a as [i c n|wk0|s|i|i now range|i|].
  - intros (qs & Hh & [= <-])%bind_Some. apply exclusive_same; [done|]. intros wk.
    by destruct (handlers_grow view _ _ _ _ _ Hh wk).
  - intros [= <-]. apply exclusive_same; [done|]. intros wk. unfold qv, w_queue. simpl. rewrite queue_of_set.
    case_decide as Hwk; [|done]. subst wk0. by destruct (q_Tick_view (w_queue wk w)) as (_ & _ & ? & _).
  - intros [= <-]. by apply exclusive_same.
  - intros (wk & k & shutdown & q & Hi & Hg & ->)%act_get He wk'. destruct (He wk') as [Hp Hnd].
    unfold qv. rewrite queue_set_worker. cbn [set_worker w_workers].
    pose proof (held_split wk' _ _ _ Hi) as Hold. pose proof (held_insert wk' _ _ _ (wk, if shutdown then Exited else Taken k) Hi) as Hnew.
    unfold held_by in Hold, Hnew. simpl in Hold, Hnew. destruct (decide (wk' = wk)) as [->|Hne].
    + rewrite decide_True in Hold, Hnew by done. simpl in Hold. destruct shutdown.
      * apply q_Get_shutdown in Hg as [_ ->]. simpl in Hnew. split; [by rewrite Hnew, <-Hold|by rewrite Hnew, <-Hold].
      * apply q_Get_key in Hg as (_ & Hk & ->). simpl in Hnew |- *. unfold qv in Hp. rewrite Hp in Hk |- *.
        split; [rewrite Hnew, Hold; set_solver|]. rewrite Hnew. apply list.NoDup_cons. rewrite <-Hold. split; [|done].
        by rewrite elem_of_list_to_set in Hk.
    + rewrite decide_False in Hold, Hnew by done. simpl in Hold, Hnew. by rewrite Hnew, <-Hold.
  - intros (wk & k & err & s & Hi & _ & ->)%act_reconcile He wk'. destruct (He wk') as [Hp Hnd]. cbn [w_workers].
    assert (Hh : held wk' (<[i := (wk, Reconciled k err)]> (w_workers w)) ≡ₚ held wk' (w_workers w)).
    { by rewrite (held_insert _ _ _ _ _ Hi), (held_split _ _ _ _ Hi). }
    by rewrite Hh.
  - intros (wk & k & err & Hi & ->)%act_finish He wk'. destruct (He wk') as [Hp Hnd].
    unfold qv. rewrite queue_set_worker. cbn [set_worker w_workers].
    pose proof (held_split wk' _ _ _ Hi) as Hold. pose proof (held_insert wk' _ _ _ (wk, AtGet) Hi) as Hnew.
    unfold held_by in Hold, Hnew. simpl in Hold, Hnew. destruct (decide (wk' = wk)) as [->|Hne].
    + rewrite decide_True in Hold, Hnew by done. simpl in Hold, Hnew. rewrite finish_view. simpl.
      unfold qv in Hp. rewrite Hp, Hold, Hnew. rewrite Hold in Hnd. apply list.NoDup_cons in Hnd as [Hk Hnd].
      split; [|done]. apply set_eq. intros x. rewrite elem_of_difference, !elem_of_list_to_set, elem_of_singleton.
      rewrite list.elem_of_cons. naive_solver.
    + rewrite decide_False in Hold, Hnew by done. simpl in Hold, Hnew. by rewrite Hnew, <-Hold.
  - intros [= <-]. apply exclusive_same; [done|]. intros wk. unfold qv, w_queue. simpl.
    by destruct wk; simpl; rewrite q_ShutDown_view.
Qed.

Lemma exclusive_run tr w w' : run_controller handle tr w = Some w' → exclusive w → exclusive w'.
Proof.
  revert w. induction tr as [|a tr IH]; intros w; simpl; [by intros [= <-]|].
  intros (w1 & Ha & Hr)%bind_Some He. eapply IH; [exact Hr|]. by eapply exclusive_act.
Qed.

Lemma exclusive_started w : started w → exclusive w.
Proof.
  intros (add & caches & c & s & Hnew & c' & ws & Hrun & ->) wk. unfold Run in Hrun. simpl in Hrun. injection Hrun as <- <-.
  assert (Hq : ∃ name, queue_of wk (ctl_queues c) = q_New name).
  { unfold New in Hnew. repeat (apply result_bind_ok in Hnew as (? & _ & Hnew)). injection Hnew as <-.
    destruct wk; simpl; by eexists. }
  destruct Hq as [name Hq]. unfold qv, w_queue. simpl. rewrite Hq, q_New_view. simpl.
  destruct wk; simpl; (split; [done|constructor]).
Qed.

(** C23. However the running controller is interleaved with
    events, timers and other writers, two workers never hold the same key of the
    same queue: no object is reconciled twice at the same time. *)
Theorem workers_exclusive w0 tr w i j wk pc1 pc2 k :
  started w0 → run_controller handle tr w0 = Some w →
  w_workers w !! i = Some (wk, pc1) → w_workers w !! j = Some (wk, pc2) →
  holding pc1 = Some k → holding pc2 = Some k → i = j.
Proof.
  intros Hst Hr Hi Hj Hk1 Hk2. destruct (exclusive_run _ _ _ Hr (exclusive_started _ Hst) wk) as [_ Hnd].
  destruct (decide (i = j)) as [|Hne]; [done|]. exfalso.
  rewrite (held_split wk _ _ _ Hi) in Hnd. unfold held_by at 1 in Hnd. simpl in Hnd.
  rewrite decide_True, Hk1 in Hnd by done. simpl in Hnd. apply list.NoDup_cons in Hnd as [Hout _]. apply Hout.
  apply list_elem_of_omap. exists (wk, pc2). split; [|unfold held_by; simpl; by rewrite decide_True].
  apply list.elem_of_app. destruct (decide (j < i)%nat).
  - left. apply list_elem_of_lookup. exists j. by rewrite lookup_take_lt.
  - right. apply list_elem_of_lookup. exists (j - Datatypes.S i)%nat. rewrite lookup_drop. by replace (_ + _)%nat with j by lia.
Qed.

(** ** No work is lost *)

(** The key still has to be reconciled: it is queued, delayed, about to be
    reconciled, or about to be queued again after an error. *)
Definition owed (wk : worker) (k : string) (w : world) : Prop :=
  k ∈ waiting (qv wk w) ∨ k ∈ delayed (qv wk w) ∨
  (∃ i, w_workers w !! i = Some (wk, Taken k)) ∨ ∃ i e, w_workers w !! i = Some (wk, Reconciled k (Err e)).

(** Within [tr], the key was reconciled without an error. *)
Definition served (wk : worker) (k : string) (tr : list action) (w : world) : Prop :=
  ∃ tr1 i now range tr2 w1 s, tr = tr1 ++ AReconcile i now range :: tr2 ∧ run_controller handle tr1 w = Some w1 ∧
    w_workers w1 !! i = Some (wk, Taken k) ∧
    exec handle (reconcile wk now range (ctl_caches (w_ctl w1)) k) (w_server w1) = (Ok tt, s).

Lemma served_cons wk k a tr w w1 : controller_step handle a w = Some w1 → served wk k tr w1 → served wk k (a :: tr) w.
Proof.
  intros Ha (tr1 & i & now & range & tr2 & w2 & s & -> & Hr & Hi & He).
  exists (a :: tr1), i, now, range, tr2, w2, s. split_and!; try done. simpl. by rewrite Ha.
Qed.

(** A step of worker [i] leaves the others where they are. *)
Lemma owed_workers wk k w w' i x y :
  w_workers w !! i = Some x → w_workers w' = <[i := y]> (w_workers w) →
  waiting (qv wk w) ⊆ waiting (qv wk w') → delayed (qv wk w) ⊆ delayed (qv wk w') →
  (x = (wk, Taken k) → owed wk k w') → (∀ e, x = (wk, Reconciled k (Err e)) → owed wk k w') →
  owed wk k w → owed wk k w'.
Proof.
  intros Hi Hw' Hwait Hdel Ht Hr [H|[H|[[j H]|(j & e & H)]]].
  - left. by apply Hwait.
  - right; left. by apply Hdel.
  - destruct (decide (i = j)) as [->|Hne]; [apply Ht; congruence|]. right; right; left. exists j.
    by rewrite Hw', list_lookup_insert_ne.
  - destruct (decide (i = j)) as [->|Hne]; [apply (Hr e); congruence|]. right; right; right. exists j, e.
    by rewrite Hw', list_lookup_insert_ne.
Qed.

Lemma owed_queues wk k w w' :
  w_workers w' = w_workers w → waiting (qv wk w) ∪ delayed (qv wk w) ⊆ waiting (qv wk w') ∪ delayed (qv wk w') →
  owed wk k w → owed wk k w'.
Proof.
  intros Hw Hq. unfold owed. rewrite Hw. intros [H|[H|H]]; [..|by right; right].
  - assert (Hin : k ∈ waiting (qv wk w') ∪ delayed (qv wk w')) by set_solver. set_solver.
  - assert (Hin : k ∈ waiting (qv wk w') ∪ delayed (qv wk w')) by set_solver. set_solver.
Qed.

Lemma stopping_act wk a w w' : controller_step handle a w = Some w' → stopping (qv wk w') = false → stopping (qv wk w) = false.
Proof.
  destruct a as [i c n|wk0|s|i|i now range|i|].
  - intros (qs & Hh & [= <-])%bind_Some. unfold qv, w_queue. simpl.
    destruct (handlers_grow view _ _ _ _ _ Hh wk) as (_ & _ & -> & _). done.
  - intros [= <-]. unfold qv, w_queue. simpl. rewrite queue_of_set. case_decide as Hwk; [|done]. subst wk0.
    destruct (q_Tick_view (w_queue wk w)) as (_ & _ & _ & Hs). unfold w_queue in Hs. by rewrite Hs.
  - by intros [= <-].
  - intros (wk' & k' & shutdown & q & Hi & Hg & ->)%act_get. unfold qv. rewrite queue_set_worker.
    case_decide as Hwk; [|done]. subst wk'. destruct shutdown; [apply q_Get_shutdown in Hg as [_ ->]|apply q_Get_key in Hg as (_ & _ & ->)]; done.
  - intros (wk' & k' & err & s & Hi & He & ->)%act_reconcile. done.
  - intros (wk' & k' & err & Hi & ->)%act_finish. unfold qv. rewrite queue_set_worker.
    case_decide as Hwk; [|done]. subst wk'. by rewrite finish_view.
  - intros [= <-]. unfold qv, w_queue. simpl. by destruct wk; simpl; rewrite q_ShutDown_view.
Qed.

Lemma owed_act wk k a w w' :
  controller_step handle a w = Some w' → stopping (qv wk w') = false → owed wk k w → owed wk k w' ∨ served wk k [a] w.
Proof.
  intros Ha Hs'. pose proof (stopping_act wk _ _ _ Ha Hs') as Hs. revert Ha.
  destruct a as [i c n|wk0|s|i|i now range|i|].
  - intros (qs & Hh & [= <-])%bind_Some Ho. left. revert Ho. apply owed_queues; [done|].
    unfold qv, w_queue. simpl. destruct (handlers_grow view _ _ _ _ _ Hh wk) as (_ & -> & _ & Hw). set_solver.
  - intros [= <-] Ho. left. revert Ho. apply owed_queues; [done|].
    unfold qv, w_queue. simpl. rewrite queue_of_set. case_decide as Hwk; [|done]. subst wk0.
    by destruct (q_Tick_view (queue_of wk (ctl_queues (w_ctl w)))) as (_ & ? & _).
  - intros [= <-] Ho. left. exact Ho.
  - intros (wk' & k' & shutdown & q & Hi & Hg & ->)%act_get Ho. left.
    assert (Hlt : (i < length (w_workers w))%nat) by (by eapply lookup_lt_Some).
    destruct (decide (wk = wk' ∧ k = k' ∧ shutdown = false)) as [(-> & -> & ->)|Hne].
    { right; right; left. exists i. by apply list_lookup_insert_eq. }
    destruct Ho as [H|Ho].
    + left. unfold qv in *. rewrite queue_set_worker. case_decide as Hwk; [|done]. subst wk'.
      destruct shutdown; [by apply q_Get_shutdown in Hg as [_ ->]|]. apply q_Get_key in Hg as (_ & _ & ->). set_solver.
    + destruct Ho as [H|[[j H]|(j & e & H)]].
      * right; left. unfold qv in *. rewrite queue_set_worker. case_decide as Hwk; [|done]. subst wk'.
        destruct shutdown; [by apply q_Get_shutdown in Hg as [_ ->]|by apply q_Get_key in Hg as (_ & _ & ->)].
      * right; right; left. exists j. cbn [set_worker w_workers].
        by rewrite list_lookup_insert_ne by (intros ->; congruence).
      * right; right; right. exists j, e. cbn [set_worker w_workers].
        by rewrite list_lookup_insert_ne by (intros ->; congruence).
  - intros Ha. pose proof Ha as (wk' & k' & err & s & Hi & He & ->)%act_reconcile. intros Ho.
    assert (Hlt : (i < length (w_workers w))%nat) by (by eapply lookup_lt_Some).
    destruct (decide (wk = wk' ∧ k = k')) as [[-> ->]|Hne].
    + destruct err as [[]|e]; [right; by exists [], i, now, range, [], w, s|].
      left. right; right; right. exists i, e. by apply list_lookup_insert_eq.
    + left. revert Ho. eapply owed_workers; [exact Hi|done..| |]; [intros [= -> ->]; naive_solver|done].
  - intros (wk' & k' & err & Hi & ->)%act_finish Ho. left.
    assert (Hq : waiting (qv wk w) ⊆ waiting (qv wk (set_worker i wk' AtGet (processNext_finish k' err (w_queue wk' w)) w)) ∧
                 delayed (qv wk w) ⊆ delayed (qv wk (set_worker i wk' AtGet (processNext_finish k' err (w_queue wk' w)) w))).
    { unfold qv. rewrite queue_set_worker. case_decide as Hwk; [|done]. subst wk'. rewrite finish_view. simpl.
      destruct err; [done|]. case_match; set_solver. }
    destruct Hq as [Hq1 Hq2]. revert Ho. eapply owed_workers; [exact Hi|done|done|done|done|].
    intros e [= -> -> ->]. right; left. unfold qv in Hs |- *. rewrite queue_set_worker, decide_True, finish_view by done.
    simpl. rewrite Hs. set_solver.
  - intros [= <-] Ho. left. revert Ho. apply owed_queues; [done|].
    unfold qv, w_queue. simpl. by destruct wk; simpl; rewrite q_ShutDown_view.
Qed.

Lemma stopping_run wk tr w w' : run_controller handle tr w = Some w' → stopping (qv wk w') = false → stopping (qv wk w) = false.
Proof.
  revert w. induction tr as [|a tr IH]; intros w; simpl; [by intros [= <-]|].
  intros (w1 & Ha & Hr)%bind_Some Hs. eapply stopping_act; [exact Ha|]. by eapply IH.
Qed.

Lemma owed_run wk k tr w w' :
  run_controller handle tr w = Some w' → stopping (qv wk w') = false → owed wk k w → owed wk k w' ∨ served wk k tr w.
Proof.
  intros Hr Hs. revert w Hr. induction tr as [|a tr IH]; intros w; simpl; [intros [= <-]; by left|].
  intros (w1 & Ha & Hr)%bind_Some Ho.
  destruct (owed_act _ _ _ _ _ Ha (stopping_run _ _ _ _ Hr Hs) Ho) as [Ho1|Hsv].
  - destruct (IH w1 Hr Ho1) as [?|?]; [by left|right]. by eapply served_cons.
  - right. destruct Hsv as (tr1 & i & now & range & tr2 & w2 & s & Heq & Hr1 & Hi & He).
    exists tr1, i, now, range, (tr2 ++ tr), w2, s. split; [|done].
    change (a :: tr) with ([a] ++ tr). by rewrite Heq, <-(assoc_L (++)).
Qed.

(** C6. When an event concerns a key, then however the
    controller runs on, and until it is shut down, either the key still has to be
    reconciled, or it has been reconciled without an error since the event; a
    reconcile that fails is owed again. *)
Theorem events_are_served i c n w w1 wk k tr w2 :
  controller_step handle (AEvent i c n) w = Some w1 → woken c n i wk k →
  run_controller handle tr w1 = Some w2 → stopping (qv wk w2) = false →
  owed wk k w2 ∨ served wk k tr w1.
Proof.
  intros (qs & Hh & [= <-])%bind_Some Hw Hr Hs. apply (owed_run wk k tr _ w2 Hr Hs). left.
  pose proof (stopping_run _ _ _ _ Hr Hs) as Hs1. unfold qv, w_queue in *. simpl in *.
  destruct (handlers_grow view _ _ _ _ _ Hh wk) as (_ & _ & Hst & Hg). apply Hg. right. by rewrite <-Hst.
Qed.

End workers.

(** ** The registered indexes *)

(** An indexer's lookup in the index of a name. *)
Definition ByIndex (indexers : list (string * (object → option (list string)))) (objs : list object)
    (name key : string) : result (list object) :=
  match List.find (λ i, bool_decide (i.1 = name)) indexers with
  | None => Err (ErrorString ("Index with name " +:+ name +:+ " does not exist"))
  | Some (_, index) => Ok (filter (λ o, key ∈ default [] (index o)) objs)
  end.

Lemma by_index_map {A} (inj : A → object) index (objs : list A) key :
  (let! found := by_index inj index objs key in Ok (map inj found))
  = Ok (filter (λ o, key ∈ default [] (index o)) (map inj objs)).
Proof.
  unfold by_index. simpl. f_equal. induction objs as [|o objs IH]; [done|].
  rewrite list.filter_cons. simpl map at 2. rewrite list.filter_cons.
  destruct (decide (key ∈ default [] (index (inj o)))) as [Hin|Hin].
  - rewrite decide_True by (by apply bool_decide_true). simpl. by rewrite IH.
  - rewrite decide_False by (by rewrite bool_decide_eq_true). done.
Qed.

(** Every lookup of the reconcilers and handlers reads an index that [New]
    registers, under the name it is registered by. *)
Lemma lookups_registered st key :
  let c := caches_of st in
  (let! found := gateway_ByClass c key in Ok (map OGateway found))
    = ByIndex (controller_indexers gatewayInformer) (map OGateway (st_gateways st)) gatewayByClassIndex key ∧
  route_ByGateway c key
    = ByIndex (controller_indexers routeInformer) (map OTCPRoute (st_routes st)) routeByGatewayIndex key ∧
  (let! found := route_ByBackendEndpointSelector c key in Ok (map OTCPRoute found))
    = ByIndex (controller_indexers routeInformer) (map OTCPRoute (st_routes st))
        routeByBackendEndpointSelectorIndex key ∧
  ipAddress_ByGateway c key
    = ByIndex (controller_indexers ipAddressInformer) (map OIPAddress (st_ips st)) ipAddressByGatewayIndex key ∧
  (let! found := endpointSlice_ByEndpointSelector c key in Ok (map OEndpointSlice found))
    = ByIndex (controller_indexers endpointSliceInformer) (map OEndpointSlice (st_slices st))
        endpointSliceByEndpointSelectorIndex key.
Proof.
  assert (Hid : ∀ index objs, by_index id index objs key = Ok (filter (λ o, key ∈ default [] (index o)) objs)).
  { intros index objs. unfold by_index. f_equal. apply list_filter_iff. intros o. by rewrite bool_decide_eq_true. }
  split_and!.
  - apply (by_index_map OGateway indexGatewayByClass).
  - apply (Hid indexRouteByGateway).
  - apply (by_index_map OTCPRoute indexRouteByBackendEndpointSelector).
  - apply (Hid indexIPAddressByGateway).
  - apply (by_index_map OEndpointSlice indexEndpointSliceByEndpointSelector).
Qed.

(** ** Worked examples: the controller on in-memory queues *)

Definition demo_state : Caches :=
  caches_of (mkStore [demo_class] [demo_gateway "a"; demo_gateway "b"] [] [] [] [] [] [demo_cidr "10.96.0.0/29"]).

Definition demo_server : Server :=
  set_gateways empty_server
    {[mkNN "default" "a" := demo_gateway "a"; mkNN "default" "b" := demo_gateway "b"]}.

Definition demo_world : @world _ ref_queue Server :=
  mkWorld
    (mkController demo_state
       (mkQueues (q_New gatewayClassQueueName) (q_New gatewayQueueName) (q_New routeQueueName)
          (q_New endpointSelectorQueueName)) true)
    ((λ wk, (wk, AtGet)) <$> started_workers) demo_server.

Lemma demo_started : started demo_world.
Proof.
  exists (λ _ _, Ok tt), demo_state. eexists _, demo_server. split; [reflexivity|].
  eexists _, _. split; reflexivity.
Qed.

Definition gateway_added (name : string) : @action _ Server :=
  AEvent gatewayInformer demo_state (AddFunc (OGateway (demo_gateway name))).

(** Both Gateway workers take a key while the first is added again. *)
Definition busy_trace : list (@action _ Server) :=
  [gateway_added "a"; gateway_added "b"; AGet 1; gateway_added "a"; AGet 2].

Lemma workers_exclusive_witness :
  ∃ w, run_controller ref_handle busy_trace demo_world = Some w ∧
    w_workers w !! 1%nat = Some (runGatewayWorker, Taken "default/a") ∧
    ∀ j pc, w_workers w !! j = Some (runGatewayWorker, pc) → holding pc = Some "default/a" → 1%nat = j.
Proof.
  assert (Hrun : w_workers <$> run_controller ref_handle busy_trace demo_world
    = Some [(runGatewayClassWorker, AtGet); (runGatewayWorker, Taken "default/a");
            (runGatewayWorker, Taken "default/b"); (runRouteWorker, AtGet); (runEndpointSelectorWorker, AtGet)])
    by (vm_compute; reflexivity).
  destruct (run_controller ref_handle busy_trace demo_world) as [w|] eqn:E; [|discriminate].
  exists w. cbn [fmap option_fmap option_map] in Hrun. apply (inj Some) in Hrun. split; [reflexivity|].
  assert (H1 : w_workers w !! 1%nat = Some (runGatewayWorker, Taken "default/a")) by (rewrite Hrun; reflexivity).
  split; [exact H1|]. intros j pc Hj Hk.
  exact (workers_exclusive ref_view ref_handle demo_world busy_trace w 1 j runGatewayWorker
    (Taken "default/a") pc "default/a" demo_started E H1 Hj eq_refl Hk).
Defined.

(** The event for "a" is handled to the end; the finalizer is added. *)
Definition served_trace : list (@action _ Server) := [AGet 1; AReconcile 1 0 (λ _, []); AFinish 1].

Definition after_event : @world _ ref_queue Server := default demo_world (controller_step ref_handle (gateway_added "a") demo_world).
Definition after_served : @world _ ref_queue Server := default demo_world (run_controller ref_handle served_trace after_event).

Lemma after_served_idle : ¬ owed ref_view runGatewayWorker "default/a" after_served.
Proof.
  intros [H|[H|[[i H]|(i & e & H)]]].
  - revert H. apply (bool_decide_unpack _). vm_compute. exact I.
  - revert H. apply (bool_decide_unpack _). vm_compute. exact I.
  - assert (Hw : snd <$> w_workers after_served = replicate 5 AtGet) by (vm_compute; reflexivity).
    apply (f_equal (fmap snd)) in H. rewrite <-list_lookup_fmap, Hw in H.
    apply lookup_replicate in H as [H _]. discriminate.
  - assert (Hw : snd <$> w_workers after_served = replicate 5 AtGet) by (vm_compute; reflexivity).
    apply (f_equal (fmap snd)) in H. rewrite <-list_lookup_fmap, Hw in H.
    apply lookup_replicate in H as [H _]. discriminate.
Qed.

Lemma events_are_served_witness : served ref_handle runGatewayWorker "default/a" served_trace after_event.
Proof.
  destruct (events_are_served ref_view ref_handle gatewayInformer demo_state
    (AddFunc (OGateway (demo_gateway "a"))) demo_world after_event runGatewayWorker "default/a" served_trace after_served)
    as [H|H].
  - reflexivity.
  - apply (woken_gateway _ _ (demo_gateway "a")); [reflexivity|]. left. split; [reflexivity|]. split; [split; discriminate|reflexivity].
  - assert (Hs : (match run_controller ref_handle served_trace after_event with Some _ => true | None => false end) = true) by (vm_compute; reflexivity).
    unfold after_served. destruct (run_controller ref_handle served_trace after_event); [reflexivity|discriminate].
  - vm_compute. reflexivity.
  - exfalso. exact (after_served_idle H).
  - exact H.
Defined.
