(* ===== verification/Dns.v ===== *)
(** * plugin/k8s_clusterip_gw: the CoreDNS plugin

    The handler of plugin.go, its Gateway store of store.go and the parsing of
    its configuration in setup.go.  The domain-name functions of miekg/dns and
    CoreDNS and caddy's token dispenser are interfaces; a panic is [None]. *)

From Stdlib Require Import Ascii.
From S2P Require Import Prelude GoNet GoStrings KubeTypes Api.

(** ** Domain names: miekg/dns and [plugin.Zones] *)

Class DnsPackage := {
  Fqdn : string → string;
  IsSubDomain : string → string → bool;       (** parent, child *)
  SplitDomainName : string → list string;
  Zones_Matches : list string → string → string;
  ErrOnce : error;
}.

Definition TypeA : Z := 1.
Definition TypeSOA : Z := 6.
Definition ClassINET : Z := 1.
Definition RcodeSuccess : Z := 0.
Definition RcodeServerFailure : Z := 2.
Definition RcodeNameError : Z := 3.

(** [strings.ToLower] of an ASCII string. *)
Definition lower_char (c : ascii) : ascii :=
  if (65 <=? code c) && (code c <=? 90) then ascii_of_N (N_of_ascii c + 32) else c.

Fixpoint ToLower (s : string) : string :=
  match s with EmptyString => EmptyString | String c s => String (lower_char c) (ToLower s) end.

Fixpoint has_suffix (s suffix : string) : bool :=
  if bool_decide (s = suffix) then true
  else match s with EmptyString => false | String _ s => has_suffix s suffix end.

(** [strings.TrimSuffix]. *)
Definition TrimSuffix (s suffix : string) : string :=
  if has_suffix s suffix then String.substring 0 (String.length s - String.length suffix) s else s.

(** ** plugin.go *)

Definition pluginName : string := "k8s_clusterip_gw".
Definition defaultZone : string := "gw.cluster.local.".
Definition defaultTTL : Z := 30.
Definition dns_gatewayClassName : string := "clusterip-gw".

Definition errGatewayNotFound : error := Sentinel "gateway record not found".

(** [GetByKey]: the Gateway (nil is [None]) and whether it exists. *)
Record gatewayStore := mkGatewayStore {
  HasSynced : bool;
  GetByKey : string → result (option Gateway * bool);
}.

Record K8sClusterIPGW := mkK8sClusterIPGW {
  k_Zones : list string; k_TTL : Z; k_store : option gatewayStore }.

Inductive RR :=
| RR_A (name : string) (class ttl : Z) (a : list Z)
| RR_SOA (name : string) (class ttl : Z) (ns mbox : string) (serial refresh retry expire minttl : Z).

(** A reply: how it was initialised from the request, and what the plugin sets. *)
Inductive reply_base := SetReply | SetRcode (rcode : Z).

Record reply := mkReply {
  rp_Base : reply_base; rp_Authoritative : bool; rp_Answer : list RR; rp_Ns : list RR; rp_SizeAndDo : bool }.

(** What CoreDNS's [request.Request] says of the query. *)
Record dns_request := mkDnsRequest { rq_Name : string; rq_QName : string; rq_QType : Z; rq_Do : bool }.

Section plugin.
Context `{DP : !DnsPackage}.

Definition plugin_New (store : option gatewayStore) (zones : list string) (ttl : Z) : K8sClusterIPGW :=
  let zones := match zones with [] => [defaultZone] | _ => zones end in
  let ttl := if decide (ttl = 0) then defaultTTL else ttl in
  mkK8sClusterIPGW (map Fqdn zones) ttl store.

(** What a handler returns: the code, and an error if any; with what it wrote. *)
Definition outcome : Type := list reply * (Z * option error).

(** [w.WriteMsg]. *)
Definition respond (WriteMsg : reply → option error) (msg : reply) (rcode : Z) : outcome :=
  ([msg], match WriteMsg msg with Some err => (RcodeServerFailure, Some err) | None => (rcode, None) end).

Definition soa (k : K8sClusterIPGW) (zone : string) : RR :=
  RR_SOA (Fqdn zone) ClassINET (k_TTL k) ("ns." +:+ Fqdn zone) ("hostmaster." +:+ Fqdn zone)
    1 7200 1800 86400 (k_TTL k).

Definition writeNegative (WriteMsg : reply → option error) (k : K8sClusterIPGW) (zone : string) (rcode : Z) : outcome :=
  respond WriteMsg
    (mkReply (SetRcode rcode) true [] (if decide (rcode ≠ RcodeServerFailure) then [soa k zone] else []) false)
    rcode.

Definition writeAResponse (WriteMsg : reply → option error) (k : K8sClusterIPGW) (qname : string)
    (addresses : list (list Z)) : outcome :=
  respond WriteMsg
    (mkReply SetReply true (map (λ address, RR_A qname ClassINET (k_TTL k) address) addresses) [] false)
    RcodeSuccess.

Definition parseGatewayQuery (qname zone : string) : option (string * string) :=
  if negb (IsSubDomain zone qname) then None
  else if decide (qname = zone) then None
  else
    match SplitDomainName (TrimSuffix (TrimSuffix qname zone) ".") with
    | [name; namespace] => Some (name, namespace)
    | _ => None
    end.

(** The body of the loop over [Status.Addresses]. *)
Definition ipv4_address (address : GatewayStatusAddress) : option (list Z) :=
  if match sa_Type address with Some t => bool_decide (t ≠ IPAddressType) | None => false end then None
  else ip ← ParseIP (sa_Value address); To4 ip.

Definition ipv4Addresses (gateway : option Gateway) : list (list Z) :=
  match gateway with
  | None => []
  | Some gateway => omap ipv4_address (Addresses (gw_status gateway))
  end.

Definition lookupGateway (store : gatewayStore) (namespace name : string) : result (list (list Z)) :=
  match GetByKey store (namespace +:+ "/" +:+ name) with
  | Err err => Err (WrapError ("get gateway " +:+ namespace +:+ "/" +:+ name +:+ " from cache") err)
  | Ok (Some gateway, true) =>
      if decide (DeletionTimestamp (gw_meta gateway) ≠ None) then Err errGatewayNotFound
      else if decide (GatewayClassName (gw_spec gateway) ≠ dns_gatewayClassName) then Err errGatewayNotFound
      else Ok (ipv4Addresses (Some gateway))
  | Ok _ => Err errGatewayNotFound
  end.

(** [errors.Is(err, errGatewayNotFound)]. *)
Fixpoint isGatewayNotFound (err : error) : bool :=
  match err with
  | WrapError _ inner => isGatewayNotFound inner
  | _ => bool_decide (err = errGatewayNotFound)
  end.

(** [state.QName()[len(state.QName())-len(zone):]]; a negative bound panics. *)
Definition qname_zone (qname zone : string) : option string :=
  if (String.length qname <? String.length zone)%nat then None
  else Some (String.substring (String.length qname - String.length zone) (String.length zone) qname).

(** The case where the zone's data is available. *)
Definition serve_zone (WriteMsg : reply → option error) (k : K8sClusterIPGW) (store : gatewayStore)
    (state : dns_request) (zone : string) : outcome :=
  if bool_decide (rq_QType state = TypeSOA) && bool_decide (rq_Name state = ToLower zone) then
    respond WriteMsg (mkReply SetReply true [soa k zone] [] (rq_Do state)) RcodeSuccess
  else
    match parseGatewayQuery (rq_Name state) (ToLower zone) with
    | None => writeNegative WriteMsg k zone RcodeNameError
    | Some (name, namespace) =>
        match lookupGateway store namespace name with
        | Err err =>
            if isGatewayNotFound err then writeNegative WriteMsg k zone RcodeNameError
            else ([], (RcodeServerFailure, Some err))
        | Ok addresses =>
            if decide (rq_QType state = TypeA) then
              match addresses with
              | [] => writeNegative WriteMsg k zone RcodeNameError
              | _ => writeAResponse WriteMsg k (rq_QName state) addresses
              end
            else writeNegative WriteMsg k zone RcodeSuccess
        end
    end.

(** [next] is what [plugin.NextOrFailure] returns. *)
Definition ServeDNS (WriteMsg : reply → option error) (next : outcome) (k : K8sClusterIPGW) (state : dns_request)
    : option outcome :=
  let zone := Zones_Matches (k_Zones k) (rq_Name state) in
  if decide (zone = "") then Some next
  else
    zone ← qname_zone (rq_QName state) zone;
    match k_store k with
    | Some store =>
        if HasSynced store then Some (serve_zone WriteMsg k store state zone)
        else Some (writeNegative WriteMsg k zone RcodeServerFailure)
    | None => Some (writeNegative WriteMsg k zone RcodeServerFailure)
    end.

End plugin.

(** ** store.go

    [get] is the informer store's [GetByKey]; the copy of a value is the value. *)
Definition informerGatewayStore_GetByKey `{!ApiMachinery} (get : string → result (option object)) (key : string)
    : option (result (option Gateway * bool)) :=
  match get key with
  | Err err => Some (Err err)
  | Ok None => Some (Ok (None, false))
  | Ok (Some (OGateway gateway)) => Some (Ok (Some gateway, true))
  | Ok (Some _) => None
  end.

(** ** setup.go: the configuration block *)

(** [caddy.Controller]'s token dispenser. *)
Class Dispenser (C : Type) := {
  c_Next : C → bool * C;
  c_RemainingArgs : C → list string * C;
  c_NextBlock : C → bool * C;
  c_Val : C → string;
  c_ArgErr : C → error;
  c_Errf : C → string → error;   (** of the formatted message *)
}.

(** Documented: [Next] and [NextBlock] return true when they have loaded a
    token; reading tokens never adds any. *)
Class DispenserLaws {C : Type} `{!Dispenser C} (left : C → nat) : Prop := {
  c_Next_left c c' : c_Next c = (true, c') → (left c' < left c)%nat;
  c_RemainingArgs_left c : (left (c_RemainingArgs c).2 ≤ left c)%nat;
  c_NextBlock_left c b c' : c_NextBlock c = (b, c') → (if b then left c' < left c else left c' ≤ left c)%nat;
}.

Section setup.
Context `{DP : !DnsPackage} {C : Type} `{DC : !Dispenser C}.

(** The loop over the block's properties; [None] is running out of fuel. *)
Fixpoint parse_block (fuel : nat) (c : C) (handler : K8sClusterIPGW) : option (result (K8sClusterIPGW * C)) :=
  match fuel with
  | O => None
  | S fuel =>
      let '(more, c) := c_NextBlock c in
      if negb more then Some (Ok (handler, c))
      else if decide (c_Val c = "ttl") then
        let '(args, c) := c_RemainingArgs c in
        match args with
        | [arg] =>
            match Atoi arg with
            | Err err => Some (Err err)
            | Ok ttl =>
                if (ttl <? 0) || (3600 <? ttl)
                then Some (Err (c_Errf c ("ttl must be in range [0, 3600]: " +:+ pretty ttl)))
                else parse_block fuel c (mkK8sClusterIPGW (k_Zones handler) (ttl mod 2 ^ 32) (k_store handler))
            end
        | _ => Some (Err (c_ArgErr c))
        end
      else Some (Err (c_Errf c ("unknown property " +:+ Quote (c_Val c))))
  end.

(** The loop over the plugin's occurrences. *)
Fixpoint parse_loop (fuel : nat) (i : nat) (c : C) (handler : K8sClusterIPGW) : option (result K8sClusterIPGW) :=
  match fuel with
  | O => None
  | S fuel =>
      let '(more, c) := c_Next c in
      if negb more then Some (Ok handler)
      else if (0 <? i)%nat then Some (Err ErrOnce)
      else
        let '(args, c) := c_RemainingArgs c in
        let zones := match args with
          | [] => Ok (k_Zones handler)
          | [arg] => Ok [Fqdn arg]
          | _ => Err (c_ArgErr c)
          end in
        match zones with
        | Err err => Some (Err err)
        | Ok zones =>
            r ← parse_block (S fuel) c (mkK8sClusterIPGW zones (k_TTL handler) (k_store handler));
            match r with
            | Err err => Some (Err err)
            | Ok (handler, c) => parse_loop fuel (S i) c handler
            end
        end
  end.

Definition parse (fuel : nat) (c : C) : option (result K8sClusterIPGW) :=
  parse_loop fuel 0 c (plugin_New None [defaultZone] defaultTTL).

(** What a set-up plugin leaves with caddy: the handler, and the variables its
    hooks share: the contexts created so far, with whether each is cancelled,
    the one [cancel] cancels, and those [store.Run] was started with. *)
Record plugin_instance := mkInstance {
  pi_handler : K8sClusterIPGW;
  pi_contexts : list bool;
  pi_cancel : option nat;
  pi_runs : list nat;
}.

(** The user agent names CoreDNS and the Go runtime. *)
Definition user_agent (CoreName CoreVersion GitCommit GOOS GOARCH Version : string) : string :=
  CoreName +:+ "/" +:+ CoreVersion +:+ " git_commit:" +:+ GitCommit +:+ " (" +:+ GOOS +:+ "/" +:+ GOARCH +:+ "/"
  +:+ Version +:+ ")".

(** The client for a user agent, with the informer it is watched through. *)
Definition newInformerGatewayStore (NewForConfig : string → result gatewayStore) (UserAgent : string)
    : result gatewayStore :=
  match NewForConfig UserAgent with
  | Err err => Err (WrapError "build Gateway API client" err)
  | Ok informer => Ok informer
  end.

(** Errors are wrapped by [plugin.Error]. *)
Definition setup (plugin_Error : string → error → error) (InClusterConfig : result unit)
    (NewForConfig : string → result gatewayStore) (UserAgent : string) (fuel : nat) (c : C)
    : option (result plugin_instance) :=
  r ← parse fuel c;
  Some match r with
  | Err err => Err (plugin_Error pluginName err)
  | Ok handler =>
      match InClusterConfig with
      | Err err => Err (plugin_Error pluginName (WrapError "build in-cluster config" err))
      | Ok _ =>
          match newInformerGatewayStore NewForConfig UserAgent with
          | Err err => Err (plugin_Error pluginName err)
          | Ok store =>
              Ok (mkInstance (mkK8sClusterIPGW (k_Zones handler) (k_TTL handler) (Some store)) [] None [])
          end
      end
  end.

Definition OnStartup (i : plugin_instance) : plugin_instance :=
  let ctx := length (pi_contexts i) in
  mkInstance (pi_handler i) (pi_contexts i ++ [false]) (Some ctx) (pi_runs i ++ [ctx]).

Definition OnShutdown (i : plugin_instance) : plugin_instance :=
  match pi_cancel i with
  | Some ctx => mkInstance (pi_handler i) (<[ctx := true]> (pi_contexts i)) (pi_cancel i) (pi_runs i)
  | None => i
  end.

(** The watches that have not been told to stop. *)
Definition watching (i : plugin_instance) : list nat :=
  filter (λ ctx, pi_contexts i !! ctx = Some false) (pi_runs i).

(** [AddPlugin]: the handler in front of [next]. *)
Definition plugin_handler (WriteMsg : reply → option error) (next : outcome) (i : plugin_instance)
    (state : dns_request) : option outcome :=
  ServeDNS WriteMsg next (pi_handler i) state.

End setup.
