(* ===== verification/DnsSpec.v ===== *)
(** * The CoreDNS plugin: properties

    Names of served Gateways resolve to the addresses in their status and to
    nothing else, the handler does not panic, and reading the configuration
    terminates with a TTL in range. *)

From Stdlib Require Import Ascii.
From S2P Require Import Prelude GoNet GoStrings KubeTypes Api Indexers Trackers SystemSpec Dns.

(** ** Strings *)

Lemma length_ToLower s : String.length (ToLower s) = String.length s.
Proof. induction s as [|c s IH]; simpl; [done|]. by rewrite IH. Qed.

Lemma lower_char_idemp c : lower_char (lower_char c) = lower_char c.
Proof. destruct c as [[] [] [] [] [] [] [] []]; reflexivity. Qed.

Lemma ToLower_idemp s : ToLower (ToLower s) = ToLower s.
Proof. induction s as [|c s IH]; simpl; [done|]. by rewrite IH, lower_char_idemp. Qed.

Lemma ToLower_app a b : ToLower (a +:+ b) = ToLower a +:+ ToLower b.
Proof. induction a as [|c a IH]; [done|]. rewrite string_app_cons. simpl. by rewrite IH. Qed.

Lemma ToLower_substring n m s : ToLower (String.substring n m s) = String.substring n m (ToLower s).
Proof.
  revert n m. induction s as [|c s IH]; intros [|n] [|m]; simpl; rewrite ?IH; done.
Qed.

Lemma has_suffix_app a b : has_suffix (a +:+ b) b = true.
Proof.
  induction a as [|c a IH].
  - rewrite string_app_nil. destruct b; [done|]. unfold has_suffix. by rewrite bool_decide_true.
  - rewrite string_app_cons. cbn [has_suffix]. by case_bool_decide.
Qed.

Lemma has_suffix_length s b : has_suffix s b = true → (String.length b ≤ String.length s)%nat.
Proof.
  induction s as [|c s IH]; simpl; case_bool_decide as E; try (subst b; done); [done|].
  intros H%IH. lia.
Qed.

Lemma TrimSuffix_app a b : TrimSuffix (a +:+ b) b = a.
Proof.
  unfold TrimSuffix. rewrite has_suffix_app, string_length_app.
  replace (_ + _ - _)%nat with (String.length a) by lia. apply substring_prefix.
Qed.

(** ** Domain names *)

(** A label without dots or escapes. *)
Definition plain_label (l : string) : Prop := l ≠ "" ∧ has_char 46 l = false ∧ has_char 92 l = false.

(** [<name>.<namespace>.<zone>]. *)
Definition gateway_domain (name namespace zone : string) : string := name +:+ "." +:+ namespace +:+ "." +:+ zone.

(** Labels with dots between them. *)
Definition join_labels (labels : list string) : string := String.concat "." labels.

(** Documented behaviour of miekg/dns and CoreDNS on fully qualified names. *)
Class DnsPackageLaws `{!DnsPackage} : Prop := {
  Fqdn_empty : Fqdn "" = ".";
  Fqdn_idemp s : Fqdn (Fqdn s) = Fqdn s;
  IsSubDomain_below z labels :
    labels ≠ [] → Forall plain_label labels → IsSubDomain z (join_labels labels +:+ "." +:+ z) = true;
  IsSubDomain_case z n : IsSubDomain z n = IsSubDomain (ToLower z) (ToLower n);
  IsSubDomain_length z n :
    Fqdn z = z → Fqdn n = n → IsSubDomain z n = true → (String.length z ≤ String.length n)%nat;
  IsSubDomain_labels z n :
    Fqdn z = z → Fqdn n = n → z ≠ "." → IsSubDomain z n = true →
    ToLower n = ToLower z ∨ ∃ p, ToLower n = p +:+ "." +:+ ToLower z;
  SplitDomainName_join labels : labels ≠ [] → Forall plain_label labels → SplitDomainName (join_labels labels) = labels;
  SplitDomainName_two s a b : SplitDomainName s = [a; b] → Fqdn s = a +:+ "." +:+ b +:+ ".";
  Zones_Matches_spec zs n :
    (Zones_Matches zs n = "" ∧ ∀ z, z ∈ zs → z ≠ "" → IsSubDomain z n = false) ∨
    (Zones_Matches zs n ∈ zs ∧ IsSubDomain (Zones_Matches zs n) n = true);
}.

Section plugin.
Context `{DP : !DnsPackage}.
Implicit Types (k : K8sClusterIPGW) (state : dns_request) (store : gatewayStore).






Context `{Laws : !DnsPackageLaws}.

Lemma join_labels_snoc labels l :
  labels ≠ [] → join_labels (labels ++ [l]) = join_labels labels +:+ "." +:+ l.
Proof.
  unfold join_labels. induction labels as [|l1 labels IH]; intros Hne; [done|]. destruct labels as [|l2 labels]; [done|].
  change (String.concat "." ((l1 :: l2 :: labels) ++ [l])) with (l1 +:+ "." +:+ String.concat "." ((l2 :: labels) ++ [l])).
  rewrite IH by done. change (String.concat "." (l1 :: l2 :: labels)) with (l1 +:+ "." +:+ String.concat "." (l2 :: labels)).
  by rewrite !string_app_assoc.
Qed.

(** The name that is asked for a Gateway. *)
Lemma gateway_domain_labels labels namespace zone :
  labels ≠ [] →
  gateway_domain (join_labels labels) namespace zone = join_labels (labels ++ [namespace]) +:+ "." +:+ zone.
Proof. intros Hne. rewrite join_labels_snoc by done. unfold gateway_domain. by rewrite !string_app_assoc. Qed.

Lemma parse_below p zone :
  IsSubDomain zone (p +:+ "." +:+ zone) = true →
  parseGatewayQuery (p +:+ "." +:+ zone) zone
  = match SplitDomainName p with [name; namespace] => Some (name, namespace) | _ => None end.
Proof.
  intros Hsub. unfold parseGatewayQuery. rewrite Hsub. simpl. rewrite decide_False.
  - rewrite <-string_app_assoc. by rewrite !TrimSuffix_app.
  - intros H. apply (f_equal String.length) in H. revert H. rewrite !string_length_app. simpl. lia.
Qed.

(** A Gateway is named in the query only if its name is one label. *)
Lemma parse_domain labels namespace zone :
  labels ≠ [] → Forall plain_label labels → plain_label namespace →
  parseGatewayQuery (gateway_domain (join_labels labels) namespace zone) zone
  = match labels with [name] => Some (name, namespace) | _ => None end.
Proof.
  intros Hne Hl Hns. rewrite gateway_domain_labels by done.
  assert (Hall : Forall plain_label (labels ++ [namespace])) by (apply list.Forall_app; split; [done|by constructor]).
  rewrite parse_below by (apply IsSubDomain_below; [by destruct labels|done]).
  rewrite SplitDomainName_join by (done || by destruct labels). by destruct labels as [|? [|? [|? ?]]].
Qed.

(** The handler never panics: for a fully qualified query and
    zones as [New] leaves them, the part of the name it slices off is there. *)
Theorem ServeDNS_total WriteMsg next k state :
  (∀ z, z ∈ k_Zones k → Fqdn z = z) → Fqdn (rq_Name state) = rq_Name state →
  rq_Name state = ToLower (rq_QName state) →
  is_Some (ServeDNS WriteMsg next k state).
Proof.
  intros Hz Hf Hn. unfold ServeDNS. case_decide as Hm; [done|].
  assert (Hlen : (String.length (Zones_Matches (k_Zones k) (rq_Name state)) ≤ String.length (rq_QName state))%nat).
  { destruct (Zones_Matches_spec (k_Zones k) (rq_Name state)) as [[? _]|[Hin Hsub]]; [done|].
    apply IsSubDomain_length in Hsub; [|by apply Hz|done]. rewrite <-(length_ToLower (rq_QName state)), <-Hn. exact Hsub. }
  unfold qname_zone. rewrite (proj2 (Nat.ltb_ge _ _)) by exact Hlen.
  simpl. destruct (k_store k); [destruct (HasSynced _)|]; done.
Qed.

(** Where a query whose name ends in the zone that matches it is answered. *)
Lemma ServeDNS_zone WriteMsg next k state store p zone :
  Zones_Matches (k_Zones k) (rq_Name state) = zone → zone ≠ "" → k_store k = Some store → HasSynced store = true →
  rq_Name state = ToLower (rq_QName state) → rq_Name state = p +:+ ToLower zone →
  ∃ zone', ToLower zone' = ToLower zone ∧ ServeDNS WriteMsg next k state = Some (serve_zone WriteMsg k store state zone').
Proof.
  intros Hm Hz Hst Hsync Hlow Hq.
  assert (Hlen : String.length (rq_QName state) = (String.length p + String.length zone)%nat).
  { by rewrite <-(length_ToLower (rq_QName state)), <-Hlow, Hq, string_length_app, length_ToLower. }
  exists (String.substring (String.length p) (String.length zone) (rq_QName state)). split.
  - rewrite ToLower_substring, <-Hlow, Hq, <-(length_ToLower zone). apply substring_suffix.
  - unfold ServeDNS. rewrite Hm, decide_False by done. unfold qname_zone. rewrite Hlen.
    rewrite (proj2 (Nat.ltb_ge _ _)) by lia. replace (_ + _ - _)%nat with (String.length p) by lia.
    simpl. by rewrite Hst, Hsync.
Qed.

Lemma ServeDNS_domain WriteMsg next k state store zone labels namespace :
  k_Zones k = [zone] → zone ≠ "" → k_store k = Some store → HasSynced store = true →
  labels ≠ [] → Forall plain_label labels → plain_label namespace →
  rq_Name state = ToLower (rq_QName state) →
  rq_Name state = gateway_domain (join_labels labels) namespace (ToLower zone) →
  ∃ zone', ToLower zone' = ToLower zone ∧
    ServeDNS WriteMsg next k state = Some (serve_zone WriteMsg k store state zone') ∧
    parseGatewayQuery (rq_Name state) (ToLower zone')
    = match labels with [name] => Some (name, namespace) | _ => None end.
Proof.
  intros Hzs Hz Hst Hsync Hne Hl Hns Hlow Hq. pose proof Hq as Hd. rewrite gateway_domain_labels in Hd by done.
  assert (Hlow' : ToLower (rq_Name state) = rq_Name state) by by rewrite Hlow, ToLower_idemp.
  assert (Hsub : IsSubDomain zone (rq_Name state) = true).
  { rewrite IsSubDomain_case, Hlow', Hd. apply IsSubDomain_below; [by destruct labels|].
    apply list.Forall_app. split; [done|by constructor]. }
  assert (Hm : Zones_Matches (k_Zones k) (rq_Name state) = zone).
  { destruct (Zones_Matches_spec (k_Zones k) (rq_Name state)) as [[_ Hno]|[Hin _]].
    - rewrite Hzs in Hno. rewrite (Hno zone) in Hsub; [done|by left|done].
    - rewrite Hzs in Hin at 2. by apply list_elem_of_singleton in Hin. }
  rewrite <-string_app_assoc in Hd.
  destruct (ServeDNS_zone WriteMsg next k state store _ zone Hm Hz Hst Hsync Hlow Hd) as (zone' & Hz' & Hserve).
  exists zone'. split_and!; [done|done|]. rewrite Hz', Hq. by apply parse_domain.
Qed.


(** C22. A Gateway the controller has published an address for,
    and which a plugin of one zone has in its synced store, resolves if its name
    is a single label: asked for [<name>.<namespace>.<zone>] in any case, the
    plugin answers with exactly that address.  A name of several labels, as
    Gateways may have, is answered as unknown.  Either way the address is the one
    at which the agent serves every listener.  (Labels are without dots and
    escapes, as in every Kubernetes name.) *)
Theorem gateway_resolves WriteMsg next k state store zone gateway vip labels :
  let m := gw_meta gateway in
  publishes gateway vip →
  Name m = join_labels labels → labels ≠ [] → Forall plain_label labels → plain_label (Namespace m) →
  k_Zones k = [zone] → zone ≠ "" → k_store k = Some store → HasSynced store = true →
  GetByKey store (namespacedKey (meta_key m)) = Ok (Some gateway, true) →
  rq_QType state = TypeA → rq_Name state = ToLower (rq_QName state) →
  rq_Name state = gateway_domain (Name m) (Namespace m) (ToLower zone) →
  (if decide (length labels = 1%nat) then
     ServeDNS WriteMsg next k state
     = Some (respond WriteMsg
         (mkReply SetReply true [RR_A (rq_QName state) ClassINET (k_TTL k) vip] [] false) RcodeSuccess)
   else
     ∃ zone', ToLower zone' = ToLower zone ∧
       ServeDNS WriteMsg next k state = Some (writeNegative WriteMsg k zone' RcodeNameError)) ∧
  ∀ l, l ∈ Listeners (gw_spec gateway) →
    gatewayToFrontendMap (Some gateway) !! mkFrontendKey (meta_key m) (l_Name l)
    = Some (mkFrontend (v4in6_prefix ++ vip) (l_Port l)).
Proof.
  intros m Hpub Hn Hne Hl Hns Hzs Hz Hst Hsync Hget Ht Hlow Hq. split.
  - rewrite Hn in Hq. destruct (ServeDNS_domain WriteMsg next k state store zone _ _ Hzs Hz Hst Hsync Hne Hl Hns Hlow Hq)
      as (zone' & Hz' & -> & Hparse).
    destruct labels as [|name [|l2 labels]]; [done| |].
    + simpl. f_equal. change (join_labels [name]) with name in Hn.
      destruct Hpub as (_ & _ & Hdel & Hcls & _ & Hvip & Ha).
      unfold serve_zone. rewrite Ht. simpl. rewrite Hparse. unfold lookupGateway.
      unfold namespacedKey in Hget. simpl in Hget. unfold m in Hn, Hget |- *. rewrite Hn in Hget. rewrite Hget, Hdel, Hcls.
      rewrite decide_False by auto. rewrite decide_False by auto. simpl. rewrite Ha. simpl.
      unfold ipv4_address. simpl. rewrite ParseIP_dotted by done. cbn [mbind option_bind]. rewrite To4_v4in6 by done. done.
    + simpl. exists zone'. split; [done|]. unfold serve_zone. rewrite Ht. simpl. by rewrite Hparse.
  - intros l Hin. apply (publishes_frontends gateway vip); [done|]. by exists l.
Qed.

End plugin.

(** ** The hooks *)

(** All the watches the instance has started have been told to stop. *)
Definition stopped (i : plugin_instance) : Prop :=
  Forall (λ cancelled, cancelled = true) (pi_contexts i) ∧
  Forall (λ ctx, ctx < length (pi_contexts i))%nat (pi_runs i).

Lemma stopped_watching i : stopped i → watching i = [].
Proof.
  intros [Hc Hr]. apply elem_of_nil_inv. intros ctx [Hctx Hin]%list_elem_of_filter.
  by apply (list.Forall_lookup_1 _ _ _ _ Hc) in Hctx.
Qed.

(** Started once stopped, the plugin has one watch; stopped, none. *)
Lemma hooks_watch i :
  stopped i → watching (OnStartup i) = [length (pi_contexts i)] ∧ stopped (OnShutdown (OnStartup i)).
Proof.
  intros [Hc Hr]. split.
  - unfold watching, OnStartup. simpl. rewrite list.filter_app.
    assert (filter (λ ctx, (pi_contexts i ++ [false]) !! ctx = Some false) (pi_runs i) = []) as ->.
    { apply elem_of_nil_inv. intros ctx [Hctx Hin]%list_elem_of_filter.
      rewrite list.Forall_forall in Hr. rewrite lookup_app_l in Hctx by by apply Hr.
      by apply (list.Forall_lookup_1 _ _ _ _ Hc) in Hctx. }
    rewrite list.filter_cons, decide_True by (by rewrite lookup_app_r, Nat.sub_diag by lia). done.
  - unfold OnShutdown, OnStartup, stopped. simpl.
    rewrite insert_app_r_alt, Nat.sub_diag by lia. simpl. rewrite !length_app. simpl. split.
    + apply list.Forall_app. split; [done|by repeat constructor].
    + apply list.Forall_app. split; [|constructor; [lia|constructor]].
      eapply list.Forall_impl; [exact Hr|]. simpl. lia.
Qed.

(** However often caddy restarts it, a stopped plugin watches nothing and a
    running one watches once. *)
Lemma restarts_watch_once n handler :
  let i := Nat.iter n (λ i, OnShutdown (OnStartup i)) (mkInstance handler [] None []) in
  watching i = [] ∧ length (watching (OnStartup i)) = 1%nat.
Proof.
  assert (Hs : stopped (Nat.iter n (λ i, OnShutdown (OnStartup i)) (mkInstance handler [] None []))).
  { induction n as [|n IH]; [split; constructor|]. simpl. by apply hooks_watch. }
  intros i. split; [by apply stopped_watching|]. by destruct (hooks_watch i Hs) as [-> _].
Qed.

(** ** The configuration *)

Section setup.
Context `{DP : !DnsPackage} {C : Type} `{DC : !Dispenser C} (left : C → nat) `{Laws : !DispenserLaws left}.

Definition ttl_ok (handler : K8sClusterIPGW) : Prop := 0 ≤ k_TTL handler ≤ 3600.

Lemma parse_block_total fuel c handler :
  (left c < fuel)%nat → ttl_ok handler →
  ∃ r, parse_block fuel c handler = Some r ∧
    match r with
    | Ok (handler', c') => (left c' ≤ left c)%nat ∧ ttl_ok handler' ∧ k_Zones handler' = k_Zones handler ∧
                           k_store handler' = k_store handler
    | Err _ => True
    end.
Proof.
  revert c handler. induction fuel as [|fuel IH]; intros c handler Hfuel Hok; [lia|]. cbn [parse_block].
  destruct (c_NextBlock c) as [more c1] eqn:Hn. apply c_NextBlock_left in Hn.
  destruct more; cbn [negb]; [|by exists (Ok (handler, c1))].
  case_decide; [|by eexists]. pose proof (c_RemainingArgs_left c1) as Hr.
  destruct (c_RemainingArgs c1) as [args c2]. simpl in Hr.
  destruct args as [|arg [|]]; [by eexists| |by eexists].
  destruct (Atoi arg) as [ttl|err]; [|by eexists].
  destruct (_ || _) eqn:E; [by eexists|]. apply orb_false_iff in E.
  destruct (IH c2 (mkK8sClusterIPGW (k_Zones handler) (ttl mod 2 ^ 32) (k_store handler))) as (r & Hr' & Hpost).
  - lia.
  - unfold ttl_ok. simpl. change (2 ^ 32) with 4294967296. rewrite Z.mod_small by lia. lia.
  - exists r. split; [done|]. destruct r as [[h c3]|]; [|done]. simpl in Hpost.
    destruct Hpost as (? & ? & ? & ?). split_and!; try done. lia.
Qed.

Lemma parse_loop_total fuel i c handler :
  (left c < fuel)%nat → ttl_ok handler → (∃ z, k_Zones handler = [Fqdn z]) →
  ∃ r, parse_loop fuel i c handler = Some r ∧
    match r with
    | Ok handler' => ttl_ok handler' ∧ (∃ z, k_Zones handler' = [Fqdn z]) ∧ k_store handler' = k_store handler
    | Err _ => True
    end.
Proof.
  revert i c handler. induction fuel as [|fuel IH]; intros i c handler Hfuel Hok Hz; [lia|]. cbn [parse_loop].
  destruct (c_Next c) as [more c1] eqn:Hn. destruct more; cbn [negb]; [|by exists (Ok handler)].
  apply c_Next_left in Hn. case_match; [by eexists|]. pose proof (c_RemainingArgs_left c1) as Hr.
  destruct (c_RemainingArgs c1) as [args c2]. simpl in Hr.
  assert (Hgo : ∀ zones, (∃ z, zones = [Fqdn z]) → ∃ r,
    (r ← parse_block (S fuel) c2 (mkK8sClusterIPGW zones (k_TTL handler) (k_store handler));
     match r with Err err => Some (Err err) | Ok (handler, c) => parse_loop fuel (S i) c handler end) = Some r ∧
    match r with
    | Ok handler' => ttl_ok handler' ∧ (∃ z, k_Zones handler' = [Fqdn z]) ∧ k_store handler' = k_store handler
    | Err _ => True
    end).
  { intros zones Hzones. destruct (parse_block_total (S fuel) c2
      (mkK8sClusterIPGW zones (k_TTL handler) (k_store handler))) as (r & -> & Hpost); [lia|done|]. cbn [mbind option_bind].
    destruct r as [[h c3]|err]; [|by eexists]. destruct Hpost as (Hl & Hok' & Hz' & Hs').
    destruct (IH (S i) c3 h) as (r & -> & Hpost); [lia|done|by rewrite Hz'|]. exists r. split; [done|].
    destruct r; [|done]. by rewrite Hs' in Hpost. }
  destruct args as [|arg [|]]; [by apply Hgo|apply Hgo; by eexists|by eexists].
Qed.

(** C39. Reading the configuration ends: with more fuel than there
    are tokens there is a result, an error or a handler that has one fully
    qualified zone, no store yet, and a TTL between 0 and an hour. *)
Theorem parse_terminates fuel c :
  (left c < fuel)%nat →
  ∃ r, parse fuel c = Some r ∧
    match r with
    | Ok handler => 0 ≤ k_TTL handler ≤ 3600 ∧ (∃ z, k_Zones handler = [Fqdn z]) ∧ k_store handler = None
    | Err _ => True
    end.
Proof. intros Hf. apply (parse_loop_total fuel 0 c); [done|split; by vm_compute|by exists defaultZone]. Qed.

End setup.
