(* ===== verification/ReferenceDns.v ===== *)
(** * Concrete instances for the CoreDNS plugin's interfaces

    Domain names as strings of dot-separated labels and a token dispenser over a
    parsed configuration, with the proofs that they satisfy the laws; and the
    worked examples of the plugin's properties. *)

From Stdlib Require Import Ascii.
From S2P Require Import Prelude GoNet GoStrings KubeTypes Api Indexers Ipam Reference IpamSpec GatewayProps.
From S2P Require Import Trackers SystemSpec Dns DnsSpec.

Definition ref_subdomain (z n : string) : bool :=
  bool_decide (ToLower n = ToLower z) || has_suffix (ToLower n) ("." +:+ ToLower z).

Lemma has_suffix_split s b : has_suffix s b = true → ∃ p, s = p +:+ b.
Proof.
  induction s as [|c s IH]; simpl; case_bool_decide as E; try (intros _; subst b; by exists ""); [done|].
  intros (p & ->)%IH. by exists (String c p).
Qed.

Lemma has_suffix_dot a b : b ≠ "" → has_suffix (a +:+ b) "." = has_suffix b ".".
Proof.
  intros Hb. induction a as [|c a IH]; [done|]. rewrite string_app_cons. cbn [has_suffix].
  rewrite bool_decide_false; [exact IH|]. intros [= _ E]. by destruct a, b.
Qed.

Lemma plain_label_dot l : plain_label l → has_suffix l "." = false.
Proof.
  intros (_ & Hd & _). destruct (has_suffix l ".") eqn:E; [|done]. apply has_suffix_split in E as [p ->].
  by rewrite has_char_app, orb_true_r in Hd.
Qed.

(** The labels of a name, which may end in a dot. *)
Definition ref_split (s : string) : list string :=
  let s := TrimSuffix s "." in if decide (s = "") then [] else split_char 46 s.

Lemma join_labels_cons l1 l2 labels : join_labels (l1 :: l2 :: labels) = l1 +:+ "." +:+ join_labels (l2 :: labels).
Proof. done. Qed.

Lemma join_labels_plain labels :
  labels ≠ [] → Forall plain_label labels →
  join_labels labels ≠ "" ∧ has_suffix (join_labels labels) "." = false ∧ split_char 46 (join_labels labels) = labels.
Proof.
  intros Hne H. induction H as [|l1 [|l2 labels] Hl _ IH]; [done| |].
  - change (join_labels [l1]) with l1. split_and!; [apply Hl|by apply plain_label_dot|].
    destruct Hl as (_ & Hd & _). by apply split_char_none.
  - destruct (IH ltac:(done)) as (Hn & Hs & Hsplit). rewrite join_labels_cons. split_and!.
    + destruct Hl as (Hl & _). by destruct l1.
    + rewrite <-string_app_assoc, has_suffix_dot by done. exact Hs.
    + destruct Hl as (_ & Hd & _). rewrite string_app_cons, string_app_nil, split_char_app by done. by rewrite Hsplit.
Qed.

Lemma ref_split_join labels : labels ≠ [] → Forall plain_label labels → ref_split (join_labels labels) = labels.
Proof.
  intros Hne Hl. destruct (join_labels_plain labels Hne Hl) as (Hn & Hs & Hsplit).
  unfold ref_split, TrimSuffix. by rewrite Hs, decide_False.
Qed.

#[export] Instance ref_dns : DnsPackage := {|
  Fqdn s := if has_suffix s "." then s else s +:+ ".";
  IsSubDomain := ref_subdomain;
  SplitDomainName := ref_split;
  Zones_Matches zs n := default "" (head (filter (λ z, z ≠ "" ∧ ref_subdomain z n = true) zs));
  ErrOnce := ErrorString "this plugin can only be used once per Server Block";
|}.

#[export] Instance ref_dns_laws : DnsPackageLaws.
Proof.
  constructor; simpl.
  - done.
  - intros s. destruct (has_suffix s ".") eqn:E; [by rewrite E|]. by rewrite has_suffix_app.
  - intros z labels _ _. unfold ref_subdomain. apply orb_true_iff. right.
    rewrite !ToLower_app. change (ToLower ".") with ".". apply has_suffix_app.
  - intros z n. unfold ref_subdomain. by rewrite !ToLower_idemp.
  - intros z n _ _ [H%bool_decide_eq_true|H%has_suffix_length]%orb_true_iff.
    + by rewrite <-(length_ToLower n), H, length_ToLower.
    + revert H. rewrite string_length_app, !length_ToLower. simpl. lia.
  - intros z n _ _ _ [H%bool_decide_eq_true|H]%orb_true_iff; [by left|]. right. by apply has_suffix_split.
  - exact ref_split_join.
  - intros s a b. unfold ref_split. case_decide; [done|].
    intros (E & _)%(split_char_join 46 "."%char); [|done]. unfold TrimSuffix in E.
    destruct (has_suffix s ".") eqn:Hs.
    + apply has_suffix_split in Hs as [p ->]. rewrite string_length_app, Nat.add_sub, substring_prefix in E.
      by rewrite E, string_app_assoc.
    + by rewrite E, string_app_assoc.
  - intros zs n. destruct (head (filter _ zs)) as [z|] eqn:Hh; simpl.
    + right. apply head_Some_elem_of, list_elem_of_filter in Hh as [[_ ?] ?]. done.
    + left. split; [done|]. intros z Hz Hne. destruct (ref_subdomain z n) eqn:E; [|done].
      assert (Hin : z ∈ filter (λ z, z ≠ "" ∧ ref_subdomain z n = true) zs) by (by apply list_elem_of_filter).
      destruct (filter _ zs); [by apply elem_of_nil in Hin|done].
Qed.

(** ** Tokens: the blocks to come, and what is left of the current one *)

Record tokens := mkTokens {
  t_blocks : list (list string * list (string * list string));
  t_args : list string; t_props : list (string * list string); t_val : string }.

#[export] Instance ref_dispenser : Dispenser tokens := {|
  c_Next c :=
    match t_blocks c with
    | (args, props) :: blocks => (true, mkTokens blocks args props (t_val c))
    | [] => (false, c)
    end;
  c_RemainingArgs c := (t_args c, mkTokens (t_blocks c) [] (t_props c) (t_val c));
  c_NextBlock c :=
    match t_props c with
    | (val, args) :: props => (true, mkTokens (t_blocks c) args props val)
    | [] => (false, c)
    end;
  c_Val := t_val;
  c_ArgErr _ := ErrorString "Wrong argument count or unexpected line ending";
  c_Errf _ msg := ErrorString msg;
|}.

Definition tokens_left (c : tokens) : nat :=
  (length (t_props c) + sum_list (map (λ b, S (length b.2)) (t_blocks c)))%nat.

#[export] Instance ref_dispenser_laws : DispenserLaws tokens_left.
Proof.
  constructor; unfold tokens_left; simpl.
  - intros c c'. destruct (t_blocks c) as [|[args props] bs]; [done|]. intros [= <-]. simpl. lia.
  - done.
  - intros c b c'. destruct (t_props c) as [|[v args] ps] eqn:E; intros [= <- <-]; simpl; [rewrite E|]; simpl; lia.
Qed.

(** ** Worked examples *)

Definition dns_store (gateways : list Gateway) : gatewayStore :=
  mkGatewayStore true (λ key,
    Ok (match filter (λ g, namespacedKey (meta_key (gw_meta g)) = key) gateways with
        | g :: _ => (Some g, true)
        | [] => (None, false)
        end)).

Definition dns_handler : K8sClusterIPGW := plugin_New (Some (dns_store [shown_gateway])) [] 0.

Definition query (qname : string) (qtype : Z) : dns_request := mkDnsRequest (ToLower qname) qname qtype false.

Definition shown_query : dns_request := query "A.default.GW.cluster.local." TypeA.

Definition no_write_error : reply → option error := λ _, None.

Definition shown_reply : reply :=
  mkReply SetReply true [RR_A "A.default.GW.cluster.local." 1 30 [10; 96; 0; 1]] [] false.

Lemma gateway_resolves_witness :
  ServeDNS no_write_error ([], (5, None)) dns_handler shown_query = Some ([shown_reply], (0, None)).
Proof.
  refine (proj1 (gateway_resolves no_write_error ([], (5, None)) dns_handler shown_query
    (dns_store [shown_gateway]) "gw.cluster.local." shown_gateway [10; 96; 0; 1] ["a"]
    shown_publishes _ _ _ _ _ _ _ _ _ _ _ _)); try reflexivity; try discriminate.
  - repeat constructor; discriminate.
  - split; [discriminate|split; reflexivity].
Defined.


(** A Gateway whose name has two labels is not found. *)
Example dotted_gateway_unknown :
  let g := mkGateway (mkMeta "default" "a.b" "" 1 None ∅ [] []) (gw_spec shown_gateway) (gw_status shown_gateway) in
  match ServeDNS no_write_error ([], (5, None)) (plugin_New (Some (dns_store [g])) [] 0)
          (query "a.b.default.gw.cluster.local." TypeA) with
  | Some (_, (rcode, _)) => rcode = RcodeNameError
  | None => False
  end.
Proof. vm_compute. reflexivity. Qed.

Lemma ServeDNS_total_witness :
  is_Some (ServeDNS no_write_error ([], (5, None)) dns_handler (query "gw.cluster.local." TypeSOA)).
Proof.
  apply ServeDNS_total.
  - intros z ->%list_elem_of_singleton. reflexivity.
  - reflexivity.
  - reflexivity.
Defined.

(** [k8s_clusterip_gw example.org { ttl 60 }]. *)
Definition demo_config : tokens := mkTokens [(["example.org"], [("ttl", ["60"])])] [] [] "".

Lemma parse_terminates_witness :
  parse 10 demo_config = Some (Ok (mkK8sClusterIPGW ["example.org."] 60 None)) ∧
  ∃ r, parse 3 demo_config = Some r.
Proof.
  split; [vm_compute; reflexivity|].
  destruct (parse_terminates tokens_left 3 demo_config) as (r & H & _); [vm_compute; lia|by exists r].
Defined.
