(* ===== verification/Options.v ===== *)
(** * Command lines, addresses and client configuration

    internal/apputil/network.go, internal/kube/clientconfig and the options.go of
    both programs.  [net.SplitHostPort] and [strconv.ParseUint] are written out;
    pflag and client-go's loaders are arguments. *)

From Stdlib Require Import Ascii SpecFloat.
From S2P Require Import Prelude GoNet GoStrings.

(** ** [net.SplitHostPort] *)

(** [strings.IndexByte]. *)
Fixpoint index_char (n : Z) (s : string) : option nat :=
  match s with
  | EmptyString => None
  | String c s => if is_char n c then Some 0%nat else S <$> index_char n s
  end.

Fixpoint last_index_char (n : Z) (s : string) : option nat :=
  match s with
  | EmptyString => None
  | String c s =>
      match last_index_char n s with
      | Some i => Some (S i)
      | None => if is_char n c then Some 0%nat else None
      end
  end.

(** [s[i:j]] and [s[i:]]. *)
Definition slice_from (i : nat) (s : string) : string := String.substring i (String.length s - i) s.
Definition slice_to (j : nat) (s : string) : string := String.substring 0 j s.

(** [net.AddrError]. *)
Definition addr_error (addr why : string) : error :=
  ErrorString ((if decide (addr = "") then "" else "address " +:+ addr +:+ ": ") +:+ why).

Definition starts_with (n : Z) (s : string) : bool :=
  match s with String c _ => is_char n c | EmptyString => false end.

Definition SplitHostPort (hostport : string) : result (string * string) :=
  let fail := λ {A} why, @Err A (addr_error hostport why) in
  match last_index_char 58 hostport with
  | None => fail "missing port in address"
  | Some i =>
      let! hjk :=
        (if starts_with 91 hostport then
           match index_char 93 hostport with
           | None => fail "missing ']' in address"
           | Some e =>
               if decide (S e = String.length hostport) then fail "missing port in address"
               else if decide (S e = i) then Ok (String.substring 1 (e - 1) hostport, 1%nat, S e)
               else if starts_with 58 (slice_from (S e) hostport) then fail "too many colons in address"
               else fail "missing port in address"
           end
         else
           let host := slice_to i hostport in
           if has_char 58 host then fail "too many colons in address" else Ok (host, 0%nat, 0%nat)) in
      let '(host, j, k) := hjk in
      if has_char 91 (slice_from j hostport) then fail "unexpected '[' in address"
      else if has_char 93 (slice_from k hostport) then fail "unexpected ']' in address"
      else Ok (host, slice_from (S i) hostport)
  end.

(** [strconv.ParseUint(s, 10, 16)]: the error only. *)
Definition ParseUint16 (s : string) : result Z :=
  match s, digits_val s 0 with
  | EmptyString, _ | _, None => Err (num_error "ParseUint" s "invalid syntax")
  | _, Some n => if n <? 2 ^ 16 then Ok n else Err (num_error "ParseUint" s "value out of range")
  end.

(** ** apputil/network.go *)

Definition ValidateIPv4Host (host : string) (allowEmpty : bool) : result unit :=
  if decide (host = "") then (if allowEmpty then Ok tt else Err (ErrorString "must not be empty"))
  else
    match ParseIP host with
    | None => Err (ErrorString "must be an IP address")
    | Some ip =>
        match To4 ip with
        | None => Err (ErrorString "only IPv4 is supported in this scaffold")
        | Some _ => Ok tt
        end
    end.

Definition ValidateIPv4HostPort (addr : string) : result unit :=
  let! host_port := SplitHostPort addr in
  let '(host, port) := host_port in
  if decide (host = "") then Err (ErrorString "host must not be empty")
  else if decide (port = "") then Err (ErrorString "port must not be empty")
  else
    match ParseUint16 port with
    | Err _ => Err (ErrorString "port must be a valid integer between 0 and 65535")
    | Ok _ =>
        if bool_decide (host = "::") || bool_decide (host = "[::]")
        then Err (ErrorString "only IPv4 is supported in this scaffold")
        else
          match ParseIP host with
          | None => Err (ErrorString "host must be an IP address")
          | Some ip =>
              match To4 ip with
              | None => Err (ErrorString "only IPv4 is supported in this scaffold")
              | Some _ => Ok tt
              end
          end
    end.

(** ** clientconfig *)

(** A [float32]; [SFltb] is its comparison, false on NaN. *)
Definition float32 : Type := spec_float.
Definition float32_five : float32 := S754_finite false 10485760 (-21).
Definition float32_zero : float32 := S754_zero false.

Record ClientOptions := mkClientOptions {
  co_Kubeconfig : string; co_AcceptContentTypes : string; co_ContentType : string;
  co_QPS : float32; co_Burst : Z }.

(** The fields of [rest.Config] that [Build] sets. *)
Record rest_Config := mkRestConfig {
  rc_Host : string; rc_AcceptContentTypes : string; rc_ContentType : string; rc_QPS : float32; rc_Burst : Z }.

Definition with_client_options (restConfig : rest_Config) (options : ClientOptions) : rest_Config :=
  mkRestConfig (rc_Host restConfig) (co_AcceptContentTypes options) (co_ContentType options)
    (co_QPS options) (co_Burst options).

(** [load path master]: the deferred loader, with the default rules when [path]
    is [None], and the server override. *)
Definition Build (load : option string → string → result rest_Config) (options : ClientOptions)
    (masterOverride : string) (inClusterConfig : result rest_Config) : result rest_Config :=
  if decide (co_Kubeconfig options = "") then
    match inClusterConfig with
    | Ok restConfig =>
        let restConfig :=
          if decide (masterOverride ≠ "")
          then mkRestConfig masterOverride (rc_AcceptContentTypes restConfig) (rc_ContentType restConfig)
                 (rc_QPS restConfig) (rc_Burst restConfig)
          else restConfig in
        Ok (with_client_options restConfig options)
    | Err err =>
        if decide (masterOverride = "") then Err err
        else
          let! restConfig := load None masterOverride in
          Ok (with_client_options restConfig options)
    end
  else
    let! restConfig := load (Some (co_Kubeconfig options)) masterOverride in
    Ok (with_client_options restConfig options).

(** ** agent/app/options.go *)

(** [time.Duration] in nanoseconds. *)
Definition Second : Z := 1000000000.
Definition Minute : Z := 60 * Second.

Record AgentOptions := mkAgentOptions {
  ao_Master : string;
  ao_Kubeconfig : string;
  ao_KubeAPIAcceptContentTypes : string;
  ao_KubeAPIContentType : string;
  ao_KubeAPIQPS : float32;
  ao_KubeAPIBurst : Z;
  ao_HealthzBindAddress : string;
  ao_MetricsBindAddress : string;
  ao_ConfigSyncPeriod : Z;
  ao_NFTablesTableName : string;
  ao_NFTablesSyncPeriod : Z;
  ao_NFTablesMinSyncPeriod : Z;
  ao_ApplyRules : bool;
}.

Definition NewAgentOptions : AgentOptions :=
  mkAgentOptions "" "" "" "application/vnd.kubernetes.protobuf" float32_five 10 "0.0.0.0:11256" "127.0.0.1:11249"
    (15 * Minute) "clusterip-gw" (30 * Second) Second true.

(** [if err := ...; err != nil { return fmt.Errorf("<prefix>: %w", err) }]. *)
Definition wrap_err (prefix : string) (r : result unit) : result unit :=
  match r with Ok _ => Ok tt | Err err => Err (WrapError prefix err) end.

(** The checks on addresses and client limits both programs make. *)
Definition validate_common (healthz metrics : string) (qps : float32) (burst : Z) : result unit :=
  let! _ := wrap_err "healthz-bind-address" (ValidateIPv4HostPort healthz) in
  let! _ := (if decide (metrics ≠ "")
             then wrap_err "metrics-bind-address" (ValidateIPv4HostPort metrics) else Ok tt) in
  if SFltb qps float32_zero then Err (ErrorString "kube-api-qps must not be negative")
  else if burst <? 0 then Err (ErrorString "kube-api-burst must not be negative")
  else Ok tt.

Definition agent_Validate (o : AgentOptions) : result unit :=
  if decide (ao_NFTablesTableName o = "") then Err (ErrorString "nftables table name must not be empty")
  else if ao_ConfigSyncPeriod o <=? 0 then Err (ErrorString "config-sync-period must be greater than 0")
  else if ao_NFTablesSyncPeriod o <=? 0 then Err (ErrorString "nftables-sync-period must be greater than 0")
  else if ao_NFTablesMinSyncPeriod o <? 0 then Err (ErrorString "nftables-min-sync-period must not be negative")
  else validate_common (ao_HealthzBindAddress o) (ao_MetricsBindAddress o) (ao_KubeAPIQPS o) (ao_KubeAPIBurst o).

Definition agent_clientConfig (o : AgentOptions) : ClientOptions :=
  mkClientOptions (ao_Kubeconfig o) (ao_KubeAPIAcceptContentTypes o) (ao_KubeAPIContentType o)
    (ao_KubeAPIQPS o) (ao_KubeAPIBurst o).

(** ** controller/app/options.go *)

Record ControllerOptions := mkControllerOptions {
  cto_Master : string;
  cto_Kubeconfig : string;
  cto_KubeAPIAcceptContentTypes : string;
  cto_KubeAPIContentType : string;
  cto_KubeAPIQPS : float32;
  cto_KubeAPIBurst : Z;
  cto_HealthzBindAddress : string;
  cto_MetricsBindAddress : string;
  cto_ConfigSyncPeriod : Z;
}.

Definition NewControllerOptions : ControllerOptions :=
  mkControllerOptions "" "" "" "application/json" float32_five 10 "0.0.0.0:10257" "127.0.0.1:10258" (15 * Minute).

Definition controller_Validate (o : ControllerOptions) : result unit :=
  if cto_ConfigSyncPeriod o <=? 0 then Err (ErrorString "config-sync-period must be greater than 0")
  else validate_common (cto_HealthzBindAddress o) (cto_MetricsBindAddress o) (cto_KubeAPIQPS o) (cto_KubeAPIBurst o).

Definition controller_clientConfig (o : ControllerOptions) : ClientOptions :=
  mkClientOptions (cto_Kubeconfig o) (cto_KubeAPIAcceptContentTypes o) (cto_KubeAPIContentType o)
    (cto_KubeAPIQPS o) (cto_KubeAPIBurst o).

(** ** Facts *)

Lemma index_char_app n c a b :
  is_char n c = true → has_char n a = false → index_char n (a +:+ String c b) = Some (String.length a).
Proof.
  intros Hc. induction a as [|d a IH]; simpl; [by rewrite Hc|].
  intros [Hd Ha]%orb_false_iff. by rewrite Hd, IH.
Qed.

Lemma last_index_char_app n c a b :
  is_char n c = true → has_char n b = false → last_index_char n (a +:+ String c b) = Some (String.length a).
Proof.
  intros Hc Hb. assert (Hnone : last_index_char n b = None).
  { revert Hb. clear. induction b as [|d b IH]; simpl; [done|]. intros [Hd Hb]%orb_false_iff. by rewrite IH, Hd. }
  induction a as [|d a IH]; simpl; [by rewrite Hnone, Hc|]. by rewrite IH.
Qed.

Lemma slice_from_app a b : slice_from (String.length a) (a +:+ b) = b.
Proof.
  unfold slice_from. rewrite string_length_app. replace (_ + _ - _)%nat with (String.length b) by lia.
  apply substring_suffix.
Qed.
