(* ===== verification/Flags.v ===== *)
(** * The commands: flags, parsing and main

    [AddFlags], [parseArgs] and [Execute] of internal/agent/app/options.go and
    internal/controller/app/options.go, and the two main.go.  The texts are the
    same in both programs but for names, so a program is a [command] record.
    pflag is the class [PFlag]. *)

From Stdlib Require Import Ascii.
From coqutil Require Import Datatypes.RecordSetters.
Import DoubleBraceUpdate.
From S2P Require Import Prelude GoNet GoStrings Options.

(** ** Flags *)

(** The value of a flag, with its type. *)
Inductive flag_value :=
| VString (s : string) | VFloat32 (q : float32) | VInt32 (z : Z) | VDuration (ns : Z) | VBool (b : bool).

(** A flag registered with a set: its name, the variable it is bound to, its
    default and its usage text. *)
Record flag (O : Type) := mkFlag {
  fl_Name : string;
  fl_get : O → flag_value;
  fl_set : flag_value → O → O;
  fl_DefValue : flag_value;
  fl_Usage : string;
}.
Arguments mkFlag {O}. Arguments fl_Name {O}. Arguments fl_get {O}. Arguments fl_set {O}.
Arguments fl_DefValue {O}. Arguments fl_Usage {O}.

Section vars.
Context {O : Type}.

(** [fs.StringVar(&o.F, ...)] and the like; the variable [&o.F] is the field's
    projection and its update. *)
Definition StringVar (get : O → string) (set : string → O → O) (name value usage : string) : flag O :=
  mkFlag name (λ o, VString (get o)) (λ v o, match v with VString s => set s o | _ => o end) (VString value) usage.

Definition Float32Var (get : O → float32) (set : float32 → O → O) (name : string) (value : float32)
    (usage : string) : flag O :=
  mkFlag name (λ o, VFloat32 (get o)) (λ v o, match v with VFloat32 q => set q o | _ => o end) (VFloat32 value) usage.

Definition Int32Var (get : O → Z) (set : Z → O → O) (name : string) (value : Z) (usage : string) : flag O :=
  mkFlag name (λ o, VInt32 (get o)) (λ v o, match v with VInt32 z => set z o | _ => o end) (VInt32 value) usage.

Definition DurationVar (get : O → Z) (set : Z → O → O) (name : string) (value : Z) (usage : string) : flag O :=
  mkFlag name (λ o, VDuration (get o)) (λ v o, match v with VDuration n => set n o | _ => o end)
    (VDuration value) usage.

Definition BoolVar (get : O → bool) (set : bool → O → O) (name : string) (value : bool) (usage : string) : flag O :=
  mkFlag name (λ o, VBool (get o)) (λ v o, match v with VBool b => set b o | _ => o end) (VBool value) usage.

(** Registering a flag stores its default in the variable. *)
Definition register (o : O) (f : flag O) : O := fl_set f (fl_DefValue f) o.

End vars.

(** pflag: the parsers of the values that are not strings, the scanner of a
    command line over the registered flags, which returns the variables, the
    positional arguments and the error, the error test and the help text. *)
Class PFlag := {
  pf_Float32 : string → result float32;
  pf_Int32 : string → result Z;
  pf_Duration : string → result Z;
  pf_Bool : string → result bool;
  fs_Parse : ∀ {O}, list (flag O) → O → list string → O * list string * option error;
  is_ErrHelp : error → bool;
  FlagUsagesWrapped : ∀ {O}, list (flag O) → Z → string;
}.

(** ** The options' flags *)

Definition agent_AddFlags (o : AgentOptions) : list (flag AgentOptions) :=
  [StringVar ao_Master (λ v o, o{{ao_Master := v}}) "master" (ao_Master o)
     "Address of the Kubernetes API server.";
   StringVar ao_Kubeconfig (λ v o, o{{ao_Kubeconfig := v}}) "kubeconfig" (ao_Kubeconfig o)
     "Path to a kubeconfig file.";
   StringVar ao_KubeAPIAcceptContentTypes (λ v o, o{{ao_KubeAPIAcceptContentTypes := v}}) "kube-api-accept-content-types" (ao_KubeAPIAcceptContentTypes o)
     "Accept header sent to the Kubernetes API.";
   StringVar ao_KubeAPIContentType (λ v o, o{{ao_KubeAPIContentType := v}}) "kube-api-content-type" (ao_KubeAPIContentType o)
     "Content type used for Kubernetes API requests.";
   Float32Var ao_KubeAPIQPS (λ v o, o{{ao_KubeAPIQPS := v}}) "kube-api-qps" (ao_KubeAPIQPS o)
     "Queries per second allowed against the Kubernetes API.";
   Int32Var ao_KubeAPIBurst (λ v o, o{{ao_KubeAPIBurst := v}}) "kube-api-burst" (ao_KubeAPIBurst o)
     "Burst allowance against the Kubernetes API.";
   StringVar ao_HealthzBindAddress (λ v o, o{{ao_HealthzBindAddress := v}}) "healthz-bind-address" (ao_HealthzBindAddress o)
     "IPv4 host:port for the health endpoint.";
   StringVar ao_MetricsBindAddress (λ v o, o{{ao_MetricsBindAddress := v}}) "metrics-bind-address" (ao_MetricsBindAddress o)
     "IPv4 host:port for the metrics endpoint. Empty disables metrics.";
   DurationVar ao_ConfigSyncPeriod (λ v o, o{{ao_ConfigSyncPeriod := v}}) "config-sync-period" (ao_ConfigSyncPeriod o)
     "How often Kubernetes configuration is refreshed.";
   StringVar ao_NFTablesTableName (λ v o, o{{ao_NFTablesTableName := v}}) "nftables-table-name" (ao_NFTablesTableName o)
     "nftables table name used by clusterip-gw-agent.";
   DurationVar ao_NFTablesSyncPeriod (λ v o, o{{ao_NFTablesSyncPeriod := v}}) "nftables-sync-period" (ao_NFTablesSyncPeriod o)
     "How often nftables is resynchronized.";
   DurationVar ao_NFTablesMinSyncPeriod (λ v o, o{{ao_NFTablesMinSyncPeriod := v}}) "nftables-min-sync-period" (ao_NFTablesMinSyncPeriod o)
     "Minimum delay between nftables syncs.";
   BoolVar ao_ApplyRules (λ v o, o{{ao_ApplyRules := v}}) "apply-rules" (ao_ApplyRules o)
     "Apply rendered nftables rules via netlink. Disable for dry-run scaffolding."].

Definition controller_AddFlags (o : ControllerOptions) : list (flag ControllerOptions) :=
  [StringVar cto_Master (λ v o, o{{cto_Master := v}}) "master" (cto_Master o)
     "Address of the Kubernetes API server.";
   StringVar cto_Kubeconfig (λ v o, o{{cto_Kubeconfig := v}}) "kubeconfig" (cto_Kubeconfig o)
     "Path to a kubeconfig file.";
   StringVar cto_KubeAPIAcceptContentTypes (λ v o, o{{cto_KubeAPIAcceptContentTypes := v}}) "kube-api-accept-content-types" (cto_KubeAPIAcceptContentTypes o)
     "Accept header sent to the Kubernetes API.";
   StringVar cto_KubeAPIContentType (λ v o, o{{cto_KubeAPIContentType := v}}) "kube-api-content-type" (cto_KubeAPIContentType o)
     "Content type used for Kubernetes API requests.";
   Float32Var cto_KubeAPIQPS (λ v o, o{{cto_KubeAPIQPS := v}}) "kube-api-qps" (cto_KubeAPIQPS o)
     "Queries per second allowed against the Kubernetes API.";
   Int32Var cto_KubeAPIBurst (λ v o, o{{cto_KubeAPIBurst := v}}) "kube-api-burst" (cto_KubeAPIBurst o)
     "Burst allowance against the Kubernetes API.";
   StringVar cto_HealthzBindAddress (λ v o, o{{cto_HealthzBindAddress := v}}) "healthz-bind-address" (cto_HealthzBindAddress o)
     "IPv4 host:port for the health endpoint.";
   StringVar cto_MetricsBindAddress (λ v o, o{{cto_MetricsBindAddress := v}}) "metrics-bind-address" (cto_MetricsBindAddress o)
     "IPv4 host:port for the metrics endpoint. Empty disables metrics.";
   DurationVar cto_ConfigSyncPeriod (λ v o, o{{cto_ConfigSyncPeriod := v}}) "config-sync-period" (cto_ConfigSyncPeriod o)
     "How often Kubernetes configuration is refreshed."].

(** ** Parsing and running *)

(** What differs between the two programs. *)
Record command (O : Type) := mkCommand {
  cmd_Name : string;
  cmd_Description : string;
  cmd_NewOptions : O;
  cmd_AddFlags : O → list (flag O);
  cmd_Validate : O → result unit;
}.
Arguments mkCommand {O}. Arguments cmd_Name {O}. Arguments cmd_Description {O}. Arguments cmd_NewOptions {O}.
Arguments cmd_AddFlags {O}. Arguments cmd_Validate {O}.

Definition agentCommand : command AgentOptions :=
  mkCommand "clusterip-gw-agent" "Experimental Gateway VIP agent for kube-proxy-like TCP routing work"
    NewAgentOptions agent_AddFlags agent_Validate.

Definition controllerCommand : command ControllerOptions :=
  mkCommand "clusterip-gw-controller"
    "Experimental Gateway API controller for clusterip-gw Gateway VIP allocation"
    NewControllerOptions controller_AddFlags controller_Validate.

(** A line feed. *)
Definition nl : string := String "010" EmptyString.

(** What has been written to an [io.Writer], [None] for a nil one, which
    [parseArgs] replaces by [io.Discard]. *)
Definition Fprint (s : string) (w : option string) : option string := (λ t, t +:+ s) <$> w.

Section parse.
Context `{PF : !PFlag} {O : Type} (cmd : command O).

Fixpoint join_args (args : list string) : string :=
  match args with [] => "" | [a] => a | a :: args => a +:+ " " +:+ join_args args end.

Definition usage (flags : list (flag O)) : string :=
  cmd_Description cmd +:+ nl +:+ nl +:+ "Usage:" +:+ nl +:+ "  " +:+ cmd_Name cmd +:+ " [flags]" +:+ nl +:+ nl
  +:+ "Flags:" +:+ nl +:+ FlagUsagesWrapped flags 80.

(** [Ok None] once the help text has been printed. *)
Definition parseArgs (args : list string) (stdout : option string) : result (option O) * option string :=
  let opts := cmd_NewOptions cmd in
  let flags := cmd_AddFlags cmd opts in
  let opts := foldl register opts flags in
  let '(opts, rest, err) := fs_Parse flags opts args in
  match err with
  | Some err => if is_ErrHelp err then (Ok None, Fprint (usage flags) stdout) else (Err err, stdout)
  | None =>
      if decide (0 < length rest)%nat
      then (Err (ErrorString ("unexpected positional arguments: " +:+ join_args rest)), stdout)
      else match cmd_Validate cmd opts with Err err => (Err err, stdout) | Ok _ => (Ok (Some opts), stdout) end
  end.

Definition Execute (Run : O → result unit) (args : list string) (stdout : option string)
    : result unit * option string :=
  let '(r, stdout) := parseArgs args stdout in
  match r with
  | Err err => (Err err, stdout)
  | Ok None => (Ok tt, stdout)
  | Ok (Some opts) => (Run opts, stdout)
  end.

(** The exit status, and what is written to the standard output and error. *)
Definition main (Run : O → result unit) (args : list string) : Z * option string * string :=
  match Execute Run args (Some "") with
  | (Ok _, stdout) => (0, stdout, "")
  | (Err err, stdout) => (1, stdout, Error err +:+ nl)
  end.

End parse.

Section programs.
Context `{PF : !PFlag}.

Definition agent_parseArgs := parseArgs agentCommand.
Definition agent_Execute := Execute agentCommand.
Definition agent_main := main agentCommand.
Definition controller_parseArgs := parseArgs controllerCommand.
Definition controller_Execute := Execute controllerCommand.
Definition controller_main := main controllerCommand.

(** [Run] on a system other than Linux. *)
Definition agent_Run_other (o : AgentOptions) : result unit :=
  Err (ErrorString "clusterip-gw-agent currently supports Linux only").
Definition controller_Run_other (o : ControllerOptions) : result unit :=
  Err (ErrorString "clusterip-gw-controller currently supports Linux only").

End programs.
