(* ===== verification/FlagsSpec.v ===== *)
(** * The commands: properties

    A program's options are exactly what its command line gives, each flag's
    last setting or its default, and only validated options are run. *)

From Stdlib Require Import Ascii SpecFloat.
From S2P Require Import Prelude GoNet GoStrings Options Flags.

(** ** What pflag promises *)

Definition same_type (a b : flag_value) : bool :=
  match a, b with
  | VString _, VString _ | VFloat32 _, VFloat32 _ | VInt32 _, VInt32 _
  | VDuration _, VDuration _ | VBool _, VBool _ => true
  | _, _ => false
  end.

(** [Set]: the value a text stands for, at the type of the flag's default. *)
Definition parse_value `{PF : !PFlag} (default : flag_value) (text : string) : result flag_value :=
  match default with
  | VString _ => Ok (VString text)
  | VFloat32 _ => let! q := pf_Float32 text in Ok (VFloat32 q)
  | VInt32 _ => let! z := pf_Int32 text in Ok (VInt32 z)
  | VDuration _ => let! n := pf_Duration text in Ok (VDuration n)
  | VBool _ => let! b := pf_Bool text in Ok (VBool b)
  end.

(** [--name=text]. *)
Definition setting (s : string * string) : string := "--" +:+ s.1 +:+ "=" +:+ s.2.

(** A name that cannot be mistaken for other syntax, or for the help flag. *)
Definition plain_name (name : string) : bool :=
  negb (has_char 61 name) && negb (starts_with 45 name) && bool_decide (name ≠ "") && bool_decide (name ≠ "help").

(** Documented: a setting of a registered flag sets its variable, the command
    line is read from left to right, and a request for help is reported as
    [ErrHelp]. *)
Class PFlagLaws `{PF : !PFlag} : Prop := {
  fs_Parse_nil {O} (flags : list (flag O)) o : fs_Parse flags o [] = (o, [], None);
  fs_Parse_setting {O} (flags : list (flag O)) o f text v args :
    NoDup (fl_Name <$> flags) → f ∈ flags → plain_name (fl_Name f) = true →
    parse_value (fl_DefValue f) text = Ok v →
    fs_Parse flags o (setting (fl_Name f, text) :: args) = fs_Parse flags (fl_set f v o) args;
  fs_Parse_help {O} (flags : list (flag O)) o args :
    "help" ∉ fl_Name <$> flags → ∃ err, (fs_Parse flags o ("--help" :: args)).2 = Some err ∧ is_ErrHelp err = true;
}.

(** ** Flags bound to the fields of their options *)

(** The flags are bound to distinct fields, cover them all, and hold the
    options' values as defaults. *)
Record flags_of {O} (o : O) (flags : list (flag O)) : Prop := mkFlagsOf {
  fo_names : NoDup (fl_Name <$> flags);
  fo_plain : ∀ f, f ∈ flags → plain_name (fl_Name f) = true;
  fo_default : ∀ f, f ∈ flags → fl_get f o = fl_DefValue f;
  fo_own : ∀ f v o', f ∈ flags → same_type v (fl_DefValue f) = true → fl_get f (fl_set f v o') = v;
  fo_other : ∀ f g v o', f ∈ flags → g ∈ flags → fl_Name f ≠ fl_Name g → fl_get g (fl_set f v o') = fl_get g o';
  fo_ext : ∀ o1 o2, (∀ f, f ∈ flags → fl_get f o1 = fl_get f o2) → o1 = o2;
}.

Section settings.
Context `{Laws : PFlagLaws} {O : Type}.
Implicit Types (flags : list (flag O)) (f : flag O) (settings : list (string * string)).

Lemma parse_value_type default text v : parse_value default text = Ok v → same_type v default = true.
Proof. destruct default; simpl; [by intros [= <-]|..]; intros (x & _ & [= <-])%result_bind_ok; done. Qed.

(** The last text a list of settings gives a name. *)
Definition last_text (name : string) settings : option string :=
  snd <$> list.last (filter (λ s, s.1 = name) settings).

Lemma last_text_cons name s settings :
  last_text name (s :: settings)
  = match last_text name settings with Some t => Some t | None => if decide (s.1 = name) then Some s.2 else None end.
Proof.
  unfold last_text. rewrite list.filter_cons. destruct (decide (s.1 = name)).
  - rewrite list.last_cons. by destruct (list.last _).
  - by destruct (list.last _).
Qed.

(** The variable of [f] after [settings]: the last text for [f], or what it was
    before. *)
Definition set_by settings (before : flag_value) f (o : O) : Prop :=
  match last_text (fl_Name f) settings with
  | Some text => parse_value (fl_DefValue f) text = Ok (fl_get f o)
  | None => fl_get f o = before
  end.

(** Settings of flags that exist, to texts that their types read. *)
Definition readable flags (s : string * string) : Prop :=
  ∃ f v, f ∈ flags ∧ fl_Name f = s.1 ∧ parse_value (fl_DefValue f) s.2 = Ok v.

Lemma same_name flags f g : NoDup (fl_Name <$> flags) → f ∈ flags → g ∈ flags → fl_Name f = fl_Name g → f = g.
Proof.
  intros Hnd [i Hi]%list_elem_of_lookup [j Hj]%list_elem_of_lookup Heq.
  assert (i = j) as ->; [|by simplify_eq].
  eapply NoDup_lookup; [done| |]; rewrite list_lookup_fmap; [by rewrite Hi|rewrite Hj; simpl; by rewrite Heq].
Qed.

Lemma parse_settings o0 flags settings o :
  flags_of o0 flags → Forall (readable flags) settings →
  ∃ o', fs_Parse flags o (setting <$> settings) = (o', [], None) ∧
    ∀ f, f ∈ flags → set_by settings (fl_get f o) f o'.
Proof.
  intros Hf Hr. revert o. induction Hr as [|[name text] settings (f & v & Hin & Hn & Hv) _ IH]; intros o.
  { exists o. split; [apply fs_Parse_nil|done]. }
  simpl in Hn, Hv. subst name. destruct (IH (fl_set f v o)) as (o' & Hp & Hset).
  exists o'. split.
  - rewrite list.fmap_cons, (fs_Parse_setting _ _ _ _ v); try done; [by eapply fo_names|by eapply fo_plain].
  - intros g Hg. specialize (Hset g Hg). unfold set_by in *. rewrite last_text_cons. simpl.
    destruct (last_text _ settings); [done|]. case_decide as Heq.
    + eapply same_name in Heq as <-; [|by eapply fo_names|done|done].
      rewrite Hset, (fo_own _ _ Hf); [done|done|by eapply parse_value_type].
    + by rewrite Hset, (fo_other _ _ Hf).
Qed.

Lemma register_default o flags : flags_of o flags → foldl register o flags = o.
Proof.
  intros Hf. assert (H : ∀ fs, (∀ f, f ∈ fs → f ∈ flags) → foldl register o fs = o).
  { induction fs as [|f fs IH]; intros Hin; [done|]. simpl.
    assert (Hreg : register o f = o).
    { assert (f ∈ flags) by (apply Hin; by left). apply (fo_ext _ _ Hf). intros g Hg. unfold register.
      destruct (decide (fl_Name f = fl_Name g)) as [E|E]; [|by apply (fo_other _ _ Hf)].
      eapply same_name in E as <-; [|by eapply fo_names|done|done].
      rewrite (fo_own _ _ Hf); [symmetry; by apply (fo_default _ _ Hf)|done|by destruct (fl_DefValue f)]. }
    rewrite Hreg. apply IH. intros g Hg. apply Hin. by right. }
  by apply H.
Qed.

End settings.

(** ** The two programs *)

(** Splits a membership in a table of flags into its entries. *)
Ltac each_flag H := unfold agent_AddFlags, controller_AddFlags in H; set_unfold in H; destruct_or! H; subst.

(** Proves that a table binds each field of the options once. *)
Ltac solve_flags_of :=
  let o1 := fresh "o" in let o2 := fresh "o" in let H := fresh "H" in
  constructor;
  [ apply (bool_decide_unpack _); vm_compute; exact I
  | apply list.Forall_forall; repeat constructor
  | apply list.Forall_forall; repeat constructor
  | intros ? v ? H; each_flag H; by destruct v
  | intros ? ? v ? H1 H2; each_flag H1; each_flag H2; by destruct v
  | intros o1 o2 H; rewrite <-list.Forall_forall in H; repeat (apply list.Forall_cons in H as [? H]);
    destruct o1, o2; simpl in *; congruence ].

Lemma agent_flags_of : flags_of NewAgentOptions (agent_AddFlags NewAgentOptions).
Proof. solve_flags_of. Qed.

Lemma controller_flags_of : flags_of NewControllerOptions (controller_AddFlags NewControllerOptions).
Proof. solve_flags_of. Qed.

(** The command line decides the options: each flag's last setting or its
    default, which determines them; the program runs them when they are valid,
    and otherwise prints what is wrong with them. *)
Definition follows_flags `{PF : !PFlag} {O} (cmd : command O) : Prop :=
  let flags := cmd_AddFlags cmd (cmd_NewOptions cmd) in
  ∀ settings stdout, Forall (readable flags) settings →
  ∃ o, (∀ f, f ∈ flags → set_by settings (fl_DefValue f) f o) ∧
    (∀ o', (∀ f, f ∈ flags → set_by settings (fl_DefValue f) f o') → o' = o) ∧
    parseArgs cmd (setting <$> settings) stdout
    = (match cmd_Validate cmd o with Ok _ => Ok (Some o) | Err err => Err err end, stdout) ∧
    ∀ Run, main cmd Run (setting <$> settings)
      = match (let! _ := cmd_Validate cmd o in Run o) with
        | Ok _ => (0, Some "", "")
        | Err err => (1, Some "", Error err +:+ nl)
        end.

(** Whatever the command line, the program depends on its [Run] at valid options
    only. *)
Definition runs_validated `{PF : !PFlag} {O} (cmd : command O) : Prop :=
  ∀ Run1 Run2 args, (∀ o, cmd_Validate cmd o = Ok tt → Run1 o = Run2 o) → main cmd Run1 args = main cmd Run2 args.

(** The usage: what the program is, how it is called, and pflag's text for its
    flags, wrapped at 80 columns. *)
Definition usage_text (description name flag_usages : string) : string :=
  description +:+ nl +:+ nl +:+ "Usage:" +:+ nl +:+ "  " +:+ name +:+ " [flags]" +:+ nl +:+ nl +:+ "Flags:" +:+ nl
  +:+ flag_usages.

Section commands.
Context `{Laws : PFlagLaws}.

Lemma set_by_ext {O} settings before (f : flag O) o1 o2 :
  set_by settings before f o1 → set_by settings before f o2 → fl_get f o1 = fl_get f o2.
Proof. unfold set_by. destruct (last_text _ _); congruence. Qed.

Lemma command_follows {O} (cmd : command O) :
  flags_of (cmd_NewOptions cmd) (cmd_AddFlags cmd (cmd_NewOptions cmd)) → follows_flags cmd.
Proof.
  intros Hf. unfold follows_flags. cbv zeta. intros settings stdout Hs.
  destruct (parse_settings _ _ settings (cmd_NewOptions cmd) Hf Hs) as (o & Hp & Ho).
  assert (Hset : ∀ f, f ∈ cmd_AddFlags cmd (cmd_NewOptions cmd) → set_by settings (fl_DefValue f) f o).
  { intros f Hin. rewrite <-(fo_default _ _ Hf f Hin). by apply Ho. }
  exists o. split; [done|]. split.
  - intros o' Ho'. apply (fo_ext _ _ Hf). intros f Hin.
    eapply set_by_ext; [by apply Ho'|by apply Hset].
  - assert (Hparse : ∀ stdout, parseArgs cmd (setting <$> settings) stdout
      = (match cmd_Validate cmd o with Ok _ => Ok (Some o) | Err err => Err err end, stdout)).
    { intros w. unfold parseArgs. rewrite register_default, Hp by done. simpl. by destruct (cmd_Validate cmd o). }
    split; [done|]. intros Run. unfold main, Execute. rewrite Hparse. by destruct (cmd_Validate cmd o).
Qed.

(** What [parseArgs] returns has been validated. *)
Lemma parseArgs_validated {O} (cmd : command O) args stdout o stdout' :
  parseArgs cmd args stdout = (Ok (Some o), stdout') → cmd_Validate cmd o = Ok tt.
Proof.
  unfold parseArgs. destruct (fs_Parse _ _ args) as [[o' rest] [err|]]; [by destruct (is_ErrHelp err)|].
  case_decide; [done|]. destruct (cmd_Validate cmd o') as [[]|] eqn:E; [|done]. by intros [= <- _].
Qed.

Lemma command_validates {O} (cmd : command O) : runs_validated cmd.
Proof.
  intros Run1 Run2 args Heq. unfold main, Execute.
  destruct (parseArgs cmd args (Some "")) as [[[o|]|err] out] eqn:Hp; [|done..].
  by rewrite (Heq o (parseArgs_validated cmd args _ o out Hp)).
Qed.

(** A request for help runs nothing and succeeds. *)
Lemma main_help {O} (cmd : command O) Run args :
  "help" ∉ fl_Name <$> cmd_AddFlags cmd (cmd_NewOptions cmd) →
  main cmd Run ("--help" :: args)
  = (0, Some (usage cmd (cmd_AddFlags cmd (cmd_NewOptions cmd))), "").
Proof.
  intros Hh. unfold main, Execute, parseArgs.
  destruct (fs_Parse_help _ (foldl register (cmd_NewOptions cmd) (cmd_AddFlags cmd (cmd_NewOptions cmd))) args Hh)
    as (err & He & Hi).
  destruct (fs_Parse _ _ ("--help" :: args)) as [[o rest] e]. simpl in He. subst e. by rewrite Hi.
Qed.

(** C37. Each program's options are exactly what its command
    line gives: every field is bound to one flag of its own, and after any list
    of [--name=text] settings, repeated or in any order, every field holds the
    value of its flag's last setting, or its default.  If they are valid they are
    run, and the exit status is 0 unless that fails; an error is printed and
    makes it 1.  Whatever the command line, options that are not valid are not
    run.  Asked for help, a program prints its description, its usage line and
    its flags, runs nothing and exits with status 0. *)
Theorem commands_follow_flags :
  follows_flags agentCommand ∧ follows_flags controllerCommand ∧
  runs_validated agentCommand ∧ runs_validated controllerCommand ∧
  (∀ Run args, agent_main Run ("--help" :: args)
     = (0, Some (usage_text "Experimental Gateway VIP agent for kube-proxy-like TCP routing work"
                   "clusterip-gw-agent" (FlagUsagesWrapped (agent_AddFlags NewAgentOptions) 80)), "")) ∧
  (∀ Run args, controller_main Run ("--help" :: args)
     = (0, Some (usage_text "Experimental Gateway API controller for clusterip-gw Gateway VIP allocation"
                   "clusterip-gw-controller" (FlagUsagesWrapped (controller_AddFlags NewControllerOptions) 80)), "")).
Proof.
  split_and!; [apply command_follows, agent_flags_of|apply command_follows, controller_flags_of|
    apply command_validates..|intros Run args; apply (main_help agentCommand)|
    intros Run args; apply (main_help controllerCommand)]; apply (bool_decide_unpack _); vm_compute; exact I.
Qed.

End commands.

(** ** A small pflag, and a worked example *)

Definition ErrHelp : error := Sentinel "pflag: help requested".

(** [--name=text] to its two parts. *)
Definition split_setting (arg : string) : option (string * string) :=
  i ← index_char 61 arg; Some (String.substring 2 (i - 2) arg, slice_from (S i) arg).

Definition ref_number (text : string) : result Z :=
  match digits_val text 0 with Some n => Ok n | None => Err (num_error "ParseInt" text "invalid syntax") end.

Definition ref_bool (text : string) : result bool :=
  if decide (text = "true") then Ok true else if decide (text = "false") then Ok false
  else Err (num_error "ParseBool" text "invalid syntax").

(** Nanoseconds only. *)
Definition ref_duration (text : string) : result Z := ref_number (String.substring 0 (String.length text - 2) text).

(** Whole numbers only. *)
Definition ref_float32 (text : string) : result float32 :=
  let! n := ref_number text in Ok (binary_normalize 24 128 n 0 false).

Definition ref_value (default : flag_value) (text : string) : result flag_value :=
  match default with
  | VString _ => Ok (VString text)
  | VFloat32 _ => let! q := ref_float32 text in Ok (VFloat32 q)
  | VInt32 _ => let! z := ref_number text in Ok (VInt32 z)
  | VDuration _ => let! n := ref_duration text in Ok (VDuration n)
  | VBool _ => let! b := ref_bool text in Ok (VBool b)
  end.

Fixpoint ref_Parse {O} (flags : list (flag O)) (o : O) (args : list string) : O * list string * option error :=
  match args with
  | [] => (o, [], None)
  | arg :: args =>
      match split_setting arg with
      | Some (name, text) =>
          match List.find (λ f, bool_decide (fl_Name f = name)) flags with
          | None => (o, [], Some (ErrorString ("unknown flag: --" +:+ name)))
          | Some f =>
              match ref_value (fl_DefValue f) text with
              | Err err => (o, [], Some err)
              | Ok v => ref_Parse flags (fl_set f v o) args
              end
          end
      | None =>
          if decide (arg = "--help") then (o, [], Some ErrHelp)
          else let '(o, rest, err) := ref_Parse flags o args in (o, arg :: rest, err)
      end
  end.

#[export] Instance ref_pflag : PFlag := {
  pf_Float32 := ref_float32; pf_Int32 := ref_number; pf_Duration := ref_duration; pf_Bool := ref_bool;
  fs_Parse := @ref_Parse; is_ErrHelp err := bool_decide (err = ErrHelp);
  FlagUsagesWrapped O flags cols := foldr (λ f s, "--" +:+ fl_Name f +:+ " " +:+ fl_Usage f +:+ nl +:+ s) "" flags;
}.

Lemma split_setting_ok name text : plain_name name = true → split_setting (setting (name, text)) = Some (name, text).
Proof.
  unfold plain_name. intros [[[H _]%andb_true_iff _]%andb_true_iff _]%andb_true_iff. apply negb_true_iff in H.
  unfold split_setting, setting. simpl fst. simpl snd.
  change ("=" +:+ text) with (String "=" text). rewrite <-(string_app_assoc "--").
  rewrite (index_char_app 61 "="%char) by (done || (rewrite has_char_app; simpl; by rewrite H)).
  simpl. f_equal. f_equal.
  - rewrite Nat.sub_0_r. apply substring_prefix.
  - assert (Hs : ∀ a, slice_from (S (String.length a)) (a +:+ String "=" text) = text).
    { intros a. change (String "=" text) with ("=" +:+ text). rewrite <-string_app_assoc.
      replace (S (String.length a)) with (String.length (a +:+ "=")) by (rewrite string_length_app; simpl; lia).
      apply slice_from_app. }
    apply (Hs ("--" +:+ name)).
Qed.

#[export] Instance ref_pflag_laws : PFlagLaws.
Proof.
  split.
  - done.
  - intros O flags o f text v args Hnd Hf Hn Hv. cbn [fs_Parse ref_pflag ref_Parse].
    rewrite split_setting_ok by done. destruct (List.find _ flags) as [g|] eqn:Hfind.
    + apply List.find_some in Hfind as [Hg%list_elem_of_In Hgn%bool_decide_eq_true].
      eapply same_name in Hgn as ->; [|done..]. by rewrite (Hv : ref_value _ _ = _).
    + apply list_elem_of_In in Hf. eapply List.find_none in Hfind; [|done]. simpl in Hfind.
      by apply bool_decide_eq_false in Hfind.
  - intros O flags o args _. exists ErrHelp. split; [done|]. by apply bool_decide_true.
Qed.

Definition demo_settings : list (string * string) :=
  [("master", "https://10.0.0.1"); ("kube-api-qps", "7"); ("nftables-sync-period", "5ns"); ("apply-rules", "false");
   ("master", "https://10.0.0.2")].

Definition readable_check {O} (flags : list (flag O)) (s : string * string) : bool :=
  existsb (λ f, bool_decide (fl_Name f = s.1)
    && match parse_value (fl_DefValue f) s.2 with Ok _ => true | Err _ => false end) flags.

Lemma readable_check_ok {O} (flags : list (flag O)) settings :
  forallb (readable_check flags) settings = true → Forall (readable flags) settings.
Proof.
  rewrite forallb_forall. intros H. apply list.Forall_forall. intros s Hs%list_elem_of_In%H.
  apply existsb_exists in Hs as (f & Hf%list_elem_of_In & [Hn%bool_decide_eq_true Hv]%andb_true_iff).
  destruct (parse_value _ _) as [v|] eqn:E; [|done]. by exists f, v.
Qed.

Lemma commands_follow_flags_witness :
  ∃ o, agent_parseArgs (setting <$> demo_settings) None = (Ok (Some o), None) ∧
    ∀ f, f ∈ agent_AddFlags NewAgentOptions → set_by demo_settings (fl_DefValue f) f o.
Proof.
  destruct commands_follow_flags as (H & _).
  destruct (H demo_settings None) as (o & Hset & _ & Hp & _).
  - apply readable_check_ok. vm_compute. reflexivity.
  - exists o. split; [|exact Hset]. unfold agent_parseArgs. rewrite Hp.
    destruct (cmd_Validate agentCommand o) as [u|err]; [reflexivity|].
    apply (f_equal (λ p, match p.1 with Ok _ => true | Err _ => false end)) in Hp. vm_compute in Hp. discriminate Hp.
Defined.

(** The last address wins, and what is not given keeps its default. *)
Example demo_parsed :
  match agent_parseArgs (setting <$> demo_settings) None with
  | (Ok (Some o), _) =>
      ao_Master o = "https://10.0.0.2" ∧ ao_KubeAPIQPS o = binary_normalize 24 128 7 0 false ∧
      ao_NFTablesSyncPeriod o = 5 ∧ ao_ApplyRules o = false ∧ ao_KubeAPIBurst o = 10
  | _ => False
  end.
Proof. vm_compute. repeat split. Qed.

(** A stray argument and an unknown flag are errors. *)
Example demo_refused :
  (agent_main (λ _, Ok tt) ["stray"]).1.1 = 1 ∧ (controller_main (λ _, Ok tt) ["--apply-rules=true"]).1.1 = 1.
Proof. split; vm_compute; reflexivity. Qed.
