(* ===== verification/App.v ===== *)
(** * internal/agent/app and internal/controller/app: start-up

    The [Run] of both programs up to the wait for shutdown, the agent's event
    handlers, and the health endpoint.  Building clients, the HTTP servers and
    the informers are vendored: their outcomes are arguments. *)

From S2P Require Import Prelude KubeTypes Api Handlers Workqueue Workers Trackers Netlink Proxier SyncLoop Options.

(** ** The agent's informer events *)

Section agent.
Context `{API : !ApiMachinery}.

(** [None] is a panic. *)
Definition mustGateway (obj : object) : option Gateway :=
  match obj with
  | OGateway t => Some t
  | ODeletedFinalStateUnknown (OGateway gateway) => Some gateway
  | _ => None
  end.

Definition mustEndpointSlice (obj : object) : option EndpointSlice :=
  match obj with
  | OEndpointSlice t => Some t
  | ODeletedFinalStateUnknown (OEndpointSlice slice) => Some slice
  | _ => None
  end.

Definition agent_on_gateway (n : notification) : option callback :=
  match n with
  | AddFunc obj => g ← mustGateway obj; Some (GatewayAdd (Some g))
  | UpdateFunc oldObj newObj => old ← mustGateway oldObj; g ← mustGateway newObj; Some (GatewayUpdated (Some old) (Some g))
  | DeleteFunc obj => g ← mustGateway obj; Some (GatewayDelete (Some g))
  end.

Definition agent_on_endpointSlice (n : notification) : option callback :=
  match n with
  | AddFunc obj => es ← mustEndpointSlice obj; Some (EndpointSliceAdd (Some es))
  | UpdateFunc oldObj newObj =>
      old ← mustEndpointSlice oldObj; es ← mustEndpointSlice newObj; Some (EndpointSliceUpdated (Some old) (Some es))
  | DeleteFunc obj => es ← mustEndpointSlice obj; Some (EndpointSliceDelete (Some es))
  end.

End agent.

(** ** The health endpoint *)

Definition healthz (ready : bool) : Z * string := if negb ready then (503, "not ready") else (200, "ok").

(** ** HTTP servers *)

(** What a server answers with: the health check; or a mux, by path, with
    [None] the Prometheus handler and [Some] a fixed text. *)
Inductive http_handler := HealthzHandler | ServeMux (paths : list (string * option string)).

(** ** internal/apputil/httpserver.go

    A server's two goroutines: one waits for the context and shuts the server
    down, one serves until [ListenAndServe] returns and reports an error other
    than [http.ErrServerClosed]. *)

Inductive serve_pc :=
| Serving               (** in [ListenAndServe] *)
| Stopped (err : error) (** it has returned *)
| ServeEnded.

Inductive shutdown_pc := AwaitDone | InShutdown | ShutdownEnded.

#[export] Instance shutdown_pc_eq_dec : EqDecision shutdown_pc.
Proof. solve_decision. Defined.

Record http_Server := mkServer {
  hs_Addr : string; hs_Handler : http_handler; hs_serve : serve_pc; hs_shutdown : shutdown_pc }.

Definition StartHTTPServer (addr : string) (handler : http_handler) : http_Server :=
  mkServer addr handler Serving AwaitDone.

(** What a program's goroutines share: whether the context is done, the channel
    of errors and the servers. *)
Record shared := mkShared { sh_done : bool; errCh : list error; sh_servers : list http_Server }.

(** [make(chan error, 2)]. *)
Definition errCh_cap : nat := 2.

(** A send, which blocks when the buffer is full. *)
Definition send (err : error) (w : shared) : option shared :=
  if decide (length (errCh w) < errCh_cap)%nat
  then Some (mkShared (sh_done w) (errCh w ++ [err]) (sh_servers w)) else None.

Definition set_done (w : shared) : shared := mkShared true (errCh w) (sh_servers w).

Definition set_server (i : nat) (s : http_Server) (w : shared) : shared :=
  mkShared (sh_done w) (errCh w) (<[i := s]> (sh_servers w)).

Definition set_serve (pc : serve_pc) (s : http_Server) : http_Server :=
  mkServer (hs_Addr s) (hs_Handler s) pc (hs_shutdown s).
Definition set_shutdown (pc : shutdown_pc) (s : http_Server) : http_Server :=
  mkServer (hs_Addr s) (hs_Handler s) (hs_serve s) pc.

Inductive server_action :=
| ListenAndServeReturns (i : nat) (err : error)
| AfterServe (i : nat)      (** the test of the error, and the send *)
| CallShutdown (i : nat)    (** the context is done *)
| ShutdownReturns (i : nat).

Section servers.
(** [errors.Is(err, http.ErrServerClosed)]. *)
Context (is_ErrServerClosed : error → bool).

(** net/http: [ListenAndServe] returns [http.ErrServerClosed] only once the
    server has been shut down. *)
Definition server_step (a : server_action) (w : shared) : option shared :=
  match a with
  | ListenAndServeReturns i err =>
      s ← sh_servers w !! i;
      match hs_serve s with
      | Serving =>
          if is_ErrServerClosed err && bool_decide (hs_shutdown s = AwaitDone) then None
          else Some (set_server i (set_serve (Stopped err) s) w)
      | _ => None
      end
  | AfterServe i =>
      s ← sh_servers w !! i;
      match hs_serve s with
      | Stopped err =>
          w ← (if negb (is_ErrServerClosed err) then send err w else Some w);
          Some (set_server i (set_serve ServeEnded s) w)
      | _ => None
      end
  | CallShutdown i =>
      s ← sh_servers w !! i;
      if bool_decide (hs_shutdown s = AwaitDone) && sh_done w
      then Some (set_server i (set_shutdown InShutdown s) w) else None
  | ShutdownReturns i =>
      s ← sh_servers w !! i;
      if decide (hs_shutdown s = InShutdown)
      then Some (set_server i (set_shutdown ShutdownEnded s) w) else None
  end.

End servers.

(** ** Starting the servers *)

(** The servers [startHTTPServers] starts, with the address each listens on. *)
Definition http_servers (healthzAddr metricsAddr : string) (mux : list (string * option string))
    : list http_Server :=
  (if decide (healthzAddr ≠ "") then [StartHTTPServer healthzAddr HealthzHandler] else [])
  ++ (if decide (metricsAddr = "") then [] else [StartHTTPServer metricsAddr (ServeMux mux)]).

Definition agent_startHTTPServers (healthzAddr metricsAddr : string) : list http_Server :=
  http_servers healthzAddr metricsAddr [("/metrics", None); ("/proxyMode", Some "nftables")].

Definition controller_startHTTPServers (healthzAddr metricsAddr : string) : list http_Server :=
  http_servers healthzAddr metricsAddr [("/metrics", None)].

(** ** The agent *)

(** What the vendored parts answer: the loaders of the client configuration,
    and the two clients. *)
Record agent_env := mkAgentEnv {
  ae_load : option string → string → result rest_Config;
  ae_InClusterConfig : result rest_Config;
  ae_client : rest_Config → result unit;
  ae_gatewayClient : rest_Config → result unit;
}.

Definition proxier_options (o : AgentOptions) : Proxier.Options :=
  mkOptions (ao_NFTablesTableName o) (ao_NFTablesSyncPeriod o) (ao_NFTablesMinSyncPeriod o) (ao_ApplyRules o).

Definition agent_no_sync : error := ErrorString "timed out waiting for informer cache sync".

(** Up to the wait for the caches: the proxier, and the servers. *)
Definition agent_start (env : agent_env) (o : AgentOptions) : result (Proxier * list http_Server) :=
  let! restConfig := Build (ae_load env) (agent_clientConfig o) (ao_Master o) (ae_InClusterConfig env) in
  let! _ := wrap_err "create kube client" (ae_client env restConfig) in
  let! _ := wrap_err "create gateway client" (ae_gatewayClient env restConfig) in
  let! proxier := NewProxier (proxier_options o) in
  Ok (proxier, agent_startHTTPServers (ao_HealthzBindAddress o) (ao_MetricsBindAddress o)).

(** The callbacks once the caches have synced, before the loop starts. *)
Definition agent_synced_callbacks : list callback := [GatewaySynced; EndpointSlicesSynced].

Definition agent_synced (p : Proxier) : Proxier :=
  foldl (λ p st, run_callback_step st p) p (agent_synced_callbacks ≫= callback_steps).

(** [time.NewTicker] panics on a period that is not positive. *)
Definition ticker_ok (p : Proxier) : bool := 0 <? syncPeriod p.

(** ** The controller *)

Section controller.
Context `{API : !ApiMachinery} {Q : Type} `{WQ : !WorkQueue Q}.

Record controller_env := mkControllerEnv {
  ce_load : option string → string → result rest_Config;
  ce_InClusterConfig : result rest_Config;
  ce_coreClient : rest_Config → result unit;
  ce_dynamicClient : rest_Config → result unit;
  ce_gatewayClient : rest_Config → result unit;
  ce_addIndexers : informer → list (string * (object → option (list string))) → result unit;
  ce_caches : Caches;
}.

Definition controller_start (env : controller_env) (o : ControllerOptions) : result (Controller (Q := Q)) :=
  let! restConfig :=
    match Build (ce_load env) (controller_clientConfig o) (cto_Master o) (ce_InClusterConfig env) with
    | Err err => Err (WrapError "build kube client config" err)
    | Ok restConfig => Ok restConfig
    end in
  let! _ := wrap_err "create kube client" (ce_coreClient env restConfig) in
  let! _ := wrap_err "create dynamic kube client" (ce_dynamicClient env restConfig) in
  let! _ := wrap_err "create gateway client" (ce_gatewayClient env restConfig) in
  New (ce_addIndexers env) (ce_caches env).

End controller.
