(* ===== verification/Process.v ===== *)
(** * The running programs: [Run] of both server_linux.go

    What runs from the start of the servers to the return of [Run]: the main
    goroutine, the servers' goroutines, the controller's own, the signal.  An
    action is one atomic step of one of them; nothing runs once [Run] has
    returned, since the process exits. *)

From S2P Require Import Prelude KubeTypes Api Workqueue Workers Proxier SyncLoop Options App.

(** The actions [tr], oldest first, lead from [p0] to [p]. *)
Inductive reaches {A P} (step : A → P → option P) (p0 : P) : list A → P → Prop :=
| reaches_start : reaches step p0 [] p0
| reaches_step tr a p p' : reaches step p0 tr p → step a p = Some p' → reaches step p0 (tr ++ [a]) p'.

Section process.
Context (is_ErrServerClosed : error → bool).

(** ** The controller *)

Section controller.
Context `{API : !ApiMachinery} {Q : Type} `{WQ : !WorkQueue Q}.

(** The goroutine of [ctrl.Run]. *)
Inductive ctrl_pc := CtrlSyncing | CtrlRunning | CtrlReturned (r : result unit) | CtrlEnded.

Record controller_process := mkControllerProcess {
  cp_shared : shared;
  cp_ctrl : Controller (Q := Q);
  cp_pc : ctrl_pc;
  cp_workers : list (worker * worker_pc);
  cp_main : option (result unit);   (** what [Run] has returned *)
}.

Definition controller_init (env : controller_env) (o : ControllerOptions) : result controller_process :=
  let! ctrl := controller_start env o in
  Ok (mkControllerProcess
        (mkShared false [] (controller_startHTTPServers (cto_HealthzBindAddress o) (cto_MetricsBindAddress o)))
        ctrl CtrlSyncing [] None).

Inductive controller_action :=
| CServer (a : server_action)
| CSignal                  (** SIGINT or SIGTERM, or the parent context *)
| CSync (synced : bool)    (** [WaitForCacheSync] returns; false once the context is done *)
| CCtrlDone                (** [<-ctx.Done()] of [ctrl.Run] *)
| CCtrlReports             (** after [ctrl.Run] *)
| CMainDone                (** the two cases of the select *)
| CMainError.

Definition with_shared (w : shared) (p : controller_process) : controller_process :=
  mkControllerProcess w (cp_ctrl p) (cp_pc p) (cp_workers p) (cp_main p).

(** The controller's part of a step. *)
Definition with_ctrl (c : Controller) (pc : ctrl_pc) (workers : list (worker * worker_pc)) (p : controller_process)
    : controller_process :=
  mkControllerProcess (cp_shared p) c pc workers (cp_main p).

(** [Run] returns, and the deferred [cancel]. *)
Definition controller_exit (r : result unit) (w : shared) (p : controller_process) : controller_process :=
  mkControllerProcess (set_done w) (cp_ctrl p) (cp_pc p) (cp_workers p) (Some r).

Definition controller_process_step (a : controller_action) (p : controller_process) : option controller_process :=
  let w := cp_shared p in
  match cp_main p with
  | Some _ => None
  | None =>
      match a with
      | CServer a => w ← server_step is_ErrServerClosed a w; Some (with_shared w p)
      | CSignal => Some (with_shared (set_done w) p)
      | CSync synced =>
          match cp_pc p with
          | CtrlSyncing =>
              if negb synced && negb (sh_done w) then None
              else match Run synced (cp_ctrl p) with
                   | (c, Ok workers) => Some (with_ctrl c CtrlRunning workers p)
                   | (c, Err err) => Some (with_ctrl c (CtrlReturned (Err err)) [] p)
                   end
          | _ => None
          end
      | CCtrlDone =>
          match cp_pc p with
          | CtrlRunning =>
              if sh_done w
              then Some (with_ctrl (set_queues (shut_down_queues (ctl_queues (cp_ctrl p))) (cp_ctrl p))
                           (CtrlReturned (Ok tt)) (cp_workers p) p)
              else None
          | _ => None
          end
      | CCtrlReports =>
          match cp_pc p with
          | CtrlReturned r =>
              w ← match r with Err err => send err w | Ok _ => Some w end;
              Some (with_ctrl (cp_ctrl p) CtrlEnded (cp_workers p) (with_shared w p))
          | _ => None
          end
      | CMainDone => if sh_done w then Some (controller_exit (Ok tt) w p) else None
      | CMainError =>
          match errCh w with
          | [] => None
          | err :: errs => Some (controller_exit (Err err) (mkShared (sh_done w) errs (sh_servers w)) p)
          end
      end
  end.

(** What the health endpoint answers. *)
Definition controller_healthz (p : controller_process) : Z * string := healthz (Controller_Ready (cp_ctrl p)).

End controller.

(** ** The agent *)

Inductive agent_pc := AgentSyncing | AgentSelecting | AgentReturned (r : result unit).

Record agent_process := mkAgentProcess {
  ap_shared : shared;
  ap_proxier : Proxier;
  ap_loop : bool;      (** [SyncLoop] has been started *)
  ap_main : agent_pc;
}.

Definition agent_init (env : agent_env) (o : AgentOptions) : result agent_process :=
  let! started := agent_start env o in
  let '(proxier, servers) := started in
  Ok (mkAgentProcess (mkShared false [] servers) proxier false AgentSyncing).

Inductive agent_action :=
| AServer (a : server_action)
| ASignal
| ASync (synced : bool)
| AMainDone
| AMainError.

Definition agent_exit (r : result unit) (w : shared) (p : agent_process) : agent_process :=
  mkAgentProcess (set_done w) (ap_proxier p) (ap_loop p) (AgentReturned r).

Definition agent_process_step (a : agent_action) (p : agent_process) : option agent_process :=
  let w := ap_shared p in
  match ap_main p, a with
  | AgentReturned _, _ => None
  | _, AServer a =>
      w ← server_step is_ErrServerClosed a w;
      Some (mkAgentProcess w (ap_proxier p) (ap_loop p) (ap_main p))
  | _, ASignal => Some (mkAgentProcess (set_done w) (ap_proxier p) (ap_loop p) (ap_main p))
  | AgentSyncing, ASync true => Some (mkAgentProcess w (agent_synced (ap_proxier p)) true AgentSelecting)
  | AgentSyncing, ASync false => if sh_done w then Some (agent_exit (Err agent_no_sync) w p) else None
  | AgentSelecting, AMainDone => if sh_done w then Some (agent_exit (Ok tt) w p) else None
  | AgentSelecting, AMainError =>
      match errCh w with
      | [] => None
      | err :: errs => Some (agent_exit (Err err) (mkShared (sh_done w) errs (sh_servers w)) p)
      end
  | _, _ => None
  end.

Definition agent_healthz (p : agent_process) : Z * string := healthz (Ready (ap_proxier p)).

End process.
