(* ===== verification/AppSpec.v ===== *)
(** * Options and start-up: properties

    Which addresses the options accept, and that validated options start an agent
    whose loop can run. *)

From Stdlib Require Import Ascii SpecFloat.
From S2P Require Import Prelude GoNet GoStrings KubeTypes Api Trackers Netlink Proxier SyncLoop Options App Reference.

(** ** Addresses *)

Lemma starts_with_none n s : has_char n s = false → starts_with n s = false.
Proof. destruct s; [done|]. by intros [? _]%orb_false_iff. Qed.

(** A host without colons or brackets, a port without either. *)
Lemma SplitHostPort_join host port :
  has_char 58 host = false → has_char 91 host = false → has_char 93 host = false →
  has_char 58 port = false → has_char 91 port = false → has_char 93 port = false → host ≠ "" →
  SplitHostPort (host +:+ ":" +:+ port) = Ok (host, port).
Proof.
  intros H1 H2 H3 H4 H5 H6 Hne. unfold SplitHostPort. change (":" +:+ port) with (String ":" port).
  rewrite (last_index_char_app 58 ":"%char) by done.
  assert (Hst : starts_with 91 (host +:+ String ":" port) = false).
  { destruct host as [|c host]; [done|]. simpl in H2 |- *. by apply orb_false_iff in H2 as [? _]. }
  rewrite Hst. unfold slice_to. rewrite substring_prefix, H1. simpl.
  assert (Hall : slice_from 0 (host +:+ String ":" port) = host +:+ String ":" port) by apply (slice_from_app "").
  rewrite Hall, !has_char_app, H2, H3. cbn [has_char]. change (is_char 91 ":") with false. change (is_char 93 ":") with false.
  rewrite H5, H6. simpl. f_equal. f_equal.
  assert (Hp : host +:+ String ":" port = (host +:+ ":") +:+ port) by (by rewrite string_app_assoc).
  assert (Hl : S (String.length host) = String.length (host +:+ ":")) by (rewrite string_length_app; simpl; lia).
  rewrite Hp, Hl. apply slice_from_app.
Qed.

Lemma ParseUint16_range s n : ParseUint16 s = Ok n → n < 2 ^ 16.
Proof.
  unfold ParseUint16. destruct s as [|c s]; [done|]. destruct (digits_val (String c s) 0) as [v|]; [|done].
  destruct (v <? 2 ^ 16) eqn:E; [|done]. intros [= <-]. lia.
Qed.

Lemma pretty_nonempty z : 0 ≤ z → pretty z ≠ "".
Proof. intros Hz H. apply digits_val_pretty in Hz as Hd. rewrite H in Hd. simpl in Hd. injection Hd as <-. discriminate. Qed.

Lemma ParseUint16_pretty n : 0 ≤ n < 2 ^ 16 → ParseUint16 (pretty n) = Ok n.
Proof.
  intros Hn. pose proof (digits_val_pretty n) as Hd. pose proof (pretty_nonempty n) as Hne. unfold ParseUint16.
  destruct (pretty n) as [|c s]; [by destruct Hne; [lia|]|]. rewrite Hd by lia.
  assert (n <? 2 ^ 16 = true) as -> by lia. done.
Qed.

(** C38. An address the options accept names an IPv4 host
    and a 16-bit port; and every IPv4 address printed with any 16-bit port is
    accepted. *)
Theorem ValidateIPv4HostPort_spec :
  (∀ addr, ValidateIPv4HostPort addr = Ok tt →
     ∃ host port ip n, SplitHostPort addr = Ok (host, port) ∧ ParseIPv4 host = Some ip ∧ wf4 ip ∧
       ParseUint16 port = Ok n ∧ n < 2 ^ 16) ∧
  ∀ ip n, wf4 ip → 0 ≤ n < 2 ^ 16 → ValidateIPv4HostPort (JoinHostPort (dotted ip) (Itoa n)) = Ok tt.
Proof.
  split.
  - intros addr. unfold ValidateIPv4HostPort. intros ([host port] & Hsplit & H)%result_bind_ok.
    case_decide; [done|]. case_decide; [done|]. destruct (ParseUint16 port) as [n|] eqn:Hport; [|done].
    case_match; [done|]. destruct (ParseIP host) as [ip|] eqn:Hip; [|done]. destruct (To4 ip) as [ip4|] eqn:H4; [|done].
    assert (Hv4 : ParseIPv4 host = Some ip4) by (unfold ParseIPv4; by rewrite Hip).
    exists host, port, ip4, n. split_and!; try done; [by eapply ParseIPv4_wf4|by eapply ParseUint16_range].
  - intros ip n Hip Hn. unfold JoinHostPort, Itoa. rewrite has_char_dotted by lia.
    pose proof (dotted_nonempty ip Hip) as Hne.
    unfold ValidateIPv4HostPort. rewrite SplitHostPort_join; try (by apply has_char_dotted; lia);
      try (by apply has_char_pretty; lia); [|done]. simpl.
    rewrite decide_False by done. rewrite decide_False by (apply pretty_nonempty; lia).
    rewrite ParseUint16_pretty by done. rewrite ParseIP_dotted, To4_v4in6 by done.
    assert (Hno : ∀ s, has_char 58 s = true → dotted ip ≠ s).
    { intros s Hs <-. by rewrite has_char_dotted in Hs. }
    by rewrite !bool_decide_false by (apply Hno; reflexivity).
Qed.

(** ** Start-up *)

(** Both programs' defaults are valid. *)
Example defaults_valid : agent_Validate NewAgentOptions = Ok tt ∧ controller_Validate NewControllerOptions = Ok tt.
Proof. split; vm_compute; reflexivity. Qed.

Lemma wrap_err_ok prefix r : wrap_err prefix r = Ok tt → r = Ok tt.
Proof. by destruct r as [[]|e]. Qed.

(** The servers of validated options. *)
Lemma validated_servers healthz metrics qps burst mux :
  validate_common healthz metrics qps burst = Ok tt →
  let servers := http_servers healthz metrics mux in
  StartHTTPServer healthz HealthzHandler ∈ servers ∧
  ∀ s, s ∈ servers → ValidateIPv4HostPort (hs_Addr s) = Ok tt.
Proof.
  unfold validate_common. intros ([] & Hh%wrap_err_ok & H)%result_bind_ok.
  apply result_bind_ok in H as ([] & Hm & _). unfold http_servers.
  rewrite decide_True by (intros ->; discriminate). split; [by left|]. intros s [->|Hs]%list.elem_of_cons; [done|].
  case_decide as Hme; [by apply elem_of_nil in Hs|]. apply list_elem_of_singleton in Hs as ->.
  rewrite decide_True in Hm by done. by apply wrap_err_ok in Hm.
Qed.

(** C35. An agent started on validated options, whose client
    configuration and clients can be built, starts: its proxier is built, its loop's ticker gets a positive
    period, its health server is started, on an IPv4 address and port as every
    server is, and the two callbacks run before the loop make it ready. *)
Theorem agent_starts env o restConfig :
  agent_Validate o = Ok tt →
  Build (ae_load env) (agent_clientConfig o) (ao_Master o) (ae_InClusterConfig env) = Ok restConfig →
  ae_client env restConfig = Ok tt → ae_gatewayClient env restConfig = Ok tt →
  ∃ p servers, agent_start env o = Ok (p, servers) ∧
    ticker_ok p = true ∧ 0 ≤ minSyncPeriod p ∧ tableName p = ao_NFTablesTableName o ∧ tableName p ≠ "" ∧
    StartHTTPServer (ao_HealthzBindAddress o) HealthzHandler ∈ servers ∧
    (∀ s, s ∈ servers → ValidateIPv4HostPort (hs_Addr s) = Ok tt) ∧
    Ready p = false ∧ Ready (agent_synced p) = true.
Proof.
  intros Hv Hb Hc Hg. unfold agent_Validate in Hv. case_decide as Ht; [done|].
  destruct (ao_ConfigSyncPeriod o <=? 0); [done|]. destruct (ao_NFTablesSyncPeriod o <=? 0) eqn:Hp; [done|].
  destruct (ao_NFTablesMinSyncPeriod o <? 0) eqn:Hm; [done|].
  unfold agent_start, NewProxier, proxier_options. rewrite Hb. simpl. rewrite Hc, Hg. simpl.
  rewrite decide_False by done. simpl. do 2 eexists. split; [done|]. unfold ticker_ok. simpl.
  destruct (validated_servers _ _ _ _ [("/metrics", None); ("/proxyMode", Some "nftables")] Hv) as [Hh Hall].
  split_and!; try done; lia.
Qed.

(** ** Worked example *)

Definition demo_config : rest_Config := mkRestConfig "https://10.96.0.1" "" "" float32_zero 0.
Definition demo_env : agent_env := mkAgentEnv (λ _ _, Ok demo_config) (Ok demo_config) (λ _, Ok tt) (λ _, Ok tt).

Lemma agent_starts_witness :
  ∃ p servers, agent_start demo_env NewAgentOptions = Ok (p, servers) ∧ ticker_ok p = true.
Proof.
  destruct (agent_starts demo_env NewAgentOptions
    (with_client_options demo_config (agent_clientConfig NewAgentOptions))) as (p & servers & H & Ht & _).
  - vm_compute. reflexivity.
  - reflexivity.
  - reflexivity.
  - reflexivity.
  - exists p, servers. split; [exact H|exact Ht].
Defined.
