(* ===== verification/ProcessSpec.v ===== *)
(** * The running programs: properties

    How [Run] of either program ends: on a signal, on a server's error, or, for
    want of synced caches, on a signal that came too early. *)

From S2P Require Import Prelude KubeTypes Api Workqueue Workers Proxier SyncLoop Options App Process Reference.

Section reach.
Context {A P : Type} (step : A → P → option P).

Lemma reaches_one p a p' : step a p = Some p' → reaches step p [a] p'.
Proof. intros H. apply (reaches_step _ _ [] a p p' (reaches_start _ _) H). Qed.

Lemma reaches_run p0 tr p : foldl (λ o a, o ≫= step a) (Some p0) tr = Some p → reaches step p0 tr p.
Proof.
  revert p. induction tr as [|a tr IH] using rev_ind; intros p; [intros [= <-]; constructor|].
  rewrite foldl_app. simpl. intros (p' & Hp & Ha)%bind_Some. eapply reaches_step; [by apply IH|done].
Qed.

(** [p] can end in the result [r] of [main] in at most [n] steps. *)
Definition can_end {R} (main : P → option R) (n : nat) (p : P) (r : R) : Prop :=
  ∃ tr p', (length tr ≤ n)%nat ∧ reaches step p tr p' ∧ main p' = Some r.

Lemma can_end_one {R} (main : P → option R) n p a p' r :
  (1 ≤ n)%nat → step a p = Some p' → main p' = Some r → can_end main n p r.
Proof. intros Hn Hs Hm. exists [a], p'. split_and!; [done|by apply reaches_one|done]. Qed.

Lemma can_end_two {R} (main : P → option R) p a p1 b p2 r :
  step a p = Some p1 → step b p1 = Some p2 → main p2 = Some r → can_end main 2 p r.
Proof.
  intros Ha Hb Hm. exists ([a] ++ [b]), p2. split_and!; [simpl; lia| |done].
  eapply reaches_step; [by apply reaches_one|done].
Qed.

End reach.

(** ** The servers *)

Section servers.
Context (is_closed : error → bool).

(** Some server's [ListenAndServe] has returned an error to be reported. *)
Definition server_failed (acts : list server_action) (e : error) : Prop :=
  (∃ i, ListenAndServeReturns i e ∈ acts) ∧ is_closed e = false.

(** Some goroutine is about to report an error. *)
Definition reporting (w : shared) : Prop :=
  ∃ i s e, sh_servers w !! i = Some s ∧ hs_serve s = Stopped e ∧ is_closed e = false.

(** The servers after [acts], in a program whose other errors satisfy [other]:
    where the errors of the channel come from, and that none is lost. *)
Record servers_ok (other : error → Prop) (acts : list server_action) (w : shared) : Prop := mkServersOk {
  so_errs : ∀ e, e ∈ errCh w → server_failed acts e ∨ other e;
  so_stopped : ∀ i s e, sh_servers w !! i = Some s → hs_serve s = Stopped e → ListenAndServeReturns i e ∈ acts;
  so_failed : ∀ e, server_failed acts e → errCh w ≠ [] ∨ reporting w;
}.

Lemma send_some e w w' :
  send e w = Some w' → w' = mkShared (sh_done w) (errCh w ++ [e]) (sh_servers w).
Proof. unfold send. case_decide; [by intros [= <-]|done]. Qed.

Lemma servers_ok_start other healthz metrics mux :
  servers_ok other [] (mkShared false [] (http_servers healthz metrics mux)).
Proof.
  split; simpl.
  - by intros e ?%elem_of_nil.
  - intros i s e Hi%list_elem_of_lookup_2 Hs. exfalso. revert Hs.
    apply list.elem_of_app in Hi as [Hi|Hi]; case_decide;
      first [by apply elem_of_nil in Hi|by apply list_elem_of_singleton in Hi as ->].
  - by intros e ((i & ?%elem_of_nil) & _).
Qed.

Lemma server_failed_app acts a e :
  server_failed (acts ++ [a]) e ↔ server_failed acts e ∨ (∃ i, a = ListenAndServeReturns i e) ∧ is_closed e = false.
Proof. unfold server_failed. set_solver. Qed.

Lemma servers_ok_send other acts w e w' :
  servers_ok other acts w → server_failed acts e ∨ other e → send e w = Some w' → servers_ok other acts w'.
Proof.
  intros [He Hs Hf] Hother ->%send_some. split; simpl; [|done|].
  - intros e' [Hin| ->%list_elem_of_singleton]%list.elem_of_app; [by apply He|done].
  - intros _ _. left. by destruct (errCh w).
Qed.

Lemma servers_ok_mono (other other' : error → Prop) acts w :
  (∀ e, other e → other' e) → servers_ok other acts w → servers_ok other' acts w.
Proof. intros Ho [He Hs Hf]. split; [|done|done]. intros e [?|?%Ho]%He; [by left|by right]. Qed.

Lemma servers_ok_same other acts w w' :
  errCh w' = errCh w → sh_servers w' = sh_servers w → servers_ok other acts w → servers_ok other acts w'.
Proof. destruct w, w'. simpl. intros -> -> [He Hs Hf]. by split. Qed.

(** A change of one server's shutdown, or of its serving to a given state. *)
Lemma servers_ok_set other acts acts' w i s s' :
  servers_ok other acts w → sh_servers w !! i = Some s →
  (∀ a, a ∈ acts → a ∈ acts') →
  (∀ e, hs_serve s' = Stopped e → ListenAndServeReturns i e ∈ acts') →
  (∀ e, server_failed acts' e → errCh w ≠ [] ∨ reporting (set_server i s' w)) →
  servers_ok other acts' (set_server i s' w).
Proof.
  intros [He Hs Hf] Hi Hsub Hst Hrep. split; [|intros j t e Hj Ht|done].
  - intros e [((k & Hk) & Hc)|?]%He; [left; split; [exists k; by apply Hsub|done]|by right].
  - apply list_lookup_insert_Some in Hj as [(-> & <- & _)|(_ & Hj)]; [by apply Hst|by eapply Hsub, Hs].
Qed.

Lemma reporting_set w i s s' :
  sh_servers w !! i = Some s →
  (∀ e, hs_serve s = Stopped e → is_closed e = false → hs_serve s' = Stopped e) →
  reporting w → reporting (set_server i s' w).
Proof.
  intros Hi Hkeep (j & t & e & Hj & Ht & Hc). destruct (decide (i = j)) as [<-|Hne].
  - exists i, s', e. simplify_eq. simpl. rewrite list_lookup_insert_eq by (by eapply lookup_lt_Some). auto.
  - exists j, t, e. simpl. by rewrite list_lookup_insert_ne.
Qed.

(** A change of a server's other goroutine. *)
Lemma servers_ok_keep other acts a w i s s' :
  sh_servers w !! i = Some s → hs_serve s' = hs_serve s → (∀ j e, a ≠ ListenAndServeReturns j e) →
  servers_ok other acts w → servers_ok other (acts ++ [a]) (set_server i s' w).
Proof.
  intros Hi Hs Ha Hok. eapply servers_ok_set; [done|done|set_solver| |].
  - rewrite Hs. intros e He. apply list.elem_of_app. left. by eapply so_stopped.
  - intros e [Hold|[[j Hj] _]]%server_failed_app; [|by apply Ha in Hj].
    destruct (so_failed _ _ _ Hok e Hold); [by left|right]. eapply reporting_set; [done| |done].
    by rewrite Hs.
Qed.

(** No step of a server loses an error. *)
Lemma server_step_ok other acts a w w' :
  server_step is_closed a w = Some w' → servers_ok other acts w →
  servers_ok other (acts ++ [a]) w' ∧ sh_done w' = sh_done w.
Proof.
  intros Hstep Hok. destruct a as [i err|i|i|i]; simpl in Hstep;
    destruct (sh_servers w !! i) as [s|] eqn:Hi; simpl in Hstep; try done.
  - destruct (hs_serve s) eqn:Hs; try done. destruct (_ && _); [done|]. simplify_eq. split; [|done].
    eapply servers_ok_set; [done|done|set_solver|simpl; intros e [= <-]; set_solver|].
    intros e [Hold|[[j Hj] Hc]]%server_failed_app.
    + destruct (so_failed _ _ _ Hok e Hold); [by left|right].
      eapply reporting_set; [done|rewrite Hs; done|done].
    + injection Hj as <- <-. right. exists i, (set_serve (Stopped err) s), err. simpl.
      by rewrite list_lookup_insert_eq by (by eapply lookup_lt_Some).
  - destruct (hs_serve s) as [|err|] eqn:Hs; try done.
    assert (Hin := so_stopped _ _ _ Hok i s err Hi Hs).
    destruct (is_closed err) eqn:Hc; simpl in Hstep; simplify_eq.
    + split; [|done]. eapply servers_ok_set; [done|done|set_solver|done|].
      intros e [Hold|[[j Hj] _]]%server_failed_app; [|done].
      destruct (so_failed _ _ _ Hok e Hold); [by left|right].
      eapply reporting_set; [done|rewrite Hs; congruence|done].
    + destruct (send err w) as [w1|] eqn:Hsend; simplify_eq/=.
      assert (Hok1 : servers_ok other acts w1) by (eapply servers_ok_send; [done| |done]; left; split; eauto).
      apply send_some in Hsend as ->. split; [|done].
      eapply (servers_ok_set other acts _ (mkShared _ _ _)); [done|done|set_solver|done|].
      intros e _. left. simpl. by destruct (errCh w).
  - destruct (_ && _); simplify_eq. split; [|done]. by eapply servers_ok_keep.
  - case_decide; simplify_eq. split; [|done]. by eapply servers_ok_keep.
Qed.

(** When nothing has been sent yet, a goroutine about to report can. *)
Lemma reporting_sends w :
  errCh w = [] → reporting w →
  ∃ i e w', server_step is_closed (AfterServe i) w = Some w' ∧ errCh w' = [e].
Proof.
  intros Hw (i & s & e & Hi & Hs & Hc). exists i, e. eexists. split.
  - simpl. rewrite Hi. simpl. rewrite Hs, Hc. unfold send. simpl. by rewrite Hw.
  - done.
Qed.
End servers.

Section exits.
Context (is_closed : error → bool).

(** ** The controller *)

Section controller.
Context `{API : !ApiMachinery} {Q : Type} `{WQ : !WorkQueue Q}.
Implicit Types (tr : list controller_action) (p : controller_process (Q := Q)).
Abbreviation step := (controller_process_step is_closed (Q := Q)).

Definition server_acts tr : list server_action :=
  omap (λ a, match a with CServer a => Some a | _ => None end) tr.

(** The controller gave up waiting for its caches, because of the signal. *)
Definition gave_up tr (e : error) : Prop := e = no_cache_sync ∧ CSync false ∈ tr ∧ CSignal ∈ tr.

Record controller_inv tr p : Prop := mkControllerInv {
  ci_shared : cp_main p = None → servers_ok is_closed (gave_up tr) (server_acts tr) (cp_shared p);
  ci_done : cp_main p = None → sh_done (cp_shared p) = true ↔ CSignal ∈ tr;
  ci_pc : ∀ e, cp_pc p = CtrlReturned (Err e) → gave_up tr e;
  ci_ready : Controller_Ready (cp_ctrl p) = true ↔ CSync true ∈ tr;
  ci_main : match cp_main p with
            | None => True
            | Some (Ok _) => CSignal ∈ tr
            | Some (Err e) => server_failed is_closed (server_acts tr) e ∨ gave_up tr e
            end;
}.

Lemma gave_up_app tr a e : gave_up tr e → gave_up (tr ++ [a]) e.
Proof. unfold gave_up. set_solver. Qed.

Lemma server_acts_app tr a : (∀ x, a ≠ CServer x) → server_acts (tr ++ [a]) = server_acts tr.
Proof. intros Ha. unfold server_acts. rewrite list.omap_app. simpl. destruct a; rewrite ?app_nil_r; try done. by destruct (Ha a). Qed.

Lemma server_acts_server tr a : server_acts (tr ++ [CServer a]) = server_acts tr ++ [a].
Proof. unfold server_acts. by rewrite list.omap_app. Qed.

Lemma controller_inv_start env o p : controller_init env o = Ok p → controller_inv [] p.
Proof.
  unfold controller_init. intros (c & Hc & [= <-])%result_bind_ok.
  assert (Hready : ctl_ready c = false).
  { unfold controller_start in Hc.
    destruct (match Build _ _ _ _ with Ok _ => _ | Err _ => _ end); [|done]. simpl in Hc.
    repeat (apply result_bind_ok in Hc as ([] & _ & Hc)). unfold New in Hc.
    repeat (apply result_bind_ok in Hc as ([] & _ & Hc)). by simplify_eq. }
  split; simpl; try done.
  - intros _. apply servers_ok_start.
  - intros _. split; [done|by intros ?%elem_of_nil].
  - unfold Controller_Ready. rewrite Hready. split; [done|by intros ?%elem_of_nil].
Qed.

(** A step that leaves the servers, their errors and the signal alone. *)
Lemma controller_inv_quiet tr a p c pc workers :
  (∀ x, a ≠ CServer x) → a ≠ CSignal → cp_main p = None → controller_inv tr p →
  (∀ e, pc = CtrlReturned (Err e) → gave_up (tr ++ [a]) e) →
  (Controller_Ready c = true ↔ CSync true ∈ tr ++ [a]) →
  controller_inv (tr ++ [a]) (with_ctrl c pc workers p).
Proof.
  intros Hs Hn Hm Hinv Hpc Hready. split; simpl; rewrite ?Hm; try done.
  - intros _. rewrite server_acts_app by done.
    eapply servers_ok_mono; [|by apply (ci_shared _ _ Hinv)]. intros e. apply gave_up_app.
  - intros _. rewrite (ci_done _ _ Hinv Hm). set_solver.
Qed.

(** A step of the shared part. *)
Lemma controller_inv_shared tr a p w :
  cp_main p = None → controller_inv tr p → a ≠ CSync true →
  servers_ok is_closed (gave_up (tr ++ [a])) (server_acts (tr ++ [a])) w →
  (sh_done w = true ↔ CSignal ∈ tr ++ [a]) →
  controller_inv (tr ++ [a]) (with_shared w p).
Proof.
  intros Hm Hinv Ha Hok Hdone. split; simpl; rewrite ?Hm; try done.
  - intros e He. by apply gave_up_app, (ci_pc _ _ Hinv).
  - rewrite (ci_ready _ _ Hinv). set_solver.
Qed.

(** [Run] returns. *)
Lemma controller_inv_exit tr a p r w :
  controller_inv tr p → a ≠ CSync true →
  match r with
  | Ok _ => CSignal ∈ tr ++ [a]
  | Err e => server_failed is_closed (server_acts (tr ++ [a])) e ∨ gave_up (tr ++ [a]) e
  end →
  controller_inv (tr ++ [a]) (controller_exit r w p).
Proof.
  intros Hinv Ha Hr. split; simpl; try done.
  - intros e He. by apply gave_up_app, (ci_pc _ _ Hinv).
  - rewrite (ci_ready _ _ Hinv). set_solver.
Qed.

Lemma controller_inv_step tr a p p' :
  controller_inv tr p → step a p = Some p' → controller_inv (tr ++ [a]) p'.
Proof.
  intros Hinv Hstep. unfold controller_process_step in Hstep.
  destruct (cp_main p) eqn:Hm; [done|]. pose proof (ci_shared _ _ Hinv Hm) as Hok.
  pose proof (ci_done _ _ Hinv Hm) as Hdone. destruct a as [a| |synced| | | |].
  - destruct (server_step is_closed a _) as [w|] eqn:Hs; simplify_eq/=.
    eapply server_step_ok in Hs as [Hok' Hd]; [|done]. apply controller_inv_shared; try done.
    + rewrite server_acts_server. eapply servers_ok_mono; [|exact Hok']. intros e. apply gave_up_app.
    + rewrite Hd, Hdone. set_solver.
  - simplify_eq. apply controller_inv_shared; try done; [|simpl; set_solver].
    rewrite server_acts_app by done. eapply (servers_ok_same _ _ _ (cp_shared p)); [done|done|].
    eapply servers_ok_mono; [|exact Hok]. intros e. apply gave_up_app.
  - destruct (cp_pc p) eqn:Hpc; try done. destruct (negb synced && negb _) eqn:Hb; [done|].
    destruct synced; simpl in Hstep; simplify_eq/=; apply controller_inv_quiet; try done.
    + split; [set_solver|done].
    + simpl in Hb. apply negb_false_iff in Hb. intros e [= <-]. split_and!; [done|set_solver|set_solver].
    + change (Controller_Ready (cp_ctrl p) = true ↔ CSync true ∈ tr ++ [CSync false]).
      rewrite (ci_ready _ _ Hinv). set_solver.
  - destruct (cp_pc p) eqn:Hpc; try done. destruct (sh_done _); simplify_eq. apply controller_inv_quiet; try done.
    change (Controller_Ready (cp_ctrl p) = true ↔ CSync true ∈ tr ++ [CCtrlDone]).
    rewrite (ci_ready _ _ Hinv). set_solver.
  - destruct (cp_pc p) as [| |r|] eqn:Hpc; try done.
    destruct (match r with Ok _ => _ | Err _ => _ end) as [w|] eqn:Hw; simplify_eq/=.
    assert (Hok' : servers_ok is_closed (gave_up tr) (server_acts tr) w ∧ sh_done w = sh_done (cp_shared p)).
    { destruct r as [[]|e]; [by simplify_eq|]. split; [|by apply send_some in Hw as ->].
      eapply servers_ok_send; [exact Hok|right; by apply (ci_pc _ _ Hinv)|done]. }
    destruct Hok' as [Hok' Hd]. apply (controller_inv_quiet tr CCtrlReports (with_shared w p)); try done.
    + split; simpl; rewrite ?Hm; try done; [by intros _; rewrite Hd|by apply (ci_pc _ _ Hinv)|exact (ci_ready _ _ Hinv)].
    + rewrite (ci_ready _ _ Hinv). set_solver.
  - destruct (sh_done _) eqn:Hd; simplify_eq/=. apply controller_inv_exit; [done|done|]. set_solver.
  - destruct (errCh (cp_shared p)) as [|e errs] eqn:He; simplify_eq/=. apply controller_inv_exit; [done|done|].
    rewrite server_acts_app by done.
    destruct (so_errs _ _ _ _ Hok e) as [?|?]; [rewrite He; by left|by left|right; by apply gave_up_app].
Qed.

Lemma controller_reaches_inv env o p0 tr p :
  controller_init env o = Ok p0 → reaches step p0 tr p → controller_inv tr p.
Proof.
  intros Hi. induction 1 as [|tr a p p' _ IH Hs]; [by eapply controller_inv_start|by eapply controller_inv_step].
Qed.

(** C33. For a controller whose start-up succeeded, and
    whatever the interleaving of its goroutines, [Run] returns nil only after a signal, and an error only if a
    server failed with that error, or if the controller gave up waiting for its
    caches, which takes a signal.  Conversely, until it returns it can end in nil
    in one step once there has been a signal, and in an error within two once a
    server has failed: no error is lost or stuck.  The health endpoint answers
    200 exactly once the caches have synced. *)
Theorem controller_process_exits env o p0 tr p :
  controller_init env o = Ok p0 → reaches step p0 tr p →
  match cp_main p with
  | Some (Ok _) => CSignal ∈ tr
  | Some (Err e) => server_failed is_closed (server_acts tr) e ∨ gave_up tr e
  | None =>
      (CSignal ∈ tr → can_end step cp_main 1 p (Ok tt)) ∧
      ∀ e, server_failed is_closed (server_acts tr) e → ∃ e', can_end step cp_main 2 p (Err e')
  end ∧
  (controller_healthz p = (200, "ok") ↔ CSync true ∈ tr).
Proof.
  intros Hi Hr. pose proof (controller_reaches_inv _ _ _ _ _ Hi Hr) as Hinv. split.
  - destruct (cp_main p) as [r|] eqn:Hm; [pose proof (ci_main _ _ Hinv) as H; by rewrite Hm in H|].
    pose proof (ci_shared _ _ Hinv Hm) as Hok. split.
    + intros Hd%(ci_done _ _ Hinv Hm). eapply (can_end_one _ _ _ _ CMainDone); [done| |].
      * unfold controller_process_step. by rewrite Hm, Hd.
      * done.
    + intros e Hf. destruct (errCh (cp_shared p)) as [|e' errs] eqn:He.
      * destruct (so_failed _ _ _ _ Hok e Hf) as [?|Hrep]; [done|].
        destruct (reporting_sends is_closed (cp_shared p) He Hrep) as (i & e' & w & Hs & Hw). exists e'.
        eapply (can_end_two _ _ _ (CServer (AfterServe i)) (with_shared w p) CMainError).
        { unfold controller_process_step. by rewrite Hm, Hs. }
        { unfold controller_process_step. simpl. by rewrite Hm, Hw. }
        done.
      * exists e'. eapply (can_end_one _ _ _ _ CMainError); [lia| |].
        { unfold controller_process_step. by rewrite Hm, He. }
        done.
  - rewrite <-(ci_ready _ _ Hinv). unfold controller_healthz, healthz. by destruct (Controller_Ready _).
Qed.
End controller.

(** ** The agent *)

Section agent.
Implicit Types (tr : list agent_action) (p : agent_process).
Abbreviation step := (agent_process_step is_closed).

Definition agent_server_acts tr : list server_action :=
  omap (λ a, match a with AServer a => Some a | _ => None end) tr.

Lemma agent_server_acts_app tr a : (∀ x, a ≠ AServer x) → agent_server_acts (tr ++ [a]) = agent_server_acts tr.
Proof.
  intros Ha. unfold agent_server_acts. rewrite list.omap_app. simpl.
  destruct a; rewrite ?app_nil_r; try done. by destruct (Ha a).
Qed.

Lemma agent_server_acts_server tr a : agent_server_acts (tr ++ [AServer a]) = agent_server_acts tr ++ [a].
Proof. unfold agent_server_acts. by rewrite list.omap_app. Qed.

(** [Run] has not returned. *)
Definition agent_live p : Prop := match ap_main p with AgentReturned _ => False | _ => True end.

(** What [Run] may return after [tr]. *)
Definition agent_result tr (r : result unit) : Prop :=
  match r with
  | Ok _ => ASignal ∈ tr
  | Err e =>
      (server_failed is_closed (agent_server_acts tr) e ∧ ASync true ∈ tr) ∨
      (e = agent_no_sync ∧ ASignal ∈ tr ∧ ASync true ∉ tr)
  end.

Record agent_inv tr p : Prop := mkAgentInv {
  ai_shared : agent_live p → servers_ok is_closed (λ _, False) (agent_server_acts tr) (ap_shared p);
  ai_done : agent_live p → sh_done (ap_shared p) = true ↔ ASignal ∈ tr;
  ai_ready : Ready (ap_proxier p) = true ↔ ASync true ∈ tr;
  ai_main : match ap_main p with
            | AgentSyncing => ASync true ∉ tr
            | AgentSelecting => ASync true ∈ tr
            | AgentReturned r => agent_result tr r
            end;
}.

Lemma agent_inv_start env o p : agent_init env o = Ok p → agent_inv [] p ∧ agent_live p.
Proof.
  unfold agent_init, agent_start. intros ([proxier servers] & Hs & [= <-])%result_bind_ok.
  destruct (Build _ _ _ _); [|done]. simpl in Hs.
  do 2 apply result_bind_ok in Hs as ([] & _ & Hs).
  apply result_bind_ok in Hs as (pr & Hp & [= <- <-]).
  split; [|done]. split; simpl; try done.
  - intros _. apply servers_ok_start.
  - intros _. split; [done|by intros ?%elem_of_nil].
  - unfold NewProxier in Hp. case_decide; simplify_eq. split; [done|by intros ?%elem_of_nil].
  - by intros ?%elem_of_nil.
Qed.

Lemma agent_inv_shared tr a p w :
  agent_live p → agent_inv tr p → a ≠ ASync true →
  servers_ok is_closed (λ _, False) (agent_server_acts (tr ++ [a])) w →
  (sh_done w = true ↔ ASignal ∈ tr ++ [a]) →
  agent_inv (tr ++ [a]) (mkAgentProcess w (ap_proxier p) (ap_loop p) (ap_main p)).
Proof.
  intros Hl [_ _ Hready Hmain] Ha Hok Hdone. split; simpl; try done.
  - rewrite Hready. set_solver.
  - unfold agent_live in Hl. destruct (ap_main p); [set_solver..|done].
Qed.

Lemma agent_inv_exit tr a p r w :
  agent_inv tr p → a ≠ ASync true → agent_result (tr ++ [a]) r → agent_inv (tr ++ [a]) (agent_exit r w p).
Proof.
  intros [_ _ Hready _] Ha Hr. split; simpl; try done. rewrite Hready. set_solver.
Qed.

Lemma agent_inv_synced tr p :
  agent_live p → agent_inv tr p →
  agent_inv (tr ++ [ASync true]) (mkAgentProcess (ap_shared p) (agent_synced (ap_proxier p)) true AgentSelecting).
Proof.
  intros Hl [Hok Hdone _ _]. split; simpl; try done.
  - intros _. rewrite agent_server_acts_app by done. by apply Hok.
  - intros _. rewrite Hdone by done. set_solver.
  - split; [set_solver|done].
  - set_solver.
Qed.

Lemma agent_inv_step tr a p p' : agent_inv tr p → step a p = Some p' → agent_inv (tr ++ [a]) p'.
Proof.
  intros Hinv Hstep.
  assert (Hl : agent_live p) by (unfold agent_live; unfold agent_process_step in Hstep; by destruct (ap_main p)).
  pose proof (ai_shared _ _ Hinv Hl) as Hok. pose proof (ai_done _ _ Hinv Hl) as Hdone.
  pose proof (ai_main _ _ Hinv) as Hmain. unfold agent_process_step in Hstep.
  destruct a as [a| |[|]| |].
  - assert (Hs : ∃ w, server_step is_closed a (ap_shared p) = Some w ∧
      p' = mkAgentProcess w (ap_proxier p) (ap_loop p) (ap_main p)).
    { destruct (ap_main p); try done; destruct (server_step is_closed a _) as [w|]; simplify_eq/=; eauto. }
    destruct Hs as (w & Hs & ->). eapply server_step_ok in Hs as [Hok' Hd]; [|done].
    apply agent_inv_shared; try done; [by rewrite agent_server_acts_server|rewrite Hd, Hdone; set_solver].
  - assert (p' = mkAgentProcess (set_done (ap_shared p)) (ap_proxier p) (ap_loop p) (ap_main p)) as ->
      by (by destruct (ap_main p); simplify_eq).
    apply agent_inv_shared; try done; [|simpl; set_solver].
    rewrite agent_server_acts_app by done. by eapply (servers_ok_same _ _ _ (ap_shared p)).
  - destruct (ap_main p); simplify_eq. by apply agent_inv_synced.
  - destruct (ap_main p) eqn:Hm; try done. destruct (sh_done _) eqn:Hd; simplify_eq.
    apply agent_inv_exit; [done|done|]. right. set_solver.
  - destruct (ap_main p) eqn:Hm; try done. destruct (sh_done _) eqn:Hd; simplify_eq.
    apply agent_inv_exit; [done|done|]. simpl. set_solver.
  - destruct (ap_main p) eqn:Hm; try done. destruct (errCh (ap_shared p)) as [|e errs] eqn:He; simplify_eq.
    apply agent_inv_exit; [done|done|]. left. rewrite agent_server_acts_app by done.
    destruct (so_errs _ _ _ _ Hok e) as [Hf|[]]; [rewrite He; by left|]. split; [done|set_solver].
Qed.

Lemma agent_reaches_inv env o p0 tr p :
  agent_init env o = Ok p0 → reaches step p0 tr p → agent_inv tr p.
Proof.
  intros Hi. induction 1 as [|tr a p p' _ IH Hs]; [by apply agent_inv_start in Hi as [? _]|by eapply agent_inv_step].
Qed.

(** C34. For an agent whose start-up succeeded, and whatever
    the interleaving of its goroutines, [Run] returns nil only after a signal, and an error only if a server failed
    with it and the caches had synced, or if a signal came before they had, which
    is reported as a timeout.  Once the caches have synced, the agent can end in
    nil in one step after a signal and in an error within two after a server's
    failure; before, neither a failed server nor anything but a signal ends it.
    The health endpoint answers 200 exactly once both caches have synced. *)
Theorem agent_process_exits env o p0 tr p :
  agent_init env o = Ok p0 → reaches step p0 tr p →
  let main p := match ap_main p with AgentReturned r => Some r | _ => None end in
  match ap_main p with
  | AgentReturned r => agent_result tr r
  | AgentSelecting =>
      (ASignal ∈ tr → can_end step main 1 p (Ok tt)) ∧
      ∀ e, server_failed is_closed (agent_server_acts tr) e → ∃ e', can_end step main 2 p (Err e')
  | AgentSyncing => ASignal ∈ tr → can_end step main 1 p (Err agent_no_sync)
  end ∧
  (ASignal ∉ tr → ASync true ∉ tr → ap_main p = AgentSyncing) ∧
  (agent_healthz p = (200, "ok") ↔ ASync true ∈ tr).
Proof.
  intros Hi Hr main. pose proof (agent_reaches_inv _ _ _ _ _ Hi Hr) as Hinv.
  pose proof (ai_main _ _ Hinv) as Hmain. split_and!.
  - destruct (ap_main p) as [| |r] eqn:Hm; [| |done];
      assert (Hl : agent_live p) by (unfold agent_live; by rewrite Hm);
      pose proof (ai_shared _ _ Hinv Hl) as Hok.
    + intros Hd%(ai_done _ _ Hinv Hl). eapply (can_end_one _ _ _ _ (ASync false)); [done| |].
      * unfold agent_process_step. by rewrite Hm, Hd.
      * done.
    + split.
      * intros Hd%(ai_done _ _ Hinv Hl). eapply (can_end_one _ _ _ _ AMainDone); [done| |].
        { unfold agent_process_step. by rewrite Hm, Hd. }
        done.
      * intros e Hf. destruct (errCh (ap_shared p)) as [|e' errs] eqn:He.
        -- destruct (so_failed _ _ _ _ Hok e Hf) as [?|Hrep]; [done|].
           destruct (reporting_sends is_closed (ap_shared p) He Hrep) as (i & e' & w & Hs & Hw). exists e'.
           eapply (can_end_two _ _ _ (AServer (AfterServe i))
             (mkAgentProcess w (ap_proxier p) (ap_loop p) AgentSelecting) AMainError).
           { unfold agent_process_step. by rewrite Hm, Hs. }
           { unfold agent_process_step. simpl. by rewrite Hw. }
           done.
        -- exists e'. eapply (can_end_one _ _ _ _ AMainError); [lia| |].
           { unfold agent_process_step. by rewrite Hm, He. }
           done.
  - intros Hns Hny. destruct (ap_main p) as [| |[[]|e]]; simpl in Hmain; try done.
    destruct Hmain as [[_ ?]|(_ & ? & _)]; done.
  - rewrite <-(ai_ready _ _ Hinv). unfold agent_healthz, healthz. by destruct (Ready _).
Qed.
End agent.
End exits.

(** ** Worked examples: the health server's port is taken *)

Definition ErrServerClosed : error := Sentinel "http: Server closed".
Definition is_closed (err : error) : bool := bool_decide (err = ErrServerClosed).
Definition port_taken : error := ErrorString "listen tcp 0.0.0.0:10257: bind: address already in use".

Definition demo_config : rest_Config := mkRestConfig "https://10.96.0.1" "" "" NewControllerOptions.(cto_KubeAPIQPS) 0.

Definition demo_controller_env : controller_env :=
  mkControllerEnv (λ _ _, Ok demo_config) (Ok demo_config) (λ _, Ok tt) (λ _, Ok tt) (λ _, Ok tt) (λ _ _, Ok tt)
    (caches_of (mkStore [] [] [] [] [] [] [] [])).

Definition controller_trace : list controller_action :=
  [CServer (ListenAndServeReturns 0 port_taken); CSync true; CServer (AfterServe 0); CMainError].

Lemma controller_trace_runs :
  ∃ p0 p, controller_init demo_controller_env NewControllerOptions = Ok p0 ∧
    reaches (controller_process_step is_closed (Q := ref_queue)) p0 controller_trace p ∧
    cp_main p = Some (Err port_taken).
Proof.
  do 2 eexists. split; [reflexivity|]. split.
  - apply reaches_run. reflexivity.
  - reflexivity.
Qed.

Lemma controller_process_exits_witness :
  server_failed is_closed (server_acts controller_trace) port_taken ∨ gave_up controller_trace port_taken.
Proof.
  destruct controller_trace_runs as (p0 & p & Hi & Hr & Hm).
  destruct (controller_process_exits is_closed demo_controller_env NewControllerOptions p0 controller_trace p Hi Hr)
    as [H _]. rewrite Hm in H. exact H.
Defined.

Definition demo_agent_env : agent_env :=
  mkAgentEnv (λ _ _, Ok demo_config) (Ok demo_config) (λ _, Ok tt) (λ _, Ok tt).

(** The agent's caches have not synced: the failure is reported, and waits. *)
Definition agent_trace : list agent_action :=
  [AServer (ListenAndServeReturns 0 port_taken); AServer (AfterServe 0)].

Lemma agent_trace_runs :
  ∃ p0 p, agent_init demo_agent_env NewAgentOptions = Ok p0 ∧
    reaches (agent_process_step is_closed) p0 agent_trace p ∧ errCh (ap_shared p) = [port_taken].
Proof.
  do 2 eexists. split; [reflexivity|]. split.
  - apply reaches_run. reflexivity.
  - reflexivity.
Qed.

Lemma agent_process_exits_witness :
  ∃ p, errCh (ap_shared p) = [port_taken] ∧ ap_main p = AgentSyncing ∧ agent_healthz p ≠ (200, "ok").
Proof.
  destruct agent_trace_runs as (p0 & p & Hi & Hr & He). exists p. split; [exact He|].
  destruct (agent_process_exits is_closed demo_agent_env NewAgentOptions p0 agent_trace p Hi Hr) as (_ & H & Hh).
  split.
  - apply H; unfold agent_trace; set_solver.
  - intros Hok%Hh. revert Hok. unfold agent_trace. set_solver.
Defined.
